(* ===== verification/_CoqProject ===== *)
-Q . S2P
Prelude.v
GoStrings.v
GoTime.v
Grid.v
Names.v
Zfs.v
Ownership.v
Prune.v
Queue.v
Locks.v
Gate.v
Policy.v
Stream.v
Permissions.v
Hash.v
Rfc3339.v
Json.v
Authority.v
Reference.v
Backend.v
Direct.v
DirectSafe.v
DirectState.v
Service.v
Discovery.v
Actors.v
Proofs.v
Scheduler.v
Inactive.v
Clean.v
CleanSafe.v
Binding.v
Transfer.v
TransferSafe.v
Resume.v
Engine.v
EngineSafe.v
Pending.v
Reseed.v
