(* ===== verification/Prelude.v ===== *)
(** * boomerangz: a verification library

    boomerangz manages ZFS snapshots: it takes them on a schedule, prunes them by
    a retention grid, replicates them, and can be told to forget, clean or retire
    a source root. This library is a model of the decisions it makes and of the
    calls it makes to the pools, with the theorems that make those correct. File
    and function names below are those of src/internal.

    ** The parts and how they interact

    Every fact about a dataset is a ZFS user property, a name or a hold.
    [discovery] reads the pools and resolves each dataset's policy
    ([policy.Resolve], [policy.ParseGrid]) into one generation of entries with
    their actor roots, replicas and collisions. The [daemon] hands the schedulable
    entries to its scheduler, which fires a root when a member is due; jobs wait
    in a fair queue and run under scope locks. A job calls the [lifecycle]
    service, which locks the hierarchy, reads the state of the root, proves its
    authority over it, and only then writes: takes a snapshot, destroys one,
    stores or releases a recovery proof, marks a root inactive, cleans it. The
    [transfer] package plans each stream of a replication from the states of both
    sides, holds what it sends under a recovery proof, runs the stream, verifies
    the replica and only then lets older proofs go; work for a target that cannot
    be reached waits, the newest per stream, until a reconciliation sends it.

    ** Files

    - [Prelude]: errors, results, lists, maps, tactics, the hint database.
    - [GoStrings], [GoTime], [Rfc3339], [Hash], [Json]: what the sources use of
      Go's strings, strconv, unicode, time, crypto/sha256, encoding/hex and
      encoding/json, from their documented behaviour.
    - [Grid], [Policy]: policy/grid.go; policy/resolve.go and discard.go.
    - [Names], [Zfs], [Stream], [Permissions]: zfs/name.go and identity;
      zfs/executor.go and part of state.go; zfs/stream.go; zfs/permissions.go.
    - [Ownership], [Prune], [Authority], [Reference]: the pure part of lifecycle:
      ownership.go, prune.go, authority.go and version.go, reference.go and
      inspection.go.
    - [Gate], [Locks]: lifecycle/gate.go; the locks of daemon/pool.go and
      lifecycle/service.go.
    - [Backend]: the free monad of calls to the pools, and how to reason on it.
    - [Direct]: the executor that answers those calls by running commands,
      zfs/direct.go and the rest of state.go. [DirectSafe] has the command line of
      each change and [DirectState] what its inspection of a pool sees.
    - [Service], [Proofs], [Inactive], [Clean]: the lifecycle operations as
      programs: service.go; reference.go and inspection.go; inactive.go; clean.go,
      forget.go and the retirement of inactive.go. [CleanSafe] has the theorems
      on [Clean].
    - [Discovery], [Actors]: discovery/discovery.go and the theorems on its scan.
    - [Queue], [Scheduler]: daemon/queue.go and daemon/scheduler.go.
    - [Binding], [Transfer], [Resume]: the plans of transfer: requests, target
      bindings and placeholders (binding.go, hostlocal.go and the requests of
      plan.go); [Build] of plan.go; [BuildResume] of resume.go. [TransferSafe] has
      the theorems on [Build].
    - [Engine], [Reseed], [Pending]: what transfer does: local.go and
      permissions.go; reseed.go; recovery.go. [EngineSafe] has the theorems on
      [Engine].

    ** Representation

    - A Go function that returns an error is a function into [result]; the
      constructors of [error] are the errors the code tests, the rest carry text.
    - A method under a mutex is a function of the state; where a method enters
      its critical section more than once, or goes on after it with what it
      shares, each part is a function of its own and what other goroutines do in
      between an argument. Reachable states are an inductive relation over those
      functions.
    - A lifecycle or transfer operation is a [prog]: a tree of backend calls with
      an arbitrary answer at each, since other processes change the pools between
      two calls; [OnTarget] marks a call to the destination's backend. A theorem on a trace holds for every answer. Class
      [QuiescentPool] states what a pool nobody else writes to answers, and
      [SamplePool], [SimPool] and their kin are concrete pools for witnesses.
    - Integers are [Z]; GUIDs, transaction groups and durations keep the range
      checks of the code, and [time.Duration] saturates or is checked as in Go.
      A [time.Time] is an instant in UTC. Strings are bytes.
    - A Go map is a [gmap]. A loop over a map takes the order as an argument
      where the order can show; elsewhere its result is sorted.
    - Equality of [State], [Entry] and plans stands for [reflect.DeepEqual], with
      a nil map or slice and an empty one the same value.

    ** Fuel

    Loops that are not structural have fuel that the theorems show is enough, or
    that the loop cannot exceed: [snapshotIDs] its count, [chunksFrom],
    [compressAll] and [fetchFrom] the length of the list, [addAncestorsFrom] the
    length of the name, [expandFrom] the number of permission sets and two,
    [parseJson] twice the length of the text and one, [scanLoop] the number of
    names of the inventory, [nearestRealFrom] the length of the name and one,
    [ancestorsFrom] the length of the stream's name. [applyAttempts] counts the
    attempts the code allows itself, [preparationAttempts], [inspectAttempts] those
    of an inspection, and [attempts] the two of a reconciliation.

    ** What the theorems show

    - Destruction: [Prune_safe], [Prune_exact], [PlanPrune_safe],
      [PlanPrune_retention] and [PlanPrune_total] show that only owned, unheld,
      uncloned snapshots that the grid rejects are destroyed, under a lock, after
      a re-read; [Clean_destroys_safely], [Clean_applies], [Forget_only] and
      [Retire_safe] do the same for cleaning, forgetting and retirement.
    - Creation and proofs: [CreateSnapshot_safe], [ProtectSet_safe],
      [CheckpointSet_safe] and [ReleaseReference_safe] order the writes so that a
      crash leaves every hold accounted for; [Reference_roundtrip] shows that a
      stored proof reads back.
    - Plans: [Build_base], [Build_contained], [Build_authority] and [Build_private]
      say what a plan sends, where it is received, on what authority and what it
      keeps back; [BuildResume_sound] the same of a resumed receive;
      [binding_roundtrip], [VerifyTargetBinding_sound] and [nearestReal_exact] are
      what they rest on.
    - Transfers: [Apply_sends] ties every stream run to a plan of what was just
      read, with its source held; [Apply_releases] shows that holds and proofs go
      only once the replica is verified; [Apply_target_safe] lists all that is ever
      changed at a destination; [Apply_reports] says what a report means.
      [Reseed_safe] and [Abort_only] bound the two operations that do destroy
      there. [pending_not_lost], [pending_in_flight] and [Reconcile_drops] follow
      pending work from its offer to its replica.
    - Authority: [Ownership_iff], [RootAuthority_iff], [Adopt_unique],
      [inactive_grace] and [ReconcileInactive_safe] say exactly when a snapshot or a
      root is the installation's.
    - Discovery and policy: [Scan_total], [Scan_roots], [Scan_replicas],
      [Resolve_authority], [ForReplicationScope_raw], [ParseGrid_wf] and
      [ParseGrid_roundtrip].
    - Concurrency: [keyLocks_exclusive], [keyLocks_grant],
      [keyLocks_no_lost_wakeup], [hierarchyLocks_exclusive], [SetEnabled_cancels],
      [WaitQuiescent_stable], [queue_reachable], [queue_fair],
      [snapshot_predicts_pops] and [Next_fires], which allows for what settles a
      root while [Next] makes its schedule. [Update_loses_Complete] shows a race of
      the scheduler's [Update] with [Complete].
    - Commands: [executor_exact] shows that every change with valid names runs one
      command, with the command line of that change and of no other, and that any
      other change runs none; [executor_reads] that a query changes nothing;
      [InspectState_reference] that the batched inspection sees what one query per
      object would, on a pool at rest that answers as zfs(8) documents ([shows]).
      [receiveArgs_safe], [CheckPermissions_exact] and [diagnostic_bounded].

    ** Not modelled

    Running the processes of zfs, zpool, id and ssh, whose answers are arbitrary
    here, the goroutines, timers and contexts of the
    daemon's runtime and pools, network transports and the control plane with
    their generated code, TOML configuration, the one-off migration, the command
    line, status display and file ownership: I/O, libraries, or wiring with no
    decision of its own. Of transfer, the reports of progress, the partial result
    that accompanies the error of a stream, and [RetryPolicy.Delay], which is in
    floating point and so an argument. Text of error messages is modelled where it is stored or
    compared, and the limit of 10000 nested JSON values is not. *)

From stdpp Require Export base gmap sets list list_numbers strings sorting fin_maps.
From Stdlib Require Export ZArith Lia.

#[global] Open Scope Z_scope.
#[global] Open Scope stdpp_scope.

(** * Errors and results

    A Go function that returns [(T, error)] is a function into [result T].
    [Errorf] carries the message text, [Wrapf prefix err] is
    [fmt.Errorf("prefix: %w", err)] and [Aroundf prefix err suffix] is
    [fmt.Errorf("prefix: %w; suffix", err)]; the other constructors are the typed errors
    the code tests with [errors.As] or [errors.Is]. *)
Inductive error : Type :=
| Errorf (msg : string)
| Wrapf (prefix : string) (err : error)
| ErrCanceled
| ErrStateChanged
| ErrMappingChanged (stored configured : string)
| ErrMissingPermissions (account dataset : string) (missing : list string)
| ErrInventoryChanged (object : string) (err : error)
| ErrHostLocal (remote pool : string)
| ErrDeadlineExceeded
| ErrUnavailable (msg : string)
| ErrDestinationUnavailable (root : string)
| ErrPreparationChanged (reason : string) (history : bool)
| ErrPlaceholderBusy (dataset : string)
| Aroundf (prefix : string) (err : error) (suffix : string).

(** The chain [errors.Is] and [errors.As] walk. *)
Fixpoint errorChain (e : error) : list error :=
  e :: match e with
       | Wrapf _ err | ErrInventoryChanged _ err | Aroundf _ err _ => errorChain err
       | _ => []
       end.

Inductive result (A : Type) : Type :=
| Ok (a : A)
| Err (e : error).
Arguments Ok {A} a.
Arguments Err {A} e.

#[export] Instance error_eq_dec : EqDecision error.
Proof. solve_decision. Defined.

#[export] Instance result_eq_dec `{EqDecision A} : EqDecision (result A).
Proof. solve_decision. Defined.

#[export] Instance result_ret : MRet result := @Ok.
#[export] Instance result_bind : MBind result := λ A B f r,
  match r with Ok a => f a | Err e => Err e end.

Definition is_ok {A} (r : result A) : bool :=
  match r with Ok _ => true | Err _ => false end.

(** [foldM f s l] runs a loop body [f] over [l] with early return on error. *)
Fixpoint foldM {S A} (f : S → A → result S) (s : S) (l : list A) : result S :=
  match l with
  | [] => Ok s
  | x :: l => s' ← f s x; foldM f s' l
  end.

(** [slices.Compact]: drops repeats of the element just before. *)
Fixpoint Compact {A} `{EqDecision A} (l : list A) : list A :=
  match l with
  | [] => []
  | x :: l' =>
    match l' with
    | [] => [x]
    | y :: _ => if decide (x = y) then Compact l' else x :: Compact l'
    end
  end.

(** [slices.Sort] on strings: bytewise order. *)
Definition SortStrings (l : list string) : list string := merge_sort String.le l.

(** * Tactics *)

(** Splits every [match] and [if] of the hypotheses whose scrutinee is not
    itself a [match], keeping the equations. *)
Ltac case_hyps :=
  repeat (simplify_eq/=;
    match goal with
    | H : context [ match ?x with _ => _ end ] |- _ =>
      lazymatch x with context [ match _ with _ => _ end ] => fail | _ => idtac end;
      let E := fresh "E" in destruct x eqn:E
    end); simplify_eq/=.

(** Inverts one monadic bind of a successful computation. *)
Ltac inv_bind H :=
  lazymatch type of H with
  | mbind _ ?m = Ok _ =>
    let E := fresh "E" in destruct m eqn:E; cbn [mbind result_bind] in H; [|discriminate H]
  end.

Create HintDb bz.
Create Rewrite HintDb bz.

(** * Results *)

Lemma bind_Ok {A B} (m : result A) (f : A → result B) b :
  (m ≫= f) = Ok b ↔ ∃ a, m = Ok a ∧ f a = Ok b.
Proof. destruct m; cbn; naive_solver. Qed.

Definition okOr {A} (r : result A) (d : A) : A := match r with Ok a => a | Err _ => d end.
Lemma is_ok_default {A} (r : result A) (d : A) : is_ok r = true → r = Ok (okOr r d).
Proof. by destruct r. Qed.

Lemma foldM_app {S A} (f : S → A → result S) s l1 l2 :
  foldM f s (l1 ++ l2) = (s' ← foldM f s l1; foldM f s' l2).
Proof.
  revert s. induction l1 as [|x l1 IH]; intros s; cbn; [done|].
  destruct (f s x); cbn; auto.
Qed.

(** A loop preserves what its body preserves. *)
(** A loop that skips what fails [P] is the loop over what satisfies it. *)
Lemma foldM_filter {S A} (P : A → Prop) `{∀ x, Decision (P x)} (f : S → A → result S) l :
  (∀ s x, ¬ P x → f s x = Ok s) → ∀ s, foldM f s l = foldM f s (filter P l).
Proof.
  intros Hf. induction l as [|x l IH]; intros s; [done|]. rewrite filter_cons. cbn [foldM]. case_decide.
  - cbn [foldM]. destruct (f s x); [apply IH|done].
  - rewrite Hf by done. apply IH.
Qed.

Lemma foldM_inv {S A} (P : S → Prop) (f : S → A → result S) s l s' :
  (∀ s x s', x ∈ l → P s → f s x = Ok s' → P s') → P s → foldM f s l = Ok s' → P s'.
Proof.
  revert s. induction l as [|x l IH]; intros s Hf Hs; cbn.
  - by intros [= <-].
  - destruct (f s x) as [s1|] eqn:E; cbn; [|done]. apply IH; [|set_solver].
    intros ????; apply Hf; set_solver.
Qed.

(** * Lists *)

Lemma elem_of_Compact {A} `{EqDecision A} (l : list A) x : x ∈ Compact l ↔ x ∈ l.
Proof.
  induction l as [|y [|z l] IH]; cbn [Compact]; [done..|].
  case_decide as E; [subst|]; rewrite ?elem_of_cons, IH; set_solver.
Qed.

Lemma SortStrings_perm l : SortStrings l ≡ₚ l.
Proof. apply merge_sort_Permutation. Qed.

Lemma elem_of_SortStrings l x : x ∈ SortStrings l ↔ x ∈ l.
Proof. by rewrite SortStrings_perm. Qed.

Lemma SortStrings_sorted l : StronglySorted String.le (SortStrings l).
Proof. apply StronglySorted_merge_sort; apply _. Qed.

Lemma StronglySorted_filter {A} (R : A → A → Prop) (P : A → Prop) `{!∀ x, Decision (P x)} (l : list A) :
  StronglySorted R l → StronglySorted R (filter P l).
Proof.
  induction 1 as [|x l _ IH HF]; [constructor|]. rewrite filter_cons. case_decide; [|done]. constructor; [done|].
  rewrite Forall_forall in *. intros y [_ Hy]%list_elem_of_filter. auto.
Qed.

Lemma Compact_cons2 {A} `{EqDecision A} (x y : A) l :
  Compact (x :: y :: l) = if decide (x = y) then Compact (y :: l) else x :: Compact (y :: l).
Proof. done. Qed.

Lemma Compact_sorted {A} `{EqDecision A} (R : A → A → Prop) (l : list A) : StronglySorted R l → StronglySorted R (Compact l).
Proof.
  induction 1 as [|x [|y l] _ IH HF]; [constructor|by repeat constructor|]. rewrite Compact_cons2.
  case_decide; [done|]. constructor; [done|]. rewrite Forall_forall in *. intros z Hz. apply HF. by rewrite elem_of_Compact in Hz.
Qed.

Lemma Compact_NoDup {A} `{EqDecision A} (R : A → A → Prop) `{!AntiSymm (=) R} (l : list A) : StronglySorted R l → NoDup (Compact l).
Proof.
  induction 1 as [|x [|y l] Hs IH HF]; [constructor|by apply NoDup_singleton|]. rewrite Compact_cons2.
  case_decide as E; [done|]. constructor; [|done]. rewrite elem_of_Compact. intros Hx.
  apply StronglySorted_inv in Hs as [_ Hy]. rewrite Forall_forall in *.
  apply elem_of_cons in Hx as [->|Hx]; [done|]. apply E, (anti_symm R); [apply HF; by left|by apply Hy].
Qed.

#[export] Hint Rewrite @elem_of_Compact elem_of_SortStrings : bz.

(** A list has, below any of its elements that satisfy [P], a minimal one. *)
Lemma minimal_in {A} (R : A → A → Prop) (P : A → Prop) `{!RelDecision R} `{!∀ x, Decision (P x)} (l : list A) :
  (∀ a b, R a b → R b a → False) → (∀ a b c, R a b → R b c → R a c) →
  ∀ x, x ∈ l → P x → ∃ m, m ∈ l ∧ P m ∧ (m = x ∨ R m x) ∧ ∀ y, y ∈ l → P y → ¬ R y m.
Proof.
  intros Has Htr.
  assert (∀ (k : list A) x, P x → ∃ m, (m = x ∨ m ∈ k) ∧ P m ∧ (m = x ∨ R m x) ∧ ∀ y, y ∈ k → P y → ¬ R y m) as Hk.
  { induction k as [|y k IH]; intros x Hx; [exists x; set_solver|].
    destruct (decide (P y ∧ R y x)) as [[Hy Hr]|Hn].
    - destruct (IH y Hy) as (m & Hm & HP & Hle & Hall). exists m. split_and!; [set_solver|done|naive_solver|].
      intros z [->|Hz]%elem_of_cons Hpz Hrz; [|by eapply Hall]. destruct Hle as [->|?]; eauto.
    - destruct (IH x Hx) as (m & Hm & HP & Hle & Hall). exists m. split_and!; [set_solver|done|done|].
      intros z [->|Hz]%elem_of_cons Hpz Hrz; [|by eapply Hall]. destruct Hle as [->|?]; eauto. }
  intros x Hx HPx. destruct (Hk l x HPx) as (m & [->|Hm] & HP & Hle & Hall); eauto 10.
Qed.

Lemma NoDup_fmap_filter {A B} (f : A → B) (P : A → Prop) `{!∀ x, Decision (P x)} (l : list A) :
  NoDup (f <$> l) → NoDup (f <$> filter P l).
Proof.
  induction l as [|x l IH]; cbn; [done|]. intros [Hn Hnd]%NoDup_cons. case_decide; cbn; [|by apply IH].
  constructor; [|by apply IH]. intros (y & E & [_ Hy]%list_elem_of_filter)%list_elem_of_fmap.
  apply Hn, list_elem_of_fmap. eauto.
Qed.

Lemma list_filter_all {A} (P : A → Prop) `{!∀ x, Decision (P x)} (l : list A) : Forall P l → filter P l = l.
Proof. induction 1 as [|x l Hx _ IH]; [done|]. rewrite filter_cons, decide_True by done. by f_equal. Qed.

Lemma list_filter_none {A} (P : A → Prop) `{!∀ x, Decision (P x)} (l : list A) : (∀ x, x ∈ l → ¬ P x) → filter P l = [].
Proof.
  induction l as [|x l IH]; intros Hl; [done|]. rewrite filter_cons, decide_False by (apply Hl; by left). apply IH.
  intros y Hy. apply Hl. by right.
Qed.

Lemma elem_of_middle {A} (x : A) l1 l2 : x ∈ l1 ++ x :: l2.
Proof. apply elem_of_app. right. by left. Qed.

(** Elements of a list with distinct keys are told apart by them. *)
Lemma NoDup_fmap_inj {A B} (f : A → B) l x y : NoDup (f <$> l) → x ∈ l → y ∈ l → f x = f y → x = y.
Proof.
  intros Hnd [i Hi]%list_elem_of_lookup [j Hj]%list_elem_of_lookup E. assert (i = j) as <-; [|congruence].
  apply (NoDup_lookup _ i j (f x) Hnd); rewrite list_lookup_fmap; [by rewrite Hi|rewrite Hj; cbn; congruence].
Qed.

(** An element that occurs once cuts a list in one way. *)
Lemma cut_unique {A} (x : A) l1 l2 k1 k2 : x ∉ k1 → x ∉ k2 → l1 ++ x :: l2 = k1 ++ x :: k2 → l1 = k1 ∧ l2 = k2.
Proof.
  revert k1. induction l1 as [|y l1 IH]; intros [|z k1] H1 H2 E; cbn in E; simplify_eq.
  - done.
  - set_solver.
  - exfalso. apply H2. apply elem_of_middle.
  - destruct (IH k1) as [-> ->]; [set_solver|done..].
Qed.

Lemma fmap_list_bind {A B C} (f : B → C) (g : A → list B) l : f <$> (l ≫= g) = l ≫= λ x, f <$> g x.
Proof. induction l as [|x l IH]; [done|]. cbn. by rewrite fmap_app, <- IH. Qed.

Lemma fmap_sublist {A B} (f : A → B) (l k : list A) : l `sublist_of` k → (f <$> l) `sublist_of` (f <$> k).
Proof. induction 1; cbn; [done|by apply sublist_skip|by apply sublist_cons]. Qed.

Lemma list_filter_ext_in {A} (P Q : A → Prop) `{HP : !∀ x, Decision (P x)} `{HQ : !∀ x, Decision (Q x)} (l : list A) :
  (∀ x, x ∈ l → P x ↔ Q x) → filter P l = filter Q l.
Proof.
  induction l as [|x l IH]; intros H; [done|]. rewrite !filter_cons, IH by (intros; apply H; by right).
  pose proof (H x (list_elem_of_here _ _)). repeat case_decide; tauto.
Qed.
