(* ===== verification/GoStrings.v ===== *)
(** Go strings as the sources use them: the functions of [strings], [strconv]
    and [unicode] that occur in the packages modelled here. A Go string is a
    sequence of bytes, which is what [string] is; ranging over one decodes
    UTF-8, with U+FFFD for each byte that starts no valid sequence. *)

From Stdlib Require Import Ascii DecimalString DecimalN DecimalPos DecimalFacts.
From Stdlib Require String.
From S2P Require Import Prelude.

(** * Bytes and runes *)

Definition byteZ (a : ascii) : Z := Z.of_N (N_of_ascii a).

Definition inZ (lo x hi : Z) : bool := (lo <=? x) && (x <=? hi).

(** The continuation byte test of [utf8.DecodeRune]. *)
Definition contb (b : Z) : bool := inZ 0x80 b 0xBF.

Definition runeError : Z := 0xFFFD.

(** The second byte accepted after lead byte [b0] of a three or four byte
    sequence: the overlong, surrogate and out of range encodings are invalid. *)
Definition second3 (b0 b1 : Z) : bool :=
  if b0 =? 0xE0 then inZ 0xA0 b1 0xBF
  else if b0 =? 0xED then inZ 0x80 b1 0x9F
  else inZ 0xE1 b0 0xEF && contb b1.
Definition second4 (b0 b1 : Z) : bool :=
  if b0 =? 0xF0 then inZ 0x90 b1 0xBF
  else if b0 =? 0xF4 then inZ 0x80 b1 0x8F
  else inZ 0xF1 b0 0xF3 && contb b1.

(** [for _, r := range s]. *)
Fixpoint runes (s : string) : list Z :=
  match s with
  | "" => []
  | String a s1 =>
    let b0 := byteZ a in
    if b0 <? 0x80 then b0 :: runes s1 else
    match s1 with
    | String b s2 =>
      let b1 := byteZ b in
      if inZ 0xC2 b0 0xDF && contb b1 then ((b0 - 0xC0) * 64 + (b1 - 0x80)) :: runes s2 else
      match s2 with
      | String c s3 =>
        let b2 := byteZ c in
        if second3 b0 b1 && contb b2
        then ((b0 - 0xE0) * 4096 + (b1 - 0x80) * 64 + (b2 - 0x80)) :: runes s3 else
        match s3 with
        | String d s4 =>
          let b3 := byteZ d in
          if second4 b0 b1 && contb b2 && contb b3
          then ((b0 - 0xF0) * 262144 + (b1 - 0x80) * 4096 + (b2 - 0x80) * 64 + (b3 - 0x80)) :: runes s4
          else runeError :: runes s1
        | _ => runeError :: runes s1
        end
      | _ => runeError :: runes s1
      end
    | _ => runeError :: runes s1
    end
  end.

(** [unicode.IsSpace]. *)
Definition IsSpace (r : Z) : bool :=
  inZ 0x09 r 0x0D || (r =? 0x20) || (r =? 0x85) || (r =? 0xA0) || (r =? 0x1680)
  || inZ 0x2000 r 0x200A || (r =? 0x2028) || (r =? 0x2029) || (r =? 0x202F)
  || (r =? 0x205F) || (r =? 0x3000).

(** [unicode.IsControl]. *)
Definition IsControl (r : Z) : bool := inZ 0 r 0x1F || inZ 0x7F r 0x9F.

(** * Package strings *)

Definition HasPrefix (s p : string) : bool := String.prefix p s.

Fixpoint bytes_of (s : string) : list ascii :=
  match s with "" => [] | String a s => a :: bytes_of s end.

Fixpoint TrimPrefix (s p : string) : string :=
  match p, s with
  | "", _ => s
  | String a p', String b s' => if Ascii.eqb a b && HasPrefix s' p' then TrimPrefix s' p' else s
  | String _ _, "" => s
  end.

Definition CutPrefix (s p : string) : string * bool :=
  if HasPrefix s p then (TrimPrefix s p, true) else (s, false).

Fixpoint Contains (s sub : string) : bool :=
  HasPrefix s sub || match s with "" => false | String _ s' => Contains s' sub end.

Definition ContainsByte (s : string) (c : ascii) : bool :=
  existsb (Ascii.eqb c) (bytes_of s).

(** [strings.ContainsAny] for a set of ASCII characters. *)
Definition ContainsAny (s chars : string) : bool :=
  existsb (ContainsByte chars) (bytes_of s).

Definition ContainsFunc (s : string) (f : Z → bool) : bool := existsb f (runes s).

(** [strings.Cut] around the first occurrence of a one byte separator. *)
Fixpoint Cut (s : string) (sep : ascii) : string * string * bool :=
  match s with
  | "" => ("", "", false)
  | String a s' =>
    if Ascii.eqb a sep then ("", s', true)
    else let '(before, after, found) := Cut s' sep in (String a before, after, found)
  end.

(** [strings.Split] on a one byte separator: never empty. *)
Fixpoint Split (s : string) (sep : ascii) : list string :=
  match s with
  | "" => [""]
  | String a s' =>
    if Ascii.eqb a sep then "" :: Split s' sep
    else match Split s' sep with
         | w :: ws => String a w :: ws
         | [] => [String a ""]
         end
  end.

Fixpoint Join (l : list string) (sep : string) : string :=
  match l with
  | [] => ""
  | [s] => s
  | s :: l => s +:+ sep +:+ Join l sep
  end.

(** The maximal runs of bytes that do not satisfy [f]: [strings.FieldsFunc]
    for a predicate on ASCII characters. *)
Fixpoint FieldsFunc (f : ascii → bool) (s : string) : list string :=
  match s with
  | "" => []
  | String a s' =>
    if f a then FieldsFunc f s'
    else match s' with
         | "" => [String a ""]
         | String b _ =>
           if f b then String a "" :: FieldsFunc f s'
           else match FieldsFunc f s' with
                | w :: ws => String a w :: ws
                | [] => [String a ""]
                end
         end
  end.

(** [s[strings.LastIndexByte(s, c)+1:]] and [s[:strings.LastIndexByte(s, c)]];
    the latter is [None] when [c] does not occur. *)
Fixpoint AfterLast (s : string) (c : ascii) : string :=
  match s with
  | "" => ""
  | String a s' => if ContainsByte s' c then AfterLast s' c else if Ascii.eqb a c then s' else s
  end.
Fixpoint BeforeLast (s : string) (c : ascii) : option string :=
  match s with
  | "" => None
  | String a s' =>
    match BeforeLast s' c with
    | Some t => Some (String a t)
    | None => if Ascii.eqb a c then Some "" else None
    end
  end.

Fixpoint HasSuffix (s p : string) : bool :=
  (s =? p)%string || match s with "" => false | String _ s' => HasSuffix s' p end.

(** [path.Clean]: empty and [.] elements go, and [..] removes the element before
    it, or stays at the start of a path that is not rooted. *)
Definition cleanStep (rooted : bool) (out : list string) (part : string) : list string :=
  if (part =? "")%string || (part =? ".")%string then out
  else if (part =? "..")%string then
    match out with
    | last :: out' => if (last =? "..")%string then part :: out else out'
    | [] => if rooted then [] else [part]
    end
  else part :: out.
Definition pathClean (p : string) : string :=
  let rooted := String.prefix "/" p in
  match Join (rev (fold_left (cleanStep rooted) (Split p "/") [])) "/" with
  | "" => if rooted then "/" else "."
  | s => if rooted then "/" +:+ s else s
  end.

(** [strings.TrimSpace] removes the encodings of white space runes from both
    ends. The right end is trimmed on the reversed bytes. *)
Fixpoint trim_left (s : string) : string :=
  match s with
  | "" => ""
  | String a s1 =>
    if (byteZ a <? 0x80) && IsSpace (byteZ a) then trim_left s1 else
    match s1 with
    | String b s2 =>
      if (byteZ a =? 0xC2) && ((byteZ b =? 0x85) || (byteZ b =? 0xA0)) then trim_left s2 else
      match s2 with
      | String c s3 =>
        if second3 (byteZ a) (byteZ b) && contb (byteZ c)
           && IsSpace ((byteZ a - 0xE0) * 4096 + (byteZ b - 0x80) * 64 + (byteZ c - 0x80))
        then trim_left s3 else s
      | _ => s
      end
    | _ => s
    end
  end.
Fixpoint trim_right_rev (s : string) : string :=
  match s with
  | "" => ""
  | String c s1 =>
    if (byteZ c <? 0x80) && IsSpace (byteZ c) then trim_right_rev s1 else
    match s1 with
    | String b s2 =>
      if (byteZ b =? 0xC2) && ((byteZ c =? 0x85) || (byteZ c =? 0xA0)) then trim_right_rev s2 else
      match s2 with
      | String a s3 =>
        if second3 (byteZ a) (byteZ b) && contb (byteZ c)
           && IsSpace ((byteZ a - 0xE0) * 4096 + (byteZ b - 0x80) * 64 + (byteZ c - 0x80))
        then trim_right_rev s3 else s
      | _ => s
      end
    | _ => s
    end
  end.
Definition TrimSpace (s : string) : string :=
  String.rev (trim_right_rev (String.rev (trim_left s))).

(** [strings.Fields]: the runs between white space runes. *)
Fixpoint fieldsFrom (s cur : string) : list string :=
  let flush := match cur with "" => [] | _ => [cur] end in
  match s with
  | "" => flush
  | String a s1 =>
    if (byteZ a <? 0x80) && IsSpace (byteZ a) then flush ++ fieldsFrom s1 "" else
    match s1 with
    | String b s2 =>
      if (byteZ a =? 0xC2) && ((byteZ b =? 0x85) || (byteZ b =? 0xA0)) then flush ++ fieldsFrom s2 "" else
      match s2 with
      | String c s3 =>
        if second3 (byteZ a) (byteZ b) && contb (byteZ c)
           && IsSpace ((byteZ a - 0xE0) * 4096 + (byteZ b - 0x80) * 64 + (byteZ c - 0x80))
        then flush ++ fieldsFrom s3 "" else fieldsFrom s1 (cur +:+ String a "")
      | _ => fieldsFrom s1 (cur +:+ String a "")
      end
    | _ => fieldsFrom s1 (cur +:+ String a "")
    end
  end.
Definition Fields (s : string) : list string := fieldsFrom s "".

(** [strings.TrimRight(s, c)] for one ASCII character. *)
Fixpoint TrimRight (s : string) (c : ascii) : string :=
  match s with
  | "" => ""
  | String a s' =>
    match TrimRight s' c with
    | "" => if Ascii.eqb a c then "" else String a ""
    | t => String a t
    end
  end.

(** [bufio.Scanner] with its default split function: the lines of the input
    without their terminators. A line that does not fit the 64 KiB buffer ends
    the scan with an error, after the lines before it have been handled. *)
Definition dropCR (line : string) : string :=
  match BeforeLast line "013" with
  | Some t => if (AfterLast line "013" =? "")%string then t else line
  | None => line
  end.
Fixpoint dropLastEmpty (l : list string) : list string :=
  match l with
  | [] => []
  | [w] => if (w =? "")%string then [] else [w]
  | w :: l => w :: dropLastEmpty l
  end.
Definition MaxScanTokenSize : Z := 64 * 1024.
Definition scanLine {A} (f : A → string → result A) (a : A) (line : string) : result A :=
  if MaxScanTokenSize <=? Z.of_nat (String.length line) then Err (Errorf "bufio.Scanner: token too long")
  else f a (dropCR line).
Definition ScanLines {A} (f : A → string → result A) (a : A) (input : string) : result A :=
  foldM (scanLine f) a (dropLastEmpty (Split input "010")).

(** * Package strconv *)

Definition maxInt64 : Z := 9223372036854775807.

(** The value of a nonempty string of decimal digits. *)
Definition digits (s : string) : option Z :=
  match s with
  | "" => None
  | _ => (λ d, Z.of_N (N.of_uint d)) <$> NilEmpty.uint_of_string s
  end.

(** [strconv.ParseUint(s, 10, bits)]; every failure is one error here. *)
Definition ParseUint (s : string) (bits : Z) : option Z :=
  match digits s with
  | Some n => if n <? 2 ^ bits then Some n else None
  | None => None
  end.

(** [strconv.ParseInt(s, 10, bits)]; [strconv.Atoi] is [ParseInt s 64]. *)
Definition ParseInt (s : string) (bits : Z) : option Z :=
  match s with
  | String "-" s' =>
    n ← digits s'; if n <=? 2 ^ (bits - 1) then Some (- n) else None
  | String "+" s' =>
    n ← digits s'; if n <? 2 ^ (bits - 1) then Some n else None
  | _ =>
    n ← digits s; if n <? 2 ^ (bits - 1) then Some n else None
  end.
Definition Atoi (s : string) : option Z := ParseInt s 64.

(** [strconv.Itoa] and the verb [%d]. *)
Definition Itoa (n : Z) : string := NilEmpty.string_of_int (Z.to_int n).

(** Lower case hexadecimal digits of a byte, and the verb [%q] on strings whose
    runes above U+00FF are printable. *)
Definition hexdigit (n : Z) : ascii :=
  ascii_of_N (Z.to_N (if n <? 10 then 48 + n else 87 + n)).
Definition hexbyte (n : Z) : string := String (hexdigit (n / 16)) (String (hexdigit (n mod 16)) "").
Definition quoteByte (a : ascii) : string :=
  let b := byteZ a in
  if b =? 34 then "\" +:+ String a "" else if b =? 92 then "\\"
  else if b =? 7 then "\a" else if b =? 8 then "\b" else if b =? 12 then "\f"
  else if b =? 10 then "\n" else if b =? 13 then "\r" else if b =? 9 then "\t"
  else if b =? 11 then "\v"
  else if (b <? 0x20) || (b =? 0x7F) then "\x" +:+ hexbyte b
  else String a "".
Definition Quote (s : string) : string :=
  let q := String (ascii_of_N 34) "" in
  q +:+ foldr (λ a t, quoteByte a +:+ t) "" (bytes_of s) +:+ q.

(** * [err.Error()] *)
Fixpoint ErrorText (e : error) : string :=
  match e with
  | Errorf msg => msg
  | Wrapf prefix e => prefix +:+ ": " +:+ ErrorText e
  | ErrCanceled => "context canceled"
  | ErrStateChanged => "ZFS state changed; retry with a fresh plan"
  | ErrMappingChanged stored configured =>
    "target mapping changed from " +:+ stored +:+ " to " +:+ configured
    +:+ " since the binding was recorded; restore the previous mapping, or forget the target with boomerangz dataset clean --forget-target and let the next transfer seed it afresh"
  | ErrMissingPermissions account dataset missing =>
    "effective account " +:+ account +:+ " lacks delegated ZFS permissions on " +:+ dataset +:+ ": " +:+ Join missing ","
  | ErrInventoryChanged object e => "zfs inventory changed while inspecting " +:+ object +:+ ": " +:+ ErrorText e
  | ErrHostLocal remote pool =>
    "remote " +:+ remote +:+ " receives into pool " +:+ pool +:+ " on this host; its replicas must be validated against this host's datasets first"
  | Aroundf prefix e suffix => prefix +:+ ": " +:+ ErrorText e +:+ "; " +:+ suffix
  | ErrDeadlineExceeded => "context deadline exceeded"
  | ErrUnavailable msg => msg
  | ErrDestinationUnavailable root => "remote destination " +:+ root +:+ " has no existing ancestor"
  | ErrPreparationChanged reason _ => reason
  | ErrPlaceholderBusy dataset => "placeholder " +:+ dataset +:+ " has a resumable receive beneath it; it is replaced once that completes"
  end.

(** * The zero byte, which separates the parts of composite map keys *)
Definition NUL : string := String "000"%char "".

(** * Appending *)

Lemma app_nil_str s : "" +:+ s = s.
Proof. reflexivity. Qed.
Lemma app_cons_str a s t : String a s +:+ t = String a (s +:+ t).
Proof. reflexivity. Qed.
Lemma app_str_nil s : s +:+ "" = s.
Proof. induction s as [|a s IH]; [done|]. by rewrite app_cons_str, IH. Qed.
Lemma app_assoc_str s t u : (s +:+ t) +:+ u = s +:+ t +:+ u.
Proof. induction s as [|a s IH]; [done|]. by rewrite !app_cons_str, IH. Qed.
#[export] Hint Rewrite app_nil_str app_cons_str app_str_nil app_assoc_str : bz.

Lemma bytes_of_app s t : bytes_of (s +:+ t) = bytes_of s ++ bytes_of t.
Proof. induction s as [|a s IH]; [done|]. rewrite app_cons_str. cbn. by rewrite IH. Qed.

Lemma bytes_of_inj s t : bytes_of s = bytes_of t → s = t.
Proof.
  revert t. induction s as [|a s IH]; intros [|b t]; cbn; try done. intros [= -> ?]. f_equal; auto.
Qed.

Lemma ContainsByte_app s t c : ContainsByte (s +:+ t) c = ContainsByte s c || ContainsByte t c.
Proof. unfold ContainsByte. by rewrite bytes_of_app, existsb_app. Qed.

Lemma ContainsByte_spec s c : ContainsByte s c = true ↔ c ∈ bytes_of s.
Proof.
  unfold ContainsByte. rewrite existsb_exists. setoid_rewrite Ascii.eqb_eq.
  setoid_rewrite <- list_elem_of_In. naive_solver.
Qed.

Lemma ContainsByte_false s c : ContainsByte s c = false ↔ c ∉ bytes_of s.
Proof. rewrite <- ContainsByte_spec. destruct (ContainsByte s c); naive_solver. Qed.

(** * Prefixes *)

Lemma HasPrefix_spec s p : HasPrefix s p = true ↔ ∃ t, s = p +:+ t.
Proof.
  unfold HasPrefix. revert s. induction p as [|a p IH]; intros s; cbn.
  { split; [|by destruct s]. intros _. by exists s. }
  destruct s as [|b s].
  { split; [done|]. intros [t Ht]. discriminate Ht. }
  cbn [String.prefix]. destruct (ascii_dec a b) as [<-|Hne].
  - rewrite IH. split; intros [t Ht]; exists t; [by rewrite Ht|].
    rewrite app_cons_str in Ht. by injection Ht.
  - split; [done|]. intros [t Ht]. rewrite app_cons_str in Ht. by injection Ht.
Qed.

Lemma HasPrefix_app p t : HasPrefix (p +:+ t) p = true.
Proof. apply HasPrefix_spec; eauto. Qed.

Lemma HasPrefix_refl s : HasPrefix s s = true.
Proof. apply HasPrefix_spec. exists "". by rewrite app_str_nil. Qed.

Lemma TrimPrefix_app p t : TrimPrefix (p +:+ t) p = t.
Proof.
  induction p as [|a p IH]; [by destruct t|]. rewrite app_cons_str. cbn [TrimPrefix].
  by rewrite Ascii.eqb_refl, HasPrefix_app.
Qed.

Lemma TrimPrefix_spec s p : HasPrefix s p = true → s = p +:+ TrimPrefix s p.
Proof. intros [t ->]%HasPrefix_spec. by rewrite TrimPrefix_app. Qed.

Lemma TrimPrefix_none s p : HasPrefix s p = false → TrimPrefix s p = s.
Proof.
  destruct p as [|a p]; [by destruct s|]. destruct s as [|b s]; [done|].
  unfold HasPrefix. cbn. destruct (ascii_dec a b) as [<-|Hne].
  - rewrite Ascii.eqb_refl. unfold HasPrefix. by intros ->.
  - intros _. by rewrite (proj2 (Ascii.eqb_neq a b)).
Qed.

Lemma HasPrefix_trans s p q : HasPrefix s p = true → HasPrefix p q = true → HasPrefix s q = true.
Proof.
  rewrite !HasPrefix_spec. intros [t ->] [u ->]. exists (u +:+ t). by rewrite app_assoc_str.
Qed.

Lemma app_inj_str p s t : p +:+ s = p +:+ t → s = t.
Proof. apply (inj (String.app p)). Qed.

(** Two prefixes of one string are comparable. *)
Lemma prefix_comparable s p q :
  HasPrefix s p = true → HasPrefix s q = true → HasPrefix p q = true ∨ HasPrefix q p = true.
Proof.
  revert p q. induction s as [|a s IH]; intros [|b p] [|c q] Hp Hq; try (by auto).
  unfold HasPrefix in *. cbn in *.
  destruct (ascii_dec b a), (ascii_dec c a); try done. subst.
  destruct (ascii_dec a a); [|done]. by apply IH.
Qed.

(** * Cut, Split and Join *)

Lemma Cut_found s sep a b :
  Cut s sep = (a, b, true) → s = a +:+ String sep b ∧ sep ∉ bytes_of a.
Proof.
  revert a b. induction s as [|x s IH]; intros a b; cbn; [done|].
  destruct (Ascii.eqb_spec x sep) as [->|Hne].
  - intros [= <- <-]. split; [done|]. apply not_elem_of_nil.
  - destruct (Cut s sep) as [[a' b'] f] eqn:E. intros [= <- <- ->].
    destruct (IH _ _ eq_refl) as [-> Hin]. split; [done|]. cbn. set_solver.
Qed.

Lemma Cut_notfound s sep a b : Cut s sep = (a, b, false) → a = s ∧ b = "" ∧ sep ∉ bytes_of s.
Proof.
  revert a b. induction s as [|x s IH]; intros a b; cbn.
  - intros [= <- <-]. split_and!; [done..|]. apply not_elem_of_nil.
  - destruct (Ascii.eqb_spec x sep) as [->|Hne]; [done|].
    destruct (Cut s sep) as [[a' b'] f] eqn:E. intros [= <- <- ->].
    destruct (IH _ _ eq_refl) as (-> & -> & Hin). split_and!; [done..|]. cbn. set_solver.
Qed.

Lemma Cut_app a b sep : sep ∉ bytes_of a → Cut (a +:+ String sep b) sep = (a, b, true).
Proof.
  induction a as [|x a IH]; intros Hin.
  - rewrite app_nil_str. cbn. by rewrite Ascii.eqb_refl.
  - rewrite app_cons_str. cbn in Hin |- *. rewrite not_elem_of_cons in Hin. destruct Hin as [Hne Hin].
    rewrite (proj2 (Ascii.eqb_neq x sep)) by congruence. by rewrite IH.
Qed.

Lemma Cut_none s sep : sep ∉ bytes_of s → Cut s sep = (s, "", false).
Proof.
  induction s as [|x s IH]; intros Hin; [done|]. cbn in Hin |- *.
  rewrite not_elem_of_cons in Hin. destruct Hin as [Hne Hin].
  rewrite (proj2 (Ascii.eqb_neq x sep)) by congruence. by rewrite IH.
Qed.

Lemma Split_not_nil s sep : Split s sep ≠ [].
Proof. destruct s as [|a s]; cbn; [done|]. by repeat case_match. Qed.

Lemma Split_none s sep : sep ∉ bytes_of s → Split s sep = [s].
Proof.
  induction s as [|x s IH]; intros Hin; [done|]. cbn in Hin |- *.
  rewrite not_elem_of_cons in Hin. destruct Hin as [Hne Hin].
  rewrite (proj2 (Ascii.eqb_neq x sep)) by congruence. by rewrite IH.
Qed.

Lemma Split_app a b sep : sep ∉ bytes_of a → Split (a +:+ String sep b) sep = a :: Split b sep.
Proof.
  induction a as [|x a IH]; intros Hin.
  - rewrite app_nil_str. cbn. by rewrite Ascii.eqb_refl.
  - rewrite app_cons_str. cbn in Hin |- *. rewrite not_elem_of_cons in Hin. destruct Hin as [Hne Hin].
    rewrite (proj2 (Ascii.eqb_neq x sep)) by congruence. by rewrite IH.
Qed.

Lemma Split_Join l sep :
  l ≠ [] → Forall (λ s, sep ∉ bytes_of s) l → Split (Join l (String sep "")) sep = l.
Proof.
  intros Hne Hl. induction Hl as [|s l Hs Hl IH]; [done|]. destruct l as [|t l].
  - cbn. by apply Split_none.
  - cbn [Join]. rewrite app_cons_str, app_nil_str, Split_app by done. f_equal. by apply IH.
Qed.

Lemma Split_elem_no_sep s sep w : w ∈ Split s sep → sep ∉ bytes_of w.
Proof.
  revert w. induction s as [|x s IH]; intros w; cbn.
  - rewrite list_elem_of_singleton. intros ->. apply not_elem_of_nil.
  - destruct (Ascii.eqb_spec x sep) as [->|Hne].
    + rewrite elem_of_cons. intros [->|Hw]; [apply not_elem_of_nil|]. by apply IH.
    + destruct (Split s sep) as [|v vs] eqn:E; [by destruct (Split_not_nil s sep)|].
      rewrite elem_of_cons. intros [->|Hw]; [|apply IH; set_solver].
      cbn. rewrite not_elem_of_cons. split; [congruence|]. apply IH. set_solver.
Qed.

Lemma Join_Split s sep : Join (Split s sep) (String sep "") = s.
Proof.
  induction s as [|x s IH]; [done|]. cbn. destruct (Ascii.eqb_spec x sep) as [->|Hne].
  - destruct (Split s sep) as [|v vs] eqn:E; [by destruct (Split_not_nil s sep)|].
    cbn [Join] in *. rewrite IH. reflexivity.
  - destruct (Split s sep) as [|v vs] eqn:E; [by destruct (Split_not_nil s sep)|].
    rewrite <- IH. destruct vs; reflexivity.
Qed.

(** * Decimal numbers *)

Lemma string_of_uint_not_nil d : NilEmpty.string_of_uint d = "" → d = Decimal.Nil.
Proof. by destruct d. Qed.

Lemma digits_Itoa n : 0 ≤ n → digits (Itoa n) = Some n.
Proof.
  intros Hn. unfold digits, Itoa.
  assert (Z.to_int n = Decimal.Pos (N.to_uint (Z.to_N n))) as -> by (by destruct n).
  cbn [NilEmpty.string_of_int].
  destruct (NilEmpty.string_of_uint _) as [|a s] eqn:E.
  - exfalso. apply string_of_uint_not_nil in E. destruct (Z.to_N n) as [|q]; [done|].
    by destruct (DecimalPos.Unsigned.to_uint_nonnil q).
  - rewrite <- E, NilEmpty.usu. cbn. rewrite DecimalN.Unsigned.of_to. f_equal. lia.
Qed.

(** The longest prefix of decimal digits and the rest: what [([0-9]+)] of an
    anchored regular expression consumes. *)
Definition isDigit (a : ascii) : bool := inZ 48 (byteZ a) 57.
Fixpoint spanDigits (s : string) : string * string :=
  match s with
  | "" => ("", "")
  | String a s' =>
    if isDigit a then let '(d, r) := spanDigits s' in (String a d, r) else ("", s)
  end.

Lemma string_of_uint_digits d : Forall (λ a, isDigit a = true) (bytes_of (NilEmpty.string_of_uint d)).
Proof. induction d; cbn; by constructor. Qed.

Lemma Itoa_digits n : 0 ≤ n → Forall (λ a, isDigit a = true) (bytes_of (Itoa n)).
Proof.
  intros Hn. unfold Itoa.
  assert (Z.to_int n = Decimal.Pos (N.to_uint (Z.to_N n))) as -> by (by destruct n).
  apply string_of_uint_digits.
Qed.

Lemma Itoa_not_nil n : 0 ≤ n → Itoa n ≠ "".
Proof. intros Hn E. pose proof (digits_Itoa n Hn) as H. by rewrite E in H. Qed.

Lemma spanDigits_app s a t :
  Forall (λ a, isDigit a = true) (bytes_of s) → isDigit a = false →
  spanDigits (s +:+ String a t) = (s, String a t).
Proof.
  intros Hs Ha. induction s as [|b s IH].
  - rewrite app_nil_str. cbn. by rewrite Ha.
  - rewrite app_cons_str. cbn in Hs |- *. apply Forall_cons in Hs as [-> Hs]. by rewrite IH.
Qed.

Lemma spanDigits_spec s d r :
  spanDigits s = (d, r) → s = d +:+ r ∧ Forall (λ a, isDigit a = true) (bytes_of d).
Proof.
  revert d r. induction s as [|a s IH]; intros d r; cbn.
  - intros [= <- <-]. split; [done|constructor].
  - destruct (isDigit a) eqn:Ha.
    + destruct (spanDigits s) as [d' r'] eqn:E. intros [= <- <-].
      destruct (IH _ _ eq_refl) as [-> Hd]. split; [done|]. by constructor.
    + intros [= <- <-]. split; [done|constructor].
Qed.


Lemma ParseInt_Itoa n bits : 0 ≤ n < 2 ^ (bits - 1) → ParseInt (Itoa n) bits = Some n.
Proof.
  intros Hn. pose proof (digits_Itoa n ltac:(lia)) as Hd. pose proof (Itoa_digits n ltac:(lia)) as Hf.
  unfold ParseInt. destruct (Itoa n) as [|a s]; [done|].
  apply Forall_cons in Hf as [Ha _].
  assert (n <? 2 ^ (bits - 1) = true) as Hb by lia.
  destruct a as [[] [] [] [] [] [] [] []]; try (vm_compute in Ha; discriminate Ha); rewrite Hd; cbn; by rewrite Hb.
Qed.

Lemma ParseUint_Itoa n bits : 0 ≤ n < 2 ^ bits → ParseUint (Itoa n) bits = Some n.
Proof. intros Hn. unfold ParseUint. rewrite digits_Itoa by lia. destruct (Z.ltb_spec n (2 ^ bits)); [done|lia]. Qed.

(** Only zero itself is written with a leading zero. *)
Lemma Itoa_leading_zero n s : 0 ≤ n → Itoa n = String "0" s → s = "".
Proof.
  intros Hn. unfold Itoa. assert (Z.to_int n = Decimal.Pos (N.to_uint (Z.to_N n))) as -> by (by destruct n).
  cbn [NilEmpty.string_of_int]. pose proof (DecimalN.Unsigned.to_of (N.to_uint (Z.to_N n))) as H.
  rewrite DecimalN.Unsigned.of_to in H. destruct (N.to_uint (Z.to_N n)) as [|u|u|u|u|u|u|u|u|u|u]; cbn; try (intros E; discriminate E).
  intros [= <-]. unfold Decimal.unorm in H. cbn [Decimal.nzhead] in H.
  destruct (Decimal.nzhead u) as [|v|v|v|v|v|v|v|v|v|v] eqn:E; try discriminate H; [by injection H as ->|].
  by destruct (DecimalFacts.nzhead_nonzero u v).
Qed.

(** * Trimming *)

Lemma rev_app_spec s t : bytes_of (String.rev_app s t) = reverse (bytes_of s) ++ bytes_of t.
Proof.
  revert t. induction s as [|a s IH]; intros t; cbn [String.rev_app bytes_of]; [done|].
  rewrite IH. cbn [bytes_of]. by rewrite reverse_cons, <- (assoc_L (++)).
Qed.
Lemma rev_involutive_str s : String.rev (String.rev s) = s.
Proof.
  apply bytes_of_inj. unfold String.rev. rewrite !rev_app_spec. cbn [bytes_of].
  by rewrite !app_nil_r, reverse_involutive.
Qed.

(** An ASCII byte that is no white space stops both trims. *)
Definition solid (a : ascii) : bool := (byteZ a <? 0x80) && negb (IsSpace (byteZ a)).

Lemma solid_small a : solid a = true → byteZ a < 0x80 ∧ IsSpace (byteZ a) = false.
Proof. unfold solid. rewrite andb_true_iff, negb_true_iff. intros [? ?]. split; [lia|done]. Qed.

Lemma trim_left_solid a s : solid a = true → trim_left (String a s) = String a s.
Proof.
  intros [Hlt Hsp]%solid_small. cbn. rewrite Hsp, andb_false_r.
  destruct s as [|b [|c s]]; [done|..].
  - replace (byteZ a =? 0xC2) with false by lia. done.
  - replace (byteZ a =? 0xC2) with false by lia. cbn. unfold second3, inZ.
    replace (byteZ a =? 0xE0) with false by lia. replace (byteZ a =? 0xED) with false by lia.
    replace (0xE1 <=? byteZ a) with false by lia. done.
Qed.

Lemma trim_right_rev_solid a s : solid a = true → trim_right_rev (String a s) = String a s.
Proof.
  intros [Hlt Hsp]%solid_small. cbn. rewrite Hsp, andb_false_r.
  destruct s as [|b [|c s]]; [done|..].
  - replace (byteZ a =? 0x85) with false by lia. replace (byteZ a =? 0xA0) with false by lia.
    by rewrite andb_false_r.
  - replace (byteZ a =? 0x85) with false by lia. replace (byteZ a =? 0xA0) with false by lia.
    cbn. rewrite andb_false_r. unfold contb, inZ.
    replace (0x80 <=? byteZ a) with false by lia. by rewrite andb_false_r.
Qed.

Lemma TrimSpace_solid a s b :
  solid a = true → solid b = true → TrimSpace (String a (s +:+ String b "")) = String a (s +:+ String b "").
Proof.
  intros Ha Hb. unfold TrimSpace. rewrite trim_left_solid by done.
  assert (∃ t, String.rev (String a (s +:+ String b "")) = String b t) as [t Ht].
  { destruct (String.rev _) as [|x t] eqn:E; apply (f_equal bytes_of) in E;
      unfold String.rev in E; rewrite rev_app_spec in E; cbn [bytes_of] in E; rewrite bytes_of_app in E; cbn [bytes_of] in E;
      rewrite app_nil_r, app_comm_cons, reverse_app in E; cbn [bytes_of] in E; [done|].
    injection E as <- _. eauto. }
  rewrite Ht, trim_right_rev_solid by done. rewrite <- Ht. apply rev_involutive_str.
Qed.

(** * Decoding around an ASCII byte *)

(** An ASCII byte ends whatever sequence precedes it. *)
Lemma runes_ascii_aux n : ∀ s c t,
  (String.length s ≤ n)%nat → byteZ c < 0x80 → runes (s +:+ String c t) = runes s ++ byteZ c :: runes t.
Proof.
  induction n as [|n IH]; intros s c t Hl Hc.
  - destruct s; [|cbn in Hl; lia]. rewrite app_nil_str. cbn [runes]. by rewrite (proj2 (Z.ltb_lt _ _) Hc).
  - assert (contb (byteZ c) = false) as Hcc by (unfold contb, inZ; lia).
    assert (∀ b0, second3 b0 (byteZ c) = false) as H3.
    { intros b0. unfold second3, contb, inZ. repeat case_match; lia. }
    assert (∀ b0, second4 b0 (byteZ c) = false) as H4.
    { intros b0. unfold second4, contb, inZ. repeat case_match; lia. }
    destruct s as [|a s1]; [rewrite app_nil_str; cbn [runes]; by rewrite (proj2 (Z.ltb_lt _ _) Hc)|].
    cbn in Hl. assert (runes (s1 +:+ String c t) = runes s1 ++ byteZ c :: runes t) as I1 by (apply IH; [lia|done]).
    rewrite app_cons_str. cbn [runes]. destruct (byteZ a <? 0x80); [cbn; by rewrite I1|].
    destruct s1 as [|b s2].
    { rewrite app_nil_str in *. rewrite Hcc, andb_false_r, H3, H4. cbn [andb] in *.
      rewrite I1. by destruct t as [|? []]. }
    cbn in Hl. assert (runes (s2 +:+ String c t) = runes s2 ++ byteZ c :: runes t) as I2 by (apply IH; [lia|done]).
    rewrite app_cons_str in *. destruct (inZ _ _ _ && contb (byteZ b)); [cbn; by rewrite I2|].
    destruct s2 as [|d s3].
    { rewrite app_nil_str in *. rewrite Hcc, !andb_false_r. rewrite I1. by destruct t. }
    cbn in Hl. assert (runes (s3 +:+ String c t) = runes s3 ++ byteZ c :: runes t) as I3 by (apply IH; [lia|done]).
    rewrite app_cons_str in *. destruct (second3 _ _ && contb (byteZ d)); [cbn; by rewrite I3|].
    destruct s3 as [|e s4].
    { rewrite app_nil_str in *. rewrite Hcc, !andb_false_r. by rewrite I1. }
    cbn in Hl. assert (runes (s4 +:+ String c t) = runes s4 ++ byteZ c :: runes t) as I4 by (apply IH; [lia|done]).
    rewrite app_cons_str in *. destruct (second4 _ _ && contb (byteZ d) && contb (byteZ e)); [cbn; by rewrite I4|].
    by rewrite I1.
Qed.

Lemma runes_ascii s c t : byteZ c < 0x80 → runes (s +:+ String c t) = runes s ++ byteZ c :: runes t.
Proof. by eapply runes_ascii_aux. Qed.

Lemma Split_append a b sep : Split (a +:+ String sep b) sep = Split a sep ++ Split b sep.
Proof.
  induction a as [|x a IH].
  - rewrite app_nil_str. cbn. by rewrite Ascii.eqb_refl.
  - rewrite app_cons_str. cbn [Split]. rewrite IH. destruct (Ascii.eqb x sep); [done|].
    destruct (Split a sep) eqn:E; [by destruct (Split_not_nil a sep)|done].
Qed.

Lemma BeforeLast_None s c : BeforeLast s c = None → c ∉ bytes_of s.
Proof.
  induction s as [|b s IH]; cbn [BeforeLast bytes_of]; [intros _; apply not_elem_of_nil|].
  destruct (BeforeLast s c); [done|]. destruct (Ascii.eqb_spec b c); [done|]. intros _. apply not_elem_of_cons. auto.
Qed.

Lemma BeforeLast_Some s c p : BeforeLast s c = Some p → ∃ l, s = p +:+ String c l ∧ c ∉ bytes_of l.
Proof.
  revert p. induction s as [|a s IH]; intros p; cbn [BeforeLast]; [done|]. destruct (BeforeLast s c) as [t|] eqn:E.
  - intros [= <-]. destruct (IH t eq_refl) as (l & -> & H). by exists l.
  - destruct (Ascii.eqb_spec a c) as [->|]; [|done]. intros [= <-]. exists s. split; [done|by apply BeforeLast_None].
Qed.

(** A path of proper elements is clean. *)
Lemma pathClean_id p :
  Forall (λ part, part ≠ "" ∧ part ≠ "." ∧ part ≠ "..") (Split p "/") → pathClean p = p.
Proof.
  intros HF. unfold pathClean.
  assert (∀ rooted l out, Forall (λ part, part ≠ "" ∧ part ≠ "." ∧ part ≠ "..") l → fold_left (cleanStep rooted) l out = rev l ++ out) as Hfold.
  { intros rooted. induction l as [|part l IH]; intros out Hl; [done|]. apply Forall_cons in Hl as [(H1 & H2 & H3) Hl]. cbn [fold_left].
    assert (cleanStep rooted out part = part :: out) as ->.
    { unfold cleanStep. by rewrite (proj2 (String.eqb_neq _ _) H1), (proj2 (String.eqb_neq _ _) H2), (proj2 (String.eqb_neq _ _) H3). }
    rewrite IH by done. cbn [rev]. by rewrite <- app_assoc. }
  rewrite Hfold, app_nil_r, rev_involutive, Join_Split by done.
  assert (String.prefix "/" p = false) as ->.
  { destruct p as [|a p]; [done|]. apply not_true_is_false. intros [t Ht]%(HasPrefix_spec _ "/"). rewrite Ht in HF.
    change ("/" +:+ t) with ("" +:+ String "/" t) in HF. rewrite Split_app in HF by apply not_elem_of_nil.
    by apply Forall_cons in HF as [(? & _) _]. }
  destruct p; [|done]. by apply Forall_cons in HF as [(? & _) _].
Qed.
