(* ===== verification/GoTime.v ===== *)
(** Instants and durations as package [time] gives them to the sources.

    A [time.Time] is an instant: nanoseconds since January 1, year 1 UTC, which
    is Go's zero time. The sources normalise with [UTC], which also drops the
    monotonic reading, wherever they compare instants with [==]. A
    [time.Duration] is an [int64] of nanoseconds and [Sub] saturates. *)

From Stdlib Require Import Ascii DecimalString.
From S2P Require Import Prelude GoStrings.

Abbreviation Time := Z (only parsing).
Abbreviation Duration := Z (only parsing).

Definition second : Duration := 1000000000.
Definition minute : Duration := 60 * second.
Definition hour : Duration := 60 * minute.
Definition day : Duration := 24 * hour.

Definition minInt64 : Z := -9223372036854775808.

(** [int64] arithmetic wraps around. *)
Definition wrap64 (z : Z) : Z := (z - minInt64) mod 2 ^ 64 + minInt64.

Definition zeroTime : Time := 0.
Definition IsZero (t : Time) : bool := t =? zeroTime.

(** [t.Sub(u)]. *)
Definition Sub (t u : Time) : Duration := Z.max minInt64 (Z.min maxInt64 (t - u)).

(** * The calendar *)

Definition isLeap (y : Z) : bool :=
  (y mod 4 =? 0) && (negb (y mod 100 =? 0) || (y mod 400 =? 0)).

Definition daysIn (m y : Z) : Z :=
  if m =? 2 then (if isLeap y then 29 else 28)
  else if (m =? 4) || (m =? 6) || (m =? 9) || (m =? 11) then 30 else 31.

(** Days from the zero time to January 1 of year [y]. *)
Definition daysBeforeYear (y : Z) : Z :=
  let p := y - 1 in 365 * p + p / 4 - p / 100 + p / 400.

(** Year and day of the year of a day number. *)
Definition yearOf (d : Z) : Z * Z :=
  let n := d / 146097 in let y := 400 * n in let d := d - 146097 * n in
  let n := d / 36524 in let n := n - n / 4 in let y := y + 100 * n in let d := d - 36524 * n in
  let n := d / 1461 in let y := y + 4 * n in let d := d - 1461 * n in
  let n := d / 365 in let n := n - n / 4 in let y := y + n in let d := d - 365 * n in
  (y + 1, d).

Fixpoint monthFrom (y m d : Z) (rest : nat) : Z * Z :=
  match rest with
  | O => (m, d + 1)
  | S rest => if d <? daysIn m y then (m, d + 1) else monthFrom y (m + 1) (d - daysIn m y) rest
  end.

(** [t.Date()] of the day number: year, month, day of the month. *)
Definition civil (d : Z) : Z * Z * Z :=
  let '(y, yday) := yearOf d in
  let '(m, dom) := monthFrom y 1 yday 11 in (y, m, dom).

(** Days from January 1 to the first of month [m]. *)
Fixpoint daysBefore (y : Z) (m : nat) : Z :=
  match m with
  | O => 0
  | S m => daysBefore y m + daysIn (Z.of_nat (S m)) y
  end.

Definition dayNumber (y m d : Z) : Z :=
  daysBeforeYear y + daysBefore y (Z.to_nat (m - 1)) + (d - 1).

(** [time.Date(y, m, d, h, mi, s, ns, time.UTC)] for fields in range. *)
Definition Date (y m d h mi s ns : Z) : Time :=
  dayNumber y m d * day + h * hour + mi * minute + s * second + ns.

Definition Year (t : Time) : Z := (yearOf (t / day)).1.

(** * The layout 20060102T150405.000000000Z *)

(** The [w] low decimal digits of [n], zero padded. *)
Definition digit (n : Z) : ascii := ascii_of_N (Z.to_N (48 + n)).
Fixpoint fixed (w : nat) (n : Z) : string :=
  match w with
  | O => ""
  | S w => fixed w (n / 10) +:+ String (digit (n mod 10)) ""
  end.

(** [t.UTC().Format(nameTimeFormat)] for years of at most four digits. *)
Definition FormatName (t : Time) : string :=
  let '(y, m, d) := civil (t / day) in
  let tod := t mod day in
  fixed 4 y +:+ fixed 2 m +:+ fixed 2 d +:+ "T"
  +:+ fixed 2 (tod / hour) +:+ fixed 2 (tod mod hour / minute) +:+ fixed 2 (tod mod minute / second)
  +:+ "." +:+ fixed 9 (tod mod second) +:+ "Z".

(** Package time's [getnum]: two digits, or one when not [fixed]. *)
Definition digitVal (a : ascii) : Z := byteZ a - 48.
Definition getnum (s : string) (fixed : bool) : option (Z * string) :=
  match s with
  | String a s1 =>
    if isDigit a then
      match s1 with
      | String b s2 =>
        if isDigit b then Some (digitVal a * 10 + digitVal b, s2)
        else if fixed then None else Some (digitVal a, s1)
      | _ => if fixed then None else Some (digitVal a, s1)
      end
    else None
  | _ => None
  end.

(** The first [n] bytes and the rest. *)
Fixpoint splitAt (n : nat) (s : string) : option (string * string) :=
  match n, s with
  | O, _ => Some ("", s)
  | S n, String a s => '(p, r) ← splitAt n s; Some (String a p, r)
  | S _, "" => None
  end.

(** Package time's [atoi], which accepts a sign. *)
Definition atoi (s : string) : option Z :=
  match s with
  | String "-" s' => Z.opp <$> digits s'
  | String "+" s' => digits s'
  | _ => digits s
  end.

Definition expect (c : ascii) (s : string) : option string :=
  match s with String a s => if Ascii.eqb a c then Some s else None | _ => None end.

(** [time.Parse(nameTimeFormat, s)]; every failure is one error here. The hour
    may have one digit, and a comma may stand for the period, as in package
    time; callers reject such names by comparing with the canonical one. *)
Definition ParseName (s : string) : option Time :=
  '(ys, s) ← splitAt 4 s;
  y ← (if (match ys with String a _ => isDigit a | _ => false end) then atoi ys else None);
  '(m, s) ← getnum s true;
  if (m <=? 0) || (12 <? m) then None else
  '(d, s) ← getnum s true;
  s ← expect "T" s;
  '(h, s) ← getnum s false;
  if 24 <=? h then None else
  '(mi, s) ← getnum s true;
  if 60 <=? mi then None else
  '(sec, s) ← getnum s true;
  if 60 <=? sec then None else
  '(frac, s) ← splitAt 10 s;
  ns ← match frac with
       | String c f => if Ascii.eqb c "." || Ascii.eqb c "," then atoi f else None
       | _ => None
       end;
  if ns <? 0 then None else
  s ← expect "Z" s;
  match s with
  | "" => if (d <? 1) || (daysIn m y <? d) then None else Some (Date y m d h mi sec ns)
  | _ => None
  end.

Example format_name : FormatName (Date 2024 2 29 7 5 9 123) = "20240229T070509.000000123Z".
Proof. vm_compute. reflexivity. Qed.
Example parse_name : ParseName "20240229T070509.000000123Z" = Some (Date 2024 2 29 7 5 9 123).
Proof. vm_compute. reflexivity. Qed.
Example parse_name_bad : ParseName "20230229T070509.000000123Z" = None.
Proof. vm_compute. reflexivity. Qed.

Lemma wrap64_id z : minInt64 ≤ z ≤ maxInt64 → wrap64 z = z.
Proof. intros H. unfold wrap64, minInt64, maxInt64 in *. rewrite Z.mod_small; lia. Qed.

(** * The calendar is consistent *)

#[local] Ltac Zify.zify_post_hook ::= Z.div_mod_to_equations.

Lemma yearOf_spec d y yday :
  yearOf d = (y, yday) →
  daysBeforeYear y + yday = d ∧ 0 ≤ yday < (if isLeap y then 366 else 365).
Proof.
  unfold yearOf, daysBeforeYear. intros [= Hy Hd].
  set (a := d / 146097) in *. set (d1 := d - 146097 * a) in *.
  assert (0 ≤ d1 < 146097) as H1 by (unfold d1, a; lia).
  set (b := d1 / 36524 - d1 / 36524 / 4) in *. set (d2 := d1 - 36524 * b) in *.
  assert (0 ≤ b ≤ 3) as Hb by (unfold b; lia).
  assert (0 ≤ d2 ∧ d2 < (if b =? 3 then 36525 else 36524)) as H2.
  { unfold d2, b. destruct (Z.eqb_spec (d1 / 36524 - d1 / 36524 / 4) 3); lia. }
  set (c := d2 / 1461) in *. set (d3 := d2 - 1461 * c) in *.
  assert (0 ≤ c ≤ 24) as Hc by (unfold c; destruct (b =? 3); lia).
  assert (0 ≤ d3 ∧ d3 < (if (c =? 24) && negb (b =? 3) then 1460 else 1461)) as H3.
  { unfold d3, c. destruct (Z.eqb_spec (d2 / 1461) 24); destruct (b =? 3); cbn; lia. }
  set (e := d3 / 365 - d3 / 365 / 4) in *.
  assert (0 ≤ e ≤ 3) as He by (unfold e; destruct (_ && _); lia).
  assert (0 ≤ d3 - 365 * e ∧ d3 - 365 * e < (if (e =? 3) && negb ((c =? 24) && negb (b =? 3)) then 366 else 365)) as H4.
  { unfold e. destruct (Z.eqb_spec (d3 / 365 - d3 / 365 / 4) 3); destruct ((c =? 24) && _); cbn; lia. }
  assert (y = 400 * a + 100 * b + 4 * c + e + 1) as -> by lia.
  assert ((400 * a + 100 * b + 4 * c + e + 1 - 1) / 4 = 100 * a + 25 * b + c) as -> by lia.
  assert ((400 * a + 100 * b + 4 * c + e + 1 - 1) / 100 = 4 * a + b) as -> by lia.
  assert ((400 * a + 100 * b + 4 * c + e + 1 - 1) / 400 = a) as -> by lia.
  split; [lia|].
  assert (isLeap (400 * a + 100 * b + 4 * c + e + 1) = (e =? 3) && negb ((c =? 24) && negb (b =? 3))) as ->.
  { unfold isLeap.
    assert ((400 * a + 100 * b + 4 * c + e + 1) mod 4 = (e + 1) mod 4) as -> by lia.
    assert ((400 * a + 100 * b + 4 * c + e + 1) mod 100 = (4 * c + e + 1) mod 100) as -> by lia.
    assert ((400 * a + 100 * b + 4 * c + e + 1) mod 400 = (100 * b + 4 * c + e + 1) mod 400) as -> by lia.
    destruct (Z.eqb_spec ((e + 1) mod 4) 0), (Z.eqb_spec ((4 * c + e + 1) mod 100) 0),
      (Z.eqb_spec ((100 * b + 4 * c + e + 1) mod 400) 0), (Z.eqb_spec e 3), (Z.eqb_spec c 24), (Z.eqb_spec b 3);
      cbn; try done; exfalso; lia. }
  lia.
Qed.

Lemma monthFrom_spec y m dom d rest :
  monthFrom y m d rest = (m, dom) → rest = O → dom = d + 1.
Proof. intros H ->. cbn in H. congruence. Qed.

Lemma daysIn_pos m y : 28 ≤ daysIn m y ≤ 31.
Proof. unfold daysIn. repeat case_match; lia. Qed.

(** [monthFrom] keeps the day number it splits. *)
Lemma monthFrom_sum y rest : ∀ k d m dom,
  monthFrom y (Z.of_nat (S k)) d rest = (m, dom) → 0 ≤ d →
  Z.of_nat k < m ≤ Z.of_nat k + Z.of_nat rest + 1 ∧
  daysBefore y (Z.to_nat (m - 1)) + (dom - 1) = daysBefore y k + d ∧ 1 ≤ dom ∧
  (m < Z.of_nat k + Z.of_nat rest + 1 → dom ≤ daysIn m y).
Proof.
  induction rest as [|rest IH]; intros k d m dom; cbn [monthFrom].
  - intros [= <- <-] Hd. replace (Z.to_nat (Z.of_nat (S k) - 1)) with k by lia. lia.
  - destruct (Z.ltb_spec d (daysIn (Z.of_nat (S k)) y)) as [Hlt|Hge].
    + intros [= <- <-] Hd. replace (Z.to_nat (Z.of_nat (S k) - 1)) with k by lia. lia.
    + intros H Hd. replace (Z.of_nat (S k) + 1) with (Z.of_nat (S (S k))) in H by lia.
      apply IH in H; [|lia]. cbn [daysBefore] in H. lia.
Qed.

Lemma daysBefore_year y : daysBefore y 11 = if isLeap y then 335 else 334.
Proof. cbn. unfold daysIn. cbn. destruct (isLeap y); reflexivity. Qed.

Lemma civil_spec n y m d :
  civil n = (y, m, d) → dayNumber y m d = n ∧ 1 ≤ m ≤ 12 ∧ 1 ≤ d ≤ daysIn m y.
Proof.
  unfold civil. destruct (yearOf n) as [y' yday] eqn:Hy. apply yearOf_spec in Hy as [<- Hr].
  destruct (monthFrom y' 1 yday 11) as [m' d'] eqn:Hm. intros [= -> -> ->].
  apply (monthFrom_sum y 11 0) in Hm as (H1 & H2 & H3 & H4); [|lia].
  change (daysBefore y 0) with 0 in H2. split_and!; try lia.
  - unfold dayNumber. lia.
  - destruct (decide (m = 12)) as [->|]; [|lia].
    change (Z.to_nat (12 - 1)) with 11%nat in H2. rewrite daysBefore_year in H2.
    change (daysIn 12 y) with 31. destruct (isLeap y); lia.
Qed.

Lemma Date_civil t y m d :
  civil (t / day) = (y, m, d) →
  Date y m d (t mod day / hour) (t mod day mod hour / minute)
    (t mod day mod minute / second) (t mod day mod second) = t.
Proof.
  intros [H _]%civil_spec. unfold Date. rewrite H. unfold day, hour, minute, second. lia.
Qed.

(** * The digits of the layout *)

Lemma digit_isDigit n : 0 ≤ n < 10 → isDigit (digit n) = true ∧ digitVal (digit n) = n.
Proof.
  intros H. assert (∃ k, (k < 10)%nat ∧ n = Z.of_nat k) as (k & Hk & ->) by (exists (Z.to_nat n); lia).
  do 10 (destruct k as [|k]; [by vm_compute|]). lia.
Qed.

Fixpoint uintZ (u : Decimal.uint) (acc : Z) : Z :=
  match u with
  | Decimal.Nil => acc
  | Decimal.D0 u => uintZ u (10 * acc)
  | Decimal.D1 u => uintZ u (10 * acc + 1)
  | Decimal.D2 u => uintZ u (10 * acc + 2)
  | Decimal.D3 u => uintZ u (10 * acc + 3)
  | Decimal.D4 u => uintZ u (10 * acc + 4)
  | Decimal.D5 u => uintZ u (10 * acc + 5)
  | Decimal.D6 u => uintZ u (10 * acc + 6)
  | Decimal.D7 u => uintZ u (10 * acc + 7)
  | Decimal.D8 u => uintZ u (10 * acc + 8)
  | Decimal.D9 u => uintZ u (10 * acc + 9)
  end.

Lemma uintZ_acc u p : uintZ u (Zpos p) = Zpos (Pos.of_uint_acc u p).
Proof. revert p. induction u; intros p; cbn [uintZ Pos.of_uint_acc]; rewrite <- ?IHu; f_equal; lia. Qed.

Lemma uintZ_of_uint u : Z.of_N (N.of_uint u) = uintZ u 0.
Proof.
  unfold N.of_uint. induction u; first [reflexivity | exact IHu | exact (eq_sym (uintZ_acc u _))].
Qed.

(** The value of a string of digits. *)
Definition stringZ (s : string) (acc : Z) : Z :=
  fold_left (λ acc a, 10 * acc + digitVal a) (bytes_of s) acc.

Lemma uint_of_digits s :
  Forall (λ a, isDigit a = true) (bytes_of s) →
  ∃ u, NilEmpty.uint_of_string s = Some u ∧ ∀ acc, uintZ u acc = stringZ s acc.
Proof.
  induction s as [|a s IH]; cbn [bytes_of].
  - intros _. by exists Decimal.Nil.
  - intros [Ha (u & Hu & Hv)%IH]%Forall_cons. cbn [NilEmpty.uint_of_string]. rewrite Hu.
    unfold stringZ. cbn [bytes_of fold_left]. fold (stringZ s).
    destruct a as [[] [] [] [] [] [] [] []]; vm_compute in Ha; try discriminate Ha;
      cbn; eexists; split; try reflexivity; intros acc; cbn [uintZ]; rewrite Hv;
      unfold stringZ; f_equal; vm_compute (digitVal _); lia.
Qed.

Lemma digits_stringZ s :
  s ≠ "" → Forall (λ a, isDigit a = true) (bytes_of s) → digits s = Some (stringZ s 0).
Proof.
  intros Hs (u & Hu & Hv)%uint_of_digits. unfold digits. destruct s; [done|].
  rewrite Hu. cbn [fmap option_fmap option_map]. by rewrite uintZ_of_uint, Hv.
Qed.

Lemma fixed_spec w n :
  0 ≤ n < 10 ^ Z.of_nat w →
  Forall (λ a, isDigit a = true) (bytes_of (fixed w n)) ∧ stringZ (fixed w n) 0 = n ∧
  length (bytes_of (fixed w n)) = w.
Proof.
  revert n. induction w as [|w IH]; intros n Hn.
  - change (10 ^ Z.of_nat 0) with 1 in Hn. cbn. split_and!; [constructor|unfold stringZ; cbn; lia|done].
  - assert (10 ^ Z.of_nat (S w) = 10 * 10 ^ Z.of_nat w) as Hp by (rewrite Nat2Z.inj_succ, Z.pow_succ_r; lia).
    rewrite Hp in Hn. destruct (IH (n / 10)) as (H1 & H2 & H3); [lia|].
    destruct (digit_isDigit (n mod 10)) as [D1 D2]; [lia|].
    cbn [fixed]. unfold stringZ in *. rewrite bytes_of_app, fold_left_app, length_app, Forall_app.
    cbn [bytes_of fold_left length]. rewrite H2, H3, D2. split_and!; [done| |lia|lia].
    by repeat constructor.
Qed.

Lemma splitAt_S n a s :
  splitAt (S n) (String a s) = ('(p, r) ← splitAt n s; Some (String a p, r)).
Proof. reflexivity. Qed.

Lemma splitAt_app p s : splitAt (length (bytes_of p)) (p +:+ s) = Some (p, s).
Proof.
  induction p as [|a p IH]; cbn [bytes_of length splitAt].
  - by rewrite app_nil_str.
  - rewrite app_cons_str. cbn [splitAt]. by rewrite IH.
Qed.

Lemma splitAt_fixed w n s : 0 ≤ n < 10 ^ Z.of_nat w → splitAt w (fixed w n +:+ s) = Some (fixed w n, s).
Proof.
  intros H. destruct (fixed_spec w n H) as (_ & _ & Hl). rewrite <- Hl at 1. apply splitAt_app.
Qed.

Lemma atoi_fixed w n :
  (0 < w)%nat → 0 ≤ n < 10 ^ Z.of_nat w →
  atoi (fixed w n) = Some n ∧ ∃ a s, fixed w n = String a s ∧ isDigit a = true.
Proof.
  intros Hw H. destruct (fixed_spec w n H) as (Hd & Hv & Hl).
  assert (fixed w n ≠ "") as Hne by (intros E; rewrite E in Hl; cbn in Hl; lia).
  pose proof (digits_stringZ _ Hne Hd) as Hs. rewrite Hv in Hs.
  destruct (fixed w n) as [|a s]; [done|]. cbn [bytes_of] in Hd. apply Forall_cons in Hd as [Ha _].
  split; [|by eauto]. rewrite <- Hs. unfold atoi.
  destruct a as [[] [] [] [] [] [] [] []]; first [reflexivity | vm_compute in Ha; discriminate Ha].
Qed.

Lemma getnum_fixed n s f : 0 ≤ n < 100 → getnum (fixed 2 n +:+ s) f = Some (n, s).
Proof.
  intros H. destruct (digit_isDigit (n mod 10)) as [D1 D2]; [lia|].
  destruct (digit_isDigit (n / 10 mod 10)) as [E1 E2]; [lia|].
  cbn [fixed]. rewrite app_nil_str, ?app_assoc_str, !app_cons_str, !app_nil_str.
  cbn [getnum]. rewrite E1, D1, D2, E2. do 2 f_equal. lia.
Qed.

Lemma expect_app c s : expect c (String c "" +:+ s) = Some s.
Proof. rewrite app_cons_str, app_nil_str. cbn. by rewrite Ascii.eqb_refl. Qed.

Lemma ParseName_fields y m d h mi s n :
  0 ≤ y < 10000 → 1 ≤ m ≤ 12 → 1 ≤ d ≤ daysIn m y → 0 ≤ h < 24 → 0 ≤ mi < 60 → 0 ≤ s < 60 →
  0 ≤ n < 1000000000 →
  ParseName (fixed 4 y +:+ fixed 2 m +:+ fixed 2 d +:+ "T" +:+ fixed 2 h +:+ fixed 2 mi +:+ fixed 2 s
             +:+ "." +:+ fixed 9 n +:+ "Z") = Some (Date y m d h mi s n).
Proof.
  intros Hy Hm Hd Hh Hmi Hs Hn. pose proof (daysIn_pos m y) as Hin.
  unfold ParseName. rewrite (splitAt_fixed 4) by (cbn; lia). cbn [mbind option_bind].
  destruct (atoi_fixed 4 y) as (-> & a & s' & -> & ->); [lia|cbn; lia|]. cbn [mbind option_bind].
  rewrite getnum_fixed by lia. cbn [mbind option_bind].
  destruct (Z.leb_spec m 0); [lia|]. destruct (Z.ltb_spec 12 m); [lia|]. cbn [orb].
  rewrite getnum_fixed by lia. cbn [mbind option_bind]. rewrite expect_app. cbn [mbind option_bind].
  rewrite getnum_fixed by lia. cbn [mbind option_bind]. destruct (Z.leb_spec 24 h); [lia|].
  rewrite getnum_fixed by lia. cbn [mbind option_bind]. destruct (Z.leb_spec 60 mi); [lia|].
  rewrite getnum_fixed by lia. cbn [mbind option_bind]. destruct (Z.leb_spec 60 s); [lia|].
  rewrite app_cons_str, app_nil_str, splitAt_S.
  rewrite (splitAt_fixed 9) by (cbn; lia). cbn [mbind option_bind Ascii.eqb Bool.eqb orb].
  destruct (atoi_fixed 9 n) as (-> & _); [lia|cbn; lia|]. cbn [mbind option_bind].
  destruct (Z.ltb_spec n 0); [lia|]. cbn [expect Ascii.eqb Bool.eqb mbind option_bind].
  destruct (Z.ltb_spec d 1); [lia|]. by destruct (Z.ltb_spec (daysIn m y) d); [lia|].
Qed.

(** Parsing a formatted instant gives the instant back. *)
Lemma ParseName_FormatName t :
  0 ≤ Year t < 10000 → ParseName (FormatName t) = Some t.
Proof.
  intros Hy. unfold FormatName, Year in *. destruct (civil (t / day)) as [[y m] d] eqn:Hc.
  pose proof (Date_civil t y m d Hc) as HD. pose proof (civil_spec _ _ _ _ Hc) as (_ & Hm & Hd).
  assert ((yearOf (t / day)).1 = y) as Hyr.
  { unfold civil in Hc. destruct (yearOf (t / day)) as [y' ?]. destruct (monthFrom _ _ _ _). cbn. congruence. }
  rewrite Hyr in Hy.
  assert (0 ≤ t mod day < day) as Ht by (apply Z.mod_pos_bound; unfold day, hour, minute, second; lia).
  rewrite ParseName_fields; [by rewrite HD|done..| | | | ]; clear - Ht;
    revert Ht; generalize (t mod day); intros tod Ht; unfold day, hour, minute, second in *; lia.
Qed.
