(* ===== verification/Grid.v ===== *)
(** Retention grids: [internal/policy/grid.go].

    [ParseGrid] is the whole function: split, match, range checks, sort, merge,
    canonical text. Durations are nanoseconds of an [int64]; the range checks of
    the code are what keeps every product and sum below [maxInt64]. *)

From Stdlib Require Import Ascii.
From S2P Require Import Prelude GoStrings GoTime.

(** * Data *)

Record Bucket := mkBucket { Count : Z; Span : Z }.
Record Grid := mkGrid { buckets : list Bucket; text : string; horizon : Z }.

#[export] Instance Bucket_eq_dec : EqDecision Bucket.
Proof. solve_decision. Defined.
#[export] Instance Grid_eq_dec : EqDecision Grid.
Proof. solve_decision. Defined.

Definition DefaultGrid : string := "12x5m,24x1h,14x1d".

Definition gridUnits : list (string * Z) :=
  [("y", 365 * 24 * hour); ("mo", 30 * 24 * hour); ("w", 7 * 24 * hour);
   ("d", 24 * hour); ("h", hour); ("m", minute)].

(** * Parsing *)

(** [bucketPattern.FindStringSubmatch]: [^([0-9]+)x([0-9]+)(mo|[mhdwy])$]. *)
Definition matchBucket (s : string) : option (string * string * string) :=
  let '(count, r) := spanDigits s in
  match r with
  | String "x" r =>
    let '(amount, u) := spanDigits r in
    if bool_decide (count ≠ "") && bool_decide (amount ≠ "")
       && bool_decide (u ∈ ["mo"; "m"; "h"; "d"; "w"; "y"])
    then Some (count, amount, u) else None
  | _ => None
  end.

(** The loop over [gridUnits] that looks a unit name up. *)
Definition unitSpan (name : string) : Z :=
  match list_find (λ c, c.1 = name) gridUnits with
  | Some (_, (_, span)) => span
  | None => 0
  end.

(** One iteration of the loop over the comma separated parts. The state is
    [grid.horizon] and [grid.buckets]. *)
Definition parseBucket (st : Z * list Bucket) (part : string) : result (Z * list Bucket) :=
  let '(horizon, buckets) := st in
  match matchBucket (TrimSpace part) with
  | None => Err (Errorf ("invalid grid bucket " +:+ Quote part))
  | Some (m1, m2, m3) =>
    match ParseInt m1 32 with
    | None => Err (Errorf ("invalid grid count " +:+ Quote m1))
    | Some count =>
      if count <=? 0 then Err (Errorf ("invalid grid count " +:+ Quote m1)) else
      let unit := unitSpan m3 in
      match ParseInt m2 64 with
      | None => Err (Errorf ("invalid grid duration " +:+ Quote (m2 +:+ m3)))
      | Some amount =>
        if (amount <=? 0) || (maxInt64 / unit <? amount)
        then Err (Errorf ("invalid grid duration " +:+ Quote (m2 +:+ m3))) else
        let span := amount * unit in
        if (maxInt64 - horizon) / span <? count
        then Err (Errorf "grid horizon overflows time.Duration") else
        Ok (horizon + count * span, buckets ++ [mkBucket count span])
      end
    end
  end.

Arguments parseBucket : simpl never.

(** The in-place merge of equal spans, over the sorted buckets. *)
Fixpoint mergeFrom (cur : Bucket) (l : list Bucket) : list Bucket :=
  match l with
  | [] => [cur]
  | b :: l =>
    if Span cur =? Span b then mergeFrom (mkBucket (Count cur + Count b) (Span cur)) l
    else cur :: mergeFrom b l
  end.
Definition mergeBuckets (l : list Bucket) : list Bucket :=
  match l with [] => [] | b :: l => mergeFrom b l end.

(** The canonical text of one bucket: its span in the largest unit that divides
    it; nothing when no unit does. *)
Definition formatBucket (b : Bucket) : list string :=
  match list_find (λ u, (Span b mod u.2 =? 0) = true) gridUnits with
  | Some (_, (name, span)) => [Itoa (Count b) +:+ "x" +:+ Itoa (Span b / span) +:+ name]
  | None => []
  end.

Definition spanLe (a b : Bucket) : Prop := Span a ≤ Span b.
#[export] Instance spanLe_dec : RelDecision spanLe.
Proof. intros a b. apply Z.le_dec. Defined.

Definition ParseGrid (value : string) : result Grid :=
  st ← foldM parseBucket (0, []) (Split value ",");
  let merged := mergeBuckets (merge_sort spanLe st.2) in
  Ok (mkGrid merged (Join (merged ≫= formatBucket) ",") st.1).

(** * Accessors *)

Definition Buckets (g : Grid) : list Bucket := buckets g.
Definition Cadence (g : Grid) : Z := match buckets g with [] => 0 | b :: _ => Span b end.
Definition Horizon (g : Grid) : Z := horizon g.

Example grid_default :
  (λ g, (buckets g, horizon g)) <$> (match ParseGrid DefaultGrid with Ok g => Some g | _ => None end)
  = Some ([mkBucket 12 (5 * minute); mkBucket 24 hour; mkBucket 14 (24 * hour)], 1299600 * second).
Proof. vm_compute. reflexivity. Qed.

(** * What one part contributes *)

(** The bucket a part denotes, without the horizon check. *)
Definition bucketOf (part : string) : option Bucket :=
  '(m1, m2, m3) ← matchBucket (TrimSpace part);
  count ← ParseInt m1 32;
  amount ← ParseInt m2 64;
  if (0 <? count) && (0 <? amount) && (amount <=? maxInt64 / unitSpan m3)
  then Some (mkBucket count (amount * unitSpan m3)) else None.

Fixpoint total (l : list Bucket) : Z :=
  match l with [] => 0 | b :: l => Count b * Span b + total l end.

Definition bucket_wf (b : Bucket) : Prop :=
  0 < Count b ∧ 0 < Span b ∧ Span b mod minute = 0.

Definition spanLt (a b : Bucket) : Prop := Span a < Span b.

(** What [ParseGrid] guarantees of a grid it accepts. *)
Definition grid_wf (g : Grid) : Prop :=
  buckets g ≠ [] ∧ StronglySorted spanLt (buckets g) ∧ Forall bucket_wf (buckets g)
  ∧ horizon g = total (buckets g) ∧ horizon g ≤ maxInt64
  ∧ text g = Join (buckets g ≫= formatBucket) ",".

(** The windows of one span, summed. *)
Fixpoint cnt (s : Z) (l : list Bucket) : Z :=
  match l with [] => 0 | b :: l => (if Span b =? s then Count b else 0) + cnt s l end.

(** * Arithmetic of the parse loop *)

Lemma matchBucket_unit s m1 m2 m3 :
  matchBucket s = Some (m1, m2, m3) → ∃ k, 0 < k ∧ unitSpan m3 = k * minute.
Proof.
  unfold matchBucket. intros H. case_hyps.
  match goal with H : _ && _ = true |- _ =>
    apply andb_true_iff in H as [_ Hu]; apply bool_decide_eq_true in Hu end.
  rewrite !elem_of_cons in Hu.
  destruct Hu as [->|[->|[->|[->|[->|[->|[]%not_elem_of_nil]]]]]];
    [exists 43200|exists 1|exists 60|exists 1440|exists 10080|exists 525600]; (split; [lia|vm_compute; reflexivity]).
Qed.

Lemma bucketOf_wf part b : bucketOf part = Some b → bucket_wf b.
Proof.
  unfold bucketOf. intros H. destruct (matchBucket _) as [[[m1 m2] m3]|] eqn:E; [|done].
  apply matchBucket_unit in E as (k & Hk & Hu). cbn in H.
  destruct (ParseInt m1 32) as [c|]; [|done]. destruct (ParseInt m2 64) as [a|]; [|done]. cbn in H.
  destruct (_ && _) eqn:Hc; [|done]. injection H as <-. rewrite !andb_true_iff in Hc.
  unfold bucket_wf. cbn. rewrite Hu in *. unfold minute, second in *. split_and!; [lia|nia|].
  replace (a * (k * (60 * 1000000000))) with (a * k * (60 * 1000000000)) by lia. apply Z.mod_mul. lia.
Qed.

Lemma parseBucket_Ok h bs part h' bs' :
  parseBucket (h, bs) part = Ok (h', bs') ↔
  ∃ b, bucketOf part = Some b ∧ bs' = bs ++ [b] ∧ h' = h + Count b * Span b ∧ h' ≤ maxInt64.
Proof.
  unfold parseBucket, bucketOf. destruct (matchBucket _) as [[[m1 m2] m3]|] eqn:E; [|naive_solver].
  apply matchBucket_unit in E as (k & Hk & Hu). cbn.
  destruct (ParseInt m1 32) as [c|]; cbn; [|naive_solver].
  destruct (Z.leb_spec c 0).
  { replace (0 <? c) with false by lia. cbn. destruct (ParseInt m2 64); naive_solver. }
  replace (0 <? c) with true by lia.
  destruct (ParseInt m2 64) as [a|]; cbn; [|naive_solver].
  destruct (Z.leb_spec a 0); cbn.
  { replace (0 <? a) with false by lia. naive_solver. }
  replace (0 <? a) with true by lia. cbn.
  destruct (Z.ltb_spec (maxInt64 / unitSpan m3) a).
  { replace (a <=? maxInt64 / unitSpan m3) with false by lia. naive_solver. }
  replace (a <=? maxInt64 / unitSpan m3) with true by lia.
  assert (0 < a * unitSpan m3) as Hs by (rewrite Hu; unfold minute, second; nia).
  set (s := a * unitSpan m3) in *. clearbody s.
  destruct (Z.ltb_spec ((maxInt64 - h) / s) c) as [Hlt|Hle].
  - split; [done|]. intros (b & [= <-] & -> & -> & Hb). cbn in Hb. exfalso.
    assert (c ≤ (maxInt64 - h) / s); [|lia]. apply Z.div_le_lower_bound; nia.
  - pose proof (Z.mul_div_le (maxInt64 - h) s Hs). split.
    + intros [= <- <-]. eexists. split_and!; [done..|]. nia.
    + intros (b & [= <-] & -> & -> & _). done.
Qed.

Lemma parseBuckets_Ok parts h bs h' bs' :
  h ≤ maxInt64 →
  foldM parseBucket (h, bs) parts = Ok (h', bs') ↔
  ∃ l, mapM bucketOf parts = Some l ∧ bs' = bs ++ l ∧ h' = h + total l ∧ h' ≤ maxInt64.
Proof.
  revert h bs. induction parts as [|p parts IH]; intros h bs Hh; cbn.
  - split.
    + intros [= <- <-]. exists []. cbn. rewrite app_nil_r. split_and!; [done..| |done]. lia.
    + intros (l & [= <-] & -> & -> & _). cbn. rewrite app_nil_r. do 2 f_equal. lia.
  - split.
    + intros H. inv_bind H. destruct a as [h1 bs1].
      apply parseBucket_Ok in E as (b & Hb & -> & -> & Hle).
      apply IH in H as (l & Hl & -> & -> & Hm); [|done].
      exists (b :: l). rewrite Hb. cbn. rewrite Hl. cbn. rewrite <- (assoc_L (++)).
      split_and!; [done..| |done]. lia.
    + intros (l & Hl & -> & -> & Hm). destruct (bucketOf p) as [b|] eqn:Hb; [|done]. cbn in Hl.
      destruct (mapM bucketOf parts) as [l'|] eqn:Hl'; [|done]. cbn in Hl. injection Hl as <-. cbn in *.
      assert (0 ≤ total l').
      { clear -Hl'. apply mapM_Some in Hl'. induction Hl' as [|q b qs l Hq _ IHl]; cbn; [done|].
        apply bucketOf_wf in Hq as (? & ? & _). nia. }
      assert (parseBucket (h, bs) p = Ok (h + Count b * Span b, bs ++ [b])) as ->.
      { apply parseBucket_Ok. exists b. split_and!; [done..|]. lia. }
      cbn. apply IH; [lia|]. exists l'. rewrite <- (assoc_L (++)). split_and!; [done..| |done]. lia.
Qed.

Lemma total_perm l l' : l ≡ₚ l' → total l = total l'.
Proof. induction 1; cbn; lia. Qed.

(** * Merging *)

Lemma cnt_perm s l l' : l ≡ₚ l' → cnt s l = cnt s l'.
Proof. induction 1; cbn; lia. Qed.

Lemma cnt_mergeFrom s c l : cnt s (mergeFrom c l) = cnt s (c :: l).
Proof.
  revert c. induction l as [|b l IH]; intros c; cbn [mergeFrom]; [done|].
  destruct (Z.eqb_spec (Span c) (Span b)) as [E|E].
  - rewrite IH. cbn. rewrite <- E. destruct (Span c =? s); lia.
  - cbn. rewrite IH. done.
Qed.

Lemma total_mergeFrom c l : total (mergeFrom c l) = total (c :: l).
Proof.
  revert c. induction l as [|b l IH]; intros c; cbn [mergeFrom]; [done|].
  destruct (Z.eqb_spec (Span c) (Span b)) as [E|E]; cbn; rewrite IH; cbn; nia.
Qed.

Lemma mergeFrom_wf c l : bucket_wf c → Forall bucket_wf l → Forall bucket_wf (mergeFrom c l).
Proof.
  intros Hc Hl. revert c Hc. induction Hl as [|b l Hb Hl IH]; intros c Hc; cbn; [by constructor|].
  destruct (Span c =? Span b); [|by constructor; auto].
  apply IH. destruct Hc as (? & ? & ?), Hb as (? & ? & ?). unfold bucket_wf. cbn. split_and!; lia.
Qed.

Lemma mergeFrom_sorted c l :
  StronglySorted spanLe (c :: l) →
  StronglySorted spanLt (mergeFrom c l) ∧ Forall (λ b, Span c ≤ Span b) (mergeFrom c l).
Proof.
  revert c. induction l as [|b l IH]; intros c Hs; cbn.
  - split; [repeat constructor|]. constructor; [lia|constructor].
  - apply StronglySorted_inv in Hs as [Hs Hc]. apply Forall_cons in Hc as [Hcb Hc].
    unfold spanLe in Hcb. destruct (Z.eqb_spec (Span c) (Span b)) as [E|E].
    + destruct (IH (mkBucket (Count c + Count b) (Span c))) as [H1 H2].
      * apply StronglySorted_inv in Hs as [Hs _]. by constructor.
      * done.
    + destruct (IH b Hs) as [H1 H2]. split.
      * constructor; [done|]. eapply Forall_impl; [exact H2|]. unfold spanLt. cbn. lia.
      * constructor; [done|]. eapply Forall_impl; [exact H2|]. cbn. lia.
Qed.

Lemma cnt_zero s l : Forall (λ b, s < Span b) l → cnt s l = 0.
Proof. induction 1 as [|b l Hb Hl IH]; cbn; [done|]. destruct (Z.eqb_spec (Span b) s); lia. Qed.

Lemma cnt_nonneg s l : Forall bucket_wf l → 0 ≤ cnt s l.
Proof. induction 1 as [|b l (? & _) Hl IH]; cbn; [done|]. destruct (Span b =? s); lia. Qed.

(** A strictly sorted list of positive buckets is determined by its sums. *)
Lemma cnt_unique l1 l2 :
  StronglySorted spanLt l1 → StronglySorted spanLt l2 →
  Forall bucket_wf l1 → Forall bucket_wf l2 → (∀ s, cnt s l1 = cnt s l2) → l1 = l2.
Proof.
  revert l2. induction l1 as [|a l1 IH]; intros [|b l2] S1 S2 W1 W2 Heq; [done|..].
  - apply Forall_cons in W2 as [(Hb & _) W2]. specialize (Heq (Span b)). cbn in Heq.
    rewrite Z.eqb_refl in Heq. pose proof (cnt_nonneg (Span b) l2 W2). lia.
  - apply Forall_cons in W1 as [(Ha & _) W1]. specialize (Heq (Span a)). cbn in Heq.
    rewrite Z.eqb_refl in Heq. pose proof (cnt_nonneg (Span a) l1 W1). lia.
  - apply StronglySorted_inv in S1 as [S1 H1]. apply StronglySorted_inv in S2 as [S2 H2].
    apply Forall_cons in W1 as [Wa W1]. apply Forall_cons in W2 as [Wb W2].
    pose proof (Heq (Span a)) as Ea. pose proof (Heq (Span b)) as Eb. cbn in Ea, Eb.
    rewrite Z.eqb_refl in Ea, Eb. destruct Wa as (Ha & Wa), Wb as (Hb & Wb).
    rewrite (cnt_zero (Span a) l1) in Ea by exact H1. rewrite (cnt_zero (Span b) l2) in Eb by exact H2.
    assert (Span a = Span b) as Hab.
    { pose proof (cnt_nonneg (Span b) l1 W1). pose proof (cnt_nonneg (Span a) l2 W2).
      destruct (Z.lt_trichotomy (Span a) (Span b)) as [Hlt|[Hlt|Hlt]]; [|done|].
      - rewrite (cnt_zero (Span a) l2) in Ea;
          [|eapply Forall_impl; [exact H2|]; unfold spanLt; cbn; lia].
        destruct (Z.eqb_spec (Span b) (Span a)); lia.
      - rewrite (cnt_zero (Span b) l1) in Eb;
          [|eapply Forall_impl; [exact H1|]; unfold spanLt; cbn; lia].
        destruct (Z.eqb_spec (Span a) (Span b)); lia. }
    rewrite Hab, Z.eqb_refl, (cnt_zero (Span b) l2) in Ea by exact H2.
    destruct a as [ca sa], b as [cb sb]. cbn in *. assert (ca = cb) by lia. subst. f_equal.
    apply IH; try done. intros s. specialize (Heq s). cbn in Heq. lia.
Qed.

Lemma merge_sort_ok l :
  Forall bucket_wf l →
  StronglySorted spanLt (mergeBuckets (merge_sort spanLe l))
  ∧ Forall bucket_wf (mergeBuckets (merge_sort spanLe l))
  ∧ total (mergeBuckets (merge_sort spanLe l)) = total l
  ∧ ∀ s, cnt s (mergeBuckets (merge_sort spanLe l)) = cnt s l.
Proof.
  intros Hl. assert (StronglySorted spanLe (merge_sort spanLe l)) as Hs.
  { apply StronglySorted_merge_sort; unfold spanLe; intros ??; intros; lia. }
  pose proof (merge_sort_Permutation spanLe l) as Hp.
  assert (Forall bucket_wf (merge_sort spanLe l)) as Hw by (by rewrite Hp).
  rewrite <- (total_perm _ _ Hp). setoid_rewrite <- (λ s, cnt_perm s _ _ Hp).
  destruct (merge_sort spanLe l) as [|b m]; cbn [mergeBuckets]; [by repeat constructor|].
  apply Forall_cons in Hw as [Hb Hw]. split_and!.
  - by apply mergeFrom_sorted.
  - by apply mergeFrom_wf.
  - apply total_mergeFrom.
  - intros s. apply cnt_mergeFrom.
Qed.

Lemma ParseGrid_Ok v g :
  ParseGrid v = Ok g ↔
  ∃ l, mapM bucketOf (Split v ",") = Some l ∧ total l ≤ maxInt64
    ∧ g = let merged := mergeBuckets (merge_sort spanLe l) in
          mkGrid merged (Join (merged ≫= formatBucket) ",") (total l).
Proof.
  unfold ParseGrid. rewrite bind_Ok. split.
  - intros ([h bs] & H & [= <-]).
    apply parseBuckets_Ok in H as (l & Hl & -> & -> & Hm); [|done].
    exists l. split_and!; [done|lia|]. cbn. f_equal.
  - intros (l & Hl & Hm & ->). exists (total l, l). split; [|done].
    apply parseBuckets_Ok; [done|]. exists l. split_and!; [done|done|lia|done].
Qed.

Lemma bucketsOf_wf parts l : mapM bucketOf parts = Some l → Forall bucket_wf l.
Proof.
  intros H%mapM_Some. induction H as [|p b parts l Hb _ IH]; constructor; eauto using bucketOf_wf.
Qed.

Lemma mergeBuckets_not_nil l : l ≠ [] → mergeBuckets (merge_sort spanLe l) ≠ [].
Proof.
  intros Hl. pose proof (merge_sort_Permutation spanLe l) as Hp.
  destruct (merge_sort spanLe l) as [|b m]; [by apply Permutation_nil_l in Hp|]. cbn. clear Hp.
  revert b. induction m as [|c m IH]; intros b; cbn; [done|]. destruct (_ =? _); [apply IH|done].
Qed.

Lemma ParseGrid_grid_wf v g : ParseGrid v = Ok g → grid_wf g.
Proof.
  intros (l & Hl & Hm & ->)%ParseGrid_Ok.
  pose proof (bucketsOf_wf _ _ Hl) as Hw. destruct (merge_sort_ok l Hw) as (H1 & H2 & H3 & _).
  split_and!; cbn; try done. apply mergeBuckets_not_nil. intros ->.
  apply mapM_Some, Forall2_length in Hl. cbn in Hl. pose proof (Split_not_nil v ",").
  by destruct (Split v ",").
Qed.

(** * Canonical text *)

Lemma unit_divides s :
  s mod minute = 0 →
  ∃ i name u, list_find (λ c, (s mod c.2 =? 0) = true) gridUnits = Some (i, (name, u))
    ∧ s mod u = 0 ∧ (name, u) ∈ gridUnits.
Proof.
  intros Hs. destruct (list_find _ _) as [[i [name u]]|] eqn:E.
  - exists i, name, u. apply list_find_Some in E as (Hi & Hu & _). cbn in Hu.
    split_and!; [done|lia|by eapply list_elem_of_lookup_2].
  - exfalso. apply list_find_None in E. unfold gridUnits in E.
    rewrite !Forall_cons in E. cbn in E. destruct E as (_ & _ & _ & _ & _ & E & _).
    rewrite Hs in E. done.
Qed.

Lemma unitSpan_unit name u : (name, u) ∈ gridUnits → unitSpan name = u.
Proof.
  unfold gridUnits. rewrite !elem_of_cons.
  intros [[= -> ->]|[[= -> ->]|[[= -> ->]|[[= -> ->]|[[= -> ->]|[[= -> ->]|[]%not_elem_of_nil]]]]]];
    vm_compute; reflexivity.
Qed.

(** The shape of a unit name: what the pattern accepts, starting with no digit
    and ending with a letter. *)
Lemma unit_name name u :
  (name, u) ∈ gridUnits →
  0 < u ∧ name ∈ ["mo"; "m"; "h"; "d"; "w"; "y"]
  ∧ (∃ a t, name = String a t ∧ isDigit a = false)
  ∧ (∃ t b, name = t +:+ String b "" ∧ solid b = true)
  ∧ ","%char ∉ bytes_of name.
Proof.
  unfold gridUnits. rewrite !elem_of_cons.
  intros [[= -> ->]|[[= -> ->]|[[= -> ->]|[[= -> ->]|[[= -> ->]|[[= -> ->]|[]%not_elem_of_nil]]]]]].
  2: { split_and!; [done|set_solver|by eexists _, _|by exists "m", "o"%char|by rewrite <- ContainsByte_false]. }
  all: split_and!; [done|set_solver|by eexists _, _|by eexists "", _|by rewrite <- ContainsByte_false].
Qed.

Lemma digit_solid a : isDigit a = true → solid a = true.
Proof.
  unfold isDigit, solid, inZ. intros H. unfold IsSpace, inZ.
  assert (48 ≤ byteZ a ≤ 57) as Hb by lia. clear H. repeat (rewrite ?andb_true_iff, ?negb_true_iff, ?orb_false_iff).
  lia.
Qed.

Lemma spanDigits_unit s name u :
  (name, u) ∈ gridUnits → Forall (λ a, isDigit a = true) (bytes_of s) →
  spanDigits (s +:+ name) = (s, name).
Proof. intros (_ & _ & (a & t & -> & Ha) & _)%unit_name Hs. by apply spanDigits_app. Qed.

Lemma matchBucket_format c n name u :
  0 ≤ c → 0 ≤ n → (name, u) ∈ gridUnits →
  matchBucket (TrimSpace (Itoa c +:+ "x" +:+ Itoa n +:+ name)) = Some (Itoa c, Itoa n, name).
Proof.
  intros Hc Hn Hu. pose proof (unit_name _ _ Hu) as (_ & Hin & _ & (t & b & -> & Hb) & _).
  pose proof (Itoa_digits c Hc) as Dc. pose proof (Itoa_not_nil c Hc) as Nc.
  assert (TrimSpace (Itoa c +:+ "x" +:+ Itoa n +:+ t +:+ String b "")
          = Itoa c +:+ "x" +:+ Itoa n +:+ t +:+ String b "") as ->.
  { destruct (Itoa c) as [|d s]; [done|]. apply Forall_cons in Dc as [Dd _].
    rewrite app_cons_str. rewrite <- (app_assoc_str (Itoa n)), <- (app_assoc_str "x"), <- (app_assoc_str s).
    apply TrimSpace_solid; [by apply digit_solid|done]. }
  unfold matchBucket. rewrite app_cons_str, app_nil_str, spanDigits_app by done.
  rewrite (spanDigits_unit _ _ u) by (done || by apply Itoa_digits).
  rewrite !bool_decide_eq_true_2 by (done || by apply Itoa_not_nil). done.
Qed.

(** A part written from a bucket denotes that bucket. *)
Lemma bucketOf_format b :
  bucket_wf b → Count b * Span b ≤ maxInt64 →
  ∃ part, formatBucket b = [part] ∧ bucketOf part = Some b ∧ ","%char ∉ bytes_of part.
Proof.
  intros (Hc & Hs & Hmod) Hm. unfold formatBucket.
  destruct (unit_divides _ Hmod) as (i & name & u & -> & Hu & Hin).
  pose proof (unit_name _ _ Hin) as (Hupos & _ & _ & _ & Hcomma).
  assert (Span b = u * (Span b / u)) as Hspan.
  { pose proof (Z.div_mod (Span b) u ltac:(lia)). lia. }
  assert (0 < Span b / u) as Hq by nia. eexists. split; [done|]. split.
  - unfold bucketOf. rewrite (matchBucket_format _ _ _ u) by (done || lia). cbn.
    assert (minute ≤ Span b) as Hmin.
    { pose proof (Z.div_mod (Span b) minute ltac:(done)). unfold minute, second in *. nia. }
    rewrite !ParseInt_Itoa; [cbn|split; [lia|]..].
    + rewrite (unitSpan_unit _ _ Hin). replace (0 <? Count b) with true by lia.
      replace (0 <? Span b / u) with true by lia. cbn.
      assert (Span b / u ≤ maxInt64 / u) by (apply Z.div_le_mono; nia).
      replace (_ <=? _) with true by lia. destruct b as [c s]. cbn in *. do 2 f_equal. lia.
    + unfold maxInt64, minute, second in *. change (2 ^ (32 - 1)) with 2147483648. nia.
    + unfold maxInt64 in Hm. assert (Span b / u ≤ Span b) by (apply Z.div_le_upper_bound; nia).
      change (2 ^ (64 - 1)) with 9223372036854775808. nia.
  - rewrite !bytes_of_app, !elem_of_app. intros [Hx|[Hx|[Hx|Hx]]]; [..|done].
    + pose proof (Itoa_digits (Count b) ltac:(lia)) as D. rewrite Forall_forall in D. by apply D in Hx.
    + cbn in Hx. by apply list_elem_of_singleton in Hx.
    + pose proof (Itoa_digits (Span b / u) ltac:(lia)) as D. rewrite Forall_forall in D. by apply D in Hx.
Qed.

Lemma total_nonneg l : Forall bucket_wf l → 0 ≤ total l.
Proof. induction 1 as [|b l (? & ? & _) Hl IH]; cbn; [done|]. nia. Qed.

Lemma bucketsOf_format l :
  Forall bucket_wf l → total l ≤ maxInt64 →
  ∃ parts, l ≫= formatBucket = parts ∧ mapM bucketOf parts = Some l
    ∧ Forall (λ p, ","%char ∉ bytes_of p) parts.
Proof.
  intros Hl. induction Hl as [|b l Hb Hl IH]; intros Hm; [by exists []|].
  cbn in Hm. pose proof (total_nonneg l Hl). pose proof Hb as (? & ? & _).
  destruct IH as (parts & Hp & Hmap & Hcom); [nia|].
  destruct (bucketOf_format b Hb ltac:(lia)) as (part & Hpart & Hof & Hc).
  exists (part :: parts). cbn. rewrite Hpart, Hp, Hof. cbn. rewrite Hmap. split_and!; [done..|].
  by constructor.
Qed.

Lemma merge_perm l l' :
  Forall bucket_wf l → l ≡ₚ l' →
  mergeBuckets (merge_sort spanLe l) = mergeBuckets (merge_sort spanLe l').
Proof.
  intros Hl Hp. assert (Forall bucket_wf l') as Hl' by (by rewrite <- Hp).
  destruct (merge_sort_ok l Hl) as (? & ? & _ & H), (merge_sort_ok l' Hl') as (? & ? & _ & H').
  apply cnt_unique; [done..|]. intros s. rewrite H, H'. by apply cnt_perm.
Qed.

Lemma merge_id l :
  StronglySorted spanLt l → Forall bucket_wf l → mergeBuckets (merge_sort spanLe l) = l.
Proof. intros Hs Hl. destruct (merge_sort_ok l Hl) as (? & ? & _ & H). by apply cnt_unique. Qed.

Lemma ParseGrid_perm v v' g :
  Split v "," ≡ₚ Split v' "," → ParseGrid v = Ok g → ParseGrid v' = Ok g.
Proof.
  intros Hp (l & Hl & Hm & ->)%ParseGrid_Ok. apply ParseGrid_Ok.
  pose proof (bucketsOf_wf _ _ Hl) as Hw. apply mapM_Some in Hl.
  destruct (Permutation_Forall2 Hp Hl) as (l' & Hll & Hl').
  exists l'. rewrite (merge_perm _ _ Hw Hll), (total_perm _ _ Hll) in *. split_and!; [|done..].
  by apply mapM_Some.
Qed.

(** * Theorems *)

(** C38: every grid [ParseGrid] accepts is well formed: at least one tier, spans
    strictly increasing, positive counts, spans whole minutes, the horizon the
    exact sum of all windows and within [time.Duration], the text canonical. *)
Theorem ParseGrid_wf v g : ParseGrid v = Ok g → grid_wf g.
Proof. apply ParseGrid_grid_wf. Qed.

Lemma ParseGrid_wf_witness : ∃ g, ParseGrid "1x1d, 12x5m,12x300m" = Ok g ∧ grid_wf g.
Proof. eexists. split; [vm_compute; reflexivity|]. apply (ParseGrid_wf "1x1d, 12x5m,12x300m"). vm_compute. reflexivity. Defined.

(** The written order of the tiers does not matter: texts with the same
    parts in any order denote the same grid, and are accepted or refused alike. *)
Theorem ParseGrid_order v v' g :
  Split v "," ≡ₚ Split v' "," → ParseGrid v = Ok g ↔ ParseGrid v' = Ok g.
Proof. intros Hp. split; apply ParseGrid_perm; [done|by symmetry]. Qed.

Lemma ParseGrid_order_witness :
  ∃ g, ParseGrid "12x5m,14x1d,24x1h" = Ok g ∧ ParseGrid DefaultGrid = Ok g.
Proof.
  eexists. split; [vm_compute; reflexivity|].
  apply (ParseGrid_order "12x5m,14x1d,24x1h" DefaultGrid); [|vm_compute; reflexivity].
  change (["12x5m"; "14x1d"; "24x1h"] ≡ₚ ["12x5m"; "24x1h"; "14x1d"]). do 2 constructor.
Defined.

(** The canonical text of an accepted grid parses back to that very grid. *)
Theorem ParseGrid_roundtrip v g : ParseGrid v = Ok g → ParseGrid (text g) = Ok g.
Proof.
  intros (Hne & Hs & Hw & Hh & Hm & Ht)%ParseGrid_grid_wf. apply ParseGrid_Ok. rewrite Ht.
  destruct (bucketsOf_format (buckets g) Hw ltac:(lia)) as (parts & -> & Hmap & Hcom).
  exists (buckets g). rewrite merge_id by done. split_and!.
  - rewrite (Split_Join parts ","); [done| |done]. intros ->.
    destruct (buckets g); [done|]. done.
  - lia.
  - destruct g. cbn in *. by subst.
Qed.

Lemma ParseGrid_roundtrip_witness :
  ∃ g, ParseGrid " 1x60m,3x1h , 1x24h" = Ok g ∧ text g = "4x1h,1x1d" ∧ ParseGrid (text g) = Ok g.
Proof.
  eexists. split; [vm_compute; reflexivity|]. split; [reflexivity|].
  apply (ParseGrid_roundtrip " 1x60m,3x1h , 1x24h"). vm_compute. reflexivity.
Defined.

Lemma grid_cadence_lt g : grid_wf g → 0 < Cadence g < maxInt64.
Proof.
  intros (Hne & _ & Hwf & Hh & Hm & _). unfold Cadence. destruct (buckets g) as [|b bs]; [done|].
  apply Forall_cons in Hwf as [(Hc & Hs & Hmod) Hwf]. pose proof (total_nonneg bs Hwf). cbn [total] in Hh.
  assert (Span b ≤ Count b * Span b) by nia. assert (Span b ≠ maxInt64) by (intros E; rewrite E in Hmod; by vm_compute in Hmod).
  lia.
Qed.
