(* ===== verification/Names.v ===== *)
(** Names: the validators of internal/zfs/name.go, the installation identity of
    internal/identity, and the dataset hierarchy that every component reads from
    names. *)

From Stdlib Require Import Ascii.
From Stdlib Require String.
From S2P Require Import Prelude GoStrings.

(** * internal/zfs/name.go *)

Definition badRune (r : Z) : bool := IsSpace r || IsControl r.

Definition validateDataset (name : string) : result unit :=
  if (name =? "")%string || HasPrefix name "/" || HasPrefix name "-" || ContainsAny name "@#"
  then Err (Errorf ("invalid ZFS dataset name " +:+ Quote name))
  else if existsb (λ part, (part =? "")%string || (part =? ".")%string || (part =? "..")%string) (Split name "/")
  then Err (Errorf ("invalid ZFS dataset name " +:+ Quote name))
  else if ContainsFunc name badRune
  then Err (Errorf ("invalid ZFS dataset name " +:+ Quote name))
  else Ok tt.

Definition ValidateDataset (name : string) : result unit := validateDataset name.

Definition validateComponent (kind name : string) : result unit :=
  if (name =? "")%string || ContainsAny name "/@#"
  then Err (Errorf ("invalid " +:+ kind +:+ " " +:+ Quote name))
  else if ContainsFunc name badRune
  then Err (Errorf ("invalid " +:+ kind +:+ " " +:+ Quote name))
  else Ok tt.

Definition validateSnapshot (name : string) : result unit :=
  let '(dataset, snapshot, ok) := Cut name "@" in
  if negb ok || ContainsAny snapshot "@,%"
  then Err (Errorf ("invalid ZFS snapshot name " +:+ Quote name))
  else _ ← validateDataset dataset; validateComponent "snapshot" snapshot.

Definition ValidateSnapshot (name : string) : result unit := validateSnapshot name.

Definition validateBookmark (name : string) : result unit :=
  let '(dataset, bookmark, ok) := Cut name "#" in
  if negb ok || Contains bookmark "#"
  then Err (Errorf ("invalid ZFS bookmark name " +:+ Quote name))
  else _ ← validateDataset dataset; validateComponent "bookmark" bookmark.

(** * internal/identity *)

Module Identity.

Definition lowerHex (a : ascii) : bool := inZ 48 (byteZ a) 57 || inZ 97 (byteZ a) 102.
Definition versionDigit (a : ascii) : bool := inZ 49 (byteZ a) 56.
Definition variantDigit (a : ascii) : bool := inZ 56 (byteZ a) 57 || inZ 97 (byteZ a) 98.
Definition dash (a : ascii) : bool := Ascii.eqb a "-".

(** The byte classes of [uuidPattern], in order. *)
Definition uuidPattern : list (ascii → bool) :=
  replicate 8 lowerHex ++ [dash] ++ replicate 4 lowerHex ++ [dash]
  ++ versionDigit :: replicate 3 lowerHex ++ [dash]
  ++ variantDigit :: replicate 3 lowerHex ++ [dash] ++ replicate 12 lowerHex.

Fixpoint MatchString (classes : list (ascii → bool)) (s : string) : bool :=
  match classes, s with
  | [], "" => true
  | c :: classes, String a s => c a && MatchString classes s
  | _, _ => false
  end.

Definition Valid (value : string) : bool := MatchString uuidPattern value.

(** [hex.EncodeToString]. *)
Definition EncodeToString (data : list Z) : string :=
  foldr (λ b s, hexbyte b +:+ s) "" data.

(** The identity [New] makes of the sixteen bytes [rand.Read] gives it. *)
Definition New (data : list Z) : string :=
  let data := <[6%nat := Z.lor (Z.land (data !!! 6%nat) 0x0f) 0x40]> data in
  let data := <[8%nat := Z.lor (Z.land (data !!! 8%nat) 0x3f) 0x80]> data in
  let part a b := EncodeToString (take (b - a) (drop a data)) in
  part 0%nat 4%nat +:+ "-" +:+ part 4%nat 6%nat +:+ "-" +:+ part 6%nat 8%nat +:+ "-"
  +:+ part 8%nat 10%nat +:+ "-" +:+ part 10%nat 16%nat.

End Identity.

(** * The dataset hierarchy *)

(** [below n r]: [n] is a descendant of [r]. [within] adds [r] itself. *)
Definition below (n r : string) : bool := HasPrefix n (r +:+ "/").
Definition within (n r : string) : bool := (n =? r)%string || below n r.
Definition overlapping (a b : string) : bool := (a =? b)%string || below a b || below b a.

Lemma eqb_str_true (a b : string) : (a =? b)%string = true ↔ a = b.
Proof. apply String.eqb_eq. Qed.
Lemma eqb_str_false (a b : string) : (a =? b)%string = false ↔ a ≠ b.
Proof. apply String.eqb_neq. Qed.
Lemma eqb_str_refl (a : string) : (a =? a)%string = true.
Proof. apply String.eqb_refl. Qed.
#[export] Hint Rewrite eqb_str_true eqb_str_false eqb_str_refl : bz.

(** Slash terminated, the hierarchy is the prefix order. *)
Lemma within_prefix n r : within n r = true ↔ HasPrefix (n +:+ "/") (r +:+ "/") = true.
Proof.
  unfold within, below. rewrite orb_true_iff, eqb_str_true, !HasPrefix_spec. split.
  - intros [->|[t ->]]; [exists ""|exists (t +:+ "/")]; by autorewrite with bz.
  - intros [t Ht]. destruct (decide (t = "")) as [->|Hne].
    + left. rewrite app_str_nil in Ht.
      apply (f_equal bytes_of) in Ht. rewrite !bytes_of_app in Ht.
      apply app_inj_tail in Ht as [Ht _]. by apply bytes_of_inj.
    + right. assert (∃ u, t = u +:+ "/") as [u ->].
      { apply (f_equal bytes_of) in Ht. rewrite !bytes_of_app in Ht.
        destruct (bytes_of t) as [|c w _] eqn:Et using rev_ind; [by destruct t|].
        rewrite app_assoc in Ht. apply app_inj_tail in Ht as [_ <-].
        exists (String.string_of_list_ascii w). apply bytes_of_inj. rewrite bytes_of_app, Et. f_equal.
        clear. by induction w as [|a w IH]; cbn; f_equal. }
      exists u. rewrite <- app_assoc_str in Ht.
      apply (f_equal bytes_of) in Ht. rewrite !(bytes_of_app _ "/") in Ht.
      apply app_inj_tail in Ht as [Ht _]. by apply bytes_of_inj.
Qed.

Lemma within_refl n : within n n = true.
Proof. unfold within. by rewrite eqb_str_refl. Qed.

Lemma within_trans a b c : within a b = true → within b c = true → within a c = true.
Proof. rewrite !within_prefix. apply HasPrefix_trans. Qed.

(** The names that contain one name are a chain. *)
Lemma within_chain n r s :
  within n r = true → within n s = true → within r s = true ∨ within s r = true.
Proof. rewrite !within_prefix. apply prefix_comparable. Qed.

Lemma length_app_str s t : String.length (s +:+ t) = (String.length s + String.length t)%nat.
Proof. induction s as [|a s IH]; [done|]. rewrite app_cons_str. cbn. by rewrite IH. Qed.

Lemma below_length n r : below n r = true → (String.length r < String.length n)%nat.
Proof.
  unfold below. rewrite HasPrefix_spec. intros [t ->]. rewrite !length_app_str. cbn. lia.
Qed.

Lemma below_irrefl n : below n n = false.
Proof. destruct (below n n) eqn:E; [|done]. apply below_length in E. lia. Qed.

Lemma within_antisym a b : within a b = true → within b a = true → a = b.
Proof.
  unfold within. rewrite !orb_true_iff, !eqb_str_true. intros [?|H1] [?|H2]; try done.
  apply below_length in H1, H2. lia.
Qed.

Lemma below_trans a b c : below a b = true → below b c = true → below a c = true.
Proof.
  intros H1 H2. assert (within a c = true) as H.
  { apply (within_trans a b c); unfold within; rewrite ?H1, ?H2; by rewrite orb_true_r. }
  unfold within in H. rewrite orb_true_iff, eqb_str_true in H. destruct H as [->|?]; [|done].
  apply below_length in H1, H2. lia.
Qed.

Lemma below_within n r : below n r = true → within n r = true.
Proof. unfold within. intros ->. apply orb_true_r. Qed.

Lemma below_within_trans a b c : below a b = true → within b c = true → below a c = true.
Proof.
  unfold within. rewrite orb_true_iff, eqb_str_true. intros H [->|?]; [done|]. by eapply below_trans.
Qed.

Lemma within_below_trans a b c : within a b = true → below b c = true → below a c = true.
Proof.
  unfold within. rewrite orb_true_iff, eqb_str_true. intros [->|Hab] Hbc; [done|]. by eapply below_trans.
Qed.

Lemma overlapping_within a b : overlapping a b = true ↔ within a b = true ∨ within b a = true.
Proof.
  unfold overlapping, within. rewrite !orb_true_iff, !eqb_str_true. naive_solver.
Qed.

Lemma overlapping_sym a b : overlapping a b = overlapping b a.
Proof. apply eq_true_iff_eq. rewrite !overlapping_within. tauto. Qed.

(** Two names overlap exactly when one dataset lies within both. *)
Lemma overlapping_common a b : overlapping a b = true ↔ ∃ n, within n a = true ∧ within n b = true.
Proof.
  rewrite overlapping_within. split.
  - intros [H|H]; [exists a|exists b]; auto using within_refl.
  - intros (n & Ha & Hb). by eapply within_chain.
Qed.

#[export] Hint Resolve within_refl below_within : bz.

(** * What the validators guarantee *)

Lemma ContainsAny_false s chars :
  ContainsAny s chars = false ↔ ∀ c, c ∈ bytes_of chars → c ∉ bytes_of s.
Proof.
  unfold ContainsAny. rewrite <- not_true_iff_false, existsb_exists.
  setoid_rewrite ContainsByte_spec. setoid_rewrite <- list_elem_of_In. naive_solver.
Qed.

Lemma validateDataset_ok name :
  validateDataset name = Ok tt →
  name ≠ "" ∧ "@"%char ∉ bytes_of name ∧ "#"%char ∉ bytes_of name ∧
  HasPrefix name "/" = false ∧ HasPrefix name "-" = false ∧
  Forall (λ p : string, p ≠ "" ∧ p ≠ "." ∧ p ≠ "..") (Split name "/") ∧
  Forall (λ r, badRune r = false) (runes name).
Proof.
  unfold validateDataset. intros H. case_hyps.
  rewrite !orb_false_iff in *. destruct_and!. split_and!; try done.
  - by apply eqb_str_false.
  - apply (ContainsAny_false name "@#"); [done|]. cbn. set_solver.
  - apply (ContainsAny_false name "@#"); [done|]. cbn. set_solver.
  - apply Forall_forall. intros p Hp. match goal with H : existsb _ _ = false |- _ => rename H into He end.
    rewrite <- not_true_iff_false, existsb_exists in He.
    split_and!; intros ->; apply He; eexists; (split; [by apply list_elem_of_In|done]).
  - apply Forall_forall. intros r Hr. match goal with H : ContainsFunc _ _ = false |- _ => rename H into He end.
    unfold ContainsFunc in He. rewrite <- not_true_iff_false, existsb_exists in He.
    destruct (badRune r) eqn:Eb; [|done]. destruct He. exists r. split; [by apply list_elem_of_In|done].
Qed.

Lemma validateComponent_ok kind name :
  validateComponent kind name = Ok tt →
  name ≠ "" ∧ "/"%char ∉ bytes_of name ∧ "@"%char ∉ bytes_of name ∧ "#"%char ∉ bytes_of name.
Proof.
  unfold validateComponent. intros H. case_hyps.
  rewrite !orb_false_iff in *. destruct_and!. split_and!; [by apply eqb_str_false|..];
    (apply (ContainsAny_false name "/@#"); [done|cbn; set_solver]).
Qed.

(** A validated snapshot name is one dataset, one at sign and one component:
    no option, list or range that [zfs destroy] would read as more. *)
Lemma validateSnapshot_iff name :
  validateSnapshot name = Ok tt ↔
  ∃ d c, name = d +:+ "@" +:+ c ∧ validateDataset d = Ok tt ∧
    validateComponent "snapshot" c = Ok tt ∧ ","%char ∉ bytes_of c ∧ "%"%char ∉ bytes_of c.
Proof.
  unfold validateSnapshot. split.
  - destruct (Cut name "@") as [[d c] ok] eqn:Ec. intros H. case_hyps.
    apply bind_Ok in H as ([] & Hd & Hc). destruct ok; [|done]. cbn in *.
    apply Cut_found in Ec as [-> _]. exists d, c. autorewrite with bz.
    split_and!; try done;
      (apply (ContainsAny_false c "@,%"); [done|cbn; set_solver]).
  - intros (d & c & -> & Hd & Hc & H1 & H2). destruct (validateDataset_ok _ Hd) as (_ & Hat & _).
    destruct (validateComponent_ok _ _ Hc) as (_ & _ & Hcat & _).
    rewrite app_cons_str, app_nil_str, Cut_app by done.
    assert (ContainsAny c "@,%" = false) as ->.
    { apply ContainsAny_false. cbn. set_solver. }
    cbn. by rewrite Hd.
Qed.

(** * Generated identities *)

Import Identity.
Lemma MatchString_app cs ds s t :
  MatchString cs s = true → MatchString ds t = true → MatchString (cs ++ ds) (s +:+ t) = true.
Proof.
  revert s. induction cs as [|c cs IH]; intros [|a s]; try done.
  rewrite app_cons_str. cbn. rewrite !andb_true_iff. intros [-> ?] ?. split; [done|]. by apply IH.
Qed.

Lemma hexdigit_lowerHex n : 0 ≤ n < 16 → lowerHex (hexdigit n) = true.
Proof.
  intros H. assert (∃ k, (k < 16)%nat ∧ n = Z.of_nat k) as (k & Hk & ->) by (exists (Z.to_nat n); lia).
  do 16 (destruct k as [|k]; [by vm_compute|]). lia.
Qed.

Lemma hexbyte_match n : 0 ≤ n < 256 → MatchString [lowerHex; lowerHex] (hexbyte n) = true.
Proof.
  intros H. cbn. rewrite !hexdigit_lowerHex; [done|..]; [apply Z.mod_pos_bound; lia|].
  split; [apply Z.div_pos; lia|apply Z.div_lt_upper_bound; lia].
Qed.

Lemma EncodeToString_match data :
  Forall (λ b, 0 ≤ b < 256) data →
  MatchString (replicate (2 * length data) lowerHex) (EncodeToString data) = true.
Proof.
  induction 1 as [|b data Hb _ IH]; [done|].
  replace (2 * length (b :: data))%nat with (2 + 2 * length data)%nat by (cbn; lia).
  rewrite replicate_add. by apply MatchString_app; [apply hexbyte_match|].
Qed.

(** Setting the version and variant bits gives a byte whose first digit the
    pattern asks for. *)
Lemma masked_byte (f : Z → string) cs b :
  forallb (λ b, MatchString cs (f b)) (seqZ 0 256) = true → 0 ≤ b < 256 →
  MatchString cs (f b) = true.
Proof.
  rewrite forallb_forall. intros Hall Hb. apply Hall, list_elem_of_In, elem_of_seqZ. lia.
Qed.

Lemma New_valid data :
  length data = 16%nat → Forall (λ b, 0 ≤ b < 256) data → Valid (New data) = true.
Proof.
  intros Hl Hb. do 16 (destruct data as [|? data]; [done|]). destruct data; [|done].
  unfold Valid, New. rewrite !Forall_cons in Hb. destruct_and!.
  cbn [lookup_total list_lookup_total insert list_insert Nat.sub take drop EncodeToString foldr].
  change uuidPattern with
    ([lowerHex; lowerHex] ++ [lowerHex; lowerHex] ++ [lowerHex; lowerHex] ++ [lowerHex; lowerHex] ++ [dash]
     ++ [lowerHex; lowerHex] ++ [lowerHex; lowerHex] ++ [dash]
     ++ [versionDigit; lowerHex] ++ [lowerHex; lowerHex] ++ [dash]
     ++ [variantDigit; lowerHex] ++ [lowerHex; lowerHex] ++ [dash]
     ++ [lowerHex; lowerHex] ++ [lowerHex; lowerHex] ++ [lowerHex; lowerHex]
     ++ [lowerHex; lowerHex] ++ [lowerHex; lowerHex] ++ [lowerHex; lowerHex] ++ []).
  rewrite ?app_assoc_str, ?app_nil_str.
  repeat (apply MatchString_app; [first [done | by apply hexbyte_match |
    by apply (masked_byte (λ b, hexbyte (Z.lor (Z.land b 0x0f) 0x40))) |
    by apply (masked_byte (λ b, hexbyte (Z.lor (Z.land b 0x3f) 0x80)))]|]).
  done.
Qed.

(** * Joining names *)

(** What [validateDataset] asks of everything but the first byte. *)
Definition goodTail (s : string) : Prop :=
  "@"%char ∉ bytes_of s ∧ "#"%char ∉ bytes_of s ∧
  Forall (λ p : string, p ≠ "" ∧ p ≠ "." ∧ p ≠ "..") (Split s "/") ∧ Forall (λ r, badRune r = false) (runes s).

Lemma goodTail_app a b : goodTail (a +:+ "/" +:+ b) ↔ goodTail a ∧ goodTail b.
Proof.
  unfold goodTail. rewrite app_cons_str, app_nil_str, Split_append, runes_ascii by done.
  rewrite bytes_of_app, !Forall_app, Forall_cons. cbn [bytes_of]. rewrite !not_elem_of_app, !not_elem_of_cons.
  assert (badRune (byteZ "/") = false) by done. naive_solver.
Qed.

Lemma goodTail_not_empty s : goodTail s → s ≠ "".
Proof. intros (_ & _ & H & _) ->. cbn in H. apply Forall_cons in H as [[? _] _]. done. Qed.

Lemma goodTail_no_slash s : goodTail s → HasPrefix s "/" = false.
Proof.
  intros (_ & _ & H & _). destruct (HasPrefix s "/") eqn:E; [|done]. apply HasPrefix_spec in E as [t ->].
  rewrite app_cons_str, app_nil_str in H. cbn in H. apply Forall_cons in H as [[? _] _]. done.
Qed.

Lemma existsb_false {A} (f : A → bool) (l : list A) : Forall (λ x, f x = false) l → existsb f l = false.
Proof. induction 1 as [|x l Hx _ IH]; [done|]. cbn. by rewrite Hx, IH. Qed.

Lemma validateDataset_iff name :
  validateDataset name = Ok tt ↔ goodTail name ∧ HasPrefix name "-" = false.
Proof.
  split.
  - intros H%validateDataset_ok. unfold goodTail. tauto.
  - intros [Hg Hd]. pose proof (goodTail_not_empty _ Hg) as Hne. pose proof (goodTail_no_slash _ Hg) as Hs.
    destruct Hg as (H1 & H2 & H3 & H4). unfold validateDataset.
    rewrite (proj2 (eqb_str_false name "") Hne), Hs, Hd.
    assert (ContainsAny name "@#" = false) as ->.
    { apply ContainsAny_false. intros c. cbn. rewrite !elem_of_cons. intros [->|[->|[]%elem_of_nil]]; done. }
    cbn [orb]. rewrite existsb_false.
    + unfold ContainsFunc. by rewrite existsb_false.
    + eapply Forall_impl; [exact H3|]. cbn. intros p (E1 & E2 & E3). by rewrite !(proj2 (eqb_str_false _ _)).
Qed.

(** A valid name below a valid root. *)
Lemma validateDataset_join root tail :
  validateDataset root = Ok tt → goodTail tail → validateDataset (root +:+ "/" +:+ tail) = Ok tt.
Proof.
  rewrite !validateDataset_iff. intros [Hr Hd] Ht. split; [by apply goodTail_app|].
  destruct root as [|a root]; [by destruct (goodTail_not_empty "" Hr)|]. rewrite app_cons_str.
  unfold HasPrefix in *. cbn [String.prefix] in *. destruct (ascii_dec "-" a); [by destruct root|done].
Qed.
