(* ===== verification/Zfs.v ===== *)
(** The data of internal/zfs/executor.go that every component exchanges, and the
    pure parts of internal/zfs/state.go. A Go map is a [gmap]: a nil map and an
    empty one are the same value, which no reader of a [State] tells apart. *)

From Stdlib Require Import Ascii.
From S2P Require Import Prelude GoStrings Names.

(** * executor.go *)

(** [DatasetType] and [PropertySource] are Go string types. *)
Abbreviation DatasetType := string (only parsing).
Definition Filesystem : DatasetType := "filesystem".
Definition Volume : DatasetType := "volume".

Record Dataset := mkDataset {
  ds_Name : string;
  ds_Type : DatasetType;
  ds_EncryptionRoot : string
}.

Record DatasetIdentity := mkDatasetIdentity {
  di_Name : string;
  di_Type : DatasetType;
  di_GUID : Z;
  di_Pool : string;
  di_PoolGUID : Z;
  di_Placeholder : bool
}.

Abbreviation PropertySource := string (only parsing).
Definition SourceLocal : PropertySource := "local".
Definition SourceReceived : PropertySource := "received".

Record Property := mkProperty {
  pr_Dataset : string;
  pr_Name : string;
  pr_Value : string;
  pr_Source : PropertySource
}.

Record Object := mkObject {
  ob_Name : string;
  ob_Type : string;
  ob_GUID : Z;
  ob_Creation : Z;
  ob_CreateTXG : Z
}.

Record State := mkState {
  Objects : list Object;
  Properties : list Property;
  Received : gmap string (gmap string string);
  ResumeTokens : gmap string string;
  Clones : gmap string (list string);
  Holds : gmap string (list string)
}.

#[export] Instance Dataset_eq_dec : EqDecision Dataset.
Proof. solve_decision. Defined.
#[export] Instance DatasetIdentity_eq_dec : EqDecision DatasetIdentity.
Proof. solve_decision. Defined.
#[export] Instance Property_eq_dec : EqDecision Property.
Proof. solve_decision. Defined.
#[export] Instance Object_eq_dec : EqDecision Object.
Proof. solve_decision. Defined.
#[export] Instance State_eq_dec : EqDecision State.
Proof. solve_decision. Defined.

Definition emptyState : State := mkState [] [] ∅ ∅ ∅ ∅.

Definition propertyNamespace : string := "org.boomerangz:".
Definition PlaceholderProperty : string := propertyNamespace +:+ "state:placeholder".

(** The namespaces of internal/policy/resolve.go. *)
Definition Namespace : string := "org.boomerangz:".
Definition StateNamespace : string := Namespace +:+ "state:".

(** * state.go *)

Definition inspectionBatch : nat := 256.

(** The loop cuts [names] from [start] in steps of [size]; [fuel] bounds the
    number of chunks, and the length of [names] is enough of it. *)
Fixpoint chunksFrom (fuel size : nat) (names : list string) : list (list string) :=
  match fuel, names with
  | S fuel, _ :: _ => take size names :: chunksFrom fuel size (drop size names)
  | _, _ => []
  end.
Definition inspectionChunks (batch : nat) (names : list string) : list (list string) :=
  let size := if (0 <? batch)%nat then batch else inspectionBatch in
  chunksFrom (length names) size names.

(** [cmp.Or] of the four comparisons, as the order it sorts by. *)
Definition compareStrings (a b : string) : comparison := String.compare a b.
Definition cmpOr (c d : comparison) : comparison := match c with Eq => d | _ => c end.
Definition compareProperties (a b : Property) : comparison :=
  cmpOr (compareStrings (pr_Dataset a) (pr_Dataset b))
    (cmpOr (compareStrings (pr_Name a) (pr_Name b))
      (cmpOr (compareStrings (pr_Source a) (pr_Source b)) (compareStrings (pr_Value a) (pr_Value b)))).

Definition validateObject (name : string) : result unit :=
  if Contains name "@" then validateSnapshot name
  else if Contains name "#" then validateBookmark name
  else validateDataset name.

Definition MaxUserPropertyValue : Z := 8191.

Definition userPropertyRune (r : Z) : bool :=
  inZ 97 r 122 || inZ 48 r 57 || (r =? 58) || (r =? 95) || (r =? 45) || (r =? 46).
Definition validateUserProperty (name : string) : result unit :=
  if negb (HasPrefix name propertyNamespace)
     || (String.length name =? String.length propertyNamespace)%nat
  then Err (Errorf "property outside boomerangz namespace")
  else if ContainsFunc name (λ r, negb (userPropertyRune r))
  then Err (Errorf ("invalid user property " +:+ Quote name))
  else Ok tt.

(** Appends [x] unless the slice contains it. *)
Definition appendNew {A} `{EqDecision A} (l : list A) (x : A) : list A :=
  if decide (x ∈ l) then l else l ++ [x].

(** One round of the loop of [MergeStates]: later maps win, as assignment in a
    loop does. *)
Definition mergeInto (merged state : State) : State :=
  mkState (fold_left appendNew (Objects state) (Objects merged))
    (fold_left appendNew (Properties state) (Properties merged))
    (Received state ∪ Received merged)
    (ResumeTokens state ∪ ResumeTokens merged)
    (Clones state ∪ Clones merged)
    (Holds state ∪ Holds merged).
Definition MergeStates (states : list State) : State := fold_left mergeInto states emptyState.

(** * Lemmas *)

Lemma elem_of_appendNew {A} `{EqDecision A} (l : list A) x y : y ∈ appendNew l x ↔ y ∈ l ∨ y = x.
Proof. unfold appendNew. case_decide; set_solver. Qed.

Lemma NoDup_appendNew {A} `{EqDecision A} (l : list A) x : NoDup l → NoDup (appendNew l x).
Proof.
  intros H. unfold appendNew. case_decide; [done|]. apply NoDup_app. split_and!; [done|set_solver|].
  apply NoDup_singleton.
Qed.

Lemma fold_appendNew {A} `{EqDecision A} (l acc : list A) y :
  y ∈ fold_left appendNew l acc ↔ y ∈ acc ∨ y ∈ l.
Proof.
  revert acc. induction l as [|x l IH]; intros acc; cbn; [set_solver|].
  rewrite IH, elem_of_appendNew. set_solver.
Qed.

Lemma NoDup_fold_appendNew {A} `{EqDecision A} (l acc : list A) :
  NoDup acc → NoDup (fold_left appendNew l acc).
Proof. revert acc. induction l as [|x l IH]; intros acc H; cbn; auto using NoDup_appendNew. Qed.

Lemma concat_chunksFrom fuel size names :
  (0 < size)%nat → (length names ≤ fuel)%nat → concat (chunksFrom fuel size names) = names.
Proof.
  intros Hs. revert names. induction fuel as [|fuel IH]; intros [|n names] Hl; cbn in Hl; try done; [lia|].
  cbn [chunksFrom concat]. rewrite IH; [by rewrite take_drop|].
  rewrite length_drop. cbn [length]. lia.
Qed.
Lemma chunksFrom_nonempty fuel size names chunk : (0 < size)%nat → chunk ∈ chunksFrom fuel size names → chunk ≠ [].
Proof.
  intros Hs. revert names. induction fuel as [|fuel IH]; intros [|n names]; cbn [chunksFrom]; [by intros ?%elem_of_nil..|].
  intros [->|H]%elem_of_cons; [by destruct size; [lia|]|by eapply IH].
Qed.
