(* ===== verification/Ownership.v ===== *)
(** Snapshot ownership: internal/lifecycle/ownership.go. A snapshot belongs to a
    lineage when its name, its stored metadata and the lineage agree; nothing
    else authorises its destruction. *)

From Stdlib Require Import Ascii.
From Stdlib Require String.
From S2P Require Import Prelude GoStrings GoTime Names Zfs.

Definition SnapshotPrefix : string := "boomerangz-".
Definition LineageProperty : string := StateNamespace +:+ "lineage".
Definition SnapshotProperty : string := StateNamespace +:+ "snapshot".

Definition ValidID (value : string) : bool := Identity.Valid value.

(** [rand] is what [rand.Read] gives: sixteen bytes or an error. *)
Definition NewID (rand : result (list Z)) : result string :=
  match rand with
  | Err e => Err (Wrapf "generate UUID" e)
  | Ok data => Ok (Identity.New data)
  end.

Record Metadata := mkMetadata { Lineage : string; SnapshotID : string; Created : Time }.
#[export] Instance Metadata_eq_dec : EqDecision Metadata.
Proof. solve_decision. Defined.

Definition emptyMetadata : Metadata := mkMetadata "" "" zeroTime.

Definition NewMetadata (lineage : string) (now : Time) (rand : result (list Z)) : result Metadata :=
  if negb (ValidID lineage) || IsZero now || (Year now <? 1) || (9999 <? Year now)
  then Err (Errorf "valid lineage and creation time are required")
  else id ← NewID rand; Ok (mkMetadata lineage id now).

(** [m.Snapshot[:8]] of a valid identity. *)
Definition shortID (id : string) : string := String.substring 0 8 id.

Definition Name (m : Metadata) : string :=
  if negb (ValidID (SnapshotID m)) then ""
  else SnapshotPrefix +:+ FormatName (Created m) +:+ "-" +:+ shortID (SnapshotID m).

(** [Metadata.Properties]. *)
Definition metadataProperties (m : Metadata) : gmap string string :=
  {[ LineageProperty := Lineage m; SnapshotProperty := SnapshotID m ]}.

Record Snapshot := mkSnapshot {
  sn_Name : string;
  sn_GUID : Z;
  sn_Properties : list Property;
  sn_Holds : list string;
  sn_Clones : list string;
  sn_ResumeRequired : bool
}.
#[export] Instance Snapshot_eq_dec : EqDecision Snapshot.
Proof. solve_decision. Defined.

(** One iteration of the loop over the snapshot's stored properties. *)
Definition ownershipRow (name : string) (values : gmap string string) (p : Property) : result (gmap string string) :=
  if negb (pr_Name p =? LineageProperty)%string && negb (pr_Name p =? SnapshotProperty)%string then Ok values
  else if negb (pr_Dataset p =? name)%string
          || (negb (pr_Source p =? SourceLocal)%string && negb (pr_Source p =? SourceReceived)%string)
  then Err (Errorf "ownership metadata is not stored on snapshot")
  else match values !! pr_Name p with
       | Some _ => Err (Errorf "ambiguous ownership metadata")
       | None => Ok (<[pr_Name p := pr_Value p]> values)
       end.

(** [values[key]]: the zero string when the key is missing. *)
Definition mget (values : gmap string string) (key : string) : string := default "" (values !! key).

Definition Ownership (snapshot : Snapshot) (lineage : string) : result Metadata :=
  if negb (ValidID lineage) || (sn_GUID snapshot =? 0)
  then Err (Errorf "valid lineage and snapshot GUID are required") else
  let '(dataset, component, exists_) := Cut (sn_Name snapshot) "@" in
  if negb exists_ || negb (is_ok (ValidateDataset dataset)) || negb (HasPrefix component SnapshotPrefix)
  then Err (Errorf "snapshot name does not establish ownership") else
  values ← foldM (ownershipRow (sn_Name snapshot)) ∅ (sn_Properties snapshot);
  let m := mkMetadata (mget values LineageProperty) (mget values SnapshotProperty) zeroTime in
  if negb (Lineage m =? lineage)%string || negb (ValidID (SnapshotID m))
  then Err (Errorf "missing or mismatched ownership UUIDs") else
  let '(stamp, _, _) := Cut (TrimPrefix component SnapshotPrefix) "-" in
  match ParseName stamp with
  | None => Err (Errorf "invalid ownership creation time")
  | Some created =>
    if IsZero created || (Year created <? 1) || (9999 <? Year created)
    then Err (Errorf "invalid ownership creation time") else
    let m := mkMetadata (Lineage m) (SnapshotID m) created in
    if negb (component =? Name m)%string
    then Err (Errorf "snapshot name does not match its metadata")
    else Ok m
  end.

(** The body of the nested loops of [Adopt]. *)
Definition adoptRow (snapshot : Snapshot) (lineage : string) (p : Property) : result string :=
  if negb (pr_Name p =? LineageProperty)%string then Ok lineage
  else match Ownership snapshot (pr_Value p) with
       | Err _ => Ok lineage
       | Ok _ =>
         if negb (lineage =? "")%string && negb (lineage =? pr_Value p)%string
         then Err (Errorf "multiple candidate lineages; explicit resolution is required")
         else Ok (pr_Value p)
       end.
Definition Adopt (snapshots : list Snapshot) : result string :=
  lineage ← foldM (λ lineage s, foldM (adoptRow s) lineage (sn_Properties s)) "" snapshots;
  if (lineage =? "")%string then Err (Errorf "no provable snapshot lineage found") else Ok lineage.

(** * What ownership proves *)

Definition ownershipKey (k : string) : Prop := k = LineageProperty ∨ k = SnapshotProperty.
#[export] Instance ownershipKey_dec k : Decision (ownershipKey k).
Proof. unfold ownershipKey. apply _. Defined.

(** A row of ownership metadata stored on the snapshot itself. *)
Definition storedOn (name : string) (p : Property) : Prop :=
  pr_Dataset p = name ∧ (pr_Source p = SourceLocal ∨ pr_Source p = SourceReceived).

Lemma ownershipRow_Ok name v p v' :
  ownershipRow name v p = Ok v' →
  (¬ ownershipKey (pr_Name p) ∧ v' = v) ∨
  (ownershipKey (pr_Name p) ∧ storedOn name p ∧ v !! pr_Name p = None ∧ v' = <[pr_Name p := pr_Value p]> v).
Proof.
  unfold ownershipRow, ownershipKey, storedOn. intros H. case_hyps;
    rewrite ?andb_true_iff, ?andb_false_iff, ?orb_false_iff, ?andb_false_iff, ?negb_true_iff, ?negb_false_iff,
      ?eqb_str_false, ?eqb_str_true in *; naive_solver.
Qed.

Lemma ownershipRows_Ok name props : ∀ v0 v,
  foldM (ownershipRow name) v0 props = Ok v →
  (∀ k x, v0 !! k = Some x → v !! k = Some x) ∧
  (∀ p, p ∈ props → ownershipKey (pr_Name p) →
    storedOn name p ∧ v0 !! pr_Name p = None ∧ v !! pr_Name p = Some (pr_Value p)) ∧
  (∀ k x, v !! k = Some x → v0 !! k = Some x ∨ ∃ p, p ∈ props ∧ ownershipKey k ∧ pr_Name p = k ∧ pr_Value p = x) ∧
  NoDup (filter ownershipKey (pr_Name <$> props)).
Proof.
  induction props as [|p props IH]; intros v0 v; cbn.
  { intros [= <-]. split_and!; [set_solver|set_solver|by left|constructor]. }
  destruct (ownershipRow name v0 p) as [v1|] eqn:Er; cbn; [|done]. intros (I1 & I2 & I3 & I4)%IH.
  apply ownershipRow_Ok in Er as [[Hn ->]|(Hk & Hs & Hnone & ->)].
  - split_and!; [done| | |].
    + intros q [->|Hq]%elem_of_cons; [done|]. by apply I2.
    + intros k x [?|(q & ? & ?)]%I3; [by left|right]. exists q. set_solver.
    + by rewrite decide_False.
  - split_and!.
    + intros k x Hx. apply I1. rewrite lookup_insert_ne; [done|]. by intros <-; simplify_eq.
    + intros q [->|Hq]%elem_of_cons Hqk.
      * split_and!; [done..|]. apply I1, lookup_insert_eq.
      * destruct (I2 q Hq Hqk) as (? & Hl & ?). split_and!; [done| |done].
        by apply lookup_insert_None in Hl as [? _].
    + intros k x [Hx|(q & ? & ?)]%I3; [|right; exists q; set_solver].
      apply lookup_insert_Some in Hx as [[<- <-]|[_ ?]]; [right; exists p; set_solver|by left].
    + rewrite decide_True by done. constructor; [|done].
      intros [_ (q & Hq & Hin)%list_elem_of_fmap]%list_elem_of_filter.
      destruct (I2 q Hin) as (_ & Hl & _); [by rewrite <- Hq|]. rewrite <- Hq, lookup_insert_eq in Hl. done.
Qed.

(** The ownership contract: name, metadata and lineage of [s] agree on [m]. *)
Record Owned (s : Snapshot) (lineage : string) (m : Metadata) : Prop := {
  owned_guid : sn_GUID s ≠ 0;
  owned_lineage : Lineage m = lineage;
  owned_valid : ValidID lineage = true ∧ ValidID (SnapshotID m) = true;
  owned_year : 1 ≤ Year (Created m) ≤ 9999;
  owned_created : Created m ≠ zeroTime;
  owned_name : ∃ d, sn_Name s = d +:+ "@" +:+ Name m ∧ ValidateDataset d = Ok tt;
  owned_rows : ∀ p, p ∈ sn_Properties s → ownershipKey (pr_Name p) →
    storedOn (sn_Name s) p ∧ (pr_Name p, pr_Value p) ∈ [(LineageProperty, lineage); (SnapshotProperty, SnapshotID m)];
  owned_stored : ∀ k v, (k, v) ∈ [(LineageProperty, lineage); (SnapshotProperty, SnapshotID m)] →
    ∃ p, p ∈ sn_Properties s ∧ pr_Name p = k ∧ pr_Value p = v;
  owned_once : NoDup (filter ownershipKey (pr_Name <$> sn_Properties s))
}.

Lemma ValidID_not_empty v : ValidID v = true → v ≠ "".
Proof. by intros H ->. Qed.

Lemma mget_not_empty values k v : mget values k = v → v ≠ "" → values !! k = Some v.
Proof. unfold mget. destruct (values !! k); cbn; naive_solver. Qed.

Lemma LineageProperty_ne : LineageProperty ≠ SnapshotProperty.
Proof. done. Qed.

Lemma Ownership_Ok s lineage m : Ownership s lineage = Ok m → Owned s lineage m.
Proof.
  unfold Ownership. intros H.
  destruct (negb (ValidID lineage) || _) eqn:E1; [done|].
  destruct (Cut (sn_Name s) "@") as [[d c] ok] eqn:Ec.
  destruct (negb ok || _ || _) eqn:E2; [done|]. apply bind_Ok in H as (values & Hv & H).
  destruct (negb (_ =? _)%string || _) eqn:E3; [done|]. cbn [Lineage SnapshotID] in *.
  destruct (Cut (TrimPrefix c _) "-") as [[stamp r1] r2] eqn:Es.
  destruct (ParseName stamp) as [created|]; [|done].
  destruct (IsZero created || _ || _) eqn:E4; [done|]. destruct (negb (c =? _)%string) eqn:E5; [done|].
  injection H as <-.
  rewrite ?orb_false_iff, ?negb_false_iff, ?eqb_str_true in *. destruct_and!.
  destruct ok; [|done]. apply Cut_found in Ec as [Hname _].
  apply ownershipRows_Ok in Hv as (_ & Hrows & Hback & Honce).
  assert (values !! LineageProperty = Some lineage) as HL by (apply mget_not_empty; [done|by apply ValidID_not_empty]).
  set (id := mget values SnapshotProperty) in *.
  assert (values !! SnapshotProperty = Some id) as HS by (apply mget_not_empty; [done|by apply ValidID_not_empty]).
  constructor; cbn [Lineage SnapshotID Created]; try done; try (unfold IsZero in *; lia).
  - exists d. subst c. split; [by rewrite Hname, app_cons_str, app_nil_str|]. by destruct (ValidateDataset d) as [[]|].
  - intros p Hp Hk. destruct (Hrows p Hp Hk) as (Hst & _ & Hl). split; [done|].
    destruct Hk as [Hk|Hk]; rewrite Hk in Hl |- *; [rewrite HL in Hl|rewrite HS in Hl];
      injection Hl as <-; rewrite !elem_of_cons; auto.
  - intros k v [?|[?|[]%elem_of_nil]%elem_of_cons]%elem_of_cons; simplify_eq.
    + apply Hback in HL as [?|(p & ? & _ & ? & ?)]; [done|by exists p].
    + apply Hback in HS as [?|(p & ? & _ & ? & ?)]; [done|by exists p].
Qed.

(** The converse: the contract is enough. *)

Lemma ownershipRow_skip name v p : ¬ ownershipKey (pr_Name p) → ownershipRow name v p = Ok v.
Proof.
  unfold ownershipKey, ownershipRow. intros H.
  rewrite (proj2 (eqb_str_false (pr_Name p) LineageProperty)), (proj2 (eqb_str_false (pr_Name p) SnapshotProperty)) by tauto.
  done.
Qed.

Lemma ownershipRow_insert name v p :
  ownershipKey (pr_Name p) → storedOn name p → v !! pr_Name p = None →
  ownershipRow name v p = Ok (<[pr_Name p := pr_Value p]> v).
Proof.
  intros Hk [Hd Hs] Hnone. unfold ownershipRow. rewrite Hnone, Hd, eqb_str_refl.
  assert (negb (pr_Name p =? LineageProperty)%string && negb (pr_Name p =? SnapshotProperty)%string = false) as ->.
  { apply andb_false_iff. by rewrite !negb_false_iff, !eqb_str_true. }
  assert (negb (pr_Source p =? SourceLocal)%string && negb (pr_Source p =? SourceReceived)%string = false) as ->.
  { apply andb_false_iff. by rewrite !negb_false_iff, !eqb_str_true. }
  done.
Qed.

Lemma ownershipRows_total name props : ∀ v0,
  (∀ p, p ∈ props → ownershipKey (pr_Name p) → storedOn name p ∧ v0 !! pr_Name p = None) →
  NoDup (filter ownershipKey (pr_Name <$> props)) →
  ∃ v, foldM (ownershipRow name) v0 props = Ok v.
Proof.
  induction props as [|p props IH]; intros v0 Hall Hnd; cbn; [eauto|].
  cbn in Hnd. destruct (decide (ownershipKey (pr_Name p))) as [Hk|Hk].
  - apply NoDup_cons in Hnd as [Hnot Hnd]. destruct (Hall p ltac:(set_solver) Hk) as [[Hd Hs] Hnone].
    rewrite (ownershipRow_insert name v0 p) by done.
    cbn. apply IH; [|done]. intros q Hq Hqk. destruct (Hall q ltac:(set_solver) Hqk) as [? ?]. split; [done|].
    rewrite lookup_insert_ne; [done|]. intros E. apply Hnot, list_elem_of_filter. rewrite E. split; [done|].
    apply list_elem_of_fmap. eauto.
  - rewrite (ownershipRow_skip name v0 p) by done.
    cbn. apply IH; [|done]. intros q Hq. apply Hall. set_solver.
Qed.

Lemma fixed_bytes w n c : c ∈ bytes_of (fixed w n) → isDigit c = true.
Proof.
  revert n. induction w as [|w IH]; intros n; cbn [fixed]; [by intros []%elem_of_nil|].
  rewrite bytes_of_app, elem_of_app. intros [?%IH|Hc]; [done|].
  cbn in Hc. apply list_elem_of_singleton in Hc as ->. apply digit_isDigit, Z.mod_pos_bound. lia.
Qed.

Lemma FormatName_no_dash t : "-"%char ∉ bytes_of (FormatName t).
Proof.
  unfold FormatName. destruct (civil (t / day)) as [[y m] d]. rewrite !bytes_of_app.
  intros H. repeat (apply elem_of_app in H as [H|H]);
    first [by apply fixed_bytes in H | cbn in H; apply list_elem_of_singleton in H; discriminate H].
Qed.

Lemma Ownership_complete s lineage m : Owned s lineage m → Ownership s lineage = Ok m.
Proof.
  intros [Hg Hl [Hv1 Hv2] Hy Hz (d & Hn & Hd) Hrows Hst Hnd]. unfold Ownership. rewrite Hv1.
  apply Z.eqb_neq in Hg. rewrite Hg. cbn [negb orb].
  destruct (validateDataset_ok d Hd) as (_ & Hat & _).
  rewrite Hn, app_cons_str, app_nil_str, Cut_app, Hd by done. cbn [is_ok negb orb].
  assert (Name m = SnapshotPrefix +:+ FormatName (Created m) +:+ "-" +:+ shortID (SnapshotID m)) as HN
    by (unfold Name; by rewrite Hv2).
  assert (HasPrefix (Name m) SnapshotPrefix = true) as -> by (rewrite HN; apply HasPrefix_app). cbn [negb orb].
  assert (String "@" (Name m) = "@" +:+ Name m) as -> by done. rewrite <- Hn.
  destruct (ownershipRows_total (sn_Name s) (sn_Properties s) ∅) as [v Ev]; [|done|].
  { intros p Hp Hk. split; [by apply Hrows|apply lookup_empty]. }
  rewrite Ev. cbn [mbind result_bind]. apply ownershipRows_Ok in Ev as (_ & Hall & _ & _).
  assert (v !! LineageProperty = Some lineage) as HL.
  { destruct (Hst LineageProperty lineage) as (p & Hp & E1 & E2); [set_solver|].
    rewrite <- E1, <- E2. apply Hall; [done|]. rewrite E1. by left. }
  assert (v !! SnapshotProperty = Some (SnapshotID m)) as HS.
  { destruct (Hst SnapshotProperty (SnapshotID m)) as (p & Hp & E1 & E2); [set_solver|].
    rewrite <- E1, <- E2. apply Hall; [done|]. rewrite E1. by right. }
  unfold mget. rewrite HL, HS. cbn [id Lineage SnapshotID from_option]. rewrite eqb_str_refl, Hv2. cbn [negb orb].
  rewrite HN at 1. rewrite TrimPrefix_app, app_cons_str, app_nil_str, Cut_app by apply FormatName_no_dash.
  rewrite ParseName_FormatName by lia. unfold IsZero. rewrite (proj2 (Z.eqb_neq _ _) Hz).
  destruct (Z.ltb_spec (Year (Created m)) 1); [lia|]. destruct (Z.ltb_spec 9999 (Year (Created m))); [lia|].
  cbn [orb]. assert (mkMetadata lineage (SnapshotID m) (Created m) = m) as -> by (subst; by destruct m).
  by rewrite eqb_str_refl.
Qed.

(** * Adoption *)

(** The lineages [Adopt] considers: those a snapshot stores and proves. *)
Definition provenLineages (s : Snapshot) : list string :=
  filter (λ v, is_ok (Ownership s v) = true) (pr_Value <$> filter (λ p, pr_Name p = LineageProperty) (sn_Properties s)).

Definition oneLineage (lineage v : string) : result string :=
  if negb (lineage =? "")%string && negb (lineage =? v)%string
  then Err (Errorf "multiple candidate lineages; explicit resolution is required") else Ok v.

Lemma adoptRow_proven s l p :
  adoptRow s l p =
  if bool_decide (pr_Name p = LineageProperty) && is_ok (Ownership s (pr_Value p))
  then oneLineage l (pr_Value p) else Ok l.
Proof.
  unfold adoptRow, oneLineage. case_bool_decide as E.
  - rewrite E, eqb_str_refl. by destruct (Ownership s (pr_Value p)).
  - by rewrite (proj2 (eqb_str_false _ _) E).
Qed.

Lemma adoptRows_proven s props : ∀ l,
  foldM (adoptRow s) l props =
  foldM oneLineage l (filter (λ v, is_ok (Ownership s v) = true) (pr_Value <$> filter (λ p, pr_Name p = LineageProperty) props)).
Proof.
  induction props as [|p props IH]; intros l; [done|].
  cbn [foldM]. rewrite adoptRow_proven, filter_cons. case_decide as E.
  - rewrite bool_decide_true by done. cbn [fmap list_fmap]. rewrite filter_cons.
    destruct (is_ok (Ownership s (pr_Value p))); cbn [andb].
    + rewrite decide_True by done. cbn [foldM]. destruct (oneLineage l (pr_Value p)); cbn; [apply IH|done].
    + rewrite decide_False by done. apply IH.
  - rewrite bool_decide_false by done. apply IH.
Qed.

Lemma Adopt_proven snapshots :
  foldM (λ l s, foldM (adoptRow s) l (sn_Properties s)) "" snapshots
  = foldM oneLineage "" (snapshots ≫= provenLineages).
Proof.
  generalize "". induction snapshots as [|s ss IH]; intros l; [done|].
  cbn [foldM]. rewrite bind_cons, foldM_app, adoptRows_proven. fold (provenLineages s).
  destruct (foldM oneLineage l _); cbn; auto.
Qed.

Lemma oneLineage_ok l v : l = "" ∨ l = v → oneLineage l v = Ok v.
Proof.
  unfold oneLineage. intros [->| ->]; [done|]. rewrite eqb_str_refl. cbn. by rewrite andb_false_r.
Qed.

Lemma oneLineage_err l v : ¬ (l = "" ∨ l = v) → is_ok (oneLineage l v) = false.
Proof.
  unfold oneLineage. intros H.
  rewrite (proj2 (eqb_str_false l "")), (proj2 (eqb_str_false l v)) by tauto. done.
Qed.

Lemma oneLineage_fold vs : ∀ l0 l,
  Forall (λ v, v ≠ "") vs →
  foldM oneLineage l0 vs = Ok l ↔
  (vs = [] ∧ l = l0) ∨ (vs ≠ [] ∧ (∀ v, v ∈ vs → v = l) ∧ (l0 = "" ∨ l0 = l)).
Proof.
  induction vs as [|v vs IH]; intros l0 l Hne; cbn; [naive_solver|].
  apply Forall_cons in Hne as [Hv Hne]. destruct (decide (l0 = "" ∨ l0 = v)) as [Hd|Hd].
  - rewrite (oneLineage_ok _ _ Hd). cbn. rewrite (IH _ _ Hne).
    setoid_rewrite elem_of_cons. destruct vs as [|w vs]; [set_solver|]. naive_solver.
  - pose proof (oneLineage_err _ _ Hd) as He. destruct (oneLineage l0 v); [done|]. cbn.
    split; [done|]. intros [[? _]|(_ & Hall & Hl)]; [done|]. destruct Hd.
    rewrite (Hall v) by set_solver. done.
Qed.

Lemma provenLineages_spec s v : v ∈ provenLineages s ↔ ∃ m, Owned s v m.
Proof.
  unfold provenLineages. rewrite list_elem_of_filter, list_elem_of_fmap. setoid_rewrite list_elem_of_filter. split.
  - intros [Ho _]. destruct (Ownership s v) as [m|] eqn:E; [|done]. exists m. by apply Ownership_Ok.
  - intros [m Hm]. rewrite (Ownership_complete _ _ _ Hm). split; [done|].
    destruct (owned_stored _ _ _ Hm LineageProperty v) as (p & ? & ? & ?); [set_solver|]. eauto.
Qed.

(** * Properties *)

(** C25: [Ownership] accepts a snapshot for a lineage exactly when the ownership
    contract holds: a nonzero GUID, valid identities, a name that is the one the
    metadata prescribes, and each ownership row stored once, on the snapshot. *)
Theorem Ownership_iff s lineage m : Ownership s lineage = Ok m ↔ Owned s lineage m.
Proof. split; [apply Ownership_Ok|apply Ownership_complete]. Qed.

(** The rows ZFS stores for properties set at creation. *)
Definition localRows (object : string) (props : gmap string string) : list Property :=
  (λ kv, mkProperty object kv.1 kv.2 SourceLocal) <$> map_to_list props.

Lemma localRows_metadata name m p :
  p ∈ localRows name (metadataProperties m) ↔
  p = mkProperty name LineageProperty (Lineage m) SourceLocal ∨
  p = mkProperty name SnapshotProperty (SnapshotID m) SourceLocal.
Proof.
  unfold localRows, metadataProperties. rewrite map_to_list_insert, map_to_list_singleton by done. set_solver.
Qed.

(** A snapshot created under fresh metadata is owned: its name and stored
    properties give exactly that metadata back. *)
Theorem NewMetadata_owned lineage now data m d guid :
  NewMetadata lineage now (Ok data) = Ok m →
  length data = 16%nat → Forall (λ b, 0 ≤ b < 256) data →
  ValidateDataset d = Ok tt → guid ≠ 0 →
  let name := d +:+ "@" +:+ Name m in
  Ownership (mkSnapshot name guid (localRows name (metadataProperties m)) [] [] false) lineage = Ok m.
Proof.
  intros Hm Hl Hb Hd Hg name. apply Ownership_complete. unfold NewMetadata in Hm. case_hyps.
  rewrite !orb_false_iff, negb_false_iff in *. destruct_and!.
  pose proof (New_valid data Hl Hb) as Hv. fold (ValidID (Identity.New data)) in Hv. subst name. revert Hv.
  generalize (Identity.New data). intros id Hv. set (name := d +:+ _).
  pose proof (localRows_metadata name (mkMetadata lineage id now)) as Hrows.
  constructor; cbn [sn_GUID sn_Name sn_Properties Lineage SnapshotID Created] in *; try done.
  - lia.
  - unfold IsZero, zeroTime in *. lia.
  - by exists d.
  - intros p [->| ->]%Hrows _; (split; [split; [done|by left]|]; cbn [pr_Name pr_Value]; rewrite !elem_of_cons; auto).
  - intros k v [?|[?|[]%elem_of_nil]%elem_of_cons]%elem_of_cons; simplify_eq;
      eexists; rewrite Hrows; eauto.
  - unfold localRows. rewrite <- list_fmap_compose. apply (NoDup_filter ownershipKey), NoDup_fst_map_to_list.
Qed.
Lemma NewMetadata_owned_witness :
  let lineage := "11111111-1111-4111-8111-111111111111" in
  ∃ m, NewMetadata lineage (Date 2024 2 29 7 5 9 123) (Ok (seqZ 240 16)) = Ok m ∧
    let name := "tank/data" +:+ "@" +:+ Name m in
    Ownership (mkSnapshot name 7 (localRows name (metadataProperties m)) [] [] false) lineage = Ok m.
Proof.
  eexists. split; [vm_compute; reflexivity|].
  apply (NewMetadata_owned _ (Date 2024 2 29 7 5 9 123) (seqZ 240 16)); [vm_compute; reflexivity|done| |done|done].
  apply Forall_forall. intros b Hb. apply elem_of_seqZ in Hb. lia.
Defined.

(** [Adopt] returns a lineage exactly when some snapshot proves it and no
    snapshot proves another. *)
Theorem Adopt_unique snapshots lineage :
  Adopt snapshots = Ok lineage ↔
  (∃ s m, s ∈ snapshots ∧ Owned s lineage m) ∧
  (∀ s l m, s ∈ snapshots → Owned s l m → l = lineage).
Proof.
  assert (∀ v, v ∈ snapshots ≫= provenLineages ↔ ∃ s m, s ∈ snapshots ∧ Owned s v m) as Hel.
  { intros v. rewrite list_elem_of_bind. setoid_rewrite provenLineages_spec. naive_solver. }
  assert (Forall (λ v, v ≠ "") (snapshots ≫= provenLineages)) as Hne.
  { apply Forall_forall. intros v (s & m & _ & Ho)%Hel. by apply ValidID_not_empty, (owned_valid _ _ _ Ho). }
  unfold Adopt. rewrite Adopt_proven, bind_Ok. setoid_rewrite (oneLineage_fold _ _ _ Hne). split.
  - intros (l & [[_ ->]|(Hnn & Hall & _)] & Hf); [done|]. case_hyps.
    destruct (snapshots ≫= provenLineages) as [|v vs] eqn:Ev; [done|].
    assert (v = lineage) as -> by (apply Hall; set_solver). split; [apply Hel; set_solver|].
    intros s l m Hs Ho. apply Hall, Hel. eauto.
  - intros [Hex Hall]. assert (lineage ∈ snapshots ≫= provenLineages) as Hin by by apply Hel.
    exists lineage. split.
    + right. split_and!; [by intros E; rewrite E in Hin; apply elem_of_nil in Hin| |by left].
      intros v (s & m & ? & ?)%Hel. eauto.
    + rewrite (proj2 (eqb_str_false lineage "")); [done|]. rewrite Forall_forall in Hne. by apply Hne.
Qed.
