(* ===== verification/Prune.v ===== *)
(** Retention: internal/lifecycle/prune.go. [PlanPrune] decides, for every
    snapshot of one dataset, whether the grid lets it be destroyed. *)

From Stdlib Require Import Ascii.
From S2P Require Import Prelude GoStrings GoTime Grid Names Zfs Ownership.

Record Decision := mkDecision {
  de_Snapshot : string;
  de_GUID : Z;
  de_Destroy : bool;
  de_Reason : string
}.

(** The local type of [PlanPrune]. *)
Record candidate := mkCandidate { ca_snapshot : Snapshot; ca_created : Time; ca_owned : bool }.

(** The first loop: scope and duplicate checks, ownership, the anchor. *)
Definition collect (dataset lineage : string) (st : gset string * Time * list candidate) (s : Snapshot)
  : result (gset string * Time * list candidate) :=
  let '(seen, anchor, items) := st in
  if negb (HasPrefix (sn_Name s) (dataset +:+ "@")) || bool_decide (sn_Name s ∈ seen)
  then Err (Errorf ("duplicate or out-of-scope snapshot " +:+ Quote (sn_Name s)))
  else
    let item := match Ownership s lineage with
                | Ok m => mkCandidate s (Created m) true
                | Err _ => mkCandidate s zeroTime false
                end in
    let anchor := if ca_owned item && (anchor <? ca_created item) then ca_created item else anchor in
    Ok ({[sn_Name s]} ∪ seen, anchor, items ++ [item]).

(** The order of the first [slices.SortFunc]. *)
Definition candidateLe (a b : candidate) : Prop :=
  ca_created a < ca_created b ∨
  (ca_created a = ca_created b ∧ String.le (sn_Name (ca_snapshot a)) (sn_Name (ca_snapshot b))).
#[export] Instance candidateLe_dec : RelDecision candidateLe.
Proof. intros a b. unfold candidateLe. apply _. Defined.

(** The index of the last owned item, counting from [i]; [newest] if none is. *)
Fixpoint lastOwned (i newest : Z) (items : list candidate) : Z :=
  match items with
  | [] => newest
  | c :: items => lastOwned (i + 1) (if ca_owned c then i else newest) items
  end.

(** The loop over the buckets: the window an age falls in, as the bucket's index
    and the window's index in it. *)
Fixpoint window (group : Z) (offset age : Duration) (bs : list Bucket) : option (Z * Z) :=
  match bs with
  | [] => None
  | b :: bs =>
    let end_ := wrap64 (offset + wrap64 (Count b * Span b)) in
    if (offset <=? age) && (age <? end_) then Some (group, Z.quot (age - offset) (Span b))
    else window (group + 1) end_ age bs
  end.

(** The body of the decision loop for item [i]. *)
Definition decideItem (anchor : Time) (bs : list Bucket) (newest i : Z) (winners : gset (Z * Z)) (item : candidate)
  : gset (Z * Z) * Decision :=
  let s := ca_snapshot item in
  if negb (ca_owned item) then
    (winners, mkDecision (sn_Name s) (sn_GUID s) false "foreign or unproven ownership")
  else
    let age := Sub anchor (ca_created item) in
    let '(winners, destroy, reason) :=
      match window 0 0 age bs with
      | None => (winners, true, "older than retention grid")
      | Some key =>
        if decide (key ∈ winners) then (winners, true, "newer duplicate in retention window")
        else ({[key]} ∪ winners, false, "oldest snapshot in retention window")
      end in
    let '(destroy, reason) := if i =? newest then (false, "newest owned snapshot") else (destroy, reason) in
    let '(destroy, reason) := match sn_Holds s with [] => (destroy, reason) | _ => (false, "snapshot has holds") end in
    let '(destroy, reason) := match sn_Clones s with [] => (destroy, reason) | _ => (false, "snapshot has clones") end in
    let '(destroy, reason) :=
      if sn_ResumeRequired s then (false, "snapshot is required by resumable receive") else (destroy, reason) in
    (winners, mkDecision (sn_Name s) (sn_GUID s) destroy reason).

Fixpoint decideItems (anchor : Time) (bs : list Bucket) (newest i : Z) (winners : gset (Z * Z)) (items : list candidate)
  : list Decision :=
  match items with
  | [] => []
  | item :: items =>
    let '(winners, d) := decideItem anchor bs newest i winners item in
    d :: decideItems anchor bs newest (i + 1) winners items
  end.

Definition decisionLe (a b : Decision) : Prop := String.le (de_Snapshot a) (de_Snapshot b).
#[export] Instance decisionLe_dec : RelDecision decisionLe.
Proof. intros a b. unfold decisionLe. apply _. Defined.

Definition PlanPrune (dataset lineage : string) (grid : Grid) (snapshots : list Snapshot) : result (list Decision) :=
  _ ← ValidateDataset dataset;
  if negb (ValidID lineage) || (Cadence grid <=? 0)
  then Err (Errorf "valid lineage and grid are required") else
  '(_, anchor, items) ← foldM (collect dataset lineage) (∅, zeroTime, []) snapshots;
  let items := merge_sort candidateLe items in
  let newest := lastOwned 0 (-1) items in
  Ok (merge_sort decisionLe (decideItems anchor (Buckets grid) newest 0 ∅ items)).

(** The loop of [SnapshotDue]. *)
Definition newestOwned (dataset lineage : string) (newest : Time) (s : Snapshot) : result Time :=
  if negb (HasPrefix (sn_Name s) (dataset +:+ "@"))
  then Err (Errorf ("out-of-scope snapshot " +:+ Quote (sn_Name s)))
  else match Ownership s lineage with
       | Ok m => Ok (if newest <? Created m then Created m else newest)
       | Err _ => Ok newest
       end.

Definition SnapshotDue (now : Time) (dataset lineage : string) (grid : Grid) (snapshots : list Snapshot) : result bool :=
  _ ← ValidateDataset dataset;
  if negb (ValidID lineage) || (Cadence grid <=? 0) || IsZero now
  then Err (Errorf "valid time, lineage, and grid are required") else
  newest ← foldM (newestOwned dataset lineage) zeroTime snapshots;
  Ok (IsZero newest || (Cadence grid <? Sub now newest)).

(** * Windows *)

(** Without the wrap-around: where [age] falls in [bs] placed from [offset]. *)
Fixpoint windowZ (group offset age : Z) (bs : list Bucket) : option (Z * Z) :=
  match bs with
  | [] => None
  | b :: bs =>
    if age <? offset + Count b * Span b then Some (group, (age - offset) / Span b)
    else windowZ (group + 1) (offset + Count b * Span b) age bs
  end.

(** On a well formed grid nothing wraps. *)
Lemma window_windowZ bs : ∀ group offset age,
  Forall bucket_wf bs → 0 ≤ offset → offset + total bs ≤ maxInt64 → offset ≤ age →
  window group offset age bs = windowZ group offset age bs.
Proof.
  induction bs as [|b bs IH]; intros group offset age Hwf Ho Ht Ha; [done|].
  apply Forall_cons in Hwf as [(Hc & Hs & _) Hwf]. pose proof (total_nonneg bs Hwf) as Hn.
  cbn [total] in Ht. assert (0 < Count b * Span b) as Hp by nia.
  cbn [window windowZ]. rewrite (wrap64_id (Count b * Span b)) by (unfold minInt64; lia).
  rewrite wrap64_id by (unfold minInt64; lia). destruct (Z.leb_spec offset age); [|lia].
  destruct (Z.ltb_spec age (offset + Count b * Span b)); cbn [andb].
  - rewrite Z.quot_div_nonneg by lia. done.
  - apply IH; [done|lia..].
Qed.

Lemma windowZ_none bs : ∀ group offset age,
  Forall bucket_wf bs → offset ≤ age → windowZ group offset age bs = None ↔ offset + total bs ≤ age.
Proof.
  induction bs as [|b bs IH]; intros group offset age Hwf Ha; cbn [windowZ total]; [split; [lia|done]|].
  apply Forall_cons in Hwf as [(Hc & Hs & _) Hwf]. pose proof (total_nonneg bs Hwf) as Hn.
  destruct (Z.ltb_spec age (offset + Count b * Span b)).
  - split; [done|lia].
  - rewrite IH by (done || lia). lia.
Qed.

Lemma windowZ_group bs : ∀ group offset age k,
  windowZ group offset age bs = Some k → group ≤ k.1.
Proof.
  induction bs as [|b bs IH]; intros group offset age k; cbn; [done|].
  destruct (age <? _); [intros [= <-]; cbn; lia|]. intros H%IH. lia.
Qed.

(** Two ages in one window differ by less than the span of its bucket. *)
Lemma windowZ_same bs : ∀ group offset a1 a2 k,
  Forall bucket_wf bs → offset ≤ a1 → offset ≤ a2 →
  windowZ group offset a1 bs = Some k → windowZ group offset a2 bs = Some k →
  ∃ b, b ∈ bs ∧ Z.abs (a1 - a2) < Span b.
Proof.
  induction bs as [|b bs IH]; intros group offset a1 a2 k Hwf H1 H2; cbn [windowZ]; [done|].
  apply Forall_cons in Hwf as [(Hc & Hs & _) Hwf].
  destruct (Z.ltb_spec a1 (offset + Count b * Span b)), (Z.ltb_spec a2 (offset + Count b * Span b)); intros E1 E2.
  - exists b. split; [set_solver|]. assert ((a1 - offset) / Span b = (a2 - offset) / Span b) as Hq by congruence.
    pose proof (Z.mod_pos_bound (a1 - offset) (Span b)). pose proof (Z.mod_pos_bound (a2 - offset) (Span b)).
    pose proof (Z.div_mod (a1 - offset) (Span b)). pose proof (Z.div_mod (a2 - offset) (Span b)). nia.
  - apply windowZ_group in E2. simplify_eq. cbn in E2. lia.
  - apply windowZ_group in E1. simplify_eq. cbn in E1. lia.
  - destruct (IH (group + 1) (offset + Count b * Span b) a1 a2 k) as (b' & ? & ?); [done..|]. exists b'. set_solver.
Qed.

(** * The first loop *)

Definition created (lineage : string) (s : Snapshot) : option Time :=
  match Ownership s lineage with Ok m => Some (Created m) | Err _ => None end.

Definition cand (lineage : string) (s : Snapshot) : candidate :=
  match created lineage s with
  | Some c => mkCandidate s c true
  | None => mkCandidate s zeroTime false
  end.

Definition newer (lineage : string) (anchor : Time) (s : Snapshot) : Time :=
  match created lineage s with Some c => Z.max anchor c | None => anchor end.

(** The newest creation time of the owned snapshots. *)
Definition latest (lineage : string) (snapshots : list Snapshot) : Time :=
  fold_left (newer lineage) snapshots zeroTime.

Lemma collect_Ok dataset lineage seen anchor items s st :
  collect dataset lineage (seen, anchor, items) s = Ok st →
  sn_Name s ∉ seen ∧ st = ({[sn_Name s]} ∪ seen, newer lineage anchor s, items ++ [cand lineage s]).
Proof.
  unfold collect, newer, cand, created. intros H. destruct (negb _ || _) eqn:E; [done|].
  apply orb_false_iff in E as [_ Hs%bool_decide_eq_false]. split; [done|].
  injection H as <-. destruct (Ownership s lineage) as [m|]; cbn; [|done].
  do 2 f_equal. destruct (Z.ltb_spec anchor (Created m)); lia.
Qed.

Lemma collects_Ok dataset lineage snaps : ∀ seen anchor items seen' anchor' items',
  foldM (collect dataset lineage) (seen, anchor, items) snaps = Ok (seen', anchor', items') →
  NoDup (sn_Name <$> snaps) ∧ (∀ s, s ∈ snaps → sn_Name s ∉ seen) ∧
  anchor' = fold_left (newer lineage) snaps anchor ∧ items' = items ++ (cand lineage <$> snaps).
Proof.
  induction snaps as [|s snaps IH]; intros seen anchor items seen' anchor' items'; cbn [foldM].
  { intros [= <- <- <-]. rewrite app_nil_r. split_and!; [constructor|set_solver|done|done]. }
  destruct (collect _ _ _ s) as [st|] eqn:Ec; cbn [mbind result_bind]; [|done].
  apply collect_Ok in Ec as [Hs ->]. intros (Hnd & Hns & -> & ->)%IH. split_and!.
  - cbn. constructor; [|done]. intros (s' & Hs' & Hin)%list_elem_of_fmap. apply Hns in Hin. set_solver.
  - intros s' [->|Hs']%elem_of_cons; [done|]. apply Hns in Hs'. set_solver.
  - done.
  - by rewrite <- app_assoc.
Qed.

(** * The decision loop *)

Definition unprotected (s : Snapshot) : Prop :=
  sn_Holds s = [] ∧ sn_Clones s = [] ∧ sn_ResumeRequired s = false.

Definition itemWindow (anchor : Time) (bs : list Bucket) (item : candidate) : option (Z * Z) :=
  if ca_owned item then window 0 0 (Sub anchor (ca_created item)) bs else None.

Lemma decideItem_spec anchor bs newest i W item W' d :
  decideItem anchor bs newest i W item = (W', d) →
  de_Snapshot d = sn_Name (ca_snapshot item) ∧ de_GUID d = sn_GUID (ca_snapshot item) ∧
  (∀ k, k ∈ W' ↔ k ∈ W ∨ itemWindow anchor bs item = Some k) ∧
  (de_Destroy d = true ↔ ca_owned item = true ∧ unprotected (ca_snapshot item) ∧ i ≠ newest ∧
    ∀ k, itemWindow anchor bs item = Some k → k ∈ W).
Proof.
  unfold decideItem, itemWindow, unprotected. intros H.
  destruct (ca_owned item); cbn [negb] in H; [|simplify_eq; naive_solver].
  assert (∃ ds rs, (W', d) = (W', mkDecision (sn_Name (ca_snapshot item)) (sn_GUID (ca_snapshot item)) ds rs)) as (ds & rs & [= ->]).
  { case_hyps; eauto. }
  split_and!; [done|done| |].
  - intros k. case_hyps; set_solver.
  - cbn. destruct (Z.eqb_spec i newest); case_hyps; naive_solver.
Qed.

(** Every decision is about one item, knowing the windows of the items before. *)
Lemma decideItems_spec anchor bs newest items : ∀ i W d,
  d ∈ decideItems anchor bs newest i W items →
  ∃ pre item post, items = pre ++ item :: post ∧
    de_Snapshot d = sn_Name (ca_snapshot item) ∧ de_GUID d = sn_GUID (ca_snapshot item) ∧
    (de_Destroy d = true ↔ ca_owned item = true ∧ unprotected (ca_snapshot item) ∧
      i + Z.of_nat (length pre) ≠ newest ∧
      ∀ k, itemWindow anchor bs item = Some k →
        k ∈ W ∨ ∃ item', item' ∈ pre ∧ itemWindow anchor bs item' = Some k).
Proof.
  induction items as [|item items IH]; intros i W d; cbn [decideItems]; [by intros []%elem_of_nil|].
  destruct (decideItem _ _ _ i W item) as [W' d'] eqn:Ed. apply decideItem_spec in Ed as (E1 & E2 & EW & ED).
  intros [->|Hd]%elem_of_cons.
  - exists [], item, items. split_and!; [done..|]. rewrite ED. cbn [length]. rewrite Z.add_0_r. set_solver.
  - apply IH in Hd as (pre & it & post & -> & H1 & H2 & H3). exists (item :: pre), it, post.
    split_and!; [done..|]. rewrite H3. cbn [length].
    replace (i + 1 + Z.of_nat (length pre)) with (i + Z.of_nat (S (length pre))) by lia.
    split; intros (? & ? & ? & Hk); (split_and!; [done..|]); intros k Hw; specialize (Hk k Hw).
    + rewrite EW in Hk. destruct Hk as [[?|?]|(it' & ? & ?)]; [by left|right..]; eexists; split;
        [by apply list_elem_of_here|done|by apply list_elem_of_further|done].
    + rewrite EW. destruct Hk as [?|(it' & [->|?]%elem_of_cons & ?)]; eauto.
Qed.

Lemma decideItems_names anchor bs newest items : ∀ i W,
  (λ d, (de_Snapshot d, de_GUID d)) <$> decideItems anchor bs newest i W items
  = (λ c, (sn_Name (ca_snapshot c), sn_GUID (ca_snapshot c))) <$> items.
Proof.
  induction items as [|item items IH]; intros i W; cbn [decideItems]; [done|].
  destruct (decideItem _ _ _ i W item) as [W' d'] eqn:Ed. apply decideItem_spec in Ed as (E1 & E2 & _).
  cbn. by rewrite E1, E2, IH.
Qed.

(** [lastOwned] is the position of the last owned item. *)
Lemma lastOwned_spec items : ∀ i n pre item post,
  items = pre ++ item :: post → n < i → ca_owned item = true →
  i + Z.of_nat (length pre) = lastOwned i n items ↔ Forall (λ c, ca_owned c = false) post.
Proof.
  assert (∀ post i n, n < i → (lastOwned i n post = n ↔ Forall (λ c, ca_owned c = false) post)
            ∧ (lastOwned i n post = n ∨ i ≤ lastOwned i n post)) as Hpost.
  { induction post as [|c post IH]; intros i n Hn; cbn [lastOwned]; [split; [naive_solver|by left]|].
    destruct (ca_owned c) eqn:Ec.
    - destruct (IH (i + 1) i) as [_ H]; [lia|]. split; [|lia]. split; [lia|].
      intros [? _]%Forall_cons. congruence.
    - destruct (IH (i + 1) n) as [H1 H2]; [lia|]. split; [|lia]. rewrite H1, Forall_cons. naive_solver. }
  induction items as [|c items IH]; intros i n [|c' pre] item post E Hn Ho; simplify_eq/=.
  - rewrite Z.add_0_r, Ho. destruct (Hpost post (i + 1) i) as [H _]; [lia|]. rewrite <- H. split; congruence.
  - rewrite <- (IH (i + 1) (if ca_owned c' then i else n) pre item post); [|done|destruct (ca_owned c'); lia|done].
    replace (i + Z.of_nat (S (length pre))) with (i + 1 + Z.of_nat (length pre)) by lia. done.
Qed.

(** * The decision, without the order of the loops *)

(** [s] comes strictly before [s'] among the owned snapshots of the lineage. *)
Definition before (lineage : string) (s s' : Snapshot) : Prop :=
  ∃ c c', created lineage s = Some c ∧ created lineage s' = Some c' ∧
    (c < c' ∨ (c = c' ∧ sn_Name s ≠ sn_Name s' ∧ String.le (sn_Name s) (sn_Name s'))).

(** The retention window of an owned snapshot. *)
Definition windowOf (lineage : string) (grid : Grid) (snaps : list Snapshot) (s : Snapshot) : option (Z * Z) :=
  c ← created lineage s; window 0 0 (Sub (latest lineage snaps) c) (Buckets grid).

(** What the grid lets go: an owned, unprotected snapshot that is not the newest
    and is not the oldest of its window. *)
Record Prunable (lineage : string) (grid : Grid) (snaps : list Snapshot) (s : Snapshot) : Prop := {
  prunable_owned : is_Some (created lineage s);
  prunable_unprotected : unprotected s;
  prunable_not_newest : ∃ s', s' ∈ snaps ∧ before lineage s s';
  prunable_not_oldest : ∀ k, windowOf lineage grid snaps s = Some k →
    ∃ s', s' ∈ snaps ∧ before lineage s' s ∧ windowOf lineage grid snaps s' = Some k
}.

Lemma cand_snapshot lineage s : ca_snapshot (cand lineage s) = s.
Proof. unfold cand. by destruct (created lineage s). Qed.

Lemma cand_owned lineage s : ca_owned (cand lineage s) = true ↔ is_Some (created lineage s).
Proof. unfold cand. destruct (created lineage s); cbn; [|split; [done|by intros []]]. split; eauto. Qed.

Lemma cand_window lineage grid snaps s :
  itemWindow (latest lineage snaps) (Buckets grid) (cand lineage s) = windowOf lineage grid snaps s.
Proof. unfold itemWindow, windowOf, cand. by destruct (created lineage s). Qed.

Lemma candidateLe_before lineage s s' :
  is_Some (created lineage s) → is_Some (created lineage s') → sn_Name s ≠ sn_Name s' →
  candidateLe (cand lineage s) (cand lineage s') → before lineage s s'.
Proof.
  unfold candidateLe, cand, before. intros [c ->] [c' ->] Hn. cbn. intros H. exists c, c'. split_and!; [done..|]. naive_solver.
Qed.

Lemma before_asym lineage s s' : before lineage s s' → before lineage s' s → False.
Proof.
  intros (c & c' & E1 & E2 & H) (d & d' & E3 & E4 & H'). simplify_eq.
  destruct H as [?|(-> & Hn & ?)], H' as [?|(? & _ & ?)]; try lia. by destruct Hn; apply (anti_symm String.le).
Qed.

#[export] Instance before_dec lineage : RelDecision (before lineage).
Proof.
  intros s s'. unfold before. destruct (created lineage s) as [c|]; [|right; by intros (? & ? & ? & _)].
  destruct (created lineage s') as [c'|]; [|right; by intros (? & ? & ? & ? & _)].
  destruct (decide (c < c' ∨ (c = c' ∧ sn_Name s ≠ sn_Name s' ∧ String.le (sn_Name s) (sn_Name s')))) as [H|H].
  - left. eauto 10.
  - right. intros (? & ? & [= <-] & [= <-] & ?). done.
Defined.

Lemma before_trans lineage a b c : before lineage a b → before lineage b c → before lineage a c.
Proof.
  intros (x & y & E1 & E2 & H) (y' & z & E3 & E4 & H'). simplify_eq. exists x, z. split_and!; [done..|].
  destruct H as [?|(-> & Hn & Hle)], H' as [?|(-> & Hn' & Hle')]; try (left; lia). right.
  split_and!; [done| |by etrans]. intros E. destruct Hn. apply (anti_symm String.le); [done|]. by rewrite E.
Qed.

#[export] Instance candidateLe_trans : Transitive candidateLe.
Proof.
  intros a b c. unfold candidateLe. intros [?|[? ?]] [?|[? ?]]; try (left; lia). right. split; [lia|]. by etrans.
Qed.
#[export] Instance candidateLe_total : Total candidateLe.
Proof.
  intros a b. unfold candidateLe. destruct (Z.lt_trichotomy (ca_created a) (ca_created b)) as [?|[->|?]]; [auto| |auto].
  destruct (base.total String.le (sn_Name (ca_snapshot a)) (sn_Name (ca_snapshot b))); auto.
Qed.

(** The sorted items split at one of them. *)
Lemma sorted_split lineage snaps pre item post :
  NoDup (sn_Name <$> snaps) → merge_sort candidateLe (cand lineage <$> snaps) = pre ++ item :: post →
  ∃ s, s ∈ snaps ∧ item = cand lineage s ∧
    (∀ s', s' ∈ snaps → is_Some (created lineage s) → is_Some (created lineage s') →
      (cand lineage s' ∈ pre ↔ before lineage s' s) ∧ (cand lineage s' ∈ post ↔ before lineage s s')) ∧
    (∀ c, c ∈ pre ++ post → ∃ s', s' ∈ snaps ∧ c = cand lineage s').
Proof.
  intros Hnd E.
  assert (cand lineage <$> snaps ≡ₚ pre ++ item :: post) as HP by (rewrite <- E; symmetry; apply merge_sort_Permutation).
  assert (StronglySorted candidateLe (pre ++ item :: post)) as HS by (rewrite <- E; apply StronglySorted_merge_sort; apply _).
  assert (∀ c, c ∈ pre ++ item :: post ↔ ∃ s', c = cand lineage s' ∧ s' ∈ snaps) as Hin.
  { intros c. rewrite <- HP. apply list_elem_of_fmap. }
  destruct (proj1 (Hin item)) as (s & -> & Hs); [set_solver|]. exists s. split_and!; [done..| |].
  - assert (NoDup ((λ c, sn_Name (ca_snapshot c)) <$> pre ++ cand lineage s :: post)) as Hnd'.
    { rewrite <- HP, <- list_fmap_compose. erewrite list_fmap_ext; [exact Hnd|].
      intros i x _. cbn. by rewrite cand_snapshot. }
    rewrite fmap_app, fmap_cons, cand_snapshot in Hnd'. apply NoDup_app in Hnd' as (_ & Hd1 & [Hd2 _]%NoDup_cons).
    apply StronglySorted_app in HS as (Hle & _ & HS). apply StronglySorted_cons in HS as [Hpost _].
    intros s' Hs' Ho Ho'. rewrite Forall_forall in Hpost.
    assert (cand lineage s' ∈ pre → before lineage s' s) as A1.
    { intros H. apply candidateLe_before; [done..| |apply Hle; set_solver]. intros En.
      apply (Hd1 (sn_Name s)); [|set_solver]. apply list_elem_of_fmap. exists (cand lineage s'). by rewrite cand_snapshot. }
    assert (cand lineage s' ∈ post → before lineage s s') as A2.
    { intros H. apply candidateLe_before; [done..| |by apply Hpost]. intros En.
      apply Hd2, list_elem_of_fmap. exists (cand lineage s'). by rewrite cand_snapshot. }
    assert (cand lineage s' ∈ pre ∨ s' = s ∨ cand lineage s' ∈ post) as Hcase.
    { assert (cand lineage s' ∈ pre ++ cand lineage s :: post) as H by (apply Hin; eauto).
      apply elem_of_app in H as [?|[H|?]%elem_of_cons]; [auto| |auto].
      apply (f_equal ca_snapshot) in H. rewrite !cand_snapshot in H. auto. }
    pose proof (before_asym lineage) as Hasym. split; split; [done| |done|]; intros Hb;
      destruct Hcase as [?|[->|?]]; naive_solver.
  - intros c Hc. destruct (proj1 (Hin c)) as (s' & -> & ?); [set_solver|]. eauto.
Qed.

Lemma PlanPrune_Ok dataset lineage grid snaps ds :
  PlanPrune dataset lineage grid snaps = Ok ds →
  NoDup (sn_Name <$> snaps) ∧
  (λ d, (de_Snapshot d, de_GUID d)) <$> ds ≡ₚ (λ s, (sn_Name s, sn_GUID s)) <$> snaps ∧
  ∀ d, d ∈ ds → ∃ s, s ∈ snaps ∧ de_Snapshot d = sn_Name s ∧ de_GUID d = sn_GUID s ∧
    (de_Destroy d = true ↔ Prunable lineage grid snaps s).
Proof.
  unfold PlanPrune. intros H. apply bind_Ok in H as ([] & _ & H).
  destruct (negb _ || _); [done|]. apply bind_Ok in H as ([[seen anchor] items] & Hc & [= <-]).
  apply collects_Ok in Hc as (Hnd & _ & -> & ->). fold (latest lineage snaps). cbn [app].
  split_and!; [done| |].
  - rewrite merge_sort_Permutation, decideItems_names, merge_sort_Permutation, <- list_fmap_compose.
    apply Permutation_refl', list_fmap_ext. intros i s _. cbn. by rewrite cand_snapshot.
  - intros d Hd. rewrite merge_sort_Permutation in Hd.
    apply decideItems_spec in Hd as (pre & item & post & E & H1 & H2 & H3).
    pose proof (lastOwned_spec _ 0 (-1) pre item post E ltac:(lia)) as Hlast.
    apply sorted_split in E as (s & Hs & -> & Hb & Hin); [|done].
    rewrite cand_snapshot in *. exists s. split_and!; [done..|]. rewrite H3, cand_owned. split.
    + intros (Ho & Hu & Hn & Hw). rewrite cand_owned in Hlast. rewrite (Hlast Ho) in Hn. constructor; [done..| |].
      * apply not_Forall_Exists, Exists_exists in Hn as (c & Hc & Hco); [|apply _].
        destruct (Hin c) as (s' & Hs' & ->); [set_solver|]. exists s'. split; [done|].
        apply Hb; [done..| |done]. apply cand_owned. by apply not_false_iff_true.
      * intros k Hk. rewrite <- cand_window in Hk. destruct (Hw k Hk) as [?|(c & Hc & Hcw)]; [set_solver|].
        destruct (Hin c) as (s' & Hs' & ->); [set_solver|]. exists s'. rewrite <- cand_window. split_and!; [done| |done].
        apply Hb; [done..| |done]. unfold itemWindow in Hcw. apply cand_owned. by destruct (ca_owned (cand lineage s')).
    + intros [Ho Hu (s' & Hs' & Hbs) Hw]. rewrite cand_owned in Hlast. rewrite (Hlast Ho).
      assert (∀ x y, before lineage x y → is_Some (created lineage x) ∧ is_Some (created lineage y)) as Hsome.
      { intros x y (c & c' & -> & -> & _). eauto. }
      split_and!; [done..| |].
      * intros Hall. rewrite Forall_forall in Hall. destruct (Hsome _ _ Hbs) as [_ Ho'].
        assert (cand lineage s' ∈ post) as Hp by (by apply Hb). apply Hall in Hp.
        apply cand_owned in Ho'. congruence.
      * intros k Hk. right. rewrite cand_window in Hk. destruct (Hw k Hk) as (s1 & Hs1 & Hb1 & Hw1).
        exists (cand lineage s1). rewrite cand_window. split; [|done]. destruct (Hsome _ _ Hb1). by apply Hb.
Qed.

(** * Consequences *)

Lemma latest_max lineage snaps s c : s ∈ snaps → created lineage s = Some c → c ≤ latest lineage snaps.
Proof.
  unfold latest. intros Hs Hc.
  assert (∀ l a, a ≤ fold_left (newer lineage) l a) as Hmono.
  { induction l as [|x l IH]; intros a; cbn; [lia|]. etrans; [|apply IH]. unfold newer. case_match; lia. }
  revert Hs. generalize zeroTime. induction snaps as [|x snaps IH]; intros a; [by intros []%elem_of_nil|].
  intros [->|Hs]%elem_of_cons; cbn; [|by apply IH]. etrans; [|apply Hmono]. unfold newer. rewrite Hc. lia.
Qed.

Lemma Year_nonneg t : 1 ≤ Year t → 0 ≤ t.
Proof.
  unfold Year. destruct (yearOf (t / day)) as [y yd] eqn:E. cbn. intros Hy.
  apply yearOf_spec in E as [E Hyd]. assert (0 ≤ daysBeforeYear y) as Hd.
  { unfold daysBeforeYear. assert ((y - 1) / 100 ≤ (y - 1) / 4).
    { apply Z.div_le_compat_l; lia. } pose proof (Z.div_pos (y - 1) 400). lia. }
  assert (0 ≤ t / day) by lia. apply Z.nlt_ge. intros Hneg.
  assert (t / day < 0) by (apply Z.div_lt_upper_bound; unfold day, hour, minute, second; lia). lia.
Qed.

Lemma created_range lineage s c : created lineage s = Some c → 0 < c.
Proof.
  unfold created. destruct (Ownership s lineage) as [m|] eqn:E; [|done]. intros [= <-].
  apply Ownership_Ok in E. pose proof (Year_nonneg (Created m)). pose proof (owned_created _ _ _ E).
  pose proof (owned_year _ _ _ E). unfold zeroTime in *. lia.
Qed.

(** The saturating difference places an owned snapshot as the exact age does. *)
Lemma windowOf_exact lineage grid snaps s c :
  grid_wf grid → s ∈ snaps → created lineage s = Some c →
  windowOf lineage grid snaps s = windowZ 0 0 (latest lineage snaps - c) (buckets grid).
Proof.
  intros (_ & _ & Hwf & Hh & Hmax & _) Hs Hc. unfold windowOf, Buckets. rewrite Hc. cbn [mbind option_bind].
  pose proof (latest_max _ _ _ _ Hs Hc). set (age := latest lineage snaps - c) in *.
  pose proof (total_nonneg _ Hwf).
  assert (0 ≤ Sub (latest lineage snaps) c) by (unfold Sub, minInt64, maxInt64; lia).
  rewrite window_windowZ by (done || lia).
  destruct (Z.le_gt_cases age maxInt64) as [Hle|Hgt].
  - f_equal. unfold Sub, minInt64. lia.
  - trans (@None (Z * Z)); [|symmetry]; apply windowZ_none; unfold Sub, minInt64 in *; lia || done.
Qed.

(** Each snapshot has its decision. *)
Lemma PlanPrune_decides dataset lineage grid snaps ds s :
  PlanPrune dataset lineage grid snaps = Ok ds → s ∈ snaps →
  ∃ d, d ∈ ds ∧ de_Snapshot d = sn_Name s ∧ de_GUID d = sn_GUID s ∧
    (de_Destroy d = true ↔ Prunable lineage grid snaps s).
Proof.
  intros (Hnd & HP & Hd)%PlanPrune_Ok Hs.
  assert ((sn_Name s, sn_GUID s) ∈ (λ d, (de_Snapshot d, de_GUID d)) <$> ds) as Hin.
  { rewrite HP. apply list_elem_of_fmap. eauto. }
  apply list_elem_of_fmap in Hin as (d & [= E1 E2] & Hin). exists d. split_and!; [done..|].
  destruct (Hd d Hin) as (s' & Hs' & E3 & _ & ->).
  assert (s' = s) as ->; [|done]. apply list_elem_of_lookup in Hs as [i Hi], Hs' as [j Hj].
  assert (i = j) as <-; [|congruence].
  apply (NoDup_lookup _ i j (sn_Name s) Hnd); rewrite list_lookup_fmap; [by rewrite Hi|].
  rewrite Hj. cbn. congruence.
Qed.

Lemma created_Owned lineage s c : created lineage s = Some c ↔ ∃ m, Owned s lineage m ∧ Created m = c.
Proof.
  unfold created. split.
  - destruct (Ownership s lineage) as [m|] eqn:E; [|done]. intros [= <-]. exists m. split; [|done]. by apply Ownership_Ok.
  - intros (m & Hm & <-). by rewrite (Ownership_complete _ _ _ Hm).
Qed.

Lemma before_le lineage s s' c c' :
  before lineage s s' → created lineage s = Some c → created lineage s' = Some c' → c ≤ c'.
Proof. intros (x & y & -> & -> & H) [= <-] [= <-]. lia. Qed.

Lemma before_some lineage s s' :
  before lineage s s' → is_Some (created lineage s) ∧ is_Some (created lineage s').
Proof. intros (x & y & -> & -> & _). eauto. Qed.

(** Below a snapshot of a window is one of that window which the grid keeps. *)
Lemma window_winner lineage grid snaps s k :
  s ∈ snaps → windowOf lineage grid snaps s = Some k →
  ∃ w, w ∈ snaps ∧ windowOf lineage grid snaps w = Some k ∧ (w = s ∨ before lineage w s)
    ∧ ¬ Prunable lineage grid snaps w.
Proof.
  intros Hs Hk.
  destruct (minimal_in (before lineage) (λ s, windowOf lineage grid snaps s = Some k) snaps) with (x := s)
    as (w & Hw & Hwk & Hle & Hmin); [apply before_asym|apply before_trans|done..|].
  exists w. split_and!; [done..|]. intros [_ _ _ Hold]. destruct (Hold k Hwk) as (s' & ? & ? & ?). by eapply Hmin.
Qed.

(** Above an owned snapshot is an owned one which no snapshot follows. *)
Lemma newest_above lineage snaps s :
  s ∈ snaps → is_Some (created lineage s) →
  ∃ w, w ∈ snaps ∧ (w = s ∨ before lineage s w) ∧ is_Some (created lineage w)
    ∧ ∀ grid snaps', snaps' ⊆ snaps → ¬ Prunable lineage grid snaps' w.
Proof.
  intros Hs Ho. destruct (minimal_in (flip (before lineage)) (λ _, True) snaps) with (x := s)
    as (w & Hw & _ & Hle & Hmin); [|by intros ??? H1 H2; eapply before_trans|done..|].
  { intros a b H1 H2. by eapply before_asym. }
  exists w. split_and!; [done..| |].
  - destruct Hle as [->|Hb]; [done|]. by apply before_some in Hb as [_ ?].
  - intros grid snaps' Hsub [_ _ (s' & Hs' & Hb) _]. eapply (Hmin s'); [by apply Hsub|done|exact Hb].
Qed.

(** What a decision to destroy establishes. *)
Lemma PlanPrune_destroys dataset lineage grid snaps ds d :
  PlanPrune dataset lineage grid snaps = Ok ds → d ∈ ds → de_Destroy d = true →
  ∃ s m, s ∈ snaps ∧ de_Snapshot d = sn_Name s ∧ de_GUID d = sn_GUID s ∧ Owned s lineage m ∧ unprotected s ∧
  ∃ d' s' m', d' ∈ ds ∧ s' ∈ snaps ∧ de_Snapshot d' = sn_Name s' ∧ de_Destroy d' = false ∧
    Owned s' lineage m' ∧ Created m ≤ Created m'.
Proof.
  intros HP Hd Hdes. destruct (PlanPrune_Ok _ _ _ _ _ HP) as (_ & _ & Hall).
  destruct (Hall d Hd) as (s & Hs & E1 & E2 & Hiff). apply Hiff in Hdes as [[c Hc] Hu _ _].
  destruct (proj1 (created_Owned _ _ _) Hc) as (m & Hm & <-). exists s, m. split_and!; [done..|].
  destruct (newest_above lineage snaps s Hs) as (w & Hw & Hle & [cw Hcw] & Hkept); [by eexists|].
  destruct (PlanPrune_decides _ _ _ _ _ w HP Hw) as (d' & Hd' & E3 & _ & Hiff').
  destruct (proj1 (created_Owned _ _ _) Hcw) as (m' & Hm' & <-). exists d', w, m'. split_and!; [done..| |done|].
  - apply not_true_iff_false. rewrite Hiff'. by apply Hkept.
  - destruct Hle as [->|Hb]; [|by eapply before_le].
    rewrite Hc in Hcw. injection Hcw as ->. lia.
Qed.

(** C19: [PlanPrune] destroys only snapshots that are proven to belong to the
    lineage and that no hold, clone or resumable receive needs, and it keeps an
    owned snapshot at least as new as any it destroys. *)
Theorem PlanPrune_safe dataset lineage grid snaps ds d :
  PlanPrune dataset lineage grid snaps = Ok ds → d ∈ ds → de_Destroy d = true →
  ∃ s m, s ∈ snaps ∧ de_Snapshot d = sn_Name s ∧ de_GUID d = sn_GUID s ∧ Owned s lineage m ∧ unprotected s ∧
  ∃ d' s' m', d' ∈ ds ∧ s' ∈ snaps ∧ de_Snapshot d' = sn_Name s' ∧ de_Destroy d' = false ∧
    Owned s' lineage m' ∧ Created m ≤ Created m'.
Proof. apply PlanPrune_destroys. Qed.

(** C12: nothing inside the retention horizon is lost: a destroyed snapshot is
    either older than the whole grid, or an owned snapshot of its own window,
    at most one span of that window's bucket older, is kept. *)
Theorem PlanPrune_retention dataset lineage grid snaps ds d s m :
  grid_wf grid → PlanPrune dataset lineage grid snaps = Ok ds → d ∈ ds → de_Destroy d = true →
  s ∈ snaps → de_Snapshot d = sn_Name s → Owned s lineage m →
  Horizon grid ≤ latest lineage snaps - Created m ∨
  ∃ d' s' m' b, d' ∈ ds ∧ s' ∈ snaps ∧ de_Snapshot d' = sn_Name s' ∧ de_Destroy d' = false ∧
    Owned s' lineage m' ∧ b ∈ Buckets grid ∧ Created m' ≤ Created m < Created m' + Span b ∧
    windowOf lineage grid snaps s' = windowOf lineage grid snaps s.
Proof.
  intros Hwf HP Hd Hdes Hs En Hm.
  assert (created lineage s = Some (Created m)) as Hc by (apply created_Owned; eauto).
  pose proof (latest_max _ _ _ _ Hs Hc) as Hmax. pose proof (windowOf_exact _ _ _ _ _ Hwf Hs Hc) as Hex.
  pose proof Hwf as (_ & _ & Hbs & Hh & _). unfold Horizon, Buckets.
  destruct (windowZ 0 0 (latest lineage snaps - Created m) (buckets grid)) as [k|] eqn:Ek.
  2: { left. apply windowZ_none in Ek; [|done|lia]. lia. }
  right. destruct (window_winner _ _ _ _ _ Hs Hex) as (w & Hw & Hwk & Hle & Hkept).
  assert (is_Some (created lineage w)) as [cw Hcw].
  { unfold windowOf in Hwk. destruct (created lineage w); [by eexists|done]. }
  destruct (PlanPrune_decides _ _ _ _ _ w HP Hw) as (d' & Hd' & E3 & _ & Hiff').
  destruct (proj1 (created_Owned _ _ _) Hcw) as (m' & Hm' & <-).
  pose proof (latest_max _ _ _ _ Hw Hcw) as Hmaxw. pose proof Hwk as Hwk'. rewrite (windowOf_exact _ _ _ _ _ Hwf Hw Hcw) in Hwk'.
  destruct (windowZ_same (buckets grid) 0 0 (latest lineage snaps - Created m) (latest lineage snaps - Created m') k)
    as (b & Hb & Hdiff); [done|lia|lia|done..|].
  exists d', w, m', b. split_and!; try done.
  - apply not_true_iff_false. by rewrite Hiff'.
  - destruct Hle as [->|Hbf]; [|by eapply before_le]. rewrite Hc in Hcw. injection Hcw as ->. lia.
  - lia.
  - by rewrite Hwk.
Qed.

(** The snapshots a plan leaves. *)
Definition kept (ds : list Decision) (snaps : list Snapshot) : list Snapshot :=
  filter (λ s, (sn_Name s) ∉ (de_Snapshot <$> filter (λ d, de_Destroy d = true) ds)) snaps.

Lemma PlanPrune_names dataset lineage grid snaps ds :
  PlanPrune dataset lineage grid snaps = Ok ds → NoDup (de_Snapshot <$> ds).
Proof.
  intros (Hnd & Hperm & _)%PlanPrune_Ok.
  assert (fst <$> ((λ d, (de_Snapshot d, de_GUID d)) <$> ds) ≡ₚ fst <$> ((λ s, (sn_Name s, sn_GUID s)) <$> snaps)) as HF
    by (by rewrite Hperm). rewrite <- !list_fmap_compose in HF. unfold compose in HF. cbn in HF. by rewrite HF.
Qed.

Lemma kept_spec dataset lineage grid snaps ds s :
  PlanPrune dataset lineage grid snaps = Ok ds → s ∈ kept ds snaps ↔ s ∈ snaps ∧ ¬ Prunable lineage grid snaps s.
Proof.
  intros HP. unfold kept. rewrite list_elem_of_filter, list_elem_of_fmap. setoid_rewrite list_elem_of_filter.
  pose proof (PlanPrune_Ok _ _ _ _ _ HP) as (Hnd & Hperm & Hall). split.
  - intros [Hn Hs]. split; [done|]. intros Hp. destruct (PlanPrune_decides _ _ _ _ _ s HP Hs) as (d & Hd & E & _ & Hiff).
    apply Hn. exists d. split_and!; [done| |done]. by apply Hiff.
  - intros [Hs Hn]. split; [|done]. intros (d & E & Hdes & Hd). apply Hn.
    destruct (PlanPrune_decides _ _ _ _ _ s HP Hs) as (d' & Hd' & E' & _ & <-).
    assert (d' = d) as ->; [|done]. apply list_elem_of_lookup in Hd as [i Hi], Hd' as [j Hj].
    assert (i = j) as <-; [|congruence].
    pose proof (PlanPrune_names _ _ _ _ _ HP) as Hnds.
    apply (NoDup_lookup _ i j (sn_Name s) Hnds); rewrite list_lookup_fmap; [rewrite Hi|rewrite Hj]; cbn; congruence.
Qed.

Lemma latest_attained lineage snaps :
  latest lineage snaps = 0 ∨ ∃ s, s ∈ snaps ∧ created lineage s = Some (latest lineage snaps).
Proof.
  unfold latest. change 0 with zeroTime. generalize zeroTime.
  induction snaps as [|x l IH]; intros a; cbn; [by left|]. destruct (IH (newer lineage a x)) as [E|(s & ? & ?)]; [|right; set_solver].
  rewrite E. unfold newer. destruct (created lineage x) as [c|] eqn:Ec; [|by left].
  destruct (Z.max_spec a c) as [[_ ->]|[_ ->]]; [right; exists x; set_solver|by left].
Qed.

Lemma latest_nonneg lineage snaps : 0 ≤ latest lineage snaps.
Proof.
  destruct (latest_attained lineage snaps) as [->|(s & _ & E)]; [lia|]. apply created_range in E. lia.
Qed.

(** Dropping snapshots the grid lets go changes the verdict on none of the rest. *)
Section Stable.
Context (lineage : string) (grid : Grid) (snaps sub : list Snapshot).
Context (Hsub : ∀ s, s ∈ sub → s ∈ snaps) (Hkeep : ∀ s, s ∈ snaps → ¬ Prunable lineage grid snaps s → s ∈ sub).

Lemma latest_stable : latest lineage sub = latest lineage snaps.
Proof using All.
  apply Z.le_antisymm.
  - destruct (latest_attained lineage sub) as [->|(s & Hs & E)]; [apply latest_nonneg|]. eapply latest_max; [|exact E]. by apply Hsub.
  - destruct (latest_attained lineage snaps) as [->|(s & Hs & E)]; [apply latest_nonneg|].
    destruct (newest_above lineage snaps s Hs) as (w & Hw & Hle & [cw Hcw] & Hk); [by eexists|].
    trans cw; [|eapply latest_max; [|exact Hcw]; by apply Hkeep; [|apply Hk]].
    destruct Hle as [->|Hb]; [|by eapply before_le]. rewrite E in Hcw. injection Hcw as ->. lia.
Qed.

Lemma windowOf_stable s : windowOf lineage grid sub s = windowOf lineage grid snaps s.
Proof using All. unfold windowOf. by rewrite latest_stable. Qed.

Lemma Prunable_stable s : Prunable lineage grid sub s ↔ Prunable lineage grid snaps s.
Proof using All.
  split; (intros [Ho Hu (s' & Hs' & Hb) Hw]; constructor; [done..| |]).
  - exists s'. split; [by apply Hsub|done].
  - intros k Hk. rewrite <- windowOf_stable in Hk. destruct (Hw k Hk) as (w & Hw1 & Hw2 & Hw3).
    exists w. rewrite <- windowOf_stable. split_and!; [by apply Hsub|done..].
  - destruct (newest_above lineage snaps s' Hs') as (w & Hw1 & Hle & Hown & Hk); [by apply before_some in Hb as [_ ?]|].
    exists w. split; [by apply Hkeep; [|apply Hk]|]. destruct Hle as [->|Hb']; [done|by eapply before_trans].
  - intros k Hk. rewrite windowOf_stable in Hk. destruct (Hw k Hk) as (w & Hw1 & Hw2 & Hw3).
    destruct (window_winner _ _ _ _ _ Hw1 Hw3) as (v & Hv1 & Hv2 & Hle & Hv3). exists v. rewrite windowOf_stable.
    split_and!; [by apply Hkeep| |done]. destruct Hle as [->|Hb']; [done|by eapply before_trans].
Qed.
End Stable.

Lemma collects_prefix dataset lineage snaps st st' s :
  foldM (collect dataset lineage) st snaps = Ok st' → s ∈ snaps → HasPrefix (sn_Name s) (dataset +:+ "@") = true.
Proof.
  revert st. induction snaps as [|x snaps IH]; intros [[seen anchor] items]; [by intros _ []%elem_of_nil|].
  cbn [foldM]. destruct (collect _ _ _ x) as [st1|] eqn:Ec; cbn [mbind result_bind]; [|done].
  intros H [->|Hs]%elem_of_cons; [|by eapply IH]. unfold collect in Ec.
  destruct (HasPrefix (sn_Name x) _); [done|]. cbn in Ec. done.
Qed.

Lemma collects_total dataset lineage snaps : ∀ seen anchor items,
  NoDup (sn_Name <$> snaps) → (∀ s, s ∈ snaps → HasPrefix (sn_Name s) (dataset +:+ "@") = true ∧ sn_Name s ∉ seen) →
  is_ok (foldM (collect dataset lineage) (seen, anchor, items) snaps) = true.
Proof.
  induction snaps as [|s snaps IH]; intros seen anchor items Hnd Hall; [done|].
  cbn in Hnd. apply NoDup_cons in Hnd as [Hn Hnd]. destruct (Hall s ltac:(set_solver)) as [Hp Hs].
  cbn [foldM]. unfold collect at 2. rewrite Hp, bool_decide_false by done. cbn [negb orb mbind result_bind].
  apply IH; [done|]. intros s' Hs'. destruct (Hall s' ltac:(set_solver)) as [? ?]. split; [done|].
  intros [E%elem_of_singleton|?]%elem_of_union; [|done]. apply Hn, list_elem_of_fmap. eauto.
Qed.

Lemma PlanPrune_is_ok dataset lineage grid snaps :
  ValidateDataset dataset = Ok tt → ValidID lineage = true → 0 < Cadence grid →
  NoDup (sn_Name <$> snaps) → (∀ s, s ∈ snaps → HasPrefix (sn_Name s) (dataset +:+ "@") = true) →
  ∃ ds, PlanPrune dataset lineage grid snaps = Ok ds.
Proof.
  intros Hd Hl Hc Hnd Hp. unfold PlanPrune. rewrite Hd, Hl. cbn [mbind result_bind negb orb].
  destruct (Z.leb_spec (Cadence grid) 0); [lia|].
  pose proof (collects_total dataset lineage snaps ∅ zeroTime [] Hnd) as Ht.
  destruct (foldM _ _ snaps) as [[[seen anchor] items]|]; cbn; [by eexists|].
  discriminate Ht. intros s Hs. split; [by apply Hp|set_solver].
Qed.

#[export] Instance decisionLe_trans : Transitive decisionLe.
Proof. intros a b c. unfold decisionLe. by intros; etrans. Qed.
#[export] Instance decisionLe_total : Total decisionLe.
Proof. intros a b. unfold decisionLe. apply (base.total String.le). Qed.

(** On snapshots of the dataset with distinct names [PlanPrune] always
    answers, with one decision per snapshot, ordered by name. *)
Theorem PlanPrune_total dataset lineage grid snaps :
  ValidateDataset dataset = Ok tt → ValidID lineage = true → 0 < Cadence grid →
  NoDup (sn_Name <$> snaps) → (∀ s, s ∈ snaps → HasPrefix (sn_Name s) (dataset +:+ "@") = true) →
  ∃ ds, PlanPrune dataset lineage grid snaps = Ok ds ∧
    (λ d, (de_Snapshot d, de_GUID d)) <$> ds ≡ₚ (λ s, (sn_Name s, sn_GUID s)) <$> snaps ∧
    StronglySorted decisionLe ds.
Proof.
  intros Hd Hl Hc Hnd Hp. destruct (PlanPrune_is_ok _ _ _ _ Hd Hl Hc Hnd Hp) as [ds HP].
  exists ds. split_and!; [done|by apply PlanPrune_Ok in HP as (_ & ? & _)|].
  unfold PlanPrune in HP. rewrite Hd in HP. cbn [mbind result_bind] in HP. destruct (negb _ || _); [done|].
  apply bind_Ok in HP as ([[? ?] ?] & _ & [= <-]). apply StronglySorted_merge_sort; apply _.
Qed.

(** A plan exists for every part of a planned set. *)
Lemma PlanPrune_sub dataset lineage grid snaps ds (P : Snapshot → Prop) `{HPd : !∀ s, base.Decision (P s)} :
  PlanPrune dataset lineage grid snaps = Ok ds → ∃ ds', PlanPrune dataset lineage grid (filter P snaps) = Ok ds'.
Proof.
  intros H. unfold PlanPrune in H. apply bind_Ok in H as ([] & Hd & H). destruct (negb _ || _) eqn:E; [done|].
  rewrite orb_false_iff, negb_false_iff in E. apply bind_Ok in H as ([[? ?] ?] & Hc & _).
  apply PlanPrune_is_ok; [done|tauto|lia| |].
  - apply collects_Ok in Hc as (Hnd & _). by apply NoDup_fmap_filter.
  - intros s [_ Hs]%list_elem_of_filter. by eapply collects_prefix.
Qed.

(** Pruning is idempotent: what a plan leaves, planned again, loses
    nothing. *)
Theorem PlanPrune_idempotent dataset lineage grid snaps ds :
  PlanPrune dataset lineage grid snaps = Ok ds →
  ∃ ds', PlanPrune dataset lineage grid (kept ds snaps) = Ok ds' ∧ ∀ d, d ∈ ds' → de_Destroy d = false.
Proof.
  intros HP. pose proof (λ s, kept_spec _ _ _ _ _ s HP) as Hk.
  destruct (PlanPrune_sub _ _ _ _ _ (λ s, (sn_Name s) ∉ (de_Snapshot <$> filter (λ d, de_Destroy d = true) ds)) HP) as [ds' HP'].
  exists ds'. split; [done|]. intros d Hd. apply not_true_iff_false.
  apply PlanPrune_Ok in HP' as (_ & _ & Hall). destruct (Hall d Hd) as (s & Hs & _ & _ & ->).
  rewrite (Prunable_stable lineage grid snaps); [by apply Hk in Hs as [_ ?]|by intros s' [? _]%Hk|]. intros s' ??. by apply Hk.
Qed.

Lemma newestOwned_fold dataset lineage snaps : ∀ a n,
  foldM (newestOwned dataset lineage) a snaps = Ok n → n = fold_left (newer lineage) snaps a.
Proof.
  induction snaps as [|s snaps IH]; intros a n; cbn [foldM]; [by intros [= <-]|].
  unfold newestOwned at 2. destruct (negb _); [done|]. cbn [fold_left]. unfold newer at 2, created.
  destruct (Ownership s lineage) as [m|]; cbn [mbind result_bind]; intros H%IH; subst; [|done].
  f_equal. destruct (Z.ltb_spec a (Created m)); lia.
Qed.

(** A snapshot is due exactly when every owned snapshot is older than one
    cadence; with none, at once. Missed ticks do not accumulate. *)
Theorem SnapshotDue_iff now dataset lineage grid snaps due :
  grid_wf grid → SnapshotDue now dataset lineage grid snaps = Ok due →
  due = true ↔ ∀ s m, s ∈ snaps → Owned s lineage m → Created m + Cadence grid < now.
Proof.
  intros Hwf H. unfold SnapshotDue in H. apply bind_Ok in H as ([] & _ & H).
  destruct (negb _ || _ || _) eqn:E; [done|]. apply bind_Ok in H as (n & Hn & [= <-]).
  apply newestOwned_fold in Hn. fold (latest lineage snaps) in Hn. subst n.
  assert (Cadence grid < maxInt64 ∧ 0 < Cadence grid) as [Hc1 Hc2].
  { pose proof (grid_cadence_lt _ Hwf). lia. }
  assert (∀ s m, s ∈ snaps → Owned s lineage m → Created m ≤ latest lineage snaps ∧ 0 < latest lineage snaps) as Hmax.
  { intros s m Hs Hm. assert (created lineage s = Some (Created m)) as Hc by (apply created_Owned; eauto).
    pose proof (latest_max _ _ _ _ Hs Hc). pose proof (created_range _ _ _ Hc). lia. }
  rewrite orb_true_iff. unfold IsZero, zeroTime. rewrite Z.eqb_eq, Z.ltb_lt. split.
  - intros Hd s m Hs Hm. specialize (Hmax s m Hs Hm). unfold Sub, minInt64 in Hd. lia.
  - intros Hall. destruct (latest_attained lineage snaps) as [->|(s & Hs & (m & Hm & E')%created_Owned)]; [by left|].
    specialize (Hall s m Hs Hm). right. unfold Sub, minInt64. lia.
Qed.

(** * Witnesses *)

Definition witnessLineage : string := "11111111-1111-4111-8111-111111111111".
Definition witnessSnapshot (now : Time) (b : Z) : Snapshot :=
  match NewMetadata witnessLineage now (Ok (seqZ b 16)) with
  | Ok m => let name := "tank/data@" +:+ Name m in
            mkSnapshot name (b + 1) (localRows name (metadataProperties m)) [] [] false
  | Err _ => mkSnapshot "" 0 [] [] [] false
  end.
(** Two snapshots in one window of the grid, and the newest. *)
Definition witnessSnapshots : list Snapshot :=
  [witnessSnapshot (Date 2024 1 1 0 1 0 0) 1; witnessSnapshot (Date 2024 1 1 0 2 0 0) 2;
   witnessSnapshot (Date 2024 1 1 2 0 0 0) 3].
Definition witnessGrid : Grid := mkGrid [mkBucket 24 hour] "24x1h" (24 * hour).
Lemma witnessGrid_wf : grid_wf witnessGrid.
Proof.
  split_and!; [done|repeat constructor|repeat constructor|done|by vm_compute|done].
Qed.
Definition witnessPlan : list Decision :=
  match PlanPrune "tank/data" witnessLineage witnessGrid witnessSnapshots with Ok ds => ds | Err _ => [] end.
Lemma witnessPlan_Ok : PlanPrune "tank/data" witnessLineage witnessGrid witnessSnapshots = Ok witnessPlan.
Proof. by vm_compute. Qed.
Definition witnessMetadata (now : Time) (b : Z) : Metadata :=
  match NewMetadata witnessLineage now (Ok (seqZ b 16)) with Ok m => m | Err _ => emptyMetadata end.
Lemma witness_owned :
  Owned (witnessSnapshot (Date 2024 1 1 0 2 0 0) 2) witnessLineage (witnessMetadata (Date 2024 1 1 0 2 0 0) 2).
Proof. apply Ownership_Ok. by vm_compute. Qed.
(** The second snapshot's decision: a newer duplicate, destroyed. *)
Definition witnessDestroyed : Decision :=
  mkDecision (sn_Name (witnessSnapshot (Date 2024 1 1 0 2 0 0) 2)) 3 true "newer duplicate in retention window".
Lemma witnessDestroyed_in : witnessDestroyed ∈ witnessPlan.
Proof. apply list_elem_of_lookup. exists 1%nat. by vm_compute. Qed.

Lemma PlanPrune_safe_witness : ∃ s, s ∈ witnessSnapshots ∧ de_Snapshot witnessDestroyed = sn_Name s ∧ unprotected s.
Proof.
  destruct (PlanPrune_safe _ _ _ _ _ _ witnessPlan_Ok witnessDestroyed_in eq_refl) as (s & m & H1 & H2 & _ & _ & H3 & _).
  exact (ex_intro _ s (conj H1 (conj H2 H3))).
Defined.

Lemma PlanPrune_retention_witness :
  ∃ d', d' ∈ witnessPlan ∧ de_Destroy d' = false.
Proof.
  destruct (PlanPrune_retention "tank/data" witnessLineage witnessGrid witnessSnapshots witnessPlan witnessDestroyed
    (witnessSnapshot (Date 2024 1 1 0 2 0 0) 2) (witnessMetadata (Date 2024 1 1 0 2 0 0) 2)
    witnessGrid_wf witnessPlan_Ok witnessDestroyed_in eq_refl) as [H|(d' & s' & m' & b & H1 & _ & _ & H2 & _)].
  - apply list_elem_of_further, list_elem_of_here.
  - reflexivity.
  - apply witness_owned.
  - vm_compute in H. by destruct H.
  - exact (ex_intro _ d' (conj H1 H2)).
Defined.

Lemma PlanPrune_total_witness :
  ∃ ds, PlanPrune "tank/data" witnessLineage witnessGrid witnessSnapshots = Ok ds ∧ StronglySorted decisionLe ds.
Proof.
  destruct (PlanPrune_total "tank/data" witnessLineage witnessGrid witnessSnapshots) as (ds & H1 & _ & H2).
  - by vm_compute.
  - by vm_compute.
  - by vm_compute.
  - apply (bool_decide_unpack _). by vm_compute.
  - intros s Hs. unfold witnessSnapshots in Hs. repeat (apply elem_of_cons in Hs as [->|Hs]; [by vm_compute|]).
    by apply elem_of_nil in Hs.
  - exact (ex_intro _ ds (conj H1 H2)).
Defined.

Lemma PlanPrune_idempotent_witness :
  ∃ ds', PlanPrune "tank/data" witnessLineage witnessGrid (kept witnessPlan witnessSnapshots) = Ok ds' ∧ ∀ d, d ∈ ds' → de_Destroy d = false.
Proof. apply (PlanPrune_idempotent _ _ _ _ _ witnessPlan_Ok). Defined.

Lemma SnapshotDue_iff_witness :
  true = true ↔ ∀ s m, s ∈ witnessSnapshots → Owned s witnessLineage m → Created m + Cadence witnessGrid < Date 2024 1 1 3 0 0 1.
Proof.
  apply (SnapshotDue_iff (Date 2024 1 1 3 0 0 1) "tank/data"); [apply witnessGrid_wf|by vm_compute].
Defined.
