(* ===== verification/Queue.v ===== *)
(** The fair queue: internal/daemon/queue.go. The mutex makes each method one
    atomic step on the state, so a method is a function of the queue. A blocked
    [Pop] is the answer [Wait]; the channel [notify] only wakes such callers. Go
    iterates the group map in any order, so the methods that iterate take the
    order as an argument. *)

From S2P Require Import Prelude GoStrings Names.

(** [daemonstate.QueueSnapshot]. *)
Record QueueSnapshot := mkQueueSnapshot { qs_Capacity : Z; qs_Pending : Z; qs_IDs : list string }.

(** A job; the closures [Run], [After] and [Drop] are named by numbers, and
    [None] is the nil closure. *)
Record Job := mkJob {
  ID : string;
  RunID : Z;
  Group : string;
  Scope : string;
  LockKey : string;
  LockScope : string;
  StartState : string;
  Run : option nat;
  After : option nat;
  Drop : option nat
}.
#[export] Instance Job_eq_dec : EqDecision Job.
Proof. solve_decision. Defined.

Record FairQueue := mkFairQueue {
  capacity : Z;
  count : Z;
  groups : gmap string (list Job);
  order : list string;
  ids : gset string;
  closed : bool
}.

Record queueChange := mkQueueChange { offered : option Job; dropped : list Job; reason : string }.

Definition NewFairQueue (capacity : Z) : result FairQueue :=
  if capacity <? 1 then Err (Errorf "queue capacity must be positive")
  else Ok (mkFairQueue capacity 0 ∅ [] ∅ false).

(** [q.groups[group]]: nil when the key is missing. *)
Definition jobsOf (gs : gmap string (list Job)) (group : string) : list Job := default [] (gs !! group).

(** The loop of [snapshotLocked]; indexing an empty slice would panic, which is
    [None]. Every round takes one job, so [count] is enough fuel. *)
Fixpoint snapshotIDs (fuel : nat) (gs : gmap string (list Job)) (order : list string) : option (list string) :=
  match order with
  | [] => Some []
  | group :: order =>
    match fuel with
    | O => None
    | S fuel =>
      match jobsOf gs group with
      | [] => None
      | [job] => cons (ID job) <$> snapshotIDs fuel gs order
      | job :: jobs => cons (ID job) <$> snapshotIDs fuel (<[group := jobs]> gs) (order ++ [group])
      end
    end
  end.
Definition snapshotLocked (q : FairQueue) : option QueueSnapshot :=
  mkQueueSnapshot (capacity q) (count q) <$> snapshotIDs (Z.to_nat (count q)) (groups q) (order q).

Definition Snapshot (q : FairQueue) : option QueueSnapshot := snapshotLocked q.

(** What [observe] is called with, when a method calls it. *)
Definition observation : Type := option QueueSnapshot * queueChange.

Definition Offer (q : FairQueue) (job : Job) : result bool * FairQueue * list observation :=
  if (ID job =? "")%string || (RunID job =? 0) || (Group job =? "")%string || (Scope job =? "")%string
     || bool_decide (Run job = None)
  then (Err (Errorf "complete queue job metadata is required"), q, [])
  else if closed q then (Err (Errorf "queue is closed"), q, [])
  else if bool_decide (ID job ∈ ids q) then (Ok false, q, [])
  else if capacity q <=? count q
  then (Err (Errorf ("queue capacity " +:+ Itoa (capacity q) +:+ " reached")), q, [])
  else
    let order' := match jobsOf (groups q) (Group job) with [] => order q ++ [Group job] | _ => order q end in
    let groups' := <[Group job := jobsOf (groups q) (Group job) ++ [job]]> (groups q) in
    let q := mkFairQueue (capacity q) (count q + 1) groups' order' ({[ID job]} ∪ ids q) (closed q) in
    (Ok true, q, [(snapshotLocked q, mkQueueChange (Some job) [] "")]).

Inductive popped : Type :=
| Popped (job : Job) (q : FairQueue) (obs : list observation)
| PopClosed
| PopWait
| PopPanic.

(** One pass of the loop of [Pop]. *)
Definition Pop (q : FairQueue) : popped :=
  if 0 <? count q then
    match order q with
    | [] => PopPanic
    | group :: order' =>
      match jobsOf (groups q) group with
      | [] => PopPanic
      | job :: jobs =>
        let '(groups', order') :=
          match jobs with
          | [] => (delete group (groups q), order')
          | _ => (<[group := jobs]> (groups q), order' ++ [group])
          end in
        let q := mkFairQueue (capacity q) (count q - 1) groups' order' (ids q ∖ {[ID job]}) (closed q) in
        Popped job q [(snapshotLocked q, mkQueueChange None [] "")]
      end
    end
  else if closed q then PopClosed else PopWait.

(** One round of the loop of [RemoveScope], for one group. *)
Definition removeGroup (scope : string) (st : FairQueue * list Job) (group : string) : FairQueue * list Job :=
  let '(q, drops) := st in
  let jobs := jobsOf (groups q) group in
  let out := filter (λ j, Scope j = scope) jobs in
  let keep := filter (λ j, Scope j ≠ scope) jobs in
  let ids' := ids q ∖ list_to_set (ID <$> out) in
  let count' := count q - Z.of_nat (length out) in
  let '(groups', order') :=
    match keep with
    | [] => (delete group (groups q), filter (λ c, c ≠ group) (order q))
    | _ => (<[group := keep]> (groups q), order q)
    end in
  (mkFairQueue (capacity q) count' groups' order' ids' (closed q), drops ++ out).

(** The queue after [RemoveScope], its result, what is observed, and the
    closures [Drop] it calls, when the groups are iterated in the order [iter]. *)
Definition RemoveScope (q : FairQueue) (scope why : string) (iter : list string)
  : FairQueue * Z * list observation * list nat :=
  let '(q, drops) := fold_left (removeGroup scope) iter (q, []) in
  let obs := match drops with [] => [] | _ => [(snapshotLocked q, mkQueueChange None drops why)] end in
  (q, Z.of_nat (length drops), obs, omap Drop drops).

Definition DiscardAll (q : FairQueue) (why : string) (iter : list string)
  : FairQueue * Z * list observation * list nat :=
  let drops := iter ≫= jobsOf (groups q) in
  let q := mkFairQueue (capacity q) 0 ∅ [] ∅ (closed q) in
  let obs := match drops with [] => [] | _ => [(snapshotLocked q, mkQueueChange None drops why)] end in
  (q, Z.of_nat (length drops), obs, omap Drop drops).

Definition Close (q : FairQueue) : FairQueue :=
  if closed q then q else mkFairQueue (capacity q) (count q) (groups q) (order q) (ids q) true.

(** * The invariant *)

(** The pending jobs, group by group. *)
Definition pendingIn (gs : gmap string (list Job)) (order : list string) : list Job := order ≫= jobsOf gs.
Definition pending (q : FairQueue) : list Job := pendingIn (groups q) (order q).

Record queue_wf (q : FairQueue) : Prop := {
  wf_order : NoDup (order q);
  wf_dom : ∀ g, g ∈ order q ↔ is_Some (groups q !! g);
  wf_groups : ∀ g js, groups q !! g = Some js → js ≠ [] ∧ Forall (λ j, Group j = g) js;
  wf_count : count q = Z.of_nat (length (pending q));
  wf_ids : ids q = list_to_set (ID <$> pending q);
  wf_unique : NoDup (ID <$> pending q);
  wf_capacity : count q ≤ capacity q
}.

Lemma pendingIn_ext gs gs' o :
  (∀ g, g ∈ o → jobsOf gs g = jobsOf gs' g) → pendingIn gs o = pendingIn gs' o.
Proof.
  unfold pendingIn. induction o as [|g o IH]; intros H; [done|]. rewrite !bind_cons.
  rewrite (H g) by set_solver. f_equal. apply IH. set_solver.
Qed.

Lemma jobsOf_insert gs g js : jobsOf (<[g := js]> gs) g = js.
Proof. unfold jobsOf. by rewrite lookup_insert_eq. Qed.
Lemma jobsOf_insert_ne gs g h js : g ≠ h → jobsOf (<[g := js]> gs) h = jobsOf gs h.
Proof. intros. unfold jobsOf. by rewrite lookup_insert_ne. Qed.
Lemma jobsOf_delete_ne gs g h : g ≠ h → jobsOf (delete g gs) h = jobsOf gs h.
Proof. intros. unfold jobsOf. by rewrite lookup_delete_ne. Qed.
#[export] Hint Rewrite jobsOf_insert : bz.

Lemma pendingIn_insert gs o g js : g ∉ o → pendingIn (<[g := js]> gs) o = pendingIn gs o.
Proof. intros H. apply pendingIn_ext. intros h Hh. apply jobsOf_insert_ne. by intros ->. Qed.
Lemma pendingIn_delete gs o g : g ∉ o → pendingIn (delete g gs) o = pendingIn gs o.
Proof. intros H. apply pendingIn_ext. intros h Hh. apply jobsOf_delete_ne. by intros ->. Qed.
Lemma pendingIn_app gs o1 o2 : pendingIn gs (o1 ++ o2) = pendingIn gs o1 ++ pendingIn gs o2.
Proof. apply bind_app. Qed.
Lemma pendingIn_cons gs g o : pendingIn gs (g :: o) = jobsOf gs g ++ pendingIn gs o.
Proof. apply bind_cons. Qed.

(** One group in front, the rest behind. *)
Lemma pendingIn_focus gs o g :
  NoDup o → g ∈ o → pendingIn gs o ≡ₚ jobsOf gs g ++ pendingIn gs (filter (λ c, c ≠ g) o).
Proof.
  induction o as [|h o IH]; [by intros _ []%elem_of_nil|]. intros [Hh Hnd]%NoDup_cons Hg.
  rewrite pendingIn_cons, filter_cons. destruct (decide (h ≠ g)) as [Hne|Heq].
  - rewrite pendingIn_cons, IH by (done || set_solver). rewrite Permutation_app_swap_app. done.
  - assert (h = g) as -> by (destruct (decide (h = g)); tauto).
    rewrite (list_filter_all _ o); [done|]. apply Forall_forall. intros x Hx ->. done.
Qed.

Lemma not_elem_filter (g : string) (o : list string) : g ∉ filter (λ c, c ≠ g) o.
Proof. intros [? _]%list_elem_of_filter. done. Qed.

Lemma jobsOf_elem q g : queue_wf q → g ∈ order q → groups q !! g = Some (jobsOf (groups q) g) ∧ jobsOf (groups q) g ≠ [].
Proof.
  intros Hwf Hg. apply (wf_dom q Hwf) in Hg as [js Hjs]. unfold jobsOf. rewrite Hjs. split; [done|].
  by apply (wf_groups q Hwf) in Hjs as [? _].
Qed.

Lemma jobsOf_not_elem q g : queue_wf q → g ∉ order q → jobsOf (groups q) g = [].
Proof.
  intros Hwf Hg. unfold jobsOf. destruct (groups q !! g) eqn:E; [|done].
  destruct Hg. apply (wf_dom q Hwf). by eexists.
Qed.

Lemma NewFairQueue_wf n q : NewFairQueue n = Ok q → queue_wf q.
Proof.
  unfold NewFairQueue. destruct (Z.ltb_spec n 1); [done|]. intros [= <-]. constructor; cbn; try done.
  - constructor.
  - intros g. rewrite lookup_empty. split; [by intros []%elem_of_nil|by intros []].
  - constructor.
  - lia.
Qed.

(** Replacing the jobs of one group, which is how every method changes a queue:
    the group leaves the order when it has no job left. *)
Definition replaceGroup (gs : gmap string (list Job)) (g : string) (js : list Job) : gmap string (list Job) :=
  match js with [] => delete g gs | _ => <[g := js]> gs end.

Lemma replaceGroup_wf q g js o' i' c' :
  let rest := pendingIn (groups q) (filter (λ c, c ≠ g) (order q)) in
  queue_wf q → Forall (λ j, Group j = g) js →
  o' ≡ₚ (match js with [] => [] | _ => [g] end) ++ filter (λ c, c ≠ g) (order q) →
  NoDup (ID <$> js ++ rest) → c' = Z.of_nat (length (js ++ rest)) → c' ≤ capacity q →
  i' = list_to_set (ID <$> js ++ rest) →
  let q' := mkFairQueue (capacity q) c' (replaceGroup (groups q) g js) o' i' (closed q) in
  queue_wf q' ∧ pending q' ≡ₚ js ++ rest.
Proof.
  intros rest Hwf Hg Ho Hnd Hc Hcap Hi q'.
  assert (pending q' ≡ₚ js ++ rest) as HP.
  { unfold pending, q', pendingIn. cbn. rewrite Ho, bind_app. fold (pendingIn (replaceGroup (groups q) g js)).
    apply Permutation_app.
    - destruct js as [|j js]; [done|]. cbn [replaceGroup]. unfold pendingIn. cbn. by rewrite jobsOf_insert, app_nil_r.
    - unfold rest. apply Permutation_refl'. pose proof (not_elem_filter g (order q)).
      destruct js; [by apply pendingIn_delete|by apply pendingIn_insert]. }
  split; [|done]. constructor; unfold q'; cbn [order groups count ids capacity closed]; fold q'.
  - rewrite Ho. destruct js; cbn; [|constructor; [apply not_elem_filter|]]; apply NoDup_filter, (wf_order q Hwf).
  - intros h. rewrite Ho, elem_of_app, list_elem_of_filter, (wf_dom q Hwf h). destruct js as [|j js]; cbn.
    + destruct (decide (h = g)) as [->|Hne]; [|rewrite lookup_delete_ne by congruence; set_solver].
      rewrite lookup_delete_eq. split; [set_solver|by intros []].
    + destruct (decide (h = g)) as [->|Hne]; [|rewrite lookup_insert_ne by congruence; set_solver].
      rewrite lookup_insert_eq. split; [eauto|set_solver].
  - intros h ks Hks. destruct js as [|j js]; cbn in Hks.
    + apply lookup_delete_Some in Hks as [_ Hks]. by apply (wf_groups q Hwf).
    + apply lookup_insert_Some in Hks as [[<- <-]|[_ Hks]]; [done|]. by apply (wf_groups q Hwf).
  - by rewrite HP.
  - by rewrite HP.
  - by rewrite HP.
  - done.
Qed.

(** The jobs in a queue, with one group in front. *)
Lemma pending_focus q g :
  queue_wf q → pending q ≡ₚ jobsOf (groups q) g ++ pendingIn (groups q) (filter (λ c, c ≠ g) (order q)).
Proof.
  intros Hwf. destruct (decide (g ∈ order q)) as [Hg|Hg].
  - apply pendingIn_focus; [apply (wf_order q Hwf)|done].
  - rewrite jobsOf_not_elem by done. cbn. rewrite list_filter_all; [done|].
    apply Forall_forall. intros x Hx ->. done.
Qed.

Lemma jobsOf_group q g : queue_wf q → Forall (λ j, Group j = g) (jobsOf (groups q) g).
Proof.
  intros Hwf. unfold jobsOf. destruct (groups q !! g) as [js|] eqn:E; [|constructor].
  by apply (wf_groups q Hwf) in E as [_ ?].
Qed.

Lemma order_focus q g :
  queue_wf q → order q ≡ₚ (match jobsOf (groups q) g with [] => [] | _ => [g] end) ++ filter (λ c, c ≠ g) (order q).
Proof.
  intros Hwf. destruct (decide (g ∈ order q)) as [Hg|Hg].
  - destruct (jobsOf_elem q g Hwf Hg) as [_ Hne]. destruct (jobsOf (groups q) g); [done|].
    apply list_elem_of_split in Hg as (o1 & o2 & Ho). pose proof (wf_order q Hwf) as Hnd. rewrite Ho in *.
    apply NoDup_app in Hnd as (_ & Hd & [Hn _]%NoDup_cons).
    rewrite filter_app, filter_cons, decide_False by naive_solver.
    rewrite !list_filter_all; [symmetry; apply (Permutation_middle o1 o2 g)| |]; apply Forall_forall; intros x Hx ->; set_solver.
  - rewrite jobsOf_not_elem by done. cbn. rewrite list_filter_all; [done|].
    apply Forall_forall. intros x Hx ->. done.
Qed.

Lemma Offer_added q job q' obs :
  queue_wf q → Offer q job = (Ok true, q', obs) →
  queue_wf q' ∧ pending q' ≡ₚ job :: pending q ∧ closed q = false ∧ closed q' = false ∧ capacity q' = capacity q.
Proof.
  intros Hwf. unfold Offer. destruct (_ || _ || _ || _ || _); [done|]. destruct (closed q) eqn:Ecl; [done|].
  case_bool_decide as Eid; [done|]. destruct (Z.leb_spec (capacity q) (count q)); [done|]. intros [= <- _].
  pose proof (pending_focus q (Group job) Hwf) as HP. pose proof (order_focus q (Group job) Hwf) as HO.
  pose proof (jobsOf_group q (Group job) Hwf) as HG.
  set (rest := pendingIn _ _) in *. set (js := jobsOf (groups q) (Group job)) in *.
  assert ((js ++ [job]) ++ rest ≡ₚ job :: pending q) as HP' by (rewrite HP; solve_Permutation).
  assert (replaceGroup (groups q) (Group job) (js ++ [job]) = <[Group job := js ++ [job]]> (groups q)) as Hrep by (by destruct js).
  destruct (replaceGroup_wf q (Group job) (js ++ [job])
    (match js with [] => order q ++ [Group job] | _ => order q end) ({[ID job]} ∪ ids q) (count q + 1) Hwf) as [H1 H2].
  - apply Forall_app. split; [done|by repeat constructor].
  - destruct js; cbn in HO |- *; [|done]. rewrite HO at 1. by rewrite Permutation_app_comm.
  - fold rest. rewrite HP'. cbn. constructor; [|apply (wf_unique q Hwf)].
    rewrite (wf_ids q Hwf) in Eid. set_solver.
  - fold rest. rewrite HP'. rewrite (wf_count q Hwf). cbn. lia.
  - lia.
  - fold rest. rewrite HP'. cbn. by rewrite (wf_ids q Hwf).
  - rewrite Hrep, Ecl in *. split_and!; [done| |done..]. etrans; [exact H2|exact HP'].
Qed.

Lemma Pop_popped q job q' obs :
  queue_wf q → Pop q = Popped job q' obs →
  queue_wf q' ∧ pending q ≡ₚ job :: pending q' ∧ count q' = count q - 1 ∧ closed q' = closed q ∧
  capacity q' = capacity q ∧
  ∃ g o js, order q = g :: o ∧ Group job = g ∧ jobsOf (groups q) g = job :: js ∧
    groups q' = replaceGroup (groups q) g js ∧ order q' = o ++ match js with [] => [] | _ => [g] end.
Proof.
  intros Hwf. unfold Pop. destruct (Z.ltb_spec 0 (count q)); [|by destruct (closed q)].
  destruct (order q) as [|g o] eqn:Eo; [done|]. destruct (jobsOf (groups q) g) as [|j js] eqn:Ej; [done|].
  pose proof (pending_focus q g Hwf) as HP. pose proof (jobsOf_group q g Hwf) as HG. rewrite Ej in HP, HG.
  apply Forall_cons in HG as [Hgj HG]. pose proof (wf_order q Hwf) as Hnd. rewrite Eo in Hnd. apply NoDup_cons in Hnd as [Hg Hnd].
  assert (filter (λ c, c ≠ g) (order q) = o) as Hf.
  { rewrite Eo, filter_cons, decide_False by naive_solver. apply list_filter_all, Forall_forall. intros x Hx ->. done. }
  rewrite Hf in HP.
  set (q1 := mkFairQueue (capacity q) (count q - 1) (replaceGroup (groups q) g js)
                (o ++ match js with [] => [] | _ => [g] end) (ids q ∖ {[ID j]}) (closed q)).
  intros H1. assert (job = j ∧ q' = q1) as [-> ->].
  { unfold q1. destruct js; simplify_eq; [by rewrite app_nil_r|done]. }
  pose proof (wf_unique q Hwf) as Hu. rewrite HP in Hu. cbn in Hu. apply NoDup_cons in Hu as [Hj Hu].
  pose proof (wf_capacity q Hwf).
  destruct (replaceGroup_wf q g js (o ++ match js with [] => [] | _ => [g] end) (ids q ∖ {[ID j]}) (count q - 1) Hwf) as [W1 W2].
  - done.
  - rewrite Hf. destruct js; cbn; [by rewrite app_nil_r|by rewrite Permutation_app_comm].
  - by rewrite Hf.
  - rewrite (wf_count q Hwf), HP, Hf. cbn. lia.
  - lia.
  - rewrite Hf, (wf_ids q Hwf), HP. cbn. apply set_eq. intros x. rewrite elem_of_difference, elem_of_union, !elem_of_list_to_set.
    set_solver.
  - split_and!; [done| |done..|by exists g, o, js]. rewrite Hf in W2. fold q1 in W2. rewrite HP. cbn [app]. by rewrite W2.
Qed.

(** A queue of the invariant never panics, and pops while it holds a job. *)
Lemma Pop_progress q :
  queue_wf q →
  if 0 <? count q then ∃ job q' obs, Pop q = Popped job q' obs
  else Pop q = if closed q then PopClosed else PopWait.
Proof.
  intros Hwf. unfold Pop. destruct (Z.ltb_spec 0 (count q)); [|done].
  rewrite (wf_count q Hwf) in H. unfold pending in H. destruct (order q) as [|g o] eqn:Eo; [cbn in H; lia|].
  destruct (jobsOf_elem q g Hwf) as [_ Hne]; [rewrite Eo; set_solver|].
  destruct (jobsOf (groups q) g) as [|j js]; [done|]. destruct js; eauto.
Qed.

Lemma Permutation_filter_split {A} (P : A → Prop) `{!∀ x, Decision (P x)} (l : list A) :
  l ≡ₚ filter P l ++ filter (λ x, ¬ P x) l.
Proof.
  induction l as [|x l IH]; [done|]. rewrite !filter_cons. destruct (decide (P x)) as [Hx|Hx].
  - rewrite (decide_False (P := ¬ P x)) by tauto. cbn. by f_equiv.
  - rewrite (decide_True (P := ¬ P x)) by tauto. rewrite <- Permutation_middle. by f_equiv.
Qed.

Lemma removeGroup_spec scope q drops g q' drops' :
  queue_wf q → removeGroup scope (q, drops) g = (q', drops') →
  queue_wf q' ∧ closed q' = closed q ∧ capacity q' = capacity q ∧
  (∀ h, jobsOf (groups q') h = if decide (h = g) then filter (λ j, Scope j ≠ scope) (jobsOf (groups q) h) else jobsOf (groups q) h) ∧
  drops' = drops ++ filter (λ j, Scope j = scope) (jobsOf (groups q) g) ∧
  pending q ≡ₚ filter (λ j, Scope j = scope) (jobsOf (groups q) g) ++ pending q' ∧ order q' ⊆+ order q.
Proof.
  intros Hwf. unfold removeGroup.
  pose proof (pending_focus q g Hwf) as HP. pose proof (order_focus q g Hwf) as HO. pose proof (jobsOf_group q g Hwf) as HG.
  set (js := jobsOf (groups q) g) in *. set (rest := pendingIn _ _) in *.
  set (out := filter (λ j, Scope j = scope) js). set (keep := filter (λ j, Scope j ≠ scope) js).
  pose proof (Permutation_filter_split (λ j, Scope j = scope) js) as Hs. fold out in Hs.
  change (filter (λ j, ¬ Scope j = scope) js) with keep in Hs.
  set (o' := match keep with [] => filter (λ c, c ≠ g) (order q) | _ => order q end).
  set (q1 := mkFairQueue (capacity q) (count q - Z.of_nat (length out)) (replaceGroup (groups q) g keep)
    o' (ids q ∖ list_to_set (ID <$> out)) (closed q)).
  intros H1. assert (q' = q1 ∧ drops' = drops ++ out) as [-> ->].
  { unfold q1, o'. destruct keep; by simplify_eq. }
  assert (pending q ≡ₚ out ++ keep ++ rest) as HP2 by (rewrite HP, Hs at 1; by rewrite <- app_assoc).
  pose proof (wf_unique q Hwf) as Hu. rewrite HP2, fmap_app in Hu. apply NoDup_app in Hu as (_ & Hdis & Hu).
  pose proof (wf_capacity q Hwf).
  destruct (replaceGroup_wf q g keep o' (ids q ∖ list_to_set (ID <$> out)) (count q - Z.of_nat (length out)) Hwf) as [W1 W2].
  - apply Forall_forall. intros x [_ Hx]%list_elem_of_filter. rewrite Forall_forall in HG. by apply HG.
  - unfold o'. destruct keep as [|k ks] eqn:Ek; [done|]. rewrite HO at 1. destruct js; [|done].
    unfold keep in Ek. done.
  - done.
  - fold rest. rewrite (wf_count q Hwf), HP2, length_app. lia.
  - lia.
  - fold rest. rewrite (wf_ids q Hwf), HP2. apply set_eq. intros x.
    rewrite elem_of_difference, !elem_of_list_to_set, fmap_app, elem_of_app. specialize (Hdis x). tauto.
  - split_and!; [done..| |done| |].
    + intros h. unfold q1, jobsOf. cbn. destruct (decide (h = g)) as [->|Hne].
      * change (default [] (groups q !! g)) with js. fold keep. unfold replaceGroup. destruct keep; [by rewrite lookup_delete_eq|by rewrite lookup_insert_eq].
      * unfold replaceGroup. destruct keep; [by rewrite lookup_delete_ne|by rewrite lookup_insert_ne].
    + rewrite HP2. apply Permutation_app_head. by symmetry.
    + unfold q1, o'. cbn. destruct keep; [apply sublist_submseteq, sublist_filter|done].
Qed.

(** [iter] enumerates the keys of the group map. *)
Definition iterates (iter : list string) (q : FairQueue) : Prop :=
  NoDup iter ∧ ∀ g, g ∈ iter ↔ is_Some (groups q !! g).

Lemma removeGroups_spec scope iter : ∀ q drops q' drops',
  queue_wf q → NoDup iter → fold_left (removeGroup scope) iter (q, drops) = (q', drops') →
  queue_wf q' ∧ closed q' = closed q ∧ capacity q' = capacity q ∧
  (∀ h, jobsOf (groups q') h = if decide (h ∈ iter) then filter (λ j, Scope j ≠ scope) (jobsOf (groups q) h) else jobsOf (groups q) h) ∧
  (∃ out, drops' = drops ++ out ∧ Forall (λ j, Scope j = scope) out ∧ pending q ≡ₚ out ++ pending q').
Proof.
  induction iter as [|g iter IH]; intros q drops q' drops' Hwf Hnd; cbn [fold_left].
  { intros [= <- <-]. split_and!; [done..|]. exists []. by rewrite app_nil_r. }
  apply NoDup_cons in Hnd as [Hg Hnd]. destruct (removeGroup scope (q, drops) g) as [q1 d1] eqn:E1. intros E2.
  apply removeGroup_spec in E1 as (W1 & C1 & K1 & J1 & -> & P1 & _); [|done].
  apply IH in E2 as (W2 & C2 & K2 & J2 & out & -> & F2 & P2); [|done..].
  split_and!; [done|congruence|congruence| |].
  - intros h. rewrite J2, J1. destruct (decide (h = g)) as [->|Hne].
    + rewrite decide_False, decide_True by set_solver. done.
    + destruct (decide (h ∈ iter)); [rewrite decide_True by set_solver|rewrite decide_False by set_solver]; done.
  - eexists. rewrite <- app_assoc. split_and!; [done| |by rewrite P1, P2, app_assoc].
    apply Forall_app. split; [|done]. apply Forall_forall. by intros x [? _]%list_elem_of_filter.
Qed.

Lemma filter_none {A} (P : A → Prop) `{!∀ x, Decision (P x)} (l : list A) : Forall (λ x, ¬ P x) l → filter P l = [].
Proof. induction 1 as [|x l Hx _ IH]; [done|]. by rewrite filter_cons, decide_False. Qed.

Lemma RemoveScope_spec q scope why iter q' n obs calls :
  queue_wf q → iterates iter q → RemoveScope q scope why iter = (q', n, obs, calls) →
  queue_wf q' ∧ closed q' = closed q ∧
  (∀ g, jobsOf (groups q') g = filter (λ j, Scope j ≠ scope) (jobsOf (groups q) g)) ∧
  pending q' ≡ₚ filter (λ j, Scope j ≠ scope) (pending q) ∧
  n = Z.of_nat (length (filter (λ j, Scope j = scope) (pending q))) ∧
  calls ≡ₚ omap Drop (filter (λ j, Scope j = scope) (pending q)).
Proof.
  intros Hwf [Hnd Hit]. unfold RemoveScope. destruct (fold_left _ iter (q, [])) as [q1 drops] eqn:E. intros [= <- <- _ <-].
  apply removeGroups_spec in E as (W & C & K & J & out & -> & F & P); [|done..]. cbn [app].
  assert (∀ g, jobsOf (groups q1) g = filter (λ j, Scope j ≠ scope) (jobsOf (groups q) g)) as HJ.
  { intros g. rewrite J. destruct (decide (g ∈ iter)) as [|Hn]; [done|].
    assert (jobsOf (groups q) g = []) as ->; [|done]. rewrite Hit in Hn. unfold jobsOf.
    destruct (groups q !! g); [destruct Hn; by eexists|done]. }
  assert (Forall (λ j, Scope j ≠ scope) (pending q1)) as F1.
  { apply Forall_forall. intros j (g & Hj & _)%list_elem_of_bind. rewrite HJ in Hj. by apply list_elem_of_filter in Hj as [? _]. }
  assert (filter (λ j, Scope j = scope) (pending q) ≡ₚ out) as E1.
  { rewrite P, filter_app, (list_filter_all _ out), filter_none, app_nil_r by done. done. }
  split_and!; [done..| |by rewrite E1|by rewrite E1].
  rewrite P, filter_app, (filter_none _ out), list_filter_all; [done|done|].
  eapply Forall_impl; [exact F|]. cbn. naive_solver.
Qed.

Lemma DiscardAll_wf q why iter q' n obs calls :
  queue_wf q → DiscardAll q why iter = (q', n, obs, calls) → queue_wf q' ∧ pending q' = [] ∧ closed q' = closed q.
Proof.
  intros Hwf [= <- _ _ _]. split; [|done]. pose proof (wf_capacity q Hwf). pose proof (wf_count q Hwf).
  constructor; cbn; try done; try constructor; try lia.
  - by intros []%elem_of_nil.
  - by intros [].
Qed.

Lemma Close_wf q : queue_wf q → queue_wf (Close q) ∧ pending (Close q) = pending q.
Proof. intros []. unfold Close. by destruct (closed q). Qed.

(** One method call on a queue. *)
Inductive step : FairQueue → FairQueue → Prop :=
| step_offer q job r q' obs : Offer q job = (r, q', obs) → step q q'
| step_pop q job q' obs : Pop q = Popped job q' obs → step q q'
| step_remove q scope why iter q' n obs calls :
    iterates iter q → RemoveScope q scope why iter = (q', n, obs, calls) → step q q'
| step_discard q why iter q' n obs calls :
    iterates iter q → DiscardAll q why iter = (q', n, obs, calls) → step q q'
| step_close q : step q (Close q).

Lemma Offer_unchanged q job r q' obs : Offer q job = (r, q', obs) → r = Ok true ∨ q' = q.
Proof. unfold Offer. intros H. repeat case_match; simplify_eq; auto. Qed.

Lemma step_wf q q' : step q q' → queue_wf q → queue_wf q'.
Proof.
  intros [] Hwf.
  - destruct (Offer_unchanged _ _ _ _ _ H) as [->| ->]; [|done]. by apply Offer_added in H as [? _].
  - by apply Pop_popped in H as [? _].
  - by apply RemoveScope_spec in H0 as [? _].
  - by apply DiscardAll_wf in H0 as [? _].
  - by apply Close_wf.
Qed.
#[export] Hint Resolve step_wf NewFairQueue_wf : bz.

Lemma reachable_wf n q0 q : NewFairQueue n = Ok q0 → rtc step q0 q → queue_wf q.
Proof. intros Hn Hr. assert (queue_wf q0) as Hwf by eauto with bz. clear Hn. induction Hr; eauto with bz. Qed.

(** * The published order is the pop order *)

(** The jobs popped one after the other, at most [fuel] of them. *)
Fixpoint drain (fuel : nat) (q : FairQueue) : list Job :=
  match fuel with
  | O => []
  | S fuel => match Pop q with Popped job q' _ => job :: drain fuel q' | _ => [] end
  end.

Lemma snapshotIDs_ext fuel : ∀ gs gs' o,
  (∀ g, g ∈ o → jobsOf gs g = jobsOf gs' g) → snapshotIDs fuel gs o = snapshotIDs fuel gs' o.
Proof.
  induction fuel as [|fuel IH]; intros gs gs' [|g o] H; cbn; try done.
  rewrite <- (H g) by set_solver. destruct (jobsOf gs g) as [|j [|k js]]; [done| |]; f_equal; apply IH.
  - set_solver.
  - intros h Hh. destruct (decide (h = g)) as [->|Hne]; [by rewrite !jobsOf_insert|].
    rewrite !jobsOf_insert_ne by done. apply H. set_solver.
Qed.

Lemma snapshotIDs_drain fuel : ∀ q,
  queue_wf q → (length (pending q) ≤ fuel)%nat →
  snapshotIDs fuel (groups q) (order q) = Some (ID <$> drain fuel q) ∧ drain fuel q ≡ₚ pending q.
Proof.
  induction fuel as [|fuel IH]; intros q Hwf Hl; pose proof (Pop_progress q Hwf) as Hp; rewrite (wf_count q Hwf) in Hp.
  - assert (pending q = []) as Hn by (by destruct (pending q); [|cbn in Hl; lia]). rewrite Hn.
    destruct (order q) as [|g o] eqn:Eo; [done|]. destruct (jobsOf_elem q g Hwf) as [_ Hne]; [rewrite Eo; set_solver|].
    unfold pending in Hn. rewrite Eo, pendingIn_cons in Hn. by apply app_nil in Hn as [? _].
  - cbn [drain]. destruct (Z.ltb_spec 0 (Z.of_nat (length (pending q)))) as [Hlt|Hge].
    + destruct Hp as (job & q' & obs & Hp). rewrite Hp.
      destruct (Pop_popped _ _ _ _ Hwf Hp) as (W & P & _ & _ & _ & g & o & js & Eo & Eg & Ej & Egs & Eo').
      destruct (IH q' W) as [IH1 IH2]; [rewrite P in Hl; cbn in Hl; lia|].
      split; [|by rewrite IH2, P]. rewrite Eo. cbn [snapshotIDs fmap list_fmap]. rewrite Ej, Egs, Eo' in *.
      pose proof (wf_order q Hwf) as Hnd. rewrite Eo in Hnd. apply NoDup_cons in Hnd as [Hg _].
      destruct js as [|k js]; cbn [replaceGroup] in *; [rewrite app_nil_r in *|by rewrite IH1].
      rewrite (snapshotIDs_ext _ _ (delete g (groups q))), IH1; [done|].
      intros h Hh. symmetry. apply jobsOf_delete_ne. by intros ->.
    + rewrite Hp. assert (pending q = []) as Hn by (by destruct (pending q); [|cbn in Hge; lia]). rewrite Hn.
      assert (order q = []) as ->; [|by destruct (closed q)].
      destruct (order q) as [|g o] eqn:Eo; [done|]. destruct (jobsOf_elem q g Hwf) as [_ Hne]; [rewrite Eo; set_solver|].
      unfold pending in Hn. rewrite Eo, pendingIn_cons in Hn. by apply app_nil in Hn as [? _].
Qed.

Lemma snapshotLocked_drain q :
  queue_wf q → snapshotLocked q = Some (mkQueueSnapshot (capacity q) (count q) (ID <$> drain (Z.to_nat (count q)) q))
    ∧ drain (Z.to_nat (count q)) q ≡ₚ pending q.
Proof.
  intros Hwf. unfold snapshotLocked. destruct (snapshotIDs_drain (Z.to_nat (count q)) q Hwf) as [-> ?]; [|done].
  rewrite (wf_count q Hwf). lia.
Qed.

(** * Fairness *)

(** A run of offers and successful pops: [Some job] is an offer. *)
Fixpoint runQueue (ops : list (option Job)) (q : FairQueue) : option FairQueue :=
  match ops with
  | [] => Some q
  | Some job :: ops => let '(_, q', _) := Offer q job in runQueue ops q'
  | None :: ops => match Pop q with Popped _ q' _ => runQueue ops q' | _ => None end
  end.
Definition popsIn (ops : list (option Job)) : nat := length (filter (λ o, o = None) ops).

Lemma Offer_order q job r q' obs :
  Offer q job = (r, q', obs) → ∃ more, order q' = order q ++ more.
Proof.
  unfold Offer. intros H. repeat case_match; simplify_eq; cbn; try (exists []; by rewrite app_nil_r). by eexists.
Qed.

Lemma runQueue_order ops : ∀ q q' pre g post,
  queue_wf q → runQueue ops q = Some q' → order q = pre ++ g :: post → popsIn ops = length pre →
  queue_wf q' ∧ ∃ post', order q' = g :: post'.
Proof.
  induction ops as [|[job|] ops IH]; intros q q' pre g post Hwf; cbn [runQueue].
  - intros [= <-] Ho Hl. destruct pre; [|done]. by eauto.
  - destruct (Offer q job) as [[r q1] obs] eqn:Eo. intros Hr Ho Hl.
    assert (queue_wf q1) as W1 by (eapply step_wf; [eapply step_offer; exact Eo|done]).
    apply Offer_order in Eo as [more Em]. rewrite Ho, <- app_assoc in Em. by eapply IH.
  - destruct (Pop q) as [job q1 obs| | |] eqn:Ep; try done. intros Hr Ho Hl.
    apply Pop_popped in Ep as (W1 & _ & _ & _ & _ & h & o & js & Eh & _ & _ & _ & Eo); [|done].
    destruct pre as [|p pre]; [done|]. rewrite Ho in Eh. injection Eh as -> <-. rewrite <- app_assoc in Eo.
    eapply IH; [done|done|exact Eo|].
    unfold popsIn in *. rewrite filter_cons, decide_True in Hl by done. cbn in Hl. lia.
Qed.

(** * Properties *)

(** Whatever methods run, in whatever order, the queue keeps its invariant:
    the rotation lists exactly the nonempty groups, the counter and the identity
    set agree with the pending jobs, no identity is pending twice, the capacity
    holds, and neither [Pop] nor the published view ever indexes out of range. *)
Theorem queue_reachable n q0 q :
  NewFairQueue n = Ok q0 → rtc step q0 q → queue_wf q ∧ Pop q ≠ PopPanic ∧ is_Some (snapshotLocked q).
Proof.
  intros Hn Hr. assert (queue_wf q) as Hwf by (by eapply reachable_wf). split_and!; [done| |].
  - pose proof (Pop_progress q Hwf) as Hp. destruct (0 <? count q); [by destruct Hp as (? & ? & ? & ->)|].
    rewrite Hp. by destruct (closed q).
  - destruct (snapshotLocked_drain q Hwf) as [-> _]. by eexists.
Qed.

(** [Offer] adds the job exactly when it is complete, the queue is open, the
    identity is not pending and there is room; otherwise the queue is unchanged,
    and only a duplicate is no error. *)
Theorem Offer_spec q job r q' obs :
  queue_wf q → Offer q job = (r, q', obs) →
  match r with
  | Ok true => pending q' ≡ₚ job :: pending q ∧ queue_wf q' ∧ closed q = false ∧
      ID job ∉ ID <$> pending q ∧ Z.of_nat (length (pending q)) < capacity q
  | Ok false => q' = q ∧ obs = [] ∧ closed q = false ∧ ID job ∈ ID <$> pending q
  | Err _ => q' = q ∧ obs = [] ∧
      (ID job = "" ∨ RunID job = 0 ∨ Group job = "" ∨ Scope job = "" ∨ Run job = None ∨
       closed q = true ∨ capacity q ≤ Z.of_nat (length (pending q)))
  end.
Proof.
  intros Hwf H. pose proof (wf_ids q Hwf) as Hi. pose proof (wf_count q Hwf) as Hc. destruct r as [[]|e].
  - pose proof (Offer_added _ _ _ _ Hwf H) as (W & P & Hcl & _). split_and!; [done..| |]; unfold Offer in H; rewrite Hcl in H;
      (destruct (_ || _ || _ || _ || _); [done|]); case_bool_decide as Hid; try done;
      destruct (Z.leb_spec (capacity q) (count q)); try done; [set_solver|lia].
  - unfold Offer in H. (destruct (_ || _ || _ || _ || _); [done|]); destruct (closed q); [done|].
    case_bool_decide as Hid; [|by destruct (capacity q <=? count q)]. simplify_eq. split_and!; [done..|]. set_solver.
  - unfold Offer in H. destruct (_ || _ || _ || _ || _) eqn:E.
    + simplify_eq. split_and!; [done..|]. rewrite !orb_true_iff, !eqb_str_true, Z.eqb_eq, bool_decide_eq_true in E. tauto.
    + clear E. destruct (closed q) eqn:Ecl; [simplify_eq; split_and!; auto 10|].
      case_bool_decide as Hid; [done|]. destruct (Z.leb_spec (capacity q) (count q)); [|done]. simplify_eq.
      split_and!; auto. do 6 right. lia.
Qed.

(** The published queue view lists the pending identities in the order in
    which the workers will pop them, and popping that many jobs drains the
    queue. *)
Theorem snapshot_predicts_pops q :
  queue_wf q →
  snapshotLocked q = Some (mkQueueSnapshot (capacity q) (count q) (ID <$> drain (Z.to_nat (count q)) q)) ∧
  drain (Z.to_nat (count q)) q ≡ₚ pending q.
Proof. apply snapshotLocked_drain. Qed.

(** C35: round robin: a group with [k] groups ahead of it in the rotation is
    served by the pop after [k] pops, whatever is offered in between. *)
Theorem queue_fair ops q q' pre g post :
  queue_wf q → order q = pre ++ g :: post → popsIn ops = length pre → runQueue ops q = Some q' →
  ∃ job q'' obs, Pop q' = Popped job q'' obs ∧ Group job = g.
Proof.
  intros Hwf Ho Hl Hr. destruct (runQueue_order _ _ _ _ _ _ Hwf Hr Ho Hl) as (W & post' & Ho').
  pose proof (Pop_progress q' W) as Hp. rewrite (wf_count q' W) in Hp.
  destruct (jobsOf_elem q' g W) as [_ Hne]; [rewrite Ho'; set_solver|].
  assert (0 < Z.of_nat (length (pending q'))) as Hlt.
  { unfold pending. rewrite Ho', pendingIn_cons, length_app. destruct (jobsOf (groups q') g); [done|cbn; lia]. }
  destruct (Z.ltb_spec 0 (Z.of_nat (length (pending q')))); [|lia]. destruct Hp as (job & q'' & obs & Hp).
  exists job, q'', obs. split; [done|].
  apply Pop_popped in Hp as (_ & _ & _ & _ & _ & h & o & js & Eh & -> & _); [|done]. congruence.
Qed.

(** [RemoveScope] drops exactly the jobs of the scope, whatever order the
    group map is iterated in: every group keeps its other jobs in order, the
    result is the number dropped, and each dropped job's [Drop] is called. *)
Theorem RemoveScope_exact q scope why iter q' n obs calls :
  queue_wf q → iterates iter q → RemoveScope q scope why iter = (q', n, obs, calls) →
  queue_wf q' ∧ closed q' = closed q ∧
  (∀ g, jobsOf (groups q') g = filter (λ j, Scope j ≠ scope) (jobsOf (groups q) g)) ∧
  pending q' ≡ₚ filter (λ j, Scope j ≠ scope) (pending q) ∧
  n = Z.of_nat (length (filter (λ j, Scope j = scope) (pending q))) ∧
  calls ≡ₚ omap Drop (filter (λ j, Scope j = scope) (pending q)).
Proof. apply RemoveScope_spec. Qed.

(** * Witnesses *)

Definition witnessJob (id group scope : string) : Job :=
  mkJob id 1 group scope "" "" "" (Some 0%nat) None (Some 1%nat).
Definition offerAll (js : list Job) (q : FairQueue) : FairQueue := fold_left (λ q j, ((Offer q j).1).2) js q.
(** Three jobs in two groups, on a queue of capacity four. *)
Definition witnessQueue0 : FairQueue := mkFairQueue 4 0 ∅ [] ∅ false.
Definition witnessQueue : FairQueue :=
  offerAll [witnessJob "a1" "A" "s"; witnessJob "a2" "A" "t"; witnessJob "b1" "B" "s"] witnessQueue0.

Lemma offerAll_reach js : ∀ q, rtc step q (offerAll js q).
Proof.
  induction js as [|j js IH]; intros q; cbn; [done|]. eapply rtc_l; [|apply IH].
  destruct (Offer q j) as [[r q'] obs] eqn:E. by eapply step_offer.
Qed.
Lemma witnessQueue_wf : queue_wf witnessQueue.
Proof. apply (reachable_wf 4 witnessQueue0); [done|apply offerAll_reach]. Qed.

Lemma queue_reachable_witness : queue_wf witnessQueue ∧ Pop witnessQueue ≠ PopPanic ∧ is_Some (snapshotLocked witnessQueue).
Proof. apply (queue_reachable 4 witnessQueue0); [reflexivity|apply offerAll_reach]. Defined.

Lemma Offer_spec_witness :
  ((Offer witnessQueue (witnessJob "b1" "B" "s")).1).2 = witnessQueue.
Proof.
  pose proof (Offer_spec witnessQueue (witnessJob "b1" "B" "s") (Ok false) witnessQueue [] witnessQueue_wf) as H.
  apply H. reflexivity.
Defined.

Lemma snapshot_predicts_pops_witness :
  ∃ s, snapshotLocked witnessQueue = Some s ∧ qs_IDs s = ["a1"; "b1"; "a2"].
Proof.
  destruct (snapshot_predicts_pops witnessQueue witnessQueue_wf) as [H _].
  eexists. split; [exact H|]. reflexivity.
Defined.

Lemma queue_fair_witness :
  ∃ q' job q'' obs,
    runQueue [None; Some (witnessJob "c1" "C" "s")] witnessQueue = Some q' ∧ Pop q' = Popped job q'' obs ∧ Group job = "B".
Proof.
  destruct (runQueue [None; Some (witnessJob "c1" "C" "s")] witnessQueue) as [q'|] eqn:E; [|discriminate E].
  destruct (queue_fair [None; Some (witnessJob "c1" "C" "s")] witnessQueue q' ["A"] "B" []) as (job & q'' & obs & H1 & H2).
  - exact witnessQueue_wf.
  - reflexivity.
  - reflexivity.
  - exact E.
  - exists q', job, q'', obs. split; [reflexivity|]. split; assumption.
Defined.

Lemma RemoveScope_exact_witness :
  ∃ q' n obs calls, RemoveScope witnessQueue "s" "disabled" ["B"; "A"] = (q', n, obs, calls) ∧ n = 2 ∧ queue_wf q'.
Proof.
  destruct (RemoveScope witnessQueue "s" "disabled" ["B"; "A"]) as [[[q' n] obs] calls] eqn:E.
  destruct (RemoveScope_exact witnessQueue "s" "disabled" ["B"; "A"] q' n obs calls) as (H1 & _ & _ & _ & H2 & _).
  - exact witnessQueue_wf.
  - split; [apply (bool_decide_unpack _); by vm_compute|]. intros g. rewrite <- (wf_dom _ witnessQueue_wf g).
    change (order witnessQueue) with ["A"; "B"]. set_solver.
  - exact E.
  - exists q', n, obs, calls. split; [reflexivity|]. split; [rewrite H2; reflexivity|exact H1].
Defined.
