(* ===== verification/Locks.v ===== *)
(** The scoped locks: [keyLocks] of internal/daemon/pool.go, which queue their
    waiters in order, and [hierarchyLocks] of internal/lifecycle/service.go.

    Each critical section is one function of the state. A waiter is a pointer in
    Go, so it carries an identity here. [signals] counts the wake-ups: closing
    the channel [changed] wakes everyone who read it before. *)

From S2P Require Import Prelude GoStrings Names.

(** * pool.go *)

Record lockWaiter := mkWaiter { lw_id : nat; lw_scope : string; lw_holder : string }.
#[export] Instance lockWaiter_eq_dec : EqDecision lockWaiter.
Proof. solve_decision. Defined.

Record keyLocks := mkKeyLocks {
  active : gmap string (gmap string Z);
  holders : gmap string (gmap string (list string));
  waiters : gmap string (list lockWaiter);
  signals : nat
}.

Definition overlappingLockScope (a b : string) : bool :=
  (a =? "")%string || (b =? "")%string || (a =? b)%string
  || HasPrefix a (b +:+ "/") || HasPrefix b (a +:+ "/").

(** Reading a nested map: a missing key reads as a nil map. *)
Definition inner {A} (m : gmap string (gmap string A)) (key : string) : gmap string A := default ∅ (m !! key).
Definition waitersOf (k : keyLocks) (key : string) : list lockWaiter := default [] (waiters k !! key).

Definition signalLocked (k : keyLocks) : keyLocks :=
  mkKeyLocks (active k) (holders k) (waiters k) (S (signals k)).

(** Removes the first occurrence of the waiter. *)
Fixpoint removeFirst (w : lockWaiter) (ws : list lockWaiter) : list lockWaiter :=
  match ws with
  | [] => []
  | c :: ws => if (lw_id c =? lw_id w)%nat then ws else c :: removeFirst w ws
  end.
Definition removeWaiterLocked (k : keyLocks) (key : string) (w : lockWaiter) : keyLocks :=
  if existsb (λ c, lw_id c =? lw_id w)%nat (waitersOf k key) then
    let ws := removeFirst w (waitersOf k key) in
    let waiters' := match ws with [] => delete key (waiters k) | _ => <[key := ws]> (waiters k) end in
    mkKeyLocks (active k) (holders k) waiters' (signals k)
  else k.

(** The start of [acquireAs]: the waiter joins the queue of its key. With an empty
    key it returns at once, with a release that does nothing. *)
Definition enqueue (k : keyLocks) (key : string) (w : lockWaiter) : keyLocks :=
  if (key =? "")%string then k
  else mkKeyLocks (active k) (holders k) (<[key := waitersOf k key ++ [w]]> (waiters k)) (signals k).

(** The loop over the earlier waiters. *)
Fixpoint earlierBlocker (w : lockWaiter) (ws : list lockWaiter) : option string :=
  match ws with
  | [] => None
  | e :: ws =>
    if (lw_id e =? lw_id w)%nat then None
    else if overlappingLockScope (lw_scope e) (lw_scope w) then Some (lw_holder e)
    else earlierBlocker w ws
  end.

(** Who blocks [w]: an active scope that overlaps, found in the order [iter] in
    which the map of active scopes is iterated, or an earlier waiter. *)
Definition blockerOf (k : keyLocks) (key : string) (w : lockWaiter) (iter : list string) : option string :=
  match list_find (λ a, overlappingLockScope a (lw_scope w) = true) iter with
  | Some (_, a) => Some (match default [] (inner (holders k) key !! a) with h :: _ => h | [] => "" end)
  | None => earlierBlocker w (waitersOf k key)
  end.

Inductive attempt : Type :=
| Acquired (k : keyLocks)
| Blocked (blocker : string)
| Canceled (k : keyLocks).

(** One pass of the loop of [acquireAs], for a waiter in the queue. [done] is
    [ctx.Err() != nil]. *)
Definition acquirePass (k : keyLocks) (key : string) (w : lockWaiter) (iter : list string) (done : bool) : attempt :=
  if done then Canceled (signalLocked (removeWaiterLocked k key w))
  else match blockerOf k key w iter with
       | Some blocker => Blocked blocker
       | None =>
         let k := removeWaiterLocked k key w in
         let a := inner (active k) key in
         let h := inner (holders k) key in
         Acquired (signalLocked (mkKeyLocks
           (<[key := <[lw_scope w := default 0 (a !! lw_scope w) + 1]> a]> (active k))
           (<[key := <[lw_scope w := default [] (h !! lw_scope w) ++ [lw_holder w]]> h]> (holders k))
           (waiters k) (signals k)))
       end.

(** [slices.Delete] of the first occurrence. *)
Fixpoint removeHolder (holder : string) (l : list string) : list string :=
  match l with
  | [] => []
  | h :: l => if (h =? holder)%string then l else h :: removeHolder holder l
  end.

(** The release closure. *)
Definition release (k : keyLocks) (key : string) (w : lockWaiter) : keyLocks :=
  let a := inner (active k) key in
  let n := default 0 (a !! lw_scope w) - 1 in
  let a := if n =? 0 then delete (lw_scope w) a else <[lw_scope w := n]> a in
  let active' := if decide (a = ∅) then delete key (active k) else <[key := a]> (active k) in
  let h := inner (holders k) key in
  let held := removeHolder (lw_holder w) (default [] (h !! lw_scope w)) in
  let h := match held with [] => delete (lw_scope w) h | _ => <[lw_scope w := held]> h end in
  let holders' := if decide (h = ∅) then delete key (holders k) else <[key := h]> (holders k) in
  signalLocked (mkKeyLocks active' holders' (waiters k) (signals k)).

Definition newKeyLocks : keyLocks := mkKeyLocks ∅ ∅ ∅ 0.

(** * service.go *)

Record hierarchyLocks := mkHierarchyLocks { hl_active : gmap string Z; hl_signals : nat }.
Definition newHierarchyLocks : hierarchyLocks := mkHierarchyLocks ∅ 0.

Definition overlappingScope (a b : string) : bool :=
  (a =? b)%string || HasPrefix a (b +:+ "/") || HasPrefix b (a +:+ "/").

(** One pass of the loop of [hierarchyLocks.acquire]: [None] is blocked. *)
Definition hierarchyPass (l : hierarchyLocks) (dataset : string) (iter : list string) : option hierarchyLocks :=
  if existsb (λ a, overlappingScope a dataset) iter then None
  else Some (mkHierarchyLocks (<[dataset := default 0 (hl_active l !! dataset) + 1]> (hl_active l)) (hl_signals l)).

Definition hierarchyRelease (l : hierarchyLocks) (dataset : string) : hierarchyLocks :=
  let n := default 0 (hl_active l !! dataset) - 1 in
  mkHierarchyLocks (if n =? 0 then delete dataset (hl_active l) else <[dataset := n]> (hl_active l)) (S (hl_signals l)).

(** * Who holds and who waits *)

(** The locks with what has been acquired and not released; [fresh] is the next
    pointer. *)
Record lockState := mkLockState { locks : keyLocks; held : list (string * lockWaiter); fresh : nat }.
Definition lockState0 : lockState := mkLockState newKeyLocks [] 0.

Definition scopesOf (k : keyLocks) (key : string) (iter : list string) : Prop :=
  ∀ a, a ∈ iter ↔ is_Some (inner (active k) key !! a).

Inductive lstep : lockState → lockState → Prop :=
| l_enqueue k hs n key scope holder :
    lstep (mkLockState k hs n) (mkLockState (enqueue k key (mkWaiter n scope holder)) hs (S n))
| l_acquire k hs n key w iter k' :
    w ∈ waitersOf k key → scopesOf k key iter → acquirePass k key w iter false = Acquired k' →
    lstep (mkLockState k hs n) (mkLockState k' ((key, w) :: hs) n)
| l_cancel k hs n key w iter k' :
    w ∈ waitersOf k key → acquirePass k key w iter true = Canceled k' →
    lstep (mkLockState k hs n) (mkLockState k' hs n)
| l_release k hs1 hs2 n key w :
    lstep (mkLockState k (hs1 ++ (key, w) :: hs2) n) (mkLockState (release k key w) (hs1 ++ hs2) n).

(** No two holders of one key have overlapping scopes. *)
Fixpoint exclusive (hs : list (string * lockWaiter)) : Prop :=
  match hs with
  | [] => True
  | (key, w) :: hs =>
    (∀ w', (key, w') ∈ hs → overlappingLockScope (lw_scope w') (lw_scope w) = false) ∧ exclusive hs
  end.

Record lock_inv (s : lockState) : Prop := {
  inv_exclusive : exclusive (held s);
  inv_held : ∀ key w, (key, w) ∈ held s →
    inner (active (locks s)) key !! lw_scope w = Some 1 ∧
    inner (holders (locks s)) key !! lw_scope w = Some [lw_holder w];
  inv_active : ∀ key sc n, inner (active (locks s)) key !! sc = Some n → ∃ w, (key, w) ∈ held s ∧ lw_scope w = sc;
  inv_holders : ∀ key sc l, inner (holders (locks s)) key !! sc = Some l → ∃ w, (key, w) ∈ held s ∧ lw_scope w = sc;
  inv_ids : ∀ key, NoDup (lw_id <$> waitersOf (locks s) key) ∧
    Forall (λ w, (lw_id w < fresh s)%nat) (waitersOf (locks s) key)
}.

Lemma overlappingLockScope_sym a b : overlappingLockScope a b = overlappingLockScope b a.
Proof.
  unfold overlappingLockScope. rewrite (String.eqb_sym b a).
  destruct (a =? "")%string, (b =? "")%string, (a =? b)%string, (HasPrefix a _), (HasPrefix b _); done.
Qed.

Lemma overlappingLockScope_refl a : overlappingLockScope a a = true.
Proof. unfold overlappingLockScope. rewrite eqb_str_refl. by rewrite !orb_true_r. Qed.

(** Non-empty scopes overlap exactly when one dataset lies within both. *)
Lemma overlappingLockScope_within a b :
  a ≠ "" → b ≠ "" → overlappingLockScope a b = overlapping a b.
Proof.
  intros Ha Hb. unfold overlappingLockScope, overlapping, below.
  by rewrite (proj2 (eqb_str_false a "") Ha), (proj2 (eqb_str_false b "") Hb).
Qed.

Lemma inner_insert {A} (m : gmap string (gmap string A)) key a : inner (<[key := a]> m) key = a.
Proof. unfold inner. by rewrite lookup_insert_eq. Qed.
Lemma inner_insert_ne {A} (m : gmap string (gmap string A)) key key' a : key ≠ key' → inner (<[key := a]> m) key' = inner m key'.
Proof. intros. unfold inner. by rewrite lookup_insert_ne. Qed.
(** Dropping an empty inner map does not change what is read. *)
Lemma inner_shrink {A} (m : gmap string (gmap string A)) key (a : gmap string A) (d : Decision (a = ∅)) key' :
  inner (if d then delete key m else <[key := a]> m) key' = if decide (key' = key) then a else inner m key'.
Proof.
  unfold inner. destruct d as [->|], (decide (key' = key)) as [->|Hne].
  - by rewrite lookup_delete_eq.
  - by rewrite lookup_delete_ne.
  - by rewrite lookup_insert_eq.
  - by rewrite lookup_insert_ne.
Qed.

Lemma exclusive_app hs1 key w hs2 :
  exclusive (hs1 ++ (key, w) :: hs2) ↔
  exclusive (hs1 ++ hs2) ∧ ∀ w', (key, w') ∈ hs1 ++ hs2 → overlappingLockScope (lw_scope w') (lw_scope w) = false.
Proof.
  induction hs1 as [|[key1 w1] hs1 IH]; cbn [app exclusive]; [tauto|]. rewrite IH. split.
  - intros (H1 & H2 & H3). split_and!; [|done|].
    + intros w' Hw. apply H1. set_solver.
    + intros w' [[= <- <-]|Hw]%elem_of_cons; [|by apply H3].
      rewrite overlappingLockScope_sym. apply H1. set_solver.
  - intros ((H1 & H2) & H3). split_and!; [|done|].
    + intros w' [Hw|[[= <- <-]|Hw]%elem_of_cons]%elem_of_app; [apply H1; set_solver| |apply H1; set_solver].
      rewrite overlappingLockScope_sym. apply H3. set_solver.
    + intros w' Hw. apply H3. set_solver.
Qed.

Lemma removeFirst_sublist w ws : removeFirst w ws `sublist_of` ws.
Proof.
  induction ws as [|c ws IH]; cbn; [done|]. destruct (lw_id c =? lw_id w)%nat; [by apply sublist_cons|by apply sublist_skip].
Qed.

Lemma removeFirst_none w ws : existsb (λ c, lw_id c =? lw_id w)%nat ws = false → removeFirst w ws = ws.
Proof.
  induction ws as [|c ws IH]; cbn; [done|]. destruct (lw_id c =? lw_id w)%nat; [done|]. cbn. intros H. by rewrite IH.
Qed.

Lemma waitersOf_remove k key w key' :
  waitersOf (removeWaiterLocked k key w) key' =
  if decide (key' = key) then removeFirst w (waitersOf k key) else waitersOf k key'.
Proof.
  unfold removeWaiterLocked. destruct (existsb _ _) eqn:E.
  - unfold waitersOf at 1. cbn. destruct (removeFirst w (waitersOf k key)) eqn:Er.
    + destruct (decide (key' = key)) as [->|Hne]; [by rewrite lookup_delete_eq|by rewrite lookup_delete_ne].
    + destruct (decide (key' = key)) as [->|Hne]; [by rewrite lookup_insert_eq|by rewrite lookup_insert_ne].
  - destruct (decide (key' = key)) as [->|Hne]; [|done]. by rewrite removeFirst_none.
Qed.

Lemma active_remove k key w : active (removeWaiterLocked k key w) = active k ∧ holders (removeWaiterLocked k key w) = holders k.
Proof. unfold removeWaiterLocked. by destruct (existsb _ _). Qed.

Lemma ids_remove k key w n key' :
  NoDup (lw_id <$> waitersOf k key') ∧ Forall (λ w, (lw_id w < n)%nat) (waitersOf k key') →
  NoDup (lw_id <$> waitersOf (removeWaiterLocked k key w) key') ∧
  Forall (λ w, (lw_id w < n)%nat) (waitersOf (removeWaiterLocked k key w) key').
Proof.
  rewrite waitersOf_remove. destruct (decide (key' = key)) as [->|]; [|done].
  pose proof (removeFirst_sublist w (waitersOf k key)) as Hsub. intros [H1 H2]. split.
  - eapply sublist_NoDup; [exact H1|]. by apply fmap_sublist.
  - rewrite Forall_forall in *. intros x Hx. apply H2. by eapply sublist_subseteq.
Qed.

(** The scan finds no blocker exactly when nothing that counts overlaps. *)
Lemma earlierBlocker_spec w pre post :
  Forall (λ e, lw_id e ≠ lw_id w) pre →
  earlierBlocker w (pre ++ w :: post) = None ↔
  ∀ e, e ∈ pre → overlappingLockScope (lw_scope e) (lw_scope w) = false.
Proof.
  induction 1 as [|e pre He _ IH]; cbn [app earlierBlocker].
  - rewrite Nat.eqb_refl. split; [by intros _ e []%elem_of_nil|done].
  - rewrite (proj2 (Nat.eqb_neq _ _) He). destruct (overlappingLockScope (lw_scope e) (lw_scope w)) eqn:E.
    + split; [done|]. intros H. rewrite H in E by set_solver. done.
    + rewrite IH. set_solver.
Qed.

Lemma blockerOf_held s key w iter :
  lock_inv s → scopesOf (locks s) key iter →
  list_find (λ a, overlappingLockScope a (lw_scope w) = true) iter = None ↔
  ∀ w', (key, w') ∈ held s → overlappingLockScope (lw_scope w') (lw_scope w) = false.
Proof.
  intros Hinv Hit. rewrite list_find_None, Forall_forall. split.
  - intros H w' Hw. apply not_true_iff_false, H, Hit. by destruct (inv_held s Hinv key w' Hw) as [-> _].
  - intros H a [n Ha]%Hit. destruct (inv_active s Hinv _ _ _ Ha) as (w' & Hw & <-). rewrite (H w' Hw). done.
Qed.

Lemma lock_inv_acquire k hs n key w iter k' :
  lock_inv (mkLockState k hs n) → scopesOf k key iter → acquirePass k key w iter false = Acquired k' →
  lock_inv (mkLockState k' ((key, w) :: hs) n).
Proof.
  intros Hinv Hit. unfold acquirePass. destruct (blockerOf k key w iter) eqn:Eb; [done|]. intros [= <-].
  assert (∀ w', (key, w') ∈ hs → overlappingLockScope (lw_scope w') (lw_scope w) = false) as Hno.
  { unfold blockerOf in Eb. destruct (list_find _ iter) as [[]|] eqn:Ef; [done|].
    exact (proj1 (blockerOf_held (mkLockState k hs n) key w iter Hinv Hit) Ef). }
  destruct (active_remove k key w) as [Ea Eh].
  assert (inner (active k) key !! lw_scope w = None) as Hna.
  { destruct (inner (active k) key !! lw_scope w) as [m|] eqn:E; [|done].
    destruct (inv_active _ Hinv _ _ _ E) as (w' & Hw & Es). apply Hno in Hw. rewrite Es, overlappingLockScope_refl in Hw. done. }
  assert (inner (holders k) key !! lw_scope w = None) as Hnh.
  { destruct (inner (holders k) key !! lw_scope w) as [m|] eqn:E; [|done].
    destruct (inv_holders _ Hinv _ _ _ E) as (w' & Hw & Es). apply Hno in Hw. rewrite Es, overlappingLockScope_refl in Hw. done. }
  constructor; cbn [held locks fresh signalLocked active holders waiters waitersOf]; rewrite ?Ea, ?Eh, ?Hna, ?Hnh; cbn [default from_option].
  - split; [done|]. apply (inv_exclusive _ Hinv).
  - intros key' w' [[= -> ->]|Hw]%elem_of_cons; [by rewrite !inner_insert, !lookup_insert_eq|].
    destruct (inv_held _ Hinv _ _ Hw) as [H1 H2]. cbn in H1, H2.
    destruct (decide (key' = key)) as [->|Hne]; [|by rewrite !inner_insert_ne].
    rewrite !inner_insert, !lookup_insert_ne; [done|..]; intros E; rewrite E in *; congruence.
  - intros key' sc m. destruct (decide (key' = key)) as [->|Hne].
    + rewrite inner_insert, lookup_insert_Some. intros [[<- _]|[_ H]]; [exists w; set_solver|].
      destruct (inv_active _ Hinv _ _ _ H) as (w' & ? & ?). exists w'. set_solver.
    + rewrite inner_insert_ne by done. intros H. destruct (inv_active _ Hinv _ _ _ H) as (w' & ? & ?). exists w'. set_solver.
  - intros key' sc m. destruct (decide (key' = key)) as [->|Hne].
    + rewrite inner_insert, lookup_insert_Some. intros [[<- _]|[_ H]]; [exists w; set_solver|].
      destruct (inv_holders _ Hinv _ _ _ H) as (w' & ? & ?). exists w'. set_solver.
    + rewrite inner_insert_ne by done. intros H. destruct (inv_holders _ Hinv _ _ _ H) as (w' & ? & ?). exists w'. set_solver.
  - intros key'. apply (ids_remove k key w n key'), (inv_ids _ Hinv).
Qed.

(** Releasing takes exactly the holder's scope out of both maps. *)
Lemma release_inner k hs1 hs2 n key w key' :
  lock_inv (mkLockState k (hs1 ++ (key, w) :: hs2) n) →
  inner (active (release k key w)) key' = (if decide (key' = key) then delete (lw_scope w) (inner (active k) key) else inner (active k) key') ∧
  inner (holders (release k key w)) key' = (if decide (key' = key) then delete (lw_scope w) (inner (holders k) key) else inner (holders k) key').
Proof.
  intros Hinv. destruct (inv_held _ Hinv key w) as [H1 H2]; [cbn; set_solver|]. cbn in H1, H2.
  unfold release. rewrite H1, H2. cbn [default from_option id]. rewrite Z.sub_diag, Z.eqb_refl. cbn [removeHolder].
  rewrite eqb_str_refl. cbn [signalLocked active holders].
  split; apply inner_shrink.
Qed.

Lemma lock_inv_release k hs1 hs2 n key w :
  lock_inv (mkLockState k (hs1 ++ (key, w) :: hs2) n) → lock_inv (mkLockState (release k key w) (hs1 ++ hs2) n).
Proof.
  intros Hinv. pose proof (inv_exclusive _ Hinv) as Hex. cbn in Hex. apply exclusive_app in Hex as [Hex Hno].
  pose proof (λ key', release_inner _ _ _ _ _ _ key' Hinv) as Hin.
  assert (∀ w', (key, w') ∈ hs1 ++ hs2 → lw_scope w' ≠ lw_scope w) as Hne.
  { intros w' Hw E. apply Hno in Hw. rewrite E, overlappingLockScope_refl in Hw. done. }
  assert (∀ key' w', (key', w') ∈ hs1 ++ (key, w) :: hs2 → lw_scope w' ≠ lw_scope w ∨ key' ≠ key → (key', w') ∈ hs1 ++ hs2) as Hrest.
  { intros key' w' [?|[[= -> ->]|?]%elem_of_cons]%elem_of_app; set_solver. }
  constructor; cbn [held locks fresh].
  - done.
  - intros key' w' Hw. destruct (Hin key') as [-> ->].
    destruct (inv_held _ Hinv key' w') as [H1 H2]; [cbn; set_solver|]. cbn in H1, H2.
    case_decide as E; [subst key'|done]. rewrite !lookup_delete_ne by (apply not_eq_sym; by apply Hne). done.
  - intros key' sc m. destruct (Hin key') as [-> _]. case_decide as E; [subst key'|].
    + rewrite lookup_delete_Some. intros [Hs H]. destruct (inv_active _ Hinv _ _ _ H) as (w' & Hw & <-).
      exists w'. split; [|done]. apply Hrest; auto.
    + intros H. destruct (inv_active _ Hinv _ _ _ H) as (w' & Hw & <-). exists w'. split; [|done]. apply Hrest; auto.
  - intros key' sc m. destruct (Hin key') as [_ ->]. case_decide as E; [subst key'|].
    + rewrite lookup_delete_Some. intros [Hs H]. destruct (inv_holders _ Hinv _ _ _ H) as (w' & Hw & <-).
      exists w'. split; [|done]. apply Hrest; auto.
    + intros H. destruct (inv_holders _ Hinv _ _ _ H) as (w' & Hw & <-). exists w'. split; [|done]. apply Hrest; auto.
  - apply (inv_ids _ Hinv).
Qed.

Lemma waitersOf_enqueue k key w key' :
  waitersOf (enqueue k key w) key' = if decide (key' = key ∧ key ≠ "") then waitersOf k key ++ [w] else waitersOf k key'.
Proof.
  unfold enqueue. destruct (String.eqb_spec key ""); [by rewrite decide_False by tauto|]. unfold waitersOf at 1. cbn.
  case_decide as E; [destruct E as [-> _]; by rewrite lookup_insert_eq|rewrite lookup_insert_ne; [done|]]. intros ->. by destruct E.
Qed.
Lemma active_enqueue k key w : active (enqueue k key w) = active k ∧ holders (enqueue k key w) = holders k ∧ signals (enqueue k key w) = signals k.
Proof. unfold enqueue. by destruct (_ =? _)%string. Qed.

Lemma lstep_inv s s' : lstep s s' → lock_inv s → lock_inv s'.
Proof.
  intros [k hs n key scope holder|k hs n key w iter k' _ Hit Hacq|k hs n key w iter k' _ Hc|] Hinv.
  - destruct Hinv as [H1 H2 H3 H4 H5]. cbn in *. destruct (active_enqueue k key (mkWaiter n scope holder)) as (Ea & Eh & _).
    constructor; cbn; rewrite ?Ea, ?Eh; [done..|]. intros key'. rewrite waitersOf_enqueue.
    destruct (H5 key') as [Hnd Hlt]. case_decide as E; [destruct E as [-> _]|].
    + rewrite fmap_app, NoDup_app, Forall_app. cbn. rewrite Forall_forall in Hlt |- *. split_and!.
      * done.
      * intros i (w & -> & Hw)%list_elem_of_fmap [E|[]%elem_of_nil]%elem_of_cons. apply Hlt in Hw. lia.
      * repeat constructor. by intros []%elem_of_nil.
      * intros w Hw. apply Hlt in Hw. lia.
      * repeat constructor.
    + split; [done|]. eapply Forall_impl; [exact Hlt|]. cbn. lia.
  - by eapply lock_inv_acquire.
  - unfold acquirePass in Hc. injection Hc as <-. destruct (active_remove k key w) as [Ea Eh].
    destruct Hinv as [H1 H2 H3 H4 H5]. constructor; cbn in *; rewrite ?Ea, ?Eh; [done..|].
    intros key'. by apply ids_remove.
  - by apply lock_inv_release.
Qed.

Lemma lock_inv0 : lock_inv lockState0.
Proof.
  constructor; cbn; try done.
  - by intros ?? []%elem_of_nil.
  - intros ?. split; constructor.
Qed.

Lemma locks_reachable s : rtc lstep lockState0 s → lock_inv s.
Proof.
  intros Hr. assert (∀ a b, rtc lstep a b → lock_inv a → lock_inv b) as H.
  { intros a b Hab. induction Hab; eauto using lstep_inv. }
  eauto using lock_inv0.
Qed.

(** When a pass of a waiting caller succeeds. *)
Lemma acquirePass_ok s key w pre post iter :
  lock_inv s → waitersOf (locks s) key = pre ++ w :: post → scopesOf (locks s) key iter →
  (∃ k', acquirePass (locks s) key w iter false = Acquired k') ↔
  (∀ w', (key, w') ∈ held s → overlappingLockScope (lw_scope w') (lw_scope w) = false) ∧
  (∀ e, e ∈ pre → overlappingLockScope (lw_scope e) (lw_scope w) = false).
Proof.
  intros Hinv Hw Hit. rewrite <- (blockerOf_held _ _ _ _ Hinv Hit).
  assert (Forall (λ e, lw_id e ≠ lw_id w) pre) as Hne.
  { destruct (inv_ids _ Hinv key) as [Hnd _]. rewrite Hw, fmap_app in Hnd. apply NoDup_app in Hnd as (_ & Hd & _).
    apply Forall_forall. intros e He E. apply (Hd (lw_id e)); [apply list_elem_of_fmap; eauto|]. cbn. rewrite E. set_solver. }
  rewrite <- (earlierBlocker_spec w pre post Hne), <- Hw. unfold acquirePass, blockerOf.
  destruct (list_find _ iter) as [[i a]|]; [split; [by intros [? ?]|by intros [? _]]|].
  destruct (earlierBlocker w _); [split; [by intros [? ?]|by intros [_ ?]]|]. split; eauto.
Qed.

Lemma lstep_signals s s' :
  lstep s s' → (signals (locks s) ≤ signals (locks s'))%nat ∧
  (signals (locks s') = signals (locks s) →
    held s' = held s ∧ ∀ key, ∃ more, waitersOf (locks s') key = waitersOf (locks s) key ++ more).
Proof.
  assert (∀ k key w, signals (removeWaiterLocked k key w) = signals k) as Hr.
  { intros k key w. unfold removeWaiterLocked. by destruct (existsb _ _). }
  intros [k hs n key scope holder|k hs n key w iter k' _ _ Ha|k hs n key w iter k' _ Hc|k hs1 hs2 n key w]; cbn.
  - destruct (active_enqueue k key (mkWaiter n scope holder)) as (_ & _ & ->). split; [lia|]. intros _. split; [done|]. intros key'. rewrite waitersOf_enqueue.
    case_decide as E; [destruct E as [-> _]; by eexists|]. exists []. by rewrite app_nil_r.
  - unfold acquirePass in Ha. destruct (blockerOf _ _ _ _); [done|]. injection Ha as <-. cbn. rewrite Hr. lia.
  - injection Hc as <-. cbn. rewrite Hr. lia.
  - lia.
Qed.

Lemma lsteps_signals s s' :
  rtc lstep s s' → (signals (locks s) ≤ signals (locks s'))%nat ∧
  (signals (locks s') = signals (locks s) →
    held s' = held s ∧ ∀ key, ∃ more, waitersOf (locks s') key = waitersOf (locks s) key ++ more).
Proof.
  induction 1 as [s|s1 s2 s3 H12 _ [IH1 IH2]].
  - split; [lia|]. intros _. split; [done|]. intros key. exists []. by rewrite app_nil_r.
  - apply lstep_signals in H12 as [H1 H2]. split; [lia|]. intros E.
    destruct IH2 as [-> IH]; [lia|]. destruct H2 as [-> H2]; [lia|]. split; [done|].
    intros key. destruct (IH key) as [m ->], (H2 key) as [m' ->]. exists (m' ++ m). by rewrite app_assoc.
Qed.

(** ** hierarchyLocks *)

Inductive hstep : hierarchyLocks * list string → hierarchyLocks * list string → Prop :=
| h_acquire l hs dataset iter l' :
    (∀ a, a ∈ iter ↔ is_Some (hl_active l !! a)) → hierarchyPass l dataset iter = Some l' →
    hstep (l, hs) (l', dataset :: hs)
| h_release l hs1 hs2 dataset :
    hstep (l, hs1 ++ dataset :: hs2) (hierarchyRelease l dataset, hs1 ++ hs2).

(** Each active scope is held once, and no two overlap. *)
Definition hierarchy_inv (s : hierarchyLocks * list string) : Prop :=
  (∀ a n, hl_active s.1 !! a = Some n ↔ n = 1 ∧ a ∈ s.2) ∧
  NoDup s.2 ∧ ∀ a b, a ∈ s.2 → b ∈ s.2 → a ≠ b → overlapping a b = false.

Lemma hstep_inv s s' : hstep s s' → hierarchy_inv s → hierarchy_inv s'.
Proof.
  intros [l hs dataset iter l' Hit Hp|l hs1 hs2 dataset] (Ha & Hnd & Hno); unfold hierarchy_inv in *; cbn in *.
  - unfold hierarchyPass in Hp. destruct (existsb _ iter) eqn:E; [done|]. injection Hp as <-. cbn.
    rewrite <- not_true_iff_false, existsb_exists in E.
    assert (∀ a, a ∈ hs → overlapping a dataset = false) as Hfree.
    { intros a Hin. apply not_true_iff_false. intros Ho. apply E. exists a. split; [|exact Ho].
      apply list_elem_of_In, Hit. exists 1. by apply Ha. }
    assert (dataset ∉ hs) as Hd.
    { intros Hin. apply Hfree in Hin. unfold overlapping in Hin. by rewrite eqb_str_refl in Hin. }
    assert (hl_active l !! dataset = None) as ->.
    { destruct (hl_active l !! dataset) as [n|] eqn:El; [|done]. by apply Ha in El as [_ ?]. }
    split_and!.
    + intros a n. cbn. rewrite lookup_insert_Some, Ha, elem_of_cons. destruct (decide (a = dataset)) as [->|]; naive_solver.
    + by constructor.
    + intros a b [->|Hin1]%elem_of_cons [->|Hin2]%elem_of_cons Hne; [done| | |by apply Hno].
      * rewrite overlapping_sym. by apply Hfree.
      * by apply Hfree.
  - assert (hl_active l !! dataset = Some 1) as Hl by (apply Ha; set_solver). unfold hierarchyRelease. rewrite Hl.
    cbn [from_option id]. rewrite Z.sub_diag, Z.eqb_refl. cbn [hl_active].
    rewrite NoDup_app, NoDup_cons in Hnd. destruct Hnd as (Hn1 & Hn2 & Hn3 & Hn4). split_and!.
    + intros a n. rewrite lookup_delete_Some, Ha, !elem_of_app, elem_of_cons. set_solver.
    + apply NoDup_app. set_solver.
    + intros a b H1 H2. apply Hno; set_solver.
Qed.

Lemma hierarchy_reachable s : rtc hstep (newHierarchyLocks, []) s → hierarchy_inv s.
Proof.
  assert (hierarchy_inv (newHierarchyLocks, [])) as H0.
  { split_and!; cbn; [|constructor|by intros ?? []%elem_of_nil].
    intros a n. rewrite lookup_empty. set_solver. }
  intros Hr. assert (∀ a b, rtc hstep a b → hierarchy_inv a → hierarchy_inv b) as H.
  { intros a b Hab. induction Hab; eauto using hstep_inv. }
  eauto.
Qed.

(** * Properties *)

(** C31: the key locks exclude: two jobs that hold one key at once never have
    overlapping scopes, so no dataset is under both, and an empty scope is held
    alone. *)
Theorem keyLocks_exclusive s hs1 hs2 key w w' :
  rtc lstep lockState0 s → held s = hs1 ++ (key, w) :: hs2 → (key, w') ∈ hs1 ++ hs2 →
  lw_scope w ≠ "" ∧ lw_scope w' ≠ "" ∧
  ∀ n, within n (lw_scope w) = true → within n (lw_scope w') = false.
Proof.
  intros Hr Hh Hw. pose proof (inv_exclusive _ (locks_reachable _ Hr)) as Hex. rewrite Hh in Hex.
  apply exclusive_app in Hex as [_ Hno]. apply Hno in Hw.
  assert (lw_scope w ≠ "" ∧ lw_scope w' ≠ "") as [H1 H2].
  { unfold overlappingLockScope in Hw. rewrite !orb_false_iff, !eqb_str_false in Hw. tauto. }
  split_and!; [done..|]. intros n Hn. apply not_true_iff_false. intros Hn'.
  rewrite overlappingLockScope_within in Hw by done.
  assert (overlapping (lw_scope w') (lw_scope w) = true) by (apply overlapping_common; eauto). congruence.
Qed.

(** A waiting job takes the lock exactly when nothing held and no earlier
    waiter overlaps it: no later job overtakes an earlier one it conflicts with,
    and the first waiter of a free key always goes. *)
Theorem keyLocks_grant s key w pre post iter :
  rtc lstep lockState0 s → waitersOf (locks s) key = pre ++ w :: post → scopesOf (locks s) key iter →
  (∃ k', acquirePass (locks s) key w iter false = Acquired k') ↔
  (∀ w', (key, w') ∈ held s → overlappingLockScope (lw_scope w') (lw_scope w) = false) ∧
  (∀ e, e ∈ pre → overlappingLockScope (lw_scope e) (lw_scope w) = false).
Proof. intros Hr. apply acquirePass_ok. by apply locks_reachable. Qed.

(** C32: no wake-up is lost: a blocked waiter stays blocked until the next
    signal, so waiting on the channel it read under the lock misses nothing. *)
Theorem keyLocks_no_lost_wakeup s s' key w pre post iter iter' blocker :
  rtc lstep lockState0 s → rtc lstep s s' → signals (locks s') = signals (locks s) →
  waitersOf (locks s) key = pre ++ w :: post → scopesOf (locks s) key iter → scopesOf (locks s') key iter' →
  acquirePass (locks s) key w iter false = Blocked blocker →
  ∃ blocker', acquirePass (locks s') key w iter' false = Blocked blocker'.
Proof.
  intros Hr Hss Hsig Hw Hit Hit' Hb. apply lsteps_signals in Hss as Hmore. destruct Hmore as [_ Hmore].
  destruct (Hmore Hsig) as [Hheld Hwait]. destruct (Hwait key) as [more Hw']. rewrite Hw, <- app_assoc in Hw'. cbn in Hw'.
  destruct (acquirePass (locks s') key w iter' false) as [k'|b'|k'] eqn:E; [|by eexists|].
  - assert (∃ k', acquirePass (locks s') key w iter' false = Acquired k') as Hok by eauto.
    apply (acquirePass_ok s' key w pre (post ++ more)) in Hok; [|apply locks_reachable; by etrans|done..].
    rewrite Hheld in Hok. apply (acquirePass_ok s key w pre post iter) in Hok as [k2 Hk2]; [|by apply locks_reachable|done..].
    congruence.
  - unfold acquirePass in E. by destruct (blockerOf _ _ _ _).
Qed.

(** The lifecycle service's dataset locks exclude: the datasets held at once
    are pairwise unrelated, and a pass succeeds exactly when no held dataset is
    an ancestor, a descendant or the dataset itself. *)
Theorem hierarchyLocks_exclusive l hs dataset iter :
  rtc hstep (newHierarchyLocks, []) (l, hs) → (∀ a, a ∈ iter ↔ is_Some (hl_active l !! a)) →
  NoDup hs ∧ (∀ a b n, a ∈ hs → b ∈ hs → a ≠ b → within n a = true → within n b = false) ∧
  (is_Some (hierarchyPass l dataset iter) ↔ ∀ a, a ∈ hs → overlapping a dataset = false).
Proof.
  intros Hr Hit. destruct (hierarchy_reachable _ Hr) as (Ha & Hnd & Hno). cbn in *. split_and!; [done| |].
  - intros a b n Hina Hinb Hne Hn. apply not_true_iff_false. intros Hn'.
    assert (overlapping a b = true) by (apply overlapping_common; eauto). rewrite Hno in H by done. done.
  - unfold hierarchyPass. destruct (existsb _ iter) eqn:E.
    + split; [by intros []|]. intros H. apply existsb_exists in E as (a & Hin & Ho).
      apply list_elem_of_In, Hit in Hin as [n Hn]. apply Ha in Hn as [_ Hn]. apply H in Hn.
      unfold overlappingScope in Ho. unfold overlapping, below in Hn. congruence.
    + split; [|by eexists]. intros _ a Hin. rewrite <- not_true_iff_false, existsb_exists in E.
      apply not_true_iff_false. intros Ho. apply E. exists a. split; [|exact Ho].
      apply list_elem_of_In, Hit. exists 1. by apply Ha.
Qed.

(** * Witnesses *)

Definition keysOf {A} (m : gmap string A) : list string := (map_to_list m).*1.
Lemma elem_of_keysOf {A} (m : gmap string A) a : a ∈ keysOf m ↔ is_Some (m !! a).
Proof.
  unfold keysOf. rewrite list_elem_of_fmap. split.
  - intros ([a' n] & -> & H%elem_of_map_to_list). cbn. eauto.
  - intros [n Hn]. exists (a, n). split; [done|]. by apply elem_of_map_to_list.
Qed.
Lemma scopesOf_keys k key : scopesOf k key (keysOf (inner (active k) key)).
Proof. intros a. apply elem_of_keysOf. Qed.

(** Two jobs under siblings hold the key; one under the first waits. *)
Definition witnessW1 : lockWaiter := mkWaiter 0 "tank/a" "job1".
Definition witnessW2 : lockWaiter := mkWaiter 1 "tank/b" "job2".
Definition witnessW3 : lockWaiter := mkWaiter 2 "tank/a/x" "job3".
Definition take_ (k : keyLocks) (w : lockWaiter) : keyLocks :=
  match acquirePass k "key" w (keysOf (inner (active k) "key")) false with Acquired k' => k' | _ => k end.
Definition witnessK1 : keyLocks := take_ (enqueue newKeyLocks "key" witnessW1) witnessW1.
Definition witnessK2 : keyLocks := take_ (enqueue witnessK1 "key" witnessW2) witnessW2.
Definition witnessLocks : lockState := mkLockState (enqueue witnessK2 "key" witnessW3) [("key", witnessW2); ("key", witnessW1)] 3.

Lemma witnessLocks_reachable : rtc lstep lockState0 witnessLocks.
Proof.
  eapply rtc_l; [apply (l_enqueue newKeyLocks [] 0 "key" "tank/a" "job1")|].
  eapply rtc_l; [eapply (l_acquire _ [] 1 "key" witnessW1 _ witnessK1); [|apply scopesOf_keys|by vm_compute]|].
  { apply list_elem_of_lookup. by exists 0%nat. }
  eapply rtc_l; [apply (l_enqueue witnessK1 _ 1 "key" "tank/b" "job2")|].
  eapply rtc_l; [eapply (l_acquire _ [("key", witnessW1)] 2 "key" witnessW2 _ witnessK2); [|apply scopesOf_keys|by vm_compute]|].
  { apply list_elem_of_lookup. by exists 0%nat. }
  apply rtc_once, (l_enqueue witnessK2 _ 2 "key" "tank/a/x" "job3").
Qed.

Lemma keyLocks_exclusive_witness : within "tank/a/y" "tank/a" = true ∧ within "tank/a/y" "tank/b" = false.
Proof.
  split; [reflexivity|].
  destruct (keyLocks_exclusive witnessLocks [("key", witnessW2)] [] "key" witnessW1 witnessW2 witnessLocks_reachable eq_refl)
    as (_ & _ & H); [set_solver|]. apply H. reflexivity.
Defined.

Lemma keyLocks_grant_witness :
  ¬ ∃ k', acquirePass (locks witnessLocks) "key" witnessW3 (keysOf (inner (active (locks witnessLocks)) "key")) false = Acquired k'.
Proof.
  intros H. apply (keyLocks_grant witnessLocks "key" witnessW3 [] [] (keysOf (inner (active (locks witnessLocks)) "key")) witnessLocks_reachable) in H as [H _].
  - assert (overlappingLockScope (lw_scope witnessW1) (lw_scope witnessW3) = false) as H1 by (apply H; cbn; set_solver).
    discriminate H1.
  - by vm_compute.
  - apply scopesOf_keys.
Defined.

Lemma keyLocks_no_lost_wakeup_witness :
  ∃ blocker, acquirePass (locks witnessLocks) "key" witnessW3 (keysOf (inner (active (locks witnessLocks)) "key")) false = Blocked blocker.
Proof.
  eapply (keyLocks_no_lost_wakeup witnessLocks witnessLocks "key" witnessW3 [] [] (keysOf (inner (active (locks witnessLocks)) "key")) _ "job1" witnessLocks_reachable).
  - apply rtc_refl.
  - reflexivity.
  - by vm_compute.
  - apply scopesOf_keys.
  - apply scopesOf_keys.
  - by vm_compute.
Defined.

Definition witnessHierarchy : hierarchyLocks := mkHierarchyLocks {["tank/a" := 1]} 0.
Lemma hierarchyLocks_exclusive_witness :
  is_Some (hierarchyPass witnessHierarchy "tank/b" ["tank/a"]) ↔ ∀ a, a ∈ ["tank/a"] → overlapping a "tank/b" = false.
Proof.
  apply (hierarchyLocks_exclusive witnessHierarchy ["tank/a"] "tank/b" ["tank/a"]).
  - apply rtc_once, (h_acquire newHierarchyLocks [] "tank/a" []); [|reflexivity].
    intros a. cbn. rewrite lookup_empty. split; [by intros []%elem_of_nil|by intros []].
  - intros a. cbn. rewrite list_elem_of_singleton. unfold is_Some. setoid_rewrite lookup_singleton_Some. naive_solver.
Defined.
