(* ===== verification/Gate.v ===== *)
(** The activation gate: internal/lifecycle/gate.go.

    Tickets are pointers shared by the gate and its callers, so they live in a
    store. A ticket's context is done when the ticket was cancelled or when the
    caller's context was; both are [cancelled] here, and [parentDone] is the step
    by which the caller's context ends. *)

From S2P Require Import Prelude GoStrings Names.

(** A Go [uint8]. *)
Abbreviation WorkKind := Z (only parsing).
Definition Management : WorkKind := 0.
Definition Transfer : WorkKind := 1.

Record Ticket := mkTicket {
  tk_scope : string;
  tk_kind : WorkKind;
  tk_cancelled : bool;
  tk_running : bool;
  tk_finished : bool
}.

Record scope := mkScope { enabled : bool; tickets : gset nat; changed : nat }.

Record Gate := mkGate { scopes : gmap string scope; store : gmap nat Ticket; nextTicket : nat }.
Definition emptyGate : Gate := mkGate ∅ ∅ 0.

Record GateStatus := mkGateStatus { gs_Enabled : bool; gs_Queued : Z; gs_Management : Z; gs_Transfers : Z }.

Definition newScope : scope := mkScope false ∅ 0.

(** [Gate.get] creates a missing scope. *)
Definition get (g : Gate) (dataset : string) : scope * Gate :=
  match scopes g !! dataset with
  | Some s => (s, g)
  | None => (newScope, mkGate (<[dataset := newScope]> (scopes g)) (store g) (nextTicket g))
  end.

Definition signal (s : scope) : scope := mkScope (enabled s) (tickets s) (S (changed s)).

Definition cancelTicket (t : Ticket) : Ticket := mkTicket (tk_scope t) (tk_kind t) true (tk_running t) (tk_finished t).

(** Cancels the tickets of [ids] that are queued or transfers. *)
Definition cancelScope (ids : gset nat) (st : gmap nat Ticket) : gmap nat Ticket :=
  map_imap (λ i t, Some (if bool_decide (i ∈ ids) && (negb (tk_running t) || (tk_kind t =? Transfer))
                         then cancelTicket t else t)) st.

Definition SetEnabled (g : Gate) (dataset : string) (on : bool) : result unit * Gate :=
  match ValidateDataset dataset with
  | Err e => (Err e, g)
  | Ok _ =>
    let '(s, g) := get g dataset in
    let store' := if on then store g else cancelScope (tickets s) (store g) in
    let s := signal (mkScope on (tickets s) (changed s)) in
    (Ok tt, mkGate (<[dataset := s]> (scopes g)) store' (nextTicket g))
  end.

(** [ctxDone] is [ctx.Err() != nil] of the caller's context. *)
Definition Queue (g : Gate) (ctxDone : bool) (dataset : string) (kind : WorkKind) : result nat * Gate :=
  match ValidateDataset dataset with
  | Err e => (Err e, g)
  | Ok _ =>
    if negb (kind =? Management) && negb (kind =? Transfer) then (Err (Errorf "invalid work kind"), g) else
    let '(s, g) := get g dataset in
    if negb (enabled s) then (Err (Errorf "dataset is disabled"), g)
    else if ctxDone then (Err ErrCanceled, g)
    else
      let id := nextTicket g in
      let s := signal (mkScope (enabled s) ({[id]} ∪ tickets s) (changed s)) in
      (Ok id, mkGate (<[dataset := s]> (scopes g)) (<[id := mkTicket dataset kind false false false]> (store g)) (S id))
  end.

(** The scope a ticket points to. *)
Definition scopeOf (g : Gate) (t : Ticket) : scope := default newScope (scopes g !! tk_scope t).

Definition Start (g : Gate) (id : nat) : result unit * Gate :=
  match store g !! id with
  | None => (Err (Errorf "nil ticket"), g)
  | Some t =>
    if tk_finished t || tk_running t then (Err (Errorf "ticket is finished or already running"), g)
    else if tk_cancelled t then (Err ErrCanceled, g)
    else if negb (enabled (scopeOf g t)) then (Err (Errorf "dataset is disabled"), g)
    else (Ok tt, mkGate (<[tk_scope t := signal (scopeOf g t)]> (scopes g))
                   (<[id := mkTicket (tk_scope t) (tk_kind t) (tk_cancelled t) true (tk_finished t)]> (store g)) (nextTicket g))
  end.

Definition Finish (g : Gate) (id : nat) : Gate :=
  match store g !! id with
  | None => g
  | Some t =>
    if tk_finished t then g
    else
      let s := scopeOf g t in
      let s := signal (mkScope (enabled s) (tickets s ∖ {[id]}) (changed s)) in
      mkGate (<[tk_scope t := s]> (scopes g))
        (<[id := mkTicket (tk_scope t) (tk_kind t) true (tk_running t) true]> (store g)) (nextTicket g)
  end.

(** The tickets a scope lists. *)
Definition listed (g : Gate) (s : scope) : list Ticket := omap (λ i, store g !! i) (elements (tickets s)).

Definition countTickets (P : Ticket → Prop) `{!∀ t, Decision (P t)} (l : list Ticket) : Z := Z.of_nat (length (filter P l)).
Definition Status (g : Gate) (dataset : string) : GateStatus * Gate :=
  let '(s, g) := get g dataset in
  let ts := listed g s in
  (mkGateStatus (enabled s)
     (countTickets (λ t, tk_running t = false ∧ tk_cancelled t = false) ts)
     (countTickets (λ t, tk_running t = true ∧ tk_kind t = Management) ts)
     (countTickets (λ t, tk_running t = true ∧ tk_kind t ≠ Management) ts), g).

(** One pass of a waiting loop: an answer, or wait for the next change. *)
Inductive waited := Answer (r : result unit) | WaitChange.

Definition WaitScopeQuiescent (g : Gate) (ctxDone : bool) (dataset : string) : waited * Gate :=
  match ValidateDataset dataset with
  | Err e => (Answer (Err e), g)
  | Ok _ =>
    let '(s, g) := get g dataset in
    if enabled s then (Answer (Err (Errorf "scope is still enabled")), g)
    else if existsb tk_running (listed g s) then (WaitChange, g)
    else (Answer (if ctxDone then Err ErrCanceled else Ok tt), g)
  end.

Definition related (name dataset : string) : bool :=
  (name =? dataset)%string || HasPrefix dataset (name +:+ "/") || HasPrefix name (dataset +:+ "/").

(** One pass of [WaitQuiescent], the scopes iterated in the order [iter]. *)
Fixpoint quiescentFrom (g : Gate) (dataset : string) (running : bool) (iter : list (string * scope)) : result bool :=
  match iter with
  | [] => Ok running
  | (name, s) :: iter =>
    if negb (related name dataset) then quiescentFrom g dataset running iter
    else if enabled s then Err (Errorf ("related scheduling scope " +:+ name +:+ " is still enabled"))
    else quiescentFrom g dataset (running || existsb tk_running (listed g s)) iter
  end.
Definition WaitQuiescent (g : Gate) (ctxDone : bool) (dataset : string) (iter : list (string * scope)) : waited :=
  match ValidateDataset dataset with
  | Err e => Answer (Err e)
  | Ok _ =>
    match quiescentFrom g dataset false iter with
    | Err e => Answer (Err e)
    | Ok true => WaitChange
    | Ok false => Answer (if ctxDone then Err ErrCanceled else Ok tt)
    end
  end.

(** * Runs *)

(** What a step does to activation. *)
Inductive glabel := LSet (dataset : string) (on : bool) | LOther.

(** One call, or the end of a caller's context. *)
Inductive gstep : glabel → Gate → Gate → Prop :=
| g_set g dataset on r g' : SetEnabled g dataset on = (r, g') → gstep (LSet dataset on) g g'
| g_queue g done dataset kind r g' : Queue g done dataset kind = (r, g') → gstep LOther g g'
| g_start g id r g' : Start g id = (r, g') → gstep LOther g g'
| g_finish g id : gstep LOther g (Finish g id)
| g_status g dataset r g' : Status g dataset = (r, g') → gstep LOther g g'
| g_wait g done dataset r g' : WaitScopeQuiescent g done dataset = (r, g') → gstep LOther g g'
| g_parent g id t : store g !! id = Some t →
    gstep LOther g (mkGate (scopes g) (<[id := cancelTicket t]> (store g)) (nextTicket g)).

Inductive gsteps (P : glabel → Prop) : Gate → Gate → Prop :=
| gs_refl g : gsteps P g g
| gs_step l g1 g2 g3 : P l → gstep l g1 g2 → gsteps P g2 g3 → gsteps P g1 g3.

(** Whether a ticket may still be at work. *)
Definition live (t : Ticket) : Prop := tk_finished t = false.
Definition atWork (t : Ticket) : Prop := tk_running t = true ∧ live t.

Record gate_inv (g : Gate) : Prop := {
  inv_listed : ∀ name s i, scopes g !! name = Some s →
    (i ∈ tickets s ↔ ∃ t, store g !! i = Some t ∧ tk_scope t = name ∧ live t);
  inv_scope : ∀ i t, store g !! i = Some t → is_Some (scopes g !! tk_scope t) ∧ (i < nextTicket g)%nat;
  inv_disabled : ∀ i t, store g !! i = Some t → live t → enabled (scopeOf g t) = false →
    tk_cancelled t = true ∨ (tk_running t = true ∧ tk_kind t ≠ Transfer)
}.

(** [get] adds at most an empty disabled scope. *)
Lemma get_spec g dataset s g' :
  get g dataset = (s, g') →
  store g' = store g ∧ nextTicket g' = nextTicket g ∧ scopes g' !! dataset = Some s ∧
  (∀ name, name ≠ dataset → scopes g' !! name = scopes g !! name) ∧
  (scopes g !! dataset = Some s ∨ (scopes g !! dataset = None ∧ s = newScope)).
Proof.
  unfold get. destruct (scopes g !! dataset) as [s0|] eqn:E; intros [= <- <-]; cbn.
  - split_and!; auto.
  - rewrite lookup_insert_eq. split_and!; auto. intros name Hne. by rewrite lookup_insert_ne.
Qed.

Lemma get_inv g dataset s g' : gate_inv g → get g dataset = (s, g') → gate_inv g'.
Proof.
  intros [H1 H2 H3] (Es & En & Ed & Eo & Hc)%get_spec. unfold scopeOf in *. constructor; rewrite ?Es, ?En.
  - intros name s0 i Hn. destruct (decide (name = dataset)) as [->|Hne]; [|apply H1; by rewrite <- Eo].
    rewrite Ed in Hn. injection Hn as <-. destruct Hc as [Hc|[Hc ->]]; [by apply H1|].
    split; [by intros ?%not_elem_of_empty|]. intros (t & Ht & Hs & _). destruct (H2 i t Ht) as [[? ?] _]. congruence.
  - intros i t Ht. destruct (H2 i t Ht) as [[s0 Hs] ?]. split; [|done].
    destruct (decide (tk_scope t = dataset)) as [E|Hne]; [rewrite E, Ed; by eexists|rewrite Eo by done; by eexists].
  - intros i t Ht Hl He. apply (H3 i t Ht Hl). destruct (H2 i t Ht) as [[s0 Hs] _]. unfold scopeOf in He.
    destruct (decide (tk_scope t = dataset)) as [E|Hne]; [|by rewrite Eo in He]. rewrite E in *. rewrite Ed in He.
    destruct Hc as [->|[Hc _]]; [done|congruence].
Qed.

Lemma lookup_cancelScope ids st i :
  cancelScope ids st !! i =
  (λ t, if bool_decide (i ∈ ids) && (negb (tk_running t) || (tk_kind t =? Transfer)) then cancelTicket t else t) <$> st !! i.
Proof. unfold cancelScope. rewrite map_lookup_imap. by destruct (st !! i). Qed.

(** Changing tickets without changing who they belong to, and one scope. *)
Lemma gate_inv_update g name s' (st' : gmap nat Ticket) :
  gate_inv g → is_Some (scopes g !! name) →
  (∀ i, match store g !! i, st' !! i with
        | Some t, Some t' => tk_scope t' = tk_scope t ∧ (tk_scope t ≠ name → t' = t)
        | None, None => True
        | _, _ => False
        end) →
  (∀ i, i ∈ tickets s' ↔ ∃ t, st' !! i = Some t ∧ tk_scope t = name ∧ live t) →
  (enabled s' = false → ∀ i t, st' !! i = Some t → tk_scope t = name → live t →
    tk_cancelled t = true ∨ (tk_running t = true ∧ tk_kind t ≠ Transfer)) →
  gate_inv (mkGate (<[name := s']> (scopes g)) st' (nextTicket g)).
Proof.
  intros [H1 H2 H3] Hname Hst Hl Hd. constructor; cbn.
  - intros n s i. rewrite lookup_insert_Some. intros [[<- <-]|[Hne Hs]]; [apply Hl|]. rewrite (H1 n s i Hs).
    specialize (Hst i). destruct (store g !! i) as [t|], (st' !! i) as [t'|]; try done.
    destruct Hst as [E1 E2]. split; intros (u & [= <-] & Hu & Hlive).
    + rewrite E2 by congruence. eauto.
    + eexists. rewrite E2 in * by congruence. eauto.
  - intros i t Ht. specialize (Hst i). rewrite Ht in Hst. destruct (store g !! i) as [t0|] eqn:E0; [|done].
    destruct Hst as [E1 _]. destruct (H2 i t0 E0) as [Hs ?]. split; [|done]. rewrite E1.
    destruct (decide (tk_scope t0 = name)) as [->|Hne]; [rewrite lookup_insert_eq; by eexists|by rewrite lookup_insert_ne].
  - intros i t Ht Hlive. unfold scopeOf. cbn. destruct (decide (tk_scope t = name)) as [E|Hne].
    + rewrite E, lookup_insert_eq. cbn. intros He. by eapply Hd.
    + rewrite lookup_insert_ne by done. intros He. specialize (Hst i). rewrite Ht in Hst.
      destruct (store g !! i) as [t0|] eqn:E0; [|done]. destruct Hst as [E1 E2].
      rewrite E2 in * by congruence. by apply (H3 i t0).
Qed.

Lemma gate_inv_set g dataset on r g' : gate_inv g → SetEnabled g dataset on = (r, g') → gate_inv g'.
Proof.
  intros Hinv. unfold SetEnabled. destruct (ValidateDataset dataset); [|by intros [= <- <-]].
  destruct (get g dataset) as [s g1] eqn:Eg. intros [= <- <-].
  pose proof (get_inv _ _ _ _ Hinv Eg) as Hinv1. apply get_spec in Eg as (_ & _ & Ed & _).
  assert (∀ i, (if on then store g1 else cancelScope (tickets s) (store g1)) !! i
     = (λ t, if negb on && bool_decide (i ∈ tickets s) && (negb (tk_running t) || (tk_kind t =? Transfer)) then cancelTicket t else t) <$> store g1 !! i) as Hst.
  { intros i. destruct on; cbn; [by rewrite option_fmap_id|]. apply lookup_cancelScope. }
  apply gate_inv_update; [done|by eexists| | |].
  - intros i. rewrite Hst. destruct (store g1 !! i) as [t|] eqn:Et; [cbn|done].
    case_bool_decide as Hi; rewrite ?andb_false_r; cbn; [|done]. apply (inv_listed _ Hinv1 _ _ _ Ed) in Hi as (t' & Ht' & Hs & _).
    rewrite Et in Ht'. injection Ht' as <-. by destruct (_ && _ && _).
  - intros i. cbn. rewrite (inv_listed _ Hinv1 _ _ _ Ed), Hst. destruct (store g1 !! i) as [t|]; [cbn|naive_solver].
    destruct (_ && _ && _); naive_solver.
  - cbn. intros -> i t. rewrite Hst. destruct (store g1 !! i) as [t0|] eqn:Et; [cbn|done].
    intros [= <-] Hs Hl.
    assert (i ∈ tickets s) as Hi.
    { apply (inv_listed _ Hinv1 _ _ _ Ed). exists t0. by destruct (_ && _). }
    rewrite bool_decide_true in * by done. cbn in *. destruct (tk_running t0) eqn:Er; cbn; [|by left].
    destruct (Z.eqb_spec (tk_kind t0) Transfer); [by left|]. by right.
Qed.

Lemma gate_inv_queue g done dataset kind r g' : gate_inv g → Queue g done dataset kind = (r, g') → gate_inv g'.
Proof.
  intros Hinv. unfold Queue. destruct (ValidateDataset dataset); [|by intros [= <- <-]].
  destruct (_ && _); [by intros [= <- <-]|]. destruct (get g dataset) as [s g1] eqn:Eg.
  pose proof (get_inv _ _ _ _ Hinv Eg) as Hinv1. apply get_spec in Eg as (_ & _ & Ed & _).
  destruct (negb (enabled s)) eqn:Een; [by intros [= <- <-]|]. destruct done; [by intros [= <- <-]|]. intros [= <- <-].
  destruct Hinv1 as [H1 H2 H3].
  assert (store g1 !! nextTicket g1 = None) as Hfresh.
  { destruct (store g1 !! nextTicket g1) eqn:E; [|done]. apply H2 in E. lia. }
  constructor; cbn.
  - intros n s0 i. rewrite lookup_insert_Some. intros [[<- <-]|[Hne Hs]]; cbn.
    + rewrite elem_of_union, elem_of_singleton, (H1 _ _ i Ed). setoid_rewrite lookup_insert_Some.
      destruct (decide (i = nextTicket g1)) as [->|]; [|naive_solver]. split; [|naive_solver].
      intros _. eexists. split; [by left|done].
    + rewrite (H1 _ _ i Hs). setoid_rewrite lookup_insert_Some.
      destruct (decide (i = nextTicket g1)) as [->|]; [|naive_solver]. rewrite Hfresh. naive_solver.
  - intros i t. rewrite lookup_insert_Some. intros [[<- <-]|[_ Ht]]; cbn; [rewrite lookup_insert_eq; split; [by eexists|lia]|].
    destruct (H2 i t Ht) as [[s1 Hs1] ?]. split; [|lia].
    destruct (decide (tk_scope t = dataset)) as [->|Hne]; [rewrite lookup_insert_eq; by eexists|rewrite lookup_insert_ne by done; by eexists].
  - intros i t Ht Hl. unfold scopeOf. cbn. destruct (decide (tk_scope t = dataset)) as [E|Hne].
    + rewrite E, lookup_insert_eq. cbn. by destruct (enabled s).
    + rewrite lookup_insert_ne by done. intros He. apply lookup_insert_Some in Ht as [[_ <-]|[_ Ht]]; [done|]. by apply (H3 i t).
Qed.

Lemma scopeOf_lookup g i t : gate_inv g → store g !! i = Some t → scopes g !! tk_scope t = Some (scopeOf g t).
Proof. intros Hinv Ht. destruct (inv_scope _ Hinv i t Ht) as [[s Hs] _]. unfold scopeOf. by rewrite Hs. Qed.

(** Replacing one ticket of a scope by one of the same scope. *)
Lemma gate_inv_ticket g i t t' s' :
  gate_inv g → store g !! i = Some t → tk_scope t' = tk_scope t →
  enabled s' = enabled (scopeOf g t) →
  (∀ j, j ∈ tickets s' ↔ if decide (j = i) then live t' else j ∈ tickets (scopeOf g t)) →
  (live t' → enabled s' = false → tk_cancelled t' = true ∨ (tk_running t' = true ∧ tk_kind t' ≠ Transfer)) →
  gate_inv (mkGate (<[tk_scope t := s']> (scopes g)) (<[i := t']> (store g)) (nextTicket g)).
Proof.
  intros Hinv Ht Es Ee Hl Hd. pose proof (scopeOf_lookup _ _ _ Hinv Ht) as Hs.
  apply gate_inv_update; [done|by eexists| | |].
  - intros j. destruct (decide (j = i)) as [->|Hne]; [by rewrite Ht, lookup_insert_eq|].
    rewrite lookup_insert_ne by done. by destruct (store g !! j).
  - intros j. rewrite Hl. destruct (decide (j = i)) as [->|Hne].
    + rewrite lookup_insert_eq. naive_solver.
    + rewrite lookup_insert_ne by done. apply (inv_listed _ Hinv _ _ _ Hs).
  - intros He j u. destruct (decide (j = i)) as [->|Hne]; [rewrite lookup_insert_eq; intros [= <-] _; auto|].
    rewrite lookup_insert_ne by done. intros Hu Hsu Hlu. apply (inv_disabled _ Hinv j u Hu Hlu).
    unfold scopeOf in *. by rewrite Hsu, <- Ee.
Qed.

Lemma live_listed g i t : gate_inv g → store g !! i = Some t → live t → i ∈ tickets (scopeOf g t).
Proof. intros Hinv Ht Hl. apply (inv_listed _ Hinv _ _ _ (scopeOf_lookup _ _ _ Hinv Ht)). eauto. Qed.

Lemma gate_inv_start g id r g' : gate_inv g → Start g id = (r, g') → gate_inv g'.
Proof.
  intros Hinv. unfold Start. destruct (store g !! id) as [t|] eqn:Et; [|by intros [= <- <-]].
  destruct (tk_finished t || tk_running t) eqn:Ef; [by intros [= <- <-]|].
  destruct (tk_cancelled t) eqn:Ec; [by intros [= <- <-]|]. destruct (negb (enabled (scopeOf g t))) eqn:Ee; [by intros [= <- <-]|].
  intros [= <- <-]. apply orb_false_iff in Ef as [Ef _]. rewrite Ef.
  apply (gate_inv_ticket g id t (mkTicket (tk_scope t) (tk_kind t) false true false) (signal (scopeOf g t))); try done.
  - intros j. cbn. case_decide as E; [subst|done]. split; [done|]. intros _. by apply live_listed.
  - intros _ Hen. cbn in Hen. by rewrite Hen in Ee.
Qed.

Lemma gate_inv_finish g id : gate_inv g → gate_inv (Finish g id).
Proof.
  intros Hinv. unfold Finish. destruct (store g !! id) as [t|] eqn:Et; [|done]. destruct (tk_finished t) eqn:Ef; [done|].
  apply (gate_inv_ticket g id t (mkTicket (tk_scope t) (tk_kind t) true (tk_running t) true)); try done.
  intros j. cbn. unfold live. cbn. case_decide; set_solver.
Qed.

Lemma gate_inv_parent g id t :
  gate_inv g → store g !! id = Some t → gate_inv (mkGate (scopes g) (<[id := cancelTicket t]> (store g)) (nextTicket g)).
Proof.
  intros Hinv Ht. pose proof (scopeOf_lookup _ _ _ Hinv Ht) as Hs.
  rewrite <- (insert_id (scopes g) (tk_scope t) (scopeOf g t)) by done.
  apply (gate_inv_ticket g id t (cancelTicket t) (scopeOf g t)); try done; [|by left].
  intros j. case_decide as E; [subst|done]. rewrite (inv_listed _ Hinv _ _ _ Hs). unfold live. cbn.
  split; [naive_solver|]. eauto.
Qed.

Lemma gstep_inv l g g' : gstep l g g' → gate_inv g → gate_inv g'.
Proof.
  intros [] Hinv.
  - by eapply gate_inv_set.
  - by eapply gate_inv_queue.
  - by eapply gate_inv_start.
  - by apply gate_inv_finish.
  - unfold Status in H. destruct (get g0 dataset) as [s g1] eqn:Eg. simplify_eq. by eapply get_inv.
  - unfold WaitScopeQuiescent in H. destruct (ValidateDataset dataset); [|by simplify_eq].
    destruct (get g0 dataset) as [s g1] eqn:Eg. apply get_inv in Eg; [|done]. repeat case_match; by simplify_eq.
  - by apply gate_inv_parent.
Qed.

Lemma gsteps_inv P g g' : gsteps P g g' → gate_inv g → gate_inv g'.
Proof. induction 1; eauto using gstep_inv. Qed.

Lemma gate_inv0 : gate_inv emptyGate.
Proof. constructor; cbn; intros *; by rewrite lookup_empty. Qed.
#[export] Hint Resolve gate_inv0 gsteps_inv gstep_inv : bz.

(** * What steps keep *)

(** A step keeps every ticket, its scope, and a cancellation. *)
Lemma gstep_ticket l g g' i t :
  gstep l g g' → gate_inv g → store g !! i = Some t →
  ∃ t', store g' !! i = Some t' ∧ tk_scope t' = tk_scope t ∧ (tk_cancelled t = true → tk_cancelled t' = true) ∧
    (tk_finished t = true → tk_finished t' = true) ∧
    (tk_running t' = true → tk_running t = true ∨
       (tk_cancelled t = false ∧ live t ∧ enabled (scopeOf g t) = true)).
Proof.
  intros Hst Hinv Ht. assert (∀ d s g1, get g d = (s, g1) → store g1 = store g) as Hget.
  { intros d s g1 (? & _)%get_spec. done. }
  assert (∃ t', store g !! i = Some t' ∧ tk_scope t' = tk_scope t ∧ (tk_cancelled t = true → tk_cancelled t' = true) ∧
    (tk_finished t = true → tk_finished t' = true) ∧ (tk_running t' = true → tk_running t = true ∨ (tk_cancelled t = false ∧ live t ∧ enabled (scopeOf g t) = true))) as Hid by (exists t; auto 10).
  destruct Hst as [g dataset on r g' H|g dn dataset kind r g' H|g id r g' H|g id|g dataset r g' H|g dn dataset r g' H|g id u H].
  - unfold SetEnabled in H. destruct (ValidateDataset dataset); [|by simplify_eq].
    destruct (get g dataset) as [s g1] eqn:Eg. apply Hget in Eg. simplify_eq. cbn. rewrite Eg. destruct on; [done|].
    rewrite lookup_cancelScope, Ht. cbn. eexists. split; [done|]. destruct (_ && _); cbn; auto 10.
  - unfold Queue in H. destruct (ValidateDataset dataset); [|by simplify_eq]. destruct (_ && _); [by simplify_eq|].
    destruct (get g dataset) as [s g1] eqn:Eg. pose proof (get_inv _ _ _ _ Hinv Eg) as Hinv1. apply Hget in Eg.
    destruct (negb _); [simplify_eq; by rewrite Eg|]. destruct dn; [simplify_eq; by rewrite Eg|]. simplify_eq. cbn.
    rewrite lookup_insert_ne, Eg; [done|]. rewrite <- Eg in Ht. destruct (inv_scope _ Hinv1 i t Ht) as [_ Hlt]. lia.
  - unfold Start in H. destruct (store g !! id) as [u|] eqn:Eu; [|by simplify_eq].
    destruct (tk_finished u || tk_running u) eqn:Ef; [by simplify_eq|]. destruct (tk_cancelled u) eqn:Ec; [by simplify_eq|].
    destruct (negb (enabled (scopeOf g u))) eqn:Ee; [by simplify_eq|]. simplify_eq. cbn.
    destruct (decide (i = id)) as [->|Hne]; [|by rewrite lookup_insert_ne]. rewrite lookup_insert_eq. simplify_eq.
    apply orb_false_iff in Ef as [Ef _]. apply negb_false_iff in Ee. eexists. split; [done|]. cbn. split_and!; auto; congruence.
  - unfold Finish. destruct (store g !! id) as [u|] eqn:Eu; [|done]. destruct (tk_finished u) eqn:Ef; [done|]. cbn.
    destruct (decide (i = id)) as [->|Hne]; [|by rewrite lookup_insert_ne]. rewrite lookup_insert_eq. simplify_eq.
    eexists. split; [done|]. cbn. auto 10.
  - unfold Status in H. destruct (get g dataset) as [s g1] eqn:Eg. apply Hget in Eg. simplify_eq. by rewrite Eg.
  - unfold WaitScopeQuiescent in H. destruct (ValidateDataset dataset); [|by simplify_eq].
    destruct (get g dataset) as [s g1] eqn:Eg. apply Hget in Eg. repeat case_match; simplify_eq; by rewrite Eg.
  - cbn. destruct (decide (i = id)) as [->|Hne]; [|by rewrite lookup_insert_ne]. rewrite lookup_insert_eq. simplify_eq.
    eexists. split; [done|]. cbn. auto 10.
Qed.

Lemma gstep_new l g g' i t :
  gstep l g g' → gate_inv g → store g !! i = None → store g' !! i = Some t → tk_running t = false.
Proof.
  intros Hst Hinv Hn. assert (∀ d s g1, get g d = (s, g1) → store g1 = store g) as Hget.
  { intros d s g1 (? & _)%get_spec. done. }
  destruct Hst as [g dataset on r g' H|g dn dataset kind r g' H|g id r g' H|g id|g dataset r g' H|g dn dataset r g' H|g id u H].
  - unfold SetEnabled in H. destruct (ValidateDataset dataset); [|simplify_eq; congruence].
    destruct (get g dataset) as [s g1] eqn:Eg. apply Hget in Eg. simplify_eq. cbn. rewrite Eg. destruct on; [congruence|].
    by rewrite lookup_cancelScope, Hn.
  - unfold Queue in H. destruct (ValidateDataset dataset); [|simplify_eq; congruence]. destruct (_ && _); [simplify_eq; congruence|].
    destruct (get g dataset) as [s g1] eqn:Eg. apply Hget in Eg. rewrite <- Eg in Hn.
    destruct (negb _); [simplify_eq; congruence|]. destruct dn; [simplify_eq; congruence|]. simplify_eq. cbn.
    rewrite lookup_insert_Some. intros [[_ <-]|[_ ?]]; [done|congruence].
  - unfold Start in H. destruct (store g !! id) as [u|] eqn:Eu; [|simplify_eq; congruence].
    repeat case_match; simplify_eq; try congruence. cbn. rewrite lookup_insert_Some. intros [[<- _]|[_ ?]]; congruence.
  - unfold Finish. destruct (store g !! id) as [u|] eqn:Eu; [|congruence]. destruct (tk_finished u); [congruence|]. cbn.
    rewrite lookup_insert_Some. intros [[<- _]|[_ ?]]; congruence.
  - unfold Status in H. destruct (get g dataset) as [s g1] eqn:Eg. apply Hget in Eg. simplify_eq. congruence.
  - unfold WaitScopeQuiescent in H. destruct (ValidateDataset dataset); [|simplify_eq; congruence].
    destruct (get g dataset) as [s g1] eqn:Eg. apply Hget in Eg. repeat case_match; simplify_eq; congruence.
  - cbn. rewrite lookup_insert_Some. intros [[<- _]|[_ ?]]; congruence.
Qed.

Definition enabledIn (g : Gate) (d : string) : bool := default false (enabled <$> scopes g !! d).

Lemma get_enabledIn g d s g1 name : get g d = (s, g1) → enabledIn g1 name = enabledIn g name ∧ enabled s = enabledIn g d.
Proof.
  intros (_ & _ & Ed & Eo & Hc)%get_spec. unfold enabledIn. split.
  - destruct (decide (name = d)) as [->|Hne]; [|by rewrite Eo]. rewrite Ed. by destruct Hc as [->|[-> ->]].
  - by destruct Hc as [->|[-> ->]].
Qed.

Lemma enabledIn_insert ss st n name s d :
  enabledIn (mkGate (<[name := s]> ss) st n) d = if decide (d = name) then enabled s else default false (enabled <$> ss !! d).
Proof.
  unfold enabledIn. cbn. case_decide as E; [subst; by rewrite lookup_insert_eq|by rewrite lookup_insert_ne].
Qed.

Lemma scopeOf_enabledIn g t : enabled (scopeOf g t) = enabledIn g (tk_scope t).
Proof. unfold scopeOf, enabledIn. by destruct (scopes g !! tk_scope t). Qed.

(** Only [SetEnabled] changes activation. *)
Lemma gstep_enabled l g g' d :
  gstep l g g' → enabledIn g' d = match l with
                                  | LSet name on => if decide (d = name ∧ ValidateDataset name = Ok tt) then on else enabledIn g d
                                  | LOther => enabledIn g d
                                  end.
Proof.
  intros [g0 dataset on r g1 H|g0 dn dataset kind r g1 H|g0 id r g1 H|g0 id|g0 dataset r g1 H|g0 dn dataset r g1 H|g0 id u H].
  - unfold SetEnabled in H. destruct (ValidateDataset dataset) as [[]|] eqn:Ev; [|simplify_eq; by rewrite decide_False by naive_solver].
    destruct (get g0 dataset) as [s g2] eqn:Eg. apply (get_enabledIn _ _ _ _ d) in Eg as [<- _]. simplify_eq.
    rewrite enabledIn_insert. repeat case_decide; naive_solver.
  - unfold Queue in H. destruct (ValidateDataset dataset); [|by simplify_eq]. destruct (_ && _); [by simplify_eq|].
    destruct (get g0 dataset) as [s g2] eqn:Eg. pose proof (get_enabledIn _ _ _ _ d Eg) as [<- Es].
    destruct (negb _); [by simplify_eq|]. destruct dn; [by simplify_eq|]. simplify_eq. rewrite enabledIn_insert. cbn.
    case_decide as E; [subst|done]. pose proof (get_enabledIn _ _ _ _ dataset Eg) as [-> _]. done.
  - unfold Start in H. destruct (store g0 !! id) as [u|] eqn:Eu; [|by simplify_eq].
    repeat case_match; simplify_eq; try done. rewrite enabledIn_insert. cbn. rewrite scopeOf_enabledIn.
    case_decide; [by subst|done].
  - unfold Finish. destruct (store g0 !! id) as [u|] eqn:Eu; [|done]. destruct (tk_finished u); [done|].
    rewrite enabledIn_insert. cbn. rewrite scopeOf_enabledIn. case_decide; [by subst|done].
  - unfold Status in H. destruct (get g0 dataset) as [s g2] eqn:Eg. apply (get_enabledIn _ _ _ _ d) in Eg as [<- _]. by simplify_eq.
  - unfold WaitScopeQuiescent in H. destruct (ValidateDataset dataset); [|by simplify_eq].
    destruct (get g0 dataset) as [s g2] eqn:Eg. apply (get_enabledIn _ _ _ _ d) in Eg as [<- _]. repeat case_match; by simplify_eq.
  - done.
Qed.

(** A scope that is disabled and has nothing at work. *)
Definition quiet (g : Gate) (d : string) : Prop :=
  enabledIn g d = false ∧ ∀ i t, store g !! i = Some t → tk_scope t = d → ¬ atWork t.

Lemma quiet_step l g g' d : gstep l g g' → gate_inv g → l ≠ LSet d true → quiet g d → quiet g' d.
Proof.
  intros Hst Hinv Hl [He Hw]. split.
  - rewrite (gstep_enabled _ _ _ d Hst). destruct l as [n []|]; [|by case_decide|done].
    case_decide as E; [destruct E as [<- _]; done|done].
  - intros i t' Ht' Hs [Hr Hlive]. destruct (store g !! i) as [t|] eqn:Et.
    + destruct (gstep_ticket _ _ _ _ _ Hst Hinv Et) as (u & Hu & E1 & _ & E2 & E3). rewrite Ht' in Hu. injection Hu as <-.
      destruct (E3 Hr) as [Hrun|(_ & _ & Hen)].
      * apply (Hw i t Et); [congruence|]. split; [done|]. unfold live in *. destruct (tk_finished t); [|done].
        by rewrite E2 in Hlive.
      * rewrite scopeOf_enabledIn, <- E1, Hs in Hen. congruence.
    + pose proof (gstep_new _ _ _ _ _ Hst Hinv Et Ht'). congruence.
Qed.

Lemma quiet_steps g g' d : gsteps (λ l, l ≠ LSet d true) g g' → gate_inv g → quiet g d → quiet g' d.
Proof. induction 1; eauto using quiet_step, gstep_inv. Qed.

Lemma listed_spec g s name t : gate_inv g → scopes g !! name = Some s →
  t ∈ listed g s ↔ ∃ i, store g !! i = Some t ∧ tk_scope t = name ∧ live t.
Proof.
  intros Hinv Hs. unfold listed. rewrite list_elem_of_omap. setoid_rewrite elem_of_elements.
  setoid_rewrite (inv_listed _ Hinv _ _ _ Hs). split.
  - intros (i & (t' & Ht' & ? & ?) & Ht). exists i. simplify_eq. done.
  - intros (i & Ht & ? & ?). exists i. eauto.
Qed.

Lemma quiet_scope g d s : gate_inv g → scopes g !! d = Some s → enabled s = false →
  existsb tk_running (listed g s) = false → quiet g d.
Proof.
  intros Hinv Hs He Hn. split; [unfold enabledIn; by rewrite Hs|]. intros i t Ht Hsc [Hr Hl].
  rewrite <- not_true_iff_false, existsb_exists in Hn. apply Hn. exists t. split; [|done].
  apply list_elem_of_In, (listed_spec _ _ d); [done..|]. eauto.
Qed.

Lemma quiescentFrom_spec g d running iter :
  quiescentFrom g d running iter = Ok false →
  running = false ∧ ∀ name s, (name, s) ∈ iter → related name d = true → enabled s = false ∧ existsb tk_running (listed g s) = false.
Proof.
  revert running. induction iter as [|[name s] iter IH]; intros running; cbn.
  { intros [= ->]. split; [done|]. by intros ?? []%elem_of_nil. }
  destruct (related name d) eqn:Er; cbn.
  - destruct (enabled s) eqn:Ee; [done|]. intros [Hr H]%IH. apply orb_false_iff in Hr as [-> Hr]. split; [done|].
    intros n s' [[= -> ->]|Hin]%elem_of_cons Hrel; [done|by apply (H n)].
  - intros [-> H]%IH. split; [done|]. intros n s' [[= -> ->]|Hin]%elem_of_cons Hrel; [congruence|by apply (H n)].
Qed.

Lemma cancelled_steps P g g' i t :
  gsteps P g g' → gate_inv g → store g !! i = Some t → tk_cancelled t = true → tk_running t = false →
  ∃ t', store g' !! i = Some t' ∧ tk_cancelled t' = true ∧ tk_running t' = false.
Proof.
  intros Hs. revert t. induction Hs as [|l g1 g2 g3 _ Hst _ IH]; intros t Hinv Ht Hc Hr; [eauto|].
  destruct (gstep_ticket _ _ _ _ _ Hst Hinv Ht) as (t' & Ht' & _ & E2 & _ & E4).
  eapply IH; [by eapply gstep_inv|exact Ht'|auto|]. apply not_true_iff_false. intros [?|[? _]]%E4; congruence.
Qed.

(** * Properties *)

(** C33: disabling a scope cancels its queued work for good: a ticket that was
    queued then never runs, however often the scope is enabled again; and what
    may still run is only management work. *)
Theorem SetEnabled_cancels g g1 d :
  gsteps (λ _, True) emptyGate g → SetEnabled g d false = (Ok tt, g1) →
  ∀ i t, store g1 !! i = Some t → tk_scope t = d → live t →
    (tk_running t = true ∧ (tk_kind t = Transfer → tk_cancelled t = true)) ∨
    ∀ g2, gsteps (λ _, True) g1 g2 → ∃ e t2, Start g2 i = (Err e, g2) ∧ store g2 !! i = Some t2 ∧ tk_running t2 = false.
Proof.
  intros Hr Hset i t Ht Hs Hl. assert (gate_inv g1) as Hinv by (eapply gate_inv_set; [|exact Hset]; eauto with bz).
  assert (enabled (scopeOf g1 t) = false) as He.
  { rewrite scopeOf_enabledIn, Hs, (gstep_enabled (LSet d false) g g1) by (by eapply g_set).
    unfold SetEnabled in Hset. destruct (ValidateDataset d) as [[]|]; [|done]. by rewrite decide_True. }
  pose proof (inv_disabled _ Hinv i t Ht Hl He) as Hd.
  destruct (tk_running t) eqn:Erun; [left; split; [done|]; naive_solver|].
  right. intros g2 Hg2. destruct Hd as [Hc|[? _]]; [|done].
  destruct (cancelled_steps _ _ _ _ _ Hg2 Hinv Ht Hc Erun) as (t2 & Ht2 & Hc2 & Hr2).
  unfold Start. rewrite Ht2, Hr2, Hc2. destruct (tk_finished t2); cbn; eauto.
Qed.

(** When [WaitScopeQuiescent] answers nil the scope is idle, and it stays
    idle until it is enabled again. *)
Theorem WaitScopeQuiescent_stable g g1 g2 d :
  gsteps (λ _, True) emptyGate g → WaitScopeQuiescent g false d = (Answer (Ok tt), g1) →
  gsteps (λ l, l ≠ LSet d true) g1 g2 → quiet g2 d.
Proof.
  intros Hr Hw Hs. assert (gate_inv g) as Hinv by eauto with bz. unfold WaitScopeQuiescent in Hw.
  destruct (ValidateDataset d); [|done]. destruct (get g d) as [s g0] eqn:Eg.
  pose proof (get_inv _ _ _ _ Hinv Eg) as Hinv0. apply get_spec in Eg as (_ & _ & Ed & _).
  destruct (enabled s) eqn:Ee; [done|]. destruct (existsb tk_running (listed g0 s)) eqn:Ex; [done|]. simplify_eq.
  eapply quiet_steps; [done..|]. by eapply quiet_scope.
Qed.

(** When [WaitQuiescent] answers nil, whatever order it visits the scopes
    in, every scope at, above or below the dataset is idle, and each stays idle
    until it is enabled again. *)
Theorem WaitQuiescent_stable g g2 d iter name s :
  gsteps (λ _, True) emptyGate g → iter ≡ₚ map_to_list (scopes g) → WaitQuiescent g false d iter = Answer (Ok tt) →
  scopes g !! name = Some s → related name d = true → gsteps (λ l, l ≠ LSet name true) g g2 → quiet g2 name.
Proof.
  intros Hr Hit Hw Hs Hrel Hsteps. assert (gate_inv g) as Hinv by eauto with bz. unfold WaitQuiescent in Hw.
  destruct (ValidateDataset d); [|done]. destruct (quiescentFrom g d false iter) as [[]|] eqn:Eq; try done.
  apply quiescentFrom_spec in Eq as [_ Hall]. destruct (Hall name s) as [He Hx]; [|done|].
  { rewrite Hit. by apply elem_of_map_to_list. }
  eapply quiet_steps; [done..|]. by eapply quiet_scope.
Qed.

(** * Witnesses *)

Definition onGate : Gate := (SetEnabled emptyGate "tank" true).2.
Definition queuedGate : Gate := (Queue onGate false "tank" Transfer).2.
Definition offGate : Gate := (SetEnabled queuedGate "tank" false).2.
Lemma queuedGate_reachable : gsteps (λ _, True) emptyGate queuedGate.
Proof.
  eapply gs_step; [done|eapply (g_set _ "tank" true); reflexivity|].
  eapply gs_step; [done|eapply (g_queue _ false "tank" Transfer); reflexivity|]. apply gs_refl.
Qed.

Lemma SetEnabled_cancels_witness :
  ∃ e t2, Start offGate 0 = (Err e, offGate) ∧ store offGate !! 0%nat = Some t2 ∧ tk_running t2 = false.
Proof.
  destruct (SetEnabled_cancels queuedGate offGate "tank" queuedGate_reachable eq_refl 0%nat
    (mkTicket "tank" Transfer true false false)) as [[H _]|H]; [reflexivity..| |].
  - discriminate H.
  - apply H. apply gs_refl.
Defined.

Lemma offGate_reachable : gsteps (λ _, True) emptyGate offGate.
Proof.
  eapply gs_step; [done|eapply (g_set _ "tank" true); reflexivity|].
  eapply gs_step; [done|eapply (g_queue _ false "tank" Transfer); reflexivity|].
  eapply gs_step; [done|eapply (g_set _ "tank" false); reflexivity|]. apply gs_refl.
Qed.

Lemma WaitScopeQuiescent_stable_witness : quiet offGate "tank".
Proof.
  apply (WaitScopeQuiescent_stable offGate offGate offGate "tank" offGate_reachable); [reflexivity|apply gs_refl].
Defined.

Lemma WaitQuiescent_stable_witness : quiet offGate "tank".
Proof.
  apply (WaitQuiescent_stable offGate offGate "tank/data" (map_to_list (scopes offGate)) "tank"
    (default newScope (scopes offGate !! "tank")) offGate_reachable); [reflexivity..|apply gs_refl].
Defined.
