(* ===== verification/Policy.v ===== *)
(** Policy resolution: internal/policy/resolve.go and discard.go.

    [Resolve] appends to [p.Errors] and [p.Warnings] while it reads the values
    and sorts both at the end, so the order in which Go iterates the value map
    does not show. A step that can report returns what it appends. *)

From Stdlib Require Import Ascii.
From S2P Require Import Prelude GoStrings GoTime Grid Names Zfs.

(** * Data *)

Abbreviation Discard := string (only parsing).
Definition DiscardOff : Discard := "off".
Definition DiscardFirst : Discard := "first".
Definition DiscardAll : Discard := "all".

Record Value := mkValue { va_Value : string; va_Dataset : string }.
#[export] Instance Value_eq_dec : EqDecision Value.
Proof. solve_decision. Defined.

Record Flags := mkFlags {
  LargeBlocks : bool;
  Compressed : bool;
  EmbeddedData : bool;
  Raw : bool;
  Props : bool;
  Replicate : bool
}.
#[export] Instance Flags_eq_dec : EqDecision Flags.
Proof. solve_decision. Defined.

Record Effective := mkEffective {
  ef_Enabled : bool;
  ef_Grid : Grid;
  ef_Remote : list string;
  ef_Local : list string;
  ef_Incremental : string;
  ef_Requested : Flags;
  ef_Send : Flags;
  ef_SetProperties : gmap string string;
  ef_IgnoreProperties : list string;
  ef_Discard : Discard;
  ef_Values : gmap string Value;
  ef_Warnings : list string;
  ef_Errors : list string
}.
#[export] Instance Effective_eq_dec : EqDecision Effective.
Proof. solve_decision. Defined.

(** [Effective.Valid]. *)
Definition validPolicy (p : Effective) : bool := match ef_Errors p with [] => true | _ => false end.

Definition IsPublic (name : string) : bool := HasPrefix name Namespace && negb (HasPrefix name StateNamespace).

(** * Targets *)

Definition addTarget (st : list string * gset string) (part : string) : result (list string * gset string) :=
  let '(targets, seen) := st in
  let target := TrimSpace part in
  if (target =? "")%string then Err (Errorf "target list contains an empty entry")
  else if decide (target ∈ seen) then Ok (targets, seen)
  else Ok (targets ++ [target], {[target]} ∪ seen).
Definition ParseTargets (value : string) : result (list string) :=
  st ← foldM addTarget ([], ∅) (Split value ","); Ok st.1.

(** * Reading values *)

Definition valueOf (values : gmap string Value) (key : string) : string :=
  match values !! (Namespace +:+ key) with Some v => va_Value v | None => "" end.

(** [p.toggle(key)] and what it appends to the errors. *)
Definition toggle (values : gmap string Value) (key : string) : bool * list string :=
  let value := valueOf values key in
  ((value =? "on")%string,
   if negb (value =? "on")%string && negb (value =? "off")%string then [key +:+ " must be on or off"] else []).

(** [p.targets(key)] and what it appends to the errors. *)
Definition targets (values : gmap string Value) (key : string) : list string * list string :=
  match values !! (Namespace +:+ key) with
  | None => ([], [])
  | Some v =>
    match ParseTargets (va_Value v) with
    | Ok l => (l, [])
    | Err e => ([], [key +:+ ": " +:+ ErrorText e])
    end
  end.

(** The values a dataset inherits and sets: the first two loops of [Resolve]. *)
Definition inheritedValues (parent : option Effective) : gmap string Value :=
  match parent with
  | None => ∅
  | Some p => filter (λ kv, va_Dataset kv.2 ≠ "") (ef_Values p)
  end.
Definition localValue (dataset : string) (values : gmap string Value) (p : Property) : gmap string Value :=
  if (pr_Dataset p =? dataset)%string && (pr_Source p =? SourceLocal)%string && IsPublic (pr_Name p)
  then <[pr_Name p := mkValue (pr_Value p) dataset]> values else values.

Definition encryptedDataset (d : Dataset) : bool :=
  negb (ds_EncryptionRoot d =? "")%string && negb (ds_EncryptionRoot d =? "-")%string.

Definition defaults (encrypted : bool) : list (string * string) :=
  [("enabled", "off"); ("policy", DefaultGrid); ("large_blocks", "on"); ("compressed", "on");
   ("raw", if encrypted then "on" else "off"); ("props", "off"); ("incremental", "all"); ("replicate", "off");
   ("discard", "off")].

Definition addDefault (values : gmap string Value) (kv : string * string) : gmap string Value :=
  match values !! (Namespace +:+ kv.1) with
  | Some _ => values
  | None => <[Namespace +:+ kv.1 := mkValue kv.2 ""]> values
  end.

Definition knownKey (key : string) : bool :=
  let name := TrimPrefix key Namespace in
  existsb (λ kv, (kv.1 =? name)%string) (defaults false) || (name =? "remote")%string || (name =? "local")%string
  || HasPrefix name "set_prop:" || HasPrefix name "ignore_prop:".

(** * Receive properties *)

Definition reservedTarget (target : string) : bool :=
  (target =? "")%string || HasPrefix target Namespace || ContainsAny target "="
  || ContainsFunc target (λ r, IsSpace r || IsControl r).

(** The fields [receiveProperties] changes. *)
Record receiveState := mkReceive { rs_set : gmap string string; rs_ignore : list string; rs_errors : list string }.

Definition receiveKey (values : gmap string Value) (st : receiveState) (key : string) : receiveState :=
  let name := TrimPrefix key Namespace in
  let '(kind, target, dynamic) := Cut name ":" in
  if negb dynamic || (negb (kind =? "set_prop")%string && negb (kind =? "ignore_prop")%string) then st
  else if reservedTarget target
  then mkReceive (rs_set st) (rs_ignore st) (rs_errors st ++ ["invalid or reserved receive property: " +:+ target])
  else if (kind =? "set_prop")%string
  then mkReceive (<[target := match values !! key with Some v => va_Value v | None => "" end]> (rs_set st)) (rs_ignore st) (rs_errors st)
  else
    let '(on, errs) := toggle values name in
    mkReceive (rs_set st) (if on then rs_ignore st ++ [target] else rs_ignore st) (rs_errors st ++ errs).

(** What [validateRawReceive] appends to the errors. *)
Definition validateRawReceive (set : gmap string string) (ignore : list string) : list string :=
  ["encryption"; "keyformat"; "pbkdf2iters"] ≫= λ key,
    (if decide (is_Some (set !! key)) then ["raw encrypted stream cannot override " +:+ key] else [])
    ++ (if decide (key ∈ ignore) then ["raw encrypted stream cannot exclude " +:+ key] else []).

(** The set and ignored properties, the warnings and the errors of
    [receiveProperties]. *)
Definition receiveProperties (values : gmap string Value) (raw encrypted : bool)
  : gmap string string * list string * list string * list string :=
  let keys := SortStrings (map_to_list values).*1 in
  let st := fold_left (receiveKey values) keys (mkReceive ∅ [] []) in
  let both := filter (λ key, is_Some (rs_set st !! key)) (rs_ignore st) in
  let ignore := filter (λ key, ¬ is_Some (rs_set st !! key)) (rs_ignore st) in
  (rs_set st, ignore, (λ key, "set_prop wins over ignore_prop for " +:+ key) <$> both,
   rs_errors st ++ if raw && encrypted then validateRawReceive (rs_set st) ignore else []).

(** * Resolve *)

Definition emptyGrid : Grid := mkGrid [] "" 0.

(** What the loop over the local targets appends to the errors. *)
Definition localErrors (local : list string) : list string :=
  local ≫= λ l, match ValidateDataset l with Ok _ => [] | Err e => ["local: " +:+ ErrorText e] end.

Definition rawWarning : string := "raw sends of unencrypted data imply large_blocks and compressed".

(** The values in effect: inherited, set locally, then defaulted. *)
Definition resolveValues (dataset : Dataset) (parent : option Effective) (stored : list Property) : gmap string Value :=
  fold_left addDefault (defaults (encryptedDataset dataset))
    (fold_left (localValue (ds_Name dataset)) stored (inheritedValues parent)).

Definition Resolve (dataset : Dataset) (parent : option Effective) (stored : list Property) (remotes : gset string) : Effective :=
  let encrypted := encryptedDataset dataset in
  let values := resolveValues dataset parent stored in
  let errors := (λ key, "unknown public property " +:+ key) <$> filter (λ key, knownKey key = false) (map_to_list values).*1 in
  let '(enabled, e1) := toggle values "enabled" in
  let '(grid, e2) := match ParseGrid (valueOf values "policy") with
                     | Ok g => (g, [])
                     | Err e => (emptyGrid, ["policy: " +:+ ErrorText e])
                     end in
  let '(remote, e3) := targets values "remote" in
  let '(local, e4) := targets values "local" in
  let e5 := (λ r, "unknown remote " +:+ Quote r) <$> filter (λ r, r ∉ remotes) remote in
  let e6 := localErrors local in
  let incremental := valueOf values "incremental" in
  let e7 := if negb (incremental =? "all")%string && negb (incremental =? "latest")%string
            then ["incremental must be all or latest"] else [] in
  let '(large, e8) := toggle values "large_blocks" in
  let '(compressed, e9) := toggle values "compressed" in
  let '(raw, e10) := toggle values "raw" in
  let '(props, e11) := toggle values "props" in
  let '(replicate, e12) := toggle values "replicate" in
  let requested := mkFlags large compressed false raw props replicate in
  let implied := raw && negb encrypted in
  let send := mkFlags (large || implied) (compressed || implied) implied raw (props || replicate) replicate in
  let w1 := if implied && (negb large || negb compressed) then [rawWarning] else [] in
  let e13 := if replicate && encrypted && negb raw then ["encrypted recursive replication requires raw=on"] else [] in
  let discard := valueOf values "discard" in
  let e14 := if negb (discard =? DiscardOff)%string && negb (discard =? DiscardFirst)%string && negb (discard =? DiscardAll)%string
             then ["discard must be off, first, or all"] else [] in
  let '(set, ignore, w2, e15) := receiveProperties values raw encrypted in
  mkEffective enabled grid remote local incremental requested send set ignore discard values
    (SortStrings (w1 ++ w2))
    (SortStrings (errors ++ e1 ++ e2 ++ e3 ++ e4 ++ e5 ++ e6 ++ e7 ++ e8 ++ e9 ++ e10 ++ e11 ++ e12 ++ e13 ++ e14 ++ e15)).

(** [ForReplicationScope]. *)
Definition ForReplicationScope (p : Effective) (rootEncrypted : bool) (encryptedDescendant : string) : Effective :=
  if negb (Replicate (ef_Send p)) || (encryptedDescendant =? "")%string then p
  else
    let finish (send : Flags) (warnings : list string) :=
      mkEffective (ef_Enabled p) (ef_Grid p) (ef_Remote p) (ef_Local p) (ef_Incremental p) (ef_Requested p) send
        (ef_SetProperties p) (ef_IgnoreProperties p) (ef_Discard p) (ef_Values p)
        (Compact (SortStrings warnings))
        (Compact (SortStrings (ef_Errors p ++ validateRawReceive (ef_SetProperties p) (ef_IgnoreProperties p)))) in
    if Raw (ef_Send p) then finish (ef_Send p) (ef_Warnings p)
    else if negb (match ef_Values p !! (Namespace +:+ "raw") with Some v => (va_Dataset v =? "")%string | None => true end)
    then
      mkEffective (ef_Enabled p) (ef_Grid p) (ef_Remote p) (ef_Local p) (ef_Incremental p) (ef_Requested p) (ef_Send p)
        (ef_SetProperties p) (ef_IgnoreProperties p) (ef_Discard p) (ef_Values p) (ef_Warnings p)
        (ef_Errors p ++ ["encrypted replication descendant " +:+ encryptedDescendant
                         +:+ " requires raw=on; explicit raw setting forbids automatic selection"])
    else
      let s := ef_Send p in
      let implied := negb rootEncrypted in
      let send := mkFlags (LargeBlocks s || implied) (Compressed s || implied) (EmbeddedData s || implied) true (Props s) (Replicate s) in
      let w1 := ["raw enabled automatically for encrypted replication descendant " +:+ encryptedDescendant] in
      let w2 := if implied && (negb (LargeBlocks (ef_Requested p)) || negb (Compressed (ef_Requested p))) then [rawWarning] else [] in
      finish send (ef_Warnings p ++ w1 ++ w2).

(** * Where values come from *)

(** The stored properties that may configure a dataset. *)
Definition configures (dataset : string) (p : Property) : Prop :=
  pr_Dataset p = dataset ∧ pr_Source p = SourceLocal ∧ IsPublic (pr_Name p) = true.
#[export] Instance configures_dec dataset p : Decision (configures dataset p).
Proof. unfold configures. apply _. Defined.

Lemma localValue_configures dataset values p :
  localValue dataset values p = if decide (configures dataset p) then <[pr_Name p := mkValue (pr_Value p) dataset]> values else values.
Proof.
  unfold localValue, configures. destruct (pr_Dataset p =? dataset)%string eqn:E1, (pr_Source p =? SourceLocal)%string eqn:E2; cbn;
    rewrite ?eqb_str_true, ?eqb_str_false in *; case_decide as E; destruct (IsPublic (pr_Name p)) eqn:E3; naive_solver.
Qed.

Lemma localValues_filter dataset stored values :
  fold_left (localValue dataset) stored values = fold_left (localValue dataset) (filter (configures dataset) stored) values.
Proof.
  revert values. induction stored as [|p stored IH]; intros values; [done|]. cbn [fold_left]. rewrite filter_cons, localValue_configures.
  case_decide as E; [|apply IH]. cbn [fold_left]. rewrite localValue_configures, decide_True by done. apply IH.
Qed.

Lemma localValues_lookup dataset stored : ∀ values k v,
  fold_left (localValue dataset) stored values !! k = Some v →
  values !! k = Some v ∨ (va_Dataset v = dataset ∧ mkProperty dataset k (va_Value v) SourceLocal ∈ stored ∧ IsPublic k = true).
Proof.
  induction stored as [|p stored IH]; intros values k v; cbn [fold_left]; [by left|].
  intros [H|(? & ? & ?)]%IH; [|right; set_solver]. rewrite localValue_configures in H.
  case_decide as Hc; [|by left]. apply lookup_insert_Some in H as [[<- <-]|[_ ?]]; [|by left].
  right. destruct Hc as (E1 & E2 & E3). split_and!; [done| |done]. apply elem_of_cons. left.
  destruct p; cbn in *; congruence.
Qed.

Lemma addDefaults_lookup l : ∀ values k v,
  fold_left addDefault l values !! k = Some v → values !! k = Some v ∨ va_Dataset v = "".
Proof.
  induction l as [|[key d] l IH]; intros values k v; cbn [fold_left]; [by left|].
  intros [H|?]%IH; [|by right]. unfold addDefault in H. destruct (values !! _) eqn:E; [by left|].
  apply lookup_insert_Some in H as [[_ <-]|[_ ?]]; auto.
Qed.

Lemma Resolve_Values dataset parent stored remotes :
  ef_Values (Resolve dataset parent stored remotes) = resolveValues dataset parent stored.
Proof. unfold Resolve. by repeat case_match. Qed.

Lemma resolveValues_source dataset parent stored k v :
  resolveValues dataset parent stored !! k = Some v → va_Dataset v ≠ "" →
  (va_Dataset v = ds_Name dataset ∧ mkProperty (ds_Name dataset) k (va_Value v) SourceLocal ∈ stored ∧ IsPublic k = true) ∨
  ∃ p, parent = Some p ∧ ef_Values p !! k = Some v.
Proof.
  unfold resolveValues. intros [H|?]%addDefaults_lookup Hne; [|done].
  apply localValues_lookup in H as [H|H]; [right|by left]. unfold inheritedValues in H. destruct parent as [p|]; [|done].
  apply map_lookup_filter_Some in H as [H _]. eauto.
Qed.

(** * Receive properties *)

Lemma receiveKey_set values st key k :
  is_Some (rs_set (receiveKey values st key) !! k) → is_Some (rs_set st !! k) ∨ reservedTarget k = false.
Proof.
  unfold receiveKey. destruct (Cut _ _) as [[kind target] dynamic]. destruct (negb dynamic || _); [by left|].
  destruct (reservedTarget target) eqn:Er; [by left|]. destruct (kind =? "set_prop")%string; cbn [rs_set].
  - intros [v [[<- _]|[_ ?]]%lookup_insert_Some]; [by right|left; by eexists].
  - destruct (toggle _ _). by left.
Qed.

Lemma receiveKeys_set values keys : ∀ st k,
  is_Some (rs_set (fold_left (receiveKey values) keys st) !! k) → is_Some (rs_set st !! k) ∨ reservedTarget k = false.
Proof.
  induction keys as [|key keys IH]; intros st k; cbn [fold_left]; [by left|].
  intros [H%receiveKey_set|?]%IH; [done|by right].
Qed.

Lemma receiveProperties_spec values raw encrypted set ignore w e :
  receiveProperties values raw encrypted = (set, ignore, w, e) →
  (∀ k, is_Some (set !! k) → HasPrefix k Namespace = false ∧ k ∉ ignore) ∧
  (e = [] → raw = true → encrypted = true → validateRawReceive set ignore = []).
Proof.
  unfold receiveProperties. intros [= <- <- <- <-]. set (st := fold_left _ _ _). split.
  - intros k Hk. split; [|by intros [Hn _]%list_elem_of_filter].
    destruct (receiveKeys_set values (SortStrings (map_to_list values).*1) (mkReceive ∅ [] []) k Hk) as [[v Hv]|Hr].
    + cbn in Hv. by rewrite lookup_empty in Hv.
    + unfold reservedTarget in Hr. rewrite !orb_false_iff in Hr. tauto.
  - intros He -> ->. by apply app_eq_nil in He as [_ He].
Qed.

Lemma validateRawReceive_nil set ignore :
  validateRawReceive set ignore = [] →
  ∀ k, k ∈ ["encryption"; "keyformat"; "pbkdf2iters"] → set !! k = None ∧ k ∉ ignore.
Proof.
  unfold validateRawReceive. intros H k Hk.
  assert ((if decide (is_Some (set !! k)) then ["raw encrypted stream cannot override " +:+ k] else [])
    ++ (if decide (k ∈ ignore) then ["raw encrypted stream cannot exclude " +:+ k] else []) = []) as Hnil.
  { apply elem_of_nil_inv. intros x Hx. assert (x ∈ @nil string) as []%elem_of_nil. rewrite <- H. apply list_elem_of_bind. eauto. }
  apply app_eq_nil in Hnil as [H1 H2]. split.
  - destruct (set !! k); [|done]. by rewrite decide_True in H1.
  - intros Hin. by rewrite decide_True in H2.
Qed.

Lemma SortStrings_nil l : SortStrings l = [] → l = [].
Proof. intros H. pose proof (SortStrings_perm l) as HP. rewrite H in HP. by apply Permutation_nil_l in HP. Qed.

Lemma if_nil (b : bool) (x : string) : (if b then [x] else []) = [] → b = false.
Proof. by destruct b. Qed.

Lemma one_of (s : string) (l : list string) : forallb (λ x, negb (s =? x)%string) l = false → s ∈ l.
Proof.
  induction l as [|x l IH]; cbn; [done|]. destruct (s =? x)%string eqn:E; cbn.
  - intros _. apply eqb_str_true in E as ->. apply list_elem_of_here.
  - intros H. apply list_elem_of_further. auto.
Qed.

Lemma localErrors_nil local : localErrors local = [] → Forall (λ l, ValidateDataset l = Ok tt) local.
Proof.
  unfold localErrors. induction local as [|l local IH]; cbn; [constructor|].
  intros [H1 H2]%app_eq_nil. constructor; [|by apply IH]. by destruct (ValidateDataset l) as [[]|].
Qed.

Lemma filter_fmap_nil {A B} (f : A → B) (P : A → Prop) `{!∀ x, Decision (P x)} (l : list A) :
  f <$> filter P l = [] → Forall (λ x, ¬ P x) l.
Proof.
  intros Hn%fmap_nil_inv. apply Forall_forall. intros x Hx HP.
  assert (x ∈ filter P l) as Hin by (by apply list_elem_of_filter). rewrite Hn in Hin. by apply elem_of_nil in Hin.
Qed.

(** * Properties *)

(** Configuration authority: a resolved value that names a dataset comes
    from a property set locally on the dataset, in the public namespace, or was
    already the parent's; and what is not local or not public has no influence
    on the resolved policy at all. *)
Theorem Resolve_authority dataset parent stored stored' remotes :
  (∀ k v, ef_Values (Resolve dataset parent stored remotes) !! k = Some v → va_Dataset v ≠ "" →
    (va_Dataset v = ds_Name dataset ∧ mkProperty (ds_Name dataset) k (va_Value v) SourceLocal ∈ stored ∧ IsPublic k = true) ∨
    ∃ p, parent = Some p ∧ ef_Values p !! k = Some v) ∧
  (filter (configures (ds_Name dataset)) stored = filter (configures (ds_Name dataset)) stored' →
    Resolve dataset parent stored remotes = Resolve dataset parent stored' remotes).
Proof.
  split.
  - intros k v. rewrite Resolve_Values. apply resolveValues_source.
  - intros H. assert (resolveValues dataset parent stored = resolveValues dataset parent stored') as HR.
    { unfold resolveValues. by rewrite (localValues_filter _ stored), (localValues_filter _ stored'), H. }
    unfold Resolve. by rewrite HR.
Qed.

(** A policy that resolves without errors is safe to use: its grid is well
    formed, its remotes are configured, its local targets are dataset names, the
    send flags agree with the encryption and with each other, and no receive
    override touches the reserved namespace, is also excluded, or changes the
    key of a raw encrypted stream. *)
Theorem Resolve_valid dataset parent stored remotes p :
  p = Resolve dataset parent stored remotes → validPolicy p = true →
  grid_wf (ef_Grid p) ∧ Forall (λ r, r ∈ remotes) (ef_Remote p) ∧
  Forall (λ l, ValidateDataset l = Ok tt) (ef_Local p) ∧
  ef_Incremental p ∈ ["all"; "latest"] ∧ ef_Discard p ∈ [DiscardOff; DiscardFirst; DiscardAll] ∧
  (Replicate (ef_Send p) = true → Props (ef_Send p) = true ∧ (encryptedDataset dataset = true → Raw (ef_Send p) = true)) ∧
  (Raw (ef_Send p) = true → encryptedDataset dataset = false →
    LargeBlocks (ef_Send p) = true ∧ Compressed (ef_Send p) = true ∧ EmbeddedData (ef_Send p) = true) ∧
  (∀ k, is_Some (ef_SetProperties p !! k) → HasPrefix k Namespace = false ∧ k ∉ ef_IgnoreProperties p) ∧
  (Raw (ef_Send p) = true → encryptedDataset dataset = true →
    ∀ k, k ∈ ["encryption"; "keyformat"; "pbkdf2iters"] → ef_SetProperties p !! k = None ∧ k ∉ ef_IgnoreProperties p).
Proof.
  intros -> Hv. unfold Resolve in *. set (values := resolveValues dataset parent stored) in *.
  destruct (toggle values "enabled") as [enabled e1]. destruct (ParseGrid (valueOf values "policy")) as [g|ge] eqn:Eg.
  all: destruct (targets values "remote") as [remote e3], (targets values "local") as [local e4].
  all: destruct (toggle values "large_blocks") as [large e8], (toggle values "compressed") as [compressed e9].
  all: destruct (toggle values "raw") as [raw e10], (toggle values "props") as [props e11], (toggle values "replicate") as [replicate e12].
  all: destruct (receiveProperties values raw _) as [[[set ignore] w2] e15] eqn:Er.
  all: unfold validPolicy in Hv; cbn [ef_Errors] in Hv; destruct (SortStrings _) eqn:Es in Hv; [|done]; apply SortStrings_nil in Es.
  2: { repeat (apply app_eq_nil in Es as [? Es]). done. }
  repeat match goal with H : _ ++ _ = [] |- _ => apply app_eq_nil in H as [? H] end.
  apply receiveProperties_spec in Er as [Hset Hraw].
  cbn [ef_Grid ef_Remote ef_Local ef_Incremental ef_Discard ef_Send ef_SetProperties ef_IgnoreProperties
       Replicate Props Raw LargeBlocks Compressed EmbeddedData].
  repeat match goal with H : (if _ then [_] else []) = [] |- _ => apply if_nil in H end.
  split_and!.
  - by eapply ParseGrid_grid_wf.
  - apply (filter_fmap_nil _ (λ r, r ∉ remotes)) in H4. eapply Forall_impl; [exact H4|]. cbn. intros r Hr.
    destruct (decide (r ∈ remotes)); tauto.
  - by apply localErrors_nil.
  - apply one_of. cbn. by rewrite andb_true_r.
  - apply one_of. cbn. by rewrite andb_true_r, andb_assoc.
  - intros ->. rewrite orb_true_r. split; [done|]. intros He. destruct raw; [done|]. rewrite He in *. done.
  - intros -> He. rewrite He. cbn. by rewrite !orb_true_r.
  - exact Hset.
  - intros Hr He. apply validateRawReceive_nil. by apply Hraw.
Qed.

(** Replicating a scope with an encrypted descendant is raw or refused: the
    adjusted policy, if still valid, sends raw and overrides no encryption
    property; and an explicit choice against raw is never overruled. *)
Theorem ForReplicationScope_raw p rootEncrypted desc :
  Replicate (ef_Send p) = true → desc ≠ "" →
  let q := ForReplicationScope p rootEncrypted desc in
  (validPolicy q = true → Raw (ef_Send q) = true ∧
    ∀ k, k ∈ ["encryption"; "keyformat"; "pbkdf2iters"] → ef_SetProperties q !! k = None ∧ k ∉ ef_IgnoreProperties q) ∧
  (∀ v, ef_Values p !! (Namespace +:+ "raw") = Some v → va_Dataset v ≠ "" → Raw (ef_Send q) = Raw (ef_Send p)) ∧
  (validPolicy q = true → validPolicy p = true).
Proof.
  intros Hr Hd. unfold ForReplicationScope. rewrite Hr, (proj2 (eqb_str_false desc "") Hd). cbn [negb orb].
  assert (∀ l, Compact (SortStrings (ef_Errors p ++ l)) = [] → ef_Errors p = [] ∧ l = []) as Hnil.
  { intros l Hc. apply app_eq_nil. apply elem_of_nil_inv. intros x Hx. assert (x ∈ @nil string) as []%elem_of_nil.
    rewrite <- Hc. by rewrite elem_of_Compact, elem_of_SortStrings. }
  destruct (Raw (ef_Send p)) eqn:Eraw; [|destruct (negb _) eqn:Ev].
  - unfold validPolicy. cbn. split_and!; [| |].
    + destruct (Compact _) eqn:Ec; [|done]. intros _. apply Hnil in Ec as [_ Hn]. split; [done|]. by apply validateRawReceive_nil.
    + by rewrite Eraw.
    + destruct (Compact _) eqn:Ec; [|done]. by apply Hnil in Ec as [-> _].
  - unfold validPolicy. cbn. split_and!; [by destruct (ef_Errors p)|by rewrite Eraw|by destruct (ef_Errors p)].
  - unfold validPolicy. cbn. split_and!.
    + destruct (Compact (SortStrings (ef_Errors p ++ _))) eqn:Ec; [|done]. intros _. apply Hnil in Ec as [_ Hn]. split; [done|]. by apply validateRawReceive_nil.
    + intros v Hv Hne. rewrite Hv, (proj2 (eqb_str_false _ "") Hne) in Ev. done.
    + destruct (Compact (SortStrings (ef_Errors p ++ _))) eqn:Ec; [|done]. by apply Hnil in Ec as [-> _].
Qed.

(** * Witnesses *)

(** An encrypted replication root with a local target and a receive override. *)
Definition witnessDataset : Dataset := mkDataset "tank/data" Filesystem "tank".
Definition witnessStored : list Property :=
  [mkProperty "tank/data" (Namespace +:+ "enabled") "on" SourceLocal;
   mkProperty "tank/data" (Namespace +:+ "replicate") "on" SourceLocal;
   mkProperty "tank/data" (Namespace +:+ "local") "backup/data" SourceLocal;
   mkProperty "tank/data" (Namespace +:+ "set_prop:readonly") "on" SourceLocal;
   mkProperty "tank/data" (Namespace +:+ "raw") "off" SourceReceived].

Lemma Resolve_valid_witness :
  let p := Resolve witnessDataset None witnessStored ∅ in
  grid_wf (ef_Grid p) ∧ (Replicate (ef_Send p) = true → Props (ef_Send p) = true).
Proof.
  assert (validPolicy (Resolve witnessDataset None witnessStored ∅) = true) as Hv by (vm_compute; reflexivity).
  destruct (Resolve_valid witnessDataset None witnessStored ∅ _ eq_refl Hv) as (H1 & _ & _ & _ & _ & H2 & _).
  split; [exact H1|]. intros Hr. exact (proj1 (H2 Hr)).
Defined.

(** The same policy on an unencrypted root with an encrypted child. *)
Definition witnessRoot : Effective :=
  Resolve (mkDataset "tank/data" Filesystem "-") None (take 3 witnessStored) ∅.
Lemma ForReplicationScope_raw_witness :
  Raw (ef_Send (ForReplicationScope witnessRoot false "tank/data/secret")) = true.
Proof.
  destruct (ForReplicationScope_raw witnessRoot false "tank/data/secret") as [H _].
  - vm_compute. reflexivity.
  - discriminate.
  - apply H. vm_compute. reflexivity.
Defined.
