(* ===== verification/Stream.v ===== *)
(** Streams: the argument vectors and path mapping of internal/zfs/stream.go.
    The processes and pipes that carry the bytes are not modelled; what the
    package decides before it starts them is. *)

From Stdlib Require Import Ascii.
From S2P Require Import Prelude GoStrings Names Zfs.

Record SendOptions := mkSendOptions {
  so_Source : string;
  so_Snapshot : string;
  so_ResumeToken : string;
  so_Base : string;
  so_Intermediates : bool;
  so_Recursive : bool;
  so_LargeBlocks : bool;
  so_Compressed : bool;
  so_EmbeddedData : bool;
  so_Raw : bool;
  so_Properties : bool
}.

Abbreviation ReceiveDiscard := string (only parsing).
Definition ReceiveExact : ReceiveDiscard := "off".
Definition ReceiveDropFirst : ReceiveDiscard := "first".
Definition ReceiveDropAll : ReceiveDiscard := "all".

Record ReceiveOptions := mkReceiveOptions {
  ro_Root : string;
  ro_Discard : ReceiveDiscard;
  ro_Set : gmap string string;
  ro_Exclude : list string
}.

Definition MapReceiveDataset (source root : string) (discard : ReceiveDiscard) : result string :=
  _ ← validateDataset source;
  _ ← validateDataset root;
  if (discard =? ReceiveExact)%string then Ok root
  else if (discard =? ReceiveDropFirst)%string then
    let '(_, suffix, found) := Cut source "/" in
    if negb found then Ok root else Ok (root +:+ "/" +:+ suffix)
  else if (discard =? ReceiveDropAll)%string then Ok (root +:+ "/" +:+ AfterLast source "/")
  else Err (Errorf "invalid receive discard mode").

Definition validateResumeToken (token : string) : result unit :=
  if (1024 * 1024 <? Z.of_nat (String.length token)) || HasPrefix token "-"
  then Err (Errorf "invalid receive resume token")
  else if ContainsFunc token (λ r, (r <? 0x21) || (0x7e <? r))
  then Err (Errorf "invalid receive resume token")
  else Ok tt.

Definition sendFlags (o : SendOptions) : list string :=
  (if so_LargeBlocks o then ["-L"] else []) ++ (if so_Compressed o then ["-c"] else [])
  ++ (if so_EmbeddedData o then ["-e"] else []) ++ (if so_Raw o then ["-w"] else [])
  ++ (if so_Properties o then ["-p"] else []) ++ (if so_Recursive o then ["-R"] else []).

(** The arguments that name the incremental base. [strings.FieldsFunc] of a
    valid object has a first field. *)
Definition baseArgs (o : SendOptions) : result (list string) :=
  if (so_Base o =? "")%string then Ok [] else
  _ ← validateObject (so_Base o);
  let snapshot := Contains (so_Base o) "@" in
  let bookmark := Contains (so_Base o) "#" in
  if negb snapshot && negb bookmark then Err (Errorf "incremental base must be a snapshot or bookmark")
  else if bookmark && (so_Intermediates o || so_Recursive o)
  then Err (Errorf "intermediate/recursive sends require a snapshot base")
  else
    let '(source, _, _) := Cut (so_Snapshot o) "@" in
    let base := default "" (head (FieldsFunc (λ a, Ascii.eqb a "@" || Ascii.eqb a "#") (so_Base o))) in
    if negb (source =? base)%string || (so_Base o =? so_Snapshot o)%string
    then Err (Errorf "incremental base must be a distinct object on the source dataset")
    else Ok [if so_Intermediates o then "-I" else "-i"; so_Base o].

Definition sendArgs (o : SendOptions) (estimate : bool) : result (list string) :=
  let prefix := "send" :: if estimate then ["-nP"] else [] in
  if negb (so_ResumeToken o =? "")%string then
    _ ← validateResumeToken (so_ResumeToken o);
    if negb (so_Snapshot o =? "")%string || negb (so_Base o =? "")%string || so_Intermediates o || so_Recursive o
       || so_LargeBlocks o || so_Compressed o || so_EmbeddedData o || so_Raw o || so_Properties o
    then Err (Errorf "resume token cannot be combined with snapshot send options")
    else Ok (prefix ++ ["-t"; so_ResumeToken o])
  else
    _ ← validateSnapshot (so_Snapshot o);
    base ← baseArgs o;
    Ok (prefix ++ sendFlags o ++ base ++ [so_Snapshot o]).

Definition SendArguments (o : SendOptions) (estimate : bool) : result (list string) := sendArgs o estimate.

Definition streamRune (r : Z) : bool :=
  inZ 97 r 122 || inZ 48 r 57 || (r =? 58) || (r =? 95) || (r =? 45) || (r =? 46).
Definition streamProperty (name : string) : bool :=
  negb (name =? "")%string && negb (ContainsFunc name (λ r, negb (streamRune r))).

(** [strings.ContainsRune(s, 0)]. *)
Definition containsNUL (s : string) : bool := ContainsByte s "000".

(** The loop over the overrides. *)
Definition overrideArgs (set : gmap string string) (args : list string) (key : string) : result (list string) :=
  let value := default "" (set !! key) in
  if negb (streamProperty key) || HasPrefix key propertyNamespace || containsNUL value
  then Err (Errorf ("invalid or reserved receive override " +:+ Quote key))
  else Ok (args ++ ["-o"; key +:+ "=" +:+ value]).

(** The loop over the exclusions. *)
Definition excludeArgs (set : gmap string string) (args : list string) (key : string) : result (list string) :=
  if negb (streamProperty key) then Err (Errorf ("invalid receive exclusion " +:+ Quote key))
  else if bool_decide (is_Some (set !! key)) || (key =? PlaceholderProperty)%string then Ok args
  else Ok (args ++ ["-x"; key]).

Definition receiveArgs (o : ReceiveOptions) : result (list string) :=
  _ ← validateDataset (ro_Root o);
  mapping ← (if (ro_Discard o =? ReceiveExact)%string then Ok []
             else if (ro_Discard o =? ReceiveDropFirst)%string then Ok ["-d"]
             else if (ro_Discard o =? ReceiveDropAll)%string then Ok ["-e"]
             else Err (Errorf "invalid receive discard mode"));
  overrides ← foldM (overrideArgs (ro_Set o)) [] (SortStrings (map_to_list (ro_Set o)).*1);
  excludes ← foldM (excludeArgs (ro_Set o)) [] (Compact (SortStrings (ro_Exclude o)));
  Ok (["receive"; "-u"; "-s"] ++ mapping ++ overrides ++ ["-o"; PlaceholderProperty +:+ "=off"] ++ excludes ++ [ro_Root o]).

Definition ReceiveArguments (o : ReceiveOptions) : result (list string) := receiveArgs o.

(** What [LocalStream.Run] checks before it starts the pipeline. *)
Definition localStreamTarget (send : SendOptions) (receive : ReceiveOptions) : result string :=
  let source := if (so_Source send =? "")%string then let '(s, _, _) := Cut (so_Snapshot send) "@" in s else so_Source send in
  _ ← validateDataset source;
  target ← MapReceiveDataset source (ro_Root receive) (ro_Discard receive);
  if (source =? target)%string || HasPrefix source (target +:+ "/") || HasPrefix target (source +:+ "/")
  then Err (Errorf "source and destination scopes overlap")
  else Ok target.

Record Estimate := mkEstimate { es_Known : bool; es_Bytes : Z; es_Reason : string }.

(** A transfer's progress, without the rate and the remaining time that are
    computed from it for display. *)
Record Progress := mkProgress { pg_Bytes : Z; pg_Estimate : Estimate; pg_Completed : bool }.

(** The loop over the output lines of [EstimateSend]. *)
Definition estimateLine (e : Estimate) (line : string) : result Estimate :=
  match Fields line with
  | [f0; f1] =>
    if (f0 =? "size")%string then
      match ParseUint f1 64 with
      | Some n => if es_Known e then Err (Errorf "invalid ZFS send estimate output") else Ok (mkEstimate true n "")
      | None => Err (Errorf "invalid ZFS send estimate output")
      end
    else Ok e
  | _ => Ok e
  end.
Definition unknownEstimate : Estimate := mkEstimate false 0 "send estimate unavailable".
(** [run] is what the runner answers to the dry run, [done] whether the context
    ended. *)
Definition EstimateSend (run : list string → result string) (done : bool) (o : SendOptions) : result Estimate :=
  args ← sendArgs o true;
  match run args with
  | Err _ => if done then Err ErrCanceled else Ok unknownEstimate
  | Ok output => foldM estimateLine unknownEstimate (Split output "010")
  end.

(** [diagnosticBuffer]: a bounded prefix of what was written. *)
Record diagnosticBuffer := mkDiagnostic { db_data : string; db_truncated : bool }.
Definition diagnosticLimit : Z := 64 * 1024.
Definition diagnosticWrite (b : diagnosticBuffer) (p : string) : diagnosticBuffer :=
  let remaining := diagnosticLimit - Z.of_nat (String.length (db_data b)) in
  if remaining <? Z.of_nat (String.length p)
  then mkDiagnostic (db_data b +:+ String.substring 0 (Z.to_nat remaining) p) true
  else mkDiagnostic (db_data b +:+ p) (db_truncated b).
Definition diagnosticString (b : diagnosticBuffer) : string :=
  TrimSpace (db_data b) +:+ if db_truncated b then " [truncated]" else "".

Definition pipelineError (err : error) (sender receiver : string) : error :=
  Errorf ("stream pipeline: " +:+ ErrorText err
    +:+ (if (sender =? "")%string then "" else "; sender: " +:+ sender)
    +:+ (if (receiver =? "")%string then "" else "; receiver: " +:+ receiver)).

(** * The argument vectors *)

Lemma overrideArgs_Ok set keys : ∀ acc args,
  foldM (overrideArgs set) acc keys = Ok args →
  args = acc ++ (keys ≫= λ k, ["-o"; k +:+ "=" +:+ default "" (set !! k)]) ∧
  Forall (λ k, HasPrefix k propertyNamespace = false ∧ streamProperty k = true) keys.
Proof.
  induction keys as [|k keys IH]; intros acc args; cbn [foldM].
  { intros [= <-]. split; [by rewrite app_nil_r|constructor]. }
  destruct (overrideArgs set acc k) as [acc'|] eqn:E; cbn [mbind result_bind]; [|done].
  intros [-> HF]%IH. unfold overrideArgs in E. destruct (_ || _ || _) eqn:Eb; [done|]. injection E as <-.
  rewrite !orb_false_iff, negb_false_iff in Eb. split; [by rewrite <- app_assoc|]. constructor; [|done]. tauto.
Qed.

Lemma excludeArgs_Ok set keys : ∀ acc args,
  foldM (excludeArgs set) acc keys = Ok args →
  args = acc ++ (filter (λ k, set !! k = None ∧ k ≠ PlaceholderProperty) keys ≫= λ k, ["-x"; k]) ∧
  Forall (λ k, streamProperty k = true) keys.
Proof.
  induction keys as [|k keys IH]; intros acc args; cbn [foldM].
  { intros [= <-]. split; [by rewrite app_nil_r|constructor]. }
  destruct (excludeArgs set acc k) as [acc'|] eqn:E; cbn [mbind result_bind]; [|done].
  intros [-> HF]%IH. unfold excludeArgs in E. destruct (negb (streamProperty k)) eqn:Ek; [done|].
  apply negb_false_iff in Ek. split; [|by constructor]. rewrite filter_cons.
  case_bool_decide as Hs; cbn [orb] in E; [|destruct (k =? PlaceholderProperty)%string eqn:Ep]; injection E as <-.
  - rewrite decide_False; [done|]. intros [Hn _]. rewrite Hn in Hs. by destruct Hs.
  - rewrite decide_False; [done|]. intros [_ Hn]. by apply eqb_str_true in Ep.
  - rewrite decide_True; [by rewrite <- app_assoc|]. split; [by apply eq_None_not_Some|by apply eqb_str_false].
Qed.

Lemma streamProperty_no_force k : streamProperty k = true → k ≠ "-F".
Proof. by intros H ->. Qed.

Lemma override_no_force k v : k +:+ "=" +:+ v ≠ "-F".
Proof.
  intros H. assert ("="%char ∈ bytes_of "-F") as Hin.
  { rewrite <- H, !bytes_of_app. cbn. set_solver. }
  cbn in Hin. set_solver.
Qed.

(** * Properties *)

(** A receive is always unmounted, resumable and unforced, into the
    validated root; it never sets a property of the reserved namespace except
    the placeholder marker, which it always clears, and never both sets and
    excludes one. *)
Theorem receiveArgs_safe o args :
  receiveArgs o = Ok args →
  let keys := SortStrings (map_to_list (ro_Set o)).*1 in
  let excluded := filter (λ k, ro_Set o !! k = None ∧ k ≠ PlaceholderProperty) (Compact (SortStrings (ro_Exclude o))) in
  ∃ mapping, mapping ∈ [[]; ["-d"]; ["-e"]] ∧
    args = ["receive"; "-u"; "-s"] ++ mapping
      ++ (keys ≫= λ k, ["-o"; k +:+ "=" +:+ default "" (ro_Set o !! k)])
      ++ ["-o"; PlaceholderProperty +:+ "=off"] ++ (excluded ≫= λ k, ["-x"; k]) ++ [ro_Root o] ∧
    validateDataset (ro_Root o) = Ok tt ∧ "-F" ∉ args ∧
    ∀ k v, ro_Set o !! k = Some v → HasPrefix k propertyNamespace = false.
Proof.
  intros H keys excluded. unfold receiveArgs in H. apply bind_Ok in H as ([] & Hr & H).
  apply bind_Ok in H as (mapping & Hm & H). apply bind_Ok in H as (ov & Ho & H). apply bind_Ok in H as (ex & He & [= <-]).
  apply overrideArgs_Ok in Ho as [-> Ho]. apply excludeArgs_Ok in He as [-> He]. fold keys in Ho |- *.
  fold excluded. cbn [app].
  assert (mapping ∈ [[]; ["-d"]; ["-e"]]) as Hmap by (repeat case_match; simplify_eq; set_solver).
  exists mapping. split_and!; [done|done|done| |].
  - pose proof (proj1 (validateDataset_iff _) Hr) as [_ Hdash].
    rewrite !elem_of_cons, !elem_of_app, !elem_of_cons, !elem_of_app, !list_elem_of_bind.
    intros [?|[?|[?|[H|[(k & H & _)|[?|[H|[(k & H & Hk)|H]]]]]]]]; try discriminate.
    + repeat (apply elem_of_cons in Hmap as [->|Hmap]; [cbn in H; set_solver|]). by apply elem_of_nil in Hmap.
    + rewrite !elem_of_cons in H. destruct H as [?|[H|H]]; [discriminate| |by apply elem_of_nil in H].
      by apply (override_no_force k (default "" (ro_Set o !! k))).
    + rewrite !elem_of_cons in H. destruct H as [?|[H|H]]; [discriminate| |by apply elem_of_nil in H].
      subst k. apply list_elem_of_filter in Hk as [_ Hk]. rewrite Forall_forall in He. apply He in Hk. done.
    + rewrite !elem_of_cons in H. destruct H as [H|H]; [|by apply elem_of_nil in H]. rewrite <- H in Hdash. done.
  - intros k v Hk. rewrite Forall_forall in Ho. apply Ho. unfold keys. rewrite elem_of_SortStrings, list_elem_of_fmap.
    exists (k, v). split; [done|]. by apply elem_of_map_to_list.
Qed.

Lemma AfterLast_spec s c :
  (ContainsByte s c = false ∧ AfterLast s c = s) ∨ ∃ p, s = p +:+ String c (AfterLast s c).
Proof.
  induction s as [|a s IH]; [by left|]. cbn [AfterLast]. destruct IH as [[Hn He]|[p Hp]].
  - rewrite Hn. destruct (Ascii.eqb_spec a c) as [->|Hne]; [right; by exists ""|left].
    split; [|done]. unfold ContainsByte in *. cbn. rewrite Hn, orb_false_r. apply Ascii.eqb_neq. congruence.
  - right. assert (ContainsByte s c = true) as ->.
    { rewrite Hp, ContainsByte_app. unfold ContainsByte at 2. cbn. by rewrite Ascii.eqb_refl, orb_true_r. }
    exists (String a p). rewrite app_cons_str. by f_equal.
Qed.

Lemma below_join root tail : within (root +:+ "/" +:+ tail) root = true.
Proof.
  apply below_within. unfold below. rewrite HasPrefix_spec. exists tail. by rewrite app_assoc_str.
Qed.

(** The destination a stream maps to is a valid dataset name at or below the
    receive root; and under discard first the mapping commutes with the
    hierarchy, so a child is received below its parent's replica. *)
Theorem MapReceiveDataset_within source root discard target :
  MapReceiveDataset source root discard = Ok target →
  validateDataset target = Ok tt ∧ within target root = true ∧
  ∀ child, discard = ReceiveDropFirst → validateDataset (source +:+ "/" +:+ child) = Ok tt →
    MapReceiveDataset (source +:+ "/" +:+ child) root discard = Ok (target +:+ "/" +:+ child).
Proof.
  unfold MapReceiveDataset. intros H. apply bind_Ok in H as ([] & Hs & H). apply bind_Ok in H as ([] & Hr & H).
  pose proof (proj1 (validateDataset_iff _) Hs) as [Hg _]. rewrite Hr.
  destruct (discard =? ReceiveExact)%string eqn:E1.
  { injection H as <-. split_and!; [done|apply within_refl|]. intros child -> _. done. }
  destruct (discard =? ReceiveDropFirst)%string eqn:E2.
  - destruct (Cut source "/") as [[pool suffix] []] eqn:Ec; cbn [negb] in H.
    + injection H as <-. apply Cut_found in Ec as [Hsrc Hp]. assert (goodTail suffix) as Ht.
      { rewrite Hsrc in Hg. change (String "/" suffix) with ("/" +:+ suffix) in Hg. by apply goodTail_app in Hg as [_ ?]. }
      split_and!; [by apply validateDataset_join|apply below_join|]. intros child _ Hc. rewrite Hc. cbn [mbind result_bind].
      rewrite Hsrc, app_assoc_str, app_cons_str, Cut_app by done. by rewrite !app_assoc_str.
    + injection H as <-. apply Cut_notfound in Ec as (_ & _ & Hn).
      split_and!; [done|apply within_refl|]. intros child _ Hc. rewrite Hc. cbn [mbind result_bind].
      rewrite app_cons_str, app_nil_str, Cut_app by done. done.
  - destruct (discard =? ReceiveDropAll)%string eqn:E3; [|done]. injection H as <-.
    assert (goodTail (AfterLast source "/")) as Ht.
    { destruct (AfterLast_spec source "/") as [[_ ->]|[p Hp]]; [done|]. rewrite Hp in Hg.
      change (String "/" (AfterLast source "/")) with ("/" +:+ AfterLast source "/") in Hg. by apply goodTail_app in Hg as [_ ?]. }
    split_and!; [by apply validateDataset_join|apply below_join|]. intros child -> _. done.
Qed.

Lemma bytes_substring p : ∀ n, bytes_of (String.substring 0 n p) = take n (bytes_of p).
Proof. induction p as [|a p IH]; intros [|n]; cbn; [done..|]. by rewrite IH. Qed.

Lemma length_bytes s : length (bytes_of s) = String.length s.
Proof. induction s as [|a s IH]; cbn; auto. Qed.

Definition diagnosticOf (writes : list string) : diagnosticBuffer := fold_left diagnosticWrite writes (mkDiagnostic "" false).

Lemma diagnosticWrites writes : ∀ b all,
  db_data b = String.substring 0 (Z.to_nat diagnosticLimit) all →
  db_truncated b = (diagnosticLimit <? Z.of_nat (String.length all)) →
  let b' := fold_left diagnosticWrite writes b in
  let all' := all +:+ foldr String.app "" writes in
  db_data b' = String.substring 0 (Z.to_nat diagnosticLimit) all' ∧
  db_truncated b' = (diagnosticLimit <? Z.of_nat (String.length all')).
Proof.
  induction writes as [|p writes IH]; intros b all Hd Ht; cbn [fold_left foldr].
  { by rewrite app_str_nil. }
  rewrite <- app_assoc_str. apply IH.
  - apply bytes_of_inj. rewrite bytes_substring, bytes_of_app. unfold diagnosticWrite.
    assert (Z.of_nat (String.length (db_data b)) = Z.min diagnosticLimit (Z.of_nat (String.length all))) as Hl.
    { rewrite Hd, <- !length_bytes, bytes_substring, length_take. unfold diagnosticLimit. lia. }
    rewrite take_app. rewrite <- bytes_substring, <- Hd.
    replace (Z.to_nat diagnosticLimit - length (bytes_of all))%nat with (Z.to_nat (diagnosticLimit - Z.of_nat (String.length (db_data b))))
      by (rewrite length_bytes; lia).
    case_match; cbn [db_data]; rewrite bytes_of_app; [by rewrite bytes_substring|].
    rewrite take_ge; [done|]. rewrite length_bytes. lia.
  - assert (Z.of_nat (String.length (db_data b)) = Z.min diagnosticLimit (Z.of_nat (String.length all))) as Hl.
    { rewrite Hd, <- !length_bytes, bytes_substring, length_take. unfold diagnosticLimit. lia. }
    unfold diagnosticWrite. rewrite length_app_str. rewrite Ht. case_match; cbn [db_truncated]; [symmetry; apply Z.ltb_lt; lia|apply eq_true_iff_eq; rewrite !Z.ltb_lt; lia].
Qed.

(** C40: however a process writes its diagnostics, the buffer keeps exactly the
    first 64 KiB and says whether anything was dropped. *)
Theorem diagnostic_bounded writes :
  let all := foldr String.app "" writes in
  db_data (diagnosticOf writes) = String.substring 0 (Z.to_nat diagnosticLimit) all ∧
  db_truncated (diagnosticOf writes) = (diagnosticLimit <? Z.of_nat (String.length all)) ∧
  Z.of_nat (String.length (db_data (diagnosticOf writes))) ≤ diagnosticLimit.
Proof.
  destruct (diagnosticWrites writes (mkDiagnostic "" false) "") as [H1 H2]; [done..|]. rewrite app_nil_str in *.
  split_and!; [exact H1|exact H2|]. unfold diagnosticOf. rewrite H1, <- length_bytes, bytes_substring, length_take.
  unfold diagnosticLimit. lia.
Qed.

(** * Witnesses *)

Definition witnessReceive : ReceiveOptions :=
  mkReceiveOptions "backup/data" ReceiveDropFirst {["readonly" := "on"]} ["mountpoint"; "readonly"; "mountpoint"].
Lemma receiveArgs_safe_witness :
  ∃ args, receiveArgs witnessReceive = Ok args ∧ "-F" ∉ args.
Proof.
  destruct (receiveArgs witnessReceive) as [args|] eqn:E; [|vm_compute in E; discriminate E].
  destruct (receiveArgs_safe witnessReceive args E) as (mapping & _ & _ & _ & H & _).
  exact (ex_intro _ args (conj eq_refl H)).
Defined.

Lemma MapReceiveDataset_within_witness : within "backup/data/www" "backup" = true.
Proof.
  destruct (MapReceiveDataset_within "tank/data/www" "backup" ReceiveDropFirst "backup/data/www") as (_ & H & _); [reflexivity|].
  exact H.
Defined.
