(* ===== verification/Permissions.v ===== *)
(** Delegated permissions: internal/zfs/permissions.go.

    The two subprocesses the check asks are parameters: [idRun] answers the
    identity queries ([id -u], [id -un], [id -Gn]) and [run] the query
    [zfs allow <dataset>]. No argument vector is used twice by one check, so an
    answer per vector is what a run of it sees. *)

From Stdlib Require Import Ascii.
From S2P Require Import Prelude GoStrings Names Zfs.

(** * Data *)

Record effectiveIdentity := mkIdentity { id_name : string; id_groups : gset string; id_root : bool }.

Inductive permissionSection :=
| permissionNone
| permissionSets
| permissionCreate
| permissionLocal
| permissionDescendent
| permissionLocalDescendent.
#[export] Instance permissionSection_eq_dec : EqDecision permissionSection.
Proof. solve_decision. Defined.

Record permissionGrant := mkGrant {
  pg_kind : string;
  pg_name : string;
  pg_permissions : list string;
  pg_section : permissionSection
}.

Record permissionBlock := mkBlock {
  pb_setpoint : string;
  pb_sets : gmap string (list string);
  pb_grants : list permissionGrant
}.

(** * The effective account *)

Definition validPermission (permission : string) : bool :=
  if (permission =? "")%string || HasPrefix permission "-" then false
  else negb (ContainsFunc permission (λ r, (r =? 44) || (r =? 61) || (r =? 47) || (r =? 64) || (r <=? 32))).

(** [None] is a [Direct] without an identity runner. *)
Definition effectiveIdentityOf (idRun : option (list string → result string)) : result effectiveIdentity :=
  match idRun with
  | None => Err (Errorf "effective identity query is unavailable")
  | Some ask =>
    match ask ["-u"] with
    | Err e => Err (Wrapf "inspect effective user ID" e)
    | Ok uid =>
      if (TrimSpace uid =? "0")%string then Ok (mkIdentity "root" ∅ true)
      else
        match ask ["-un"] with
        | Err e => Err (Wrapf "inspect effective user name" e)
        | Ok name =>
          match ask ["-Gn"] with
          | Err e => Err (Wrapf "inspect effective groups" e)
          | Ok groups =>
            let n := TrimSpace name in
            if (n =? "")%string || ContainsAny n (String "013" (String "010" (String "009" " ")))
            then Err (Errorf "effective user name is invalid")
            else Ok (mkIdentity n (list_to_set (Fields groups)) false)
          end
        end
    end
  end.

(** * Parsing [zfs allow] *)

Definition splitPermissions (value : string) : list string := Split value ",".

Definition permissionHeader : string := "---- Permissions on ".

(** [section] headings inside a block. *)
Definition sectionHeading (line : string) : option permissionSection :=
  if (line =? "Permission sets:")%string then Some permissionSets
  else if (line =? "Create time permissions:")%string then Some permissionCreate
  else if (line =? "Local permissions:")%string then Some permissionLocal
  else if (line =? "Descendent permissions:")%string then Some permissionDescendent
  else if (line =? "Local+Descendent permissions:")%string then Some permissionLocalDescendent
  else None.

(** The blocks parsed so far, the last of which is [*current], and the section. *)
Record parseState := mkParse { ps_blocks : list permissionBlock; ps_section : permissionSection }.

Definition onCurrent (f : permissionBlock → permissionBlock) (st : parseState) : parseState :=
  mkParse (alter f (pred (length (ps_blocks st))) (ps_blocks st)) (ps_section st).
Definition addSet (name : string) (permissions : list string) (b : permissionBlock) : permissionBlock :=
  mkBlock (pb_setpoint b) (<[name := permissions]> (pb_sets b)) (pb_grants b).
Definition addGrant (g : permissionGrant) (b : permissionBlock) : permissionBlock :=
  mkBlock (pb_setpoint b) (pb_sets b) (pb_grants b ++ [g]).

(** A row of a section. *)
Definition permissionRow (st : parseState) (line : string) : result parseState :=
  let fields := Fields line in
  match ps_section st with
  | permissionNone => Err (Errorf ("unrecognized delegation output line " +:+ Quote line))
  | permissionSets =>
    match fields with
    | [f0; f1] =>
      if HasPrefix f0 "@" then Ok (onCurrent (addSet f0 (splitPermissions f1)) st)
      else Err (Errorf ("invalid permission-set row " +:+ Quote line))
    | _ => Err (Errorf ("invalid permission-set row " +:+ Quote line))
    end
  | permissionCreate => Ok st
  | section =>
    match fields with
    | [f0; f1] =>
      if (f0 =? "everyone")%string
      then Ok (onCurrent (addGrant (mkGrant "everyone" "" (splitPermissions f1) section)) st)
      else Err (Errorf ("invalid permission grant row " +:+ Quote line))
    | [f0; f1; f2] =>
      if (f0 =? "user")%string || (f0 =? "group")%string
      then Ok (onCurrent (addGrant (mkGrant f0 f1 (splitPermissions f2) section)) st)
      else Err (Errorf ("invalid permission grant row " +:+ Quote line))
    | _ => Err (Errorf ("invalid permission grant row " +:+ Quote line))
    end
  end.

(** The loop body of [parsePermissionBlocks]. *)
Definition permissionLine (st : parseState) (text : string) : result parseState :=
  let line := TrimSpace text in
  if (line =? "")%string then Ok st
  else if HasPrefix line permissionHeader then
    let name := TrimSpace (TrimRight (TrimPrefix line permissionHeader) "-") in
    match validateDataset name with
    | Err e => Err (Wrapf "invalid delegation setpoint" e)
    | Ok _ => Ok (mkParse (ps_blocks st ++ [mkBlock name ∅ []]) permissionNone)
    end
  else
    match sectionHeading line with
    | Some section => Ok (mkParse (ps_blocks st) section)
    | None =>
      match ps_blocks st with
      | [] => Err (Errorf ("unrecognized delegation output line " +:+ Quote line))
      | _ => permissionRow st line
      end
    end.
Definition parsePermissionBlocks (output : string) : result (list permissionBlock) :=
  st ← ScanLines permissionLine (mkParse [] permissionNone) output; Ok (ps_blocks st).

(** * Granted permissions *)

(** [expandPermissions]: [visiting] holds the sets being expanded above this
    call. The recursion is over sets that are not being visited; [None] is a
    recursion deeper than [fuel], which [expandPermissions] rules out. *)
Fixpoint expandFrom (fuel : nat) (sets : gmap string (list string)) (visiting : gset string)
    (permissions : list string) (result : gset string) : option (gset string) :=
  match fuel with
  | O => None
  | S fuel =>
    foldl (λ acc permission,
      result ← acc;
      if negb (HasPrefix permission "@") then Some ({[permission]} ∪ result)
      else if decide (permission ∈ visiting) then Some result
      else expandFrom fuel sets ({[permission]} ∪ visiting) (default [] (sets !! permission)) result)
      (Some result) permissions
  end.
(** A call visits a set that is defined or expands to nothing, so the depth is
    at most one more than the number of sets, plus the outer call. *)
Definition expandPermissions (result : gset string) (permissions : list string) (sets : gmap string (list string)) : option (gset string) :=
  expandFrom (S (S (size sets))) sets ∅ permissions result.

Definition grantApplies (descendant : bool) (identity : effectiveIdentity) (g : permissionGrant) : bool :=
  negb ((bool_decide (pg_section g = permissionLocal) && descendant)
        || (bool_decide (pg_section g = permissionDescendent) && negb descendant))
  && negb (((pg_kind g =? "user")%string && negb (pg_name g =? id_name identity)%string)
           || ((pg_kind g =? "group")%string && negb (bool_decide (pg_name g ∈ id_groups identity)))).

Definition blockPermissions (dataset : string) (identity : effectiveIdentity) (acc : option (gset string)) (b : permissionBlock)
  : option (gset string) :=
  let descendant := negb (dataset =? pb_setpoint b)%string && HasPrefix dataset (pb_setpoint b +:+ "/") in
  if negb (dataset =? pb_setpoint b)%string && negb descendant then acc
  else
    foldl (λ acc g,
      if grantApplies descendant identity g
      then result ← acc; expandPermissions result (pg_permissions g) (pb_sets b)
      else acc) acc (pb_grants b).

Definition effectivePermissions (blocks : list permissionBlock) (dataset : string) (identity : effectiveIdentity) : option (gset string) :=
  result ← foldl (blockPermissions dataset identity) (Some ∅) blocks;
  Some (if decide ("receive" ∈ result) then {["receive:append"]} ∪ result else result).

(** * The check *)

Definition checkRequired (required : list string) : result (list string) :=
  let required := Compact (SortStrings required) in
  _ ← foldM (λ _ permission,
        if validPermission permission then Ok tt
        else Err (Errorf ("invalid ZFS permission " +:+ Quote permission))) tt required;
  Ok required.

Definition CheckPermissions (idRun : option (list string → result string)) (run : list string → result string)
    (dataset : string) (required : list string) : option (result unit) :=
  match (_ ← validateDataset dataset; checkRequired required) with
  | Err e => Some (Err e)
  | Ok [] => Some (Ok tt)
  | Ok required =>
    match effectiveIdentityOf idRun with
    | Err e => Some (Err e)
    | Ok identity =>
      if id_root identity then Some (Ok tt)
      else
        let wrap := Wrapf ("inspect delegated ZFS permissions on " +:+ dataset) in
        match run ["allow"; dataset] with
        | Err e => Some (Err (wrap e))
        | Ok output =>
          match parsePermissionBlocks output with
          | Err e => Some (Err (wrap e))
          | Ok blocks =>
            granted ← effectivePermissions blocks dataset identity;
            match filter (λ permission, permission ∉ granted) required with
            | [] => Some (Ok tt)
            | missing => Some (Err (ErrMissingPermissions (id_name identity) dataset missing))
            end
          end
        end
    end
  end.

(** * What a permission list grants *)

Section Grants.
Context (sets : gmap string (list string)).

(** The permissions a list grants: those it names, and those a set it names
    grants. Sets may name each other, also in cycles. *)
Inductive grants : list string → string → Prop :=
| grants_direct ps p : p ∈ ps → HasPrefix p "@" = false → grants ps p
| grants_set ps s p : s ∈ ps → HasPrefix s "@" = true → grants (default [] (sets !! s)) p → grants ps p.

(** The same through sets that are not in [V] nor used before on the way. *)
Inductive grantsAvoiding : gset string → list string → string → Prop :=
| avoiding_direct V ps p : p ∈ ps → HasPrefix p "@" = false → grantsAvoiding V ps p
| avoiding_set V ps s p : s ∈ ps → HasPrefix s "@" = true → s ∉ V →
    grantsAvoiding ({[s]} ∪ V) (default [] (sets !! s)) p → grantsAvoiding V ps p.

Lemma grantsAvoiding_mono V W ps p : W ⊆ V → grantsAvoiding V ps p → grantsAvoiding W ps p.
Proof.
  intros HW H. revert W HW. induction H as [|V ps s p Hs Ha HV _ IH]; intros W HW; [by apply avoiding_direct|].
  eapply avoiding_set; [done..|set_solver|]. apply IH. set_solver.
Qed.

Lemma grantsAvoiding_add V ps p s :
  grantsAvoiding V ps p → grantsAvoiding ({[s]} ∪ V) ps p ∨ grantsAvoiding ({[s]} ∪ V) (default [] (sets !! s)) p.
Proof.
  induction 1 as [|V ps t p Ht Ha HV Hg IH]; [left; by apply avoiding_direct|].
  destruct (decide (t = s)) as [->|Hne]; [by right|]. destruct IH as [IH|IH].
  - left. eapply avoiding_set; [done..|set_solver|]. eapply grantsAvoiding_mono; [|exact IH]. set_solver.
  - right. eapply grantsAvoiding_mono; [|exact IH]. set_solver.
Qed.

Lemma grants_avoiding ps p : grants ps p ↔ grantsAvoiding ∅ ps p.
Proof.
  split.
  - induction 1 as [|ps s p Hs Ha _ IH]; [by apply avoiding_direct|]. eapply avoiding_set; [done..|set_solver|].
    by destruct (grantsAvoiding_add _ _ _ s IH).
  - generalize (∅ : gset string). induction 1; [by apply grants_direct|by eapply grants_set].
Qed.

Lemma grantsAvoiding_nil V p : ¬ grantsAvoiding V [] p.
Proof. inversion 1; subst; by eapply elem_of_nil. Qed.

Lemma grantsAvoiding_cons V q ps p :
  grantsAvoiding V (q :: ps) p ↔ grantsAvoiding V [q] p ∨ grantsAvoiding V ps p.
Proof.
  split.
  - intros H. remember (q :: ps) as l eqn:El.
    destruct H as [V l p Hin|V l s p Hin]; subst l; apply elem_of_cons in Hin as [->|Hin].
    + left. apply avoiding_direct; [set_solver|done].
    + right. by apply avoiding_direct.
    + left. eapply avoiding_set; eauto. set_solver.
    + right. by eapply avoiding_set.
  - intros [H|H]; inversion H; subst; [apply avoiding_direct|eapply avoiding_set|apply avoiding_direct|eapply avoiding_set]; eauto; set_solver.
Qed.

Lemma grantsAvoiding_one V q p :
  grantsAvoiding V [q] p →
  (p = q ∧ HasPrefix q "@" = false) ∨
  ((HasPrefix q "@" = true ∧ q ∉ V) ∧ grantsAvoiding ({[q]} ∪ V) (default [] (sets !! q)) p).
Proof.
  intros H. remember [q] as l eqn:El. destruct H as [V l p Hin|V l s p Hin]; subst l;
    apply list_elem_of_singleton in Hin as ->; auto.
Qed.

Definition unvisited (V : gset string) : nat := size (dom sets ∖ V).

Lemma unvisited_step V s : s ∈ dom sets → s ∉ V → S (unvisited ({[s]} ∪ V)) = unvisited V.
Proof.
  intros Hs HV. unfold unvisited. replace (dom sets ∖ V) with ({[s]} ∪ (dom sets ∖ ({[s]} ∪ V))).
  - rewrite (size_union (H6:=gset_fin_set)), size_singleton; [done|set_solver].
  - apply set_eq. intros x. destruct (decide (x = s)); set_solver.
Qed.

(** Enough fuel expands a list to exactly what it grants on top of what was
    granted before. *)
Lemma expandFrom_spec fuel : ∀ V ps result,
  (unvisited V + 2 ≤ fuel ∨ ps = [] ∧ 1 ≤ fuel)%nat →
  ∃ r, expandFrom fuel sets V ps result = Some r ∧ ∀ p, p ∈ r ↔ p ∈ result ∨ grantsAvoiding V ps p.
Proof.
  induction fuel as [|fuel IH]; intros V ps result Hf; [lia|].
  destruct Hf as [Hf|[-> _]]; [|exists result; split; [done|]; intros p; pose proof (grantsAvoiding_nil V p); tauto].
  cbn [expandFrom]. revert result. induction ps as [|q ps IHps]; intros result.
  { exists result. split; [done|]. intros p. pose proof (grantsAvoiding_nil V p). tauto. }
  cbn [foldl]. change (Some result ≫= ?f) with (f result). cbv beta.
  destruct (HasPrefix q "@") eqn:Eq; cbn [negb]; [case_decide as HV|].
  - destruct (IHps result) as (r & Hr & Hs). exists r. split; [exact Hr|]. intros p. rewrite Hs, grantsAvoiding_cons.
    split; [tauto|]. intros [?|[H|?]]; [tauto| |tauto].
    destruct (grantsAvoiding_one _ _ _ H) as [[-> ?]|[[_ ?] _]]; [congruence|done].
  - destruct (IH ({[q]} ∪ V) (default [] (sets !! q)) result) as (r1 & Hr1 & Hs1).
    { destruct (sets !! q) as [l|] eqn:El; [left|right; split; [done|lia]].
      pose proof (unvisited_step V q (elem_of_dom_2 _ _ _ El) HV). lia. }
    destruct (IHps r1) as (r & Hr & Hs). exists r. split; [by rewrite Hr1|]. intros p.
    rewrite Hs, Hs1, grantsAvoiding_cons. cut (grantsAvoiding V [q] p ↔ grantsAvoiding ({[q]} ∪ V) (default [] (sets !! q)) p); [tauto|].
    split; [|intros; eapply avoiding_set; eauto; set_solver].
    intros H. by destruct (grantsAvoiding_one _ _ _ H) as [[-> ?]|[_ ?]]; [congruence|].
  - destruct (IHps ({[q]} ∪ result)) as (r & Hr & Hs). exists r. split; [exact Hr|]. intros p.
    rewrite Hs, grantsAvoiding_cons, elem_of_union, elem_of_singleton.
    cut (grantsAvoiding V [q] p ↔ p = q); [tauto|]. split; [|intros ->; apply avoiding_direct; set_solver].
    intros H. destruct (grantsAvoiding_one _ _ _ H) as [[-> ?]|[[? _] _]]; congruence.
Qed.
End Grants.

Lemma expandPermissions_spec result ps sets :
  ∃ r, expandPermissions result ps sets = Some r ∧ ∀ p, p ∈ r ↔ p ∈ result ∨ grants sets ps p.
Proof.
  destruct (expandFrom_spec sets (S (S (size sets))) ∅ ps result) as (r & Hr & Hs).
  { left. unfold unvisited. rewrite difference_empty_L, size_dom. lia. }
  exists r. split; [done|]. intros p. by rewrite Hs, grants_avoiding.
Qed.

(** * Delegation *)

Definition grantFor (dataset setpoint : string) (identity : effectiveIdentity) (g : permissionGrant) : Prop :=
  (dataset = setpoint → pg_section g ≠ permissionDescendent) ∧
  (dataset ≠ setpoint → pg_section g ≠ permissionLocal) ∧
  (pg_kind g = "user" → pg_name g = id_name identity) ∧
  (pg_kind g = "group" → pg_name g ∈ id_groups identity).

(** A grant at or above the dataset gives the account the permission. *)
Definition holds (blocks : list permissionBlock) (dataset : string) (identity : effectiveIdentity) (p : string) : Prop :=
  ∃ b g, b ∈ blocks ∧ within dataset (pb_setpoint b) = true ∧ g ∈ pb_grants b ∧
    grantFor dataset (pb_setpoint b) identity g ∧ grants (pb_sets b) (pg_permissions g) p.

(** Receiving includes the append-only subset. *)
Definition delegated (blocks : list permissionBlock) (dataset : string) (identity : effectiveIdentity) (p : string) : Prop :=
  holds blocks dataset identity p ∨ p = "receive:append" ∧ holds blocks dataset identity "receive".

Lemma grantApplies_iff dataset setpoint identity g :
  within dataset setpoint = true →
  grantApplies (negb (dataset =? setpoint)%string && HasPrefix dataset (setpoint +:+ "/")) identity g = true
  ↔ grantFor dataset setpoint identity g.
Proof.
  unfold within, below, grantApplies, grantFor. intros Hw.
  destruct (String.eqb_spec dataset setpoint) as [->|Hne]; cbn [orb negb andb] in *; [|rewrite Hw];
    rewrite andb_true_iff, !negb_true_iff, !orb_false_iff, !andb_false_iff, !negb_false_iff, !bool_decide_eq_false, !bool_decide_eq_true,
      !eqb_str_false, eqb_str_true; destruct (decide (pg_kind g = "user")), (decide (pg_kind g = "group")); intuition congruence.
Qed.

Lemma grantList_spec sets (ok : permissionGrant → bool) gs : ∀ result,
  ∃ r, foldl (λ acc g, if ok g then result ← acc; expandPermissions result (pg_permissions g) sets else acc) (Some result) gs = Some r ∧
    ∀ p, p ∈ r ↔ p ∈ result ∨ ∃ g, g ∈ gs ∧ ok g = true ∧ grants sets (pg_permissions g) p.
Proof.
  induction gs as [|g gs IH]; intros result; cbn [foldl].
  { exists result. split; [done|]. intros p. split; [tauto|]. intros [?|(g & []%elem_of_nil & _)]; done. }
  destruct (ok g) eqn:Eg; cbn [mbind option_bind].
  - destruct (expandPermissions_spec result (pg_permissions g) sets) as (r1 & -> & H1).
    destruct (IH r1) as (r & Hr & H). exists r. split; [done|]. intros p. rewrite H, H1. setoid_rewrite elem_of_cons.
    split; [intros [[?|?]|(g' & ? & ? & ?)]|intros [?|(g' & [->|?] & ? & ?)]]; eauto 8.
  - destruct (IH result) as (r & Hr & H). exists r. split; [done|]. intros p. rewrite H. setoid_rewrite elem_of_cons.
    split; [intros [?|(g' & ? & ? & ?)]|intros [?|(g' & [->|?] & ? & ?)]]; eauto 8. congruence.
Qed.

Lemma blockPermissions_spec dataset identity b result :
  ∃ r, blockPermissions dataset identity (Some result) b = Some r ∧
    ∀ p, p ∈ r ↔ p ∈ result ∨ holds [b] dataset identity p.
Proof.
  unfold blockPermissions, holds. cbv zeta. set (descendant := negb (dataset =? pb_setpoint b)%string && HasPrefix dataset (pb_setpoint b +:+ "/")).
  setoid_rewrite list_elem_of_singleton.
  assert (negb (dataset =? pb_setpoint b)%string && negb descendant = negb (within dataset (pb_setpoint b))) as ->.
  { unfold within, below, descendant. by destruct (dataset =? pb_setpoint b)%string, (HasPrefix dataset (pb_setpoint b +:+ "/")). }
  destruct (within dataset (pb_setpoint b)) eqn:Ew; cbn [negb].
  - destruct (grantList_spec (pb_sets b) (grantApplies descendant identity) (pb_grants b) result) as (r & -> & H).
    exists r. split; [done|]. intros p. rewrite H.
    setoid_rewrite (λ g, grantApplies_iff dataset (pb_setpoint b) identity g Ew : grantApplies descendant identity g = true ↔ _).
    split; [intros [?|(g & ?)]|intros [?|(b' & g & -> & _ & ?)]]; eauto 8.
  - exists result. split; [done|]. intros p. split; [tauto|]. intros [?|(b' & g & -> & ? & _)]; [done|congruence].
Qed.

Lemma blocks_spec dataset identity blocks : ∀ result,
  ∃ r, foldl (blockPermissions dataset identity) (Some result) blocks = Some r ∧
    ∀ p, p ∈ r ↔ p ∈ result ∨ holds blocks dataset identity p.
Proof.
  induction blocks as [|b blocks IH]; intros result; cbn [foldl].
  { exists result. split; [done|]. intros p. split; [tauto|]. intros [?|(b & g & []%elem_of_nil & _)]; done. }
  destruct (blockPermissions_spec dataset identity b result) as (r1 & -> & H1). destruct (IH r1) as (r & Hr & H).
  exists r. split; [done|]. intros p. rewrite H, H1. unfold holds. setoid_rewrite elem_of_cons. setoid_rewrite elem_of_nil.
  split; [intros [[?|(b' & g & [->|[]] & ?)]|(b' & g & ? & ?)]|intros [?|(b' & g & [->|?] & ?)]]; eauto 10.
Qed.

Lemma effectivePermissions_spec blocks dataset identity :
  ∃ r, effectivePermissions blocks dataset identity = Some r ∧ ∀ p, p ∈ r ↔ delegated blocks dataset identity p.
Proof.
  unfold effectivePermissions, delegated. destruct (blocks_spec dataset identity blocks ∅) as (r & -> & H). cbn [mbind option_bind].
  eexists; split; [done|]. intros p. pose proof (H p) as Hp. pose proof (H "receive") as Hq.
  rewrite elem_of_empty in *. case_decide; rewrite ?elem_of_union, ?elem_of_singleton; [tauto|].
  split; [tauto|]. intros [?|[-> ?]]; tauto.
Qed.

Lemma checkRequired_Ok required l :
  checkRequired required = Ok l ↔ Forall (λ p, validPermission p = true) required ∧ l = Compact (SortStrings required).
Proof.
  unfold checkRequired.
  assert (∀ k, foldM (λ _ permission, if validPermission permission then Ok tt
      else Err (Errorf ("invalid ZFS permission " +:+ Quote permission))) tt k = Ok tt ↔ Forall (λ p, validPermission p = true) k) as Hk.
  { induction k as [|p k IH]; cbn [foldM]; [done|]. rewrite Forall_cons, <- IH. destruct (validPermission p); cbn; [tauto|].
    split; [done|]. by intros [? _]. }
  rewrite bind_Ok. setoid_rewrite Forall_forall. setoid_rewrite Forall_forall in Hk.
  setoid_rewrite <- (elem_of_SortStrings required). setoid_rewrite <- elem_of_Compact. rewrite <- Hk.
  split; [intros ([] & ? & [= <-])|intros [? ->]; exists tt]; done.
Qed.

(** * Claims *)

(** Expanding a list of permissions terminates however the permission sets
    refer to each other, and grants exactly what the list names directly or
    through sets, on top of what was already granted. *)
Theorem expandPermissions_exact result ps sets :
  ∃ r, expandPermissions result ps sets = Some r ∧ ∀ p, p ∈ r ↔ p ∈ result ∨ grants sets ps p.
Proof. apply expandPermissions_spec. Qed.

(** The outcome of the check once its inputs are valid. *)
Lemma CheckPermissions_delegation idRun run dataset required identity output blocks :
  validateDataset dataset = Ok tt → Forall (λ p, validPermission p = true) required → required ≠ [] →
  effectiveIdentityOf idRun = Ok identity → id_root identity = false →
  run ["allow"; dataset] = Ok output → parsePermissionBlocks output = Ok blocks →
  ∃ missing, (∀ p, p ∈ missing ↔ p ∈ required ∧ ¬ delegated blocks dataset identity p) ∧ Sorted String.le missing ∧ NoDup missing ∧
    CheckPermissions idRun run dataset required =
      Some (match missing with [] => Ok tt | _ => Err (ErrMissingPermissions (id_name identity) dataset missing) end).
Proof.
  intros Hd Hv Hne Hi Hr Ho Hb. destruct (effectivePermissions_spec blocks dataset identity) as (granted & Hg & Hs).
  exists (filter (λ p, p ∉ granted) (Compact (SortStrings required))). split_and!.
  - intros p. rewrite list_elem_of_filter, elem_of_Compact, elem_of_SortStrings, Hs. tauto.
  - apply StronglySorted_Sorted, StronglySorted_filter, Compact_sorted, SortStrings_sorted.
  - apply NoDup_filter, (Compact_NoDup String.le), SortStrings_sorted.
  - unfold CheckPermissions. rewrite Hd. cbn [mbind result_bind].
    rewrite (proj2 (checkRequired_Ok required _) (conj Hv eq_refl)).
    destruct (Compact (SortStrings required)) as [|q l] eqn:Ec.
    { exfalso. destruct required as [|q l]; [done|]. assert (q ∈ @nil string) as []%elem_of_nil.
      rewrite <- Ec, elem_of_Compact, elem_of_SortStrings. by left. }
    rewrite Hi, Hr, Ho, Hb, Hg. cbn [mbind option_bind]. by destruct (filter _ _).
Qed.

(** Every required permission is valid, and the account is root or delegation
    gives it every one of them. *)
Definition permitted (idRun : option (list string → result string)) (run : list string → result string)
    (dataset : string) (required : list string) : Prop :=
  validateDataset dataset = Ok tt ∧ Forall (λ p, validPermission p = true) required ∧
  (required = [] ∨ ∃ identity, effectiveIdentityOf idRun = Ok identity ∧
    (id_root identity = true ∨ ∃ output blocks, run ["allow"; dataset] = Ok output ∧ parsePermissionBlocks output = Ok blocks ∧
      ∀ p, p ∈ required → delegated blocks dataset identity p)).

(** An error that is not about missing permissions. *)
Definition plainError (e : error) : Prop := match e with Errorf _ | Wrapf _ _ => True | _ => False end.

Lemma validateDataset_plain name e : validateDataset name = Err e → plainError e.
Proof. unfold validateDataset. intros H. case_hyps; done. Qed.
Lemma checkRequired_plain required e : checkRequired required = Err e → plainError e.
Proof.
  unfold checkRequired. generalize (Compact (SortStrings required)). intros l H.
  destruct (foldM _ tt l) as [[]|e'] eqn:E; [done|]. injection H as ->. clear required.
  induction l as [|p l IH]; cbn [foldM] in E; [done|]. destruct (validPermission p); cbn in E; [by apply IH|by injection E as <-].
Qed.
Lemma effectiveIdentityOf_plain idRun e : effectiveIdentityOf idRun = Err e → plainError e.
Proof. unfold effectiveIdentityOf. intros H. case_hyps; done. Qed.

Lemma CheckPermissions_cases idRun run dataset required :
  (∃ e, CheckPermissions idRun run dataset required = Some (Err e) ∧ plainError e ∧ ¬ permitted idRun run dataset required) ∨
  (CheckPermissions idRun run dataset required = Some (Ok tt) ∧ permitted idRun run dataset required) ∨
  (∃ identity output blocks, validateDataset dataset = Ok tt ∧ Forall (λ p, validPermission p = true) required ∧ required ≠ [] ∧
    effectiveIdentityOf idRun = Ok identity ∧ id_root identity = false ∧
    run ["allow"; dataset] = Ok output ∧ parsePermissionBlocks output = Ok blocks).
Proof.
  unfold permitted. destruct (validateDataset dataset) as [[]|e] eqn:Ed.
  2: { left. exists e. unfold CheckPermissions. rewrite Ed. split_and!; [done|by eapply validateDataset_plain|by intros [? _]]. }
  destruct (checkRequired required) as [l|e] eqn:Er.
  2: { left. exists e. unfold CheckPermissions. rewrite Ed. cbn [mbind result_bind]. rewrite Er. split_and!; [done|by eapply checkRequired_plain|].
    intros (_ & Hv & _). by rewrite (proj2 (checkRequired_Ok required _) (conj Hv eq_refl)) in Er. }
  apply checkRequired_Ok in Er as Hv. destruct Hv as [Hv Hl].
  destruct (decide (required = [])) as [Hnil|Hne].
  { right; left. unfold CheckPermissions. rewrite Ed. cbn [mbind result_bind]. rewrite Er, Hl, Hnil. auto. }
  assert (∃ q k, l = q :: k) as (q & k & ->).
  { destruct l as [|q k]; [|eauto]. destruct required as [|q k]; [done|]. assert (q ∈ @nil string) as []%elem_of_nil.
    rewrite Hl, elem_of_Compact, elem_of_SortStrings. by left. }
  unfold CheckPermissions. rewrite Ed. cbn [mbind result_bind]. rewrite Er.
  destruct (effectiveIdentityOf idRun) as [identity|e] eqn:Ei.
  2: { left. exists e. split_and!; [done|by eapply effectiveIdentityOf_plain|]. by intros (_ & _ & [?|(i & ? & _)]). }
  destruct (id_root identity) eqn:Eroot; [right; left; eauto 10|].
  destruct (run ["allow"; dataset]) as [output|e] eqn:Eo.
  2: { left. eexists. split_and!; [done|done|]. intros (_ & _ & [?|(i & [= <-] & [?|(o & b & ? & _)])]); congruence. }
  destruct (parsePermissionBlocks output) as [blocks|e] eqn:Eb.
  2: { left. eexists. split_and!; [done|done|]. intros (_ & _ & [?|(i & [= <-] & [?|(o & b & ? & ? & _)])]); congruence. }
  right; right. exists identity, output, blocks. done.
Qed.

(** The permission check succeeds exactly when the executing account is
    root or delegation at or above the dataset gives it every required
    permission: a failed query, malformed output or an invalid name never
    passes. When only delegation falls short, the error lists exactly the
    permissions that are missing, sorted and without repeats. *)
Theorem CheckPermissions_exact idRun run dataset required :
  (CheckPermissions idRun run dataset required = Some (Ok tt) ↔ permitted idRun run dataset required) ∧
  (∀ account d missing, CheckPermissions idRun run dataset required = Some (Err (ErrMissingPermissions account d missing)) →
    ∃ identity output blocks, effectiveIdentityOf idRun = Ok identity ∧ run ["allow"; dataset] = Ok output ∧
      parsePermissionBlocks output = Ok blocks ∧ account = id_name identity ∧ d = dataset ∧
      Sorted String.le missing ∧ NoDup missing ∧ missing ≠ [] ∧
      ∀ p, p ∈ missing ↔ p ∈ required ∧ ¬ delegated blocks dataset identity p) ∧
  (∃ r, CheckPermissions idRun run dataset required = Some r).
Proof.
  destruct (CheckPermissions_cases idRun run dataset required)
    as [(e & He & Hp & Hn)|[[He Hp]|(identity & output & blocks & Hd & Hv & Hne & Hi & Hr & Ho & Hb)]].
  - split_and!; [split; [by rewrite He|tauto]| |eauto]. intros a d m. rewrite He. by intros [= ->].
  - split_and!; [tauto| |eauto]. intros a d m. by rewrite He.
  - destruct (CheckPermissions_delegation idRun run dataset required identity output blocks Hd Hv Hne Hi Hr Ho Hb)
      as (missing & Hm & Hs & Hnd & ->).
    split_and!; [| |eauto].
    + split.
      * destruct missing as [|q l]; [intros _|done]. split_and!; [done..|]. right. exists identity. split; [done|]. right.
        exists output, blocks. split_and!; [done..|]. intros p Hp. destruct (effectivePermissions_spec blocks dataset identity) as (g & _ & Hg).
        destruct (decide (p ∈ g)) as [?|Hn]; [by apply Hg|]. exfalso. apply (elem_of_nil p), Hm. by rewrite <- Hg.
      * intros (_ & _ & [?|(i & Hi' & [?|(o & b & Ho' & Hb' & Hall)])]); [done|congruence|].
        rewrite Hi in Hi'. injection Hi' as <-. rewrite Ho in Ho'. injection Ho' as <-. rewrite Hb in Hb'. injection Hb' as <-.
        destruct missing as [|q l]; [done|]. exfalso. destruct (proj1 (Hm q) (list_elem_of_here _ _)) as [Hq Hnq]. auto.
    + intros a d m. destruct missing as [|q l] eqn:Em; [done|]. intros [= <- <- <-]. exists identity, output, blocks. done.
Qed.

(** * An account with a permission set that names itself *)

Definition sampleLines : list string :=
  ["---- Permissions on tank/backup --------------------------------------";
   "Permission sets:";
   "	@send send,hold,@send";
   "Local+Descendent permissions:";
   "	user boomerangz @send,receive";
   "---- Permissions on tank ---------------------------------------------";
   "Local permissions:";
   "	group wheel destroy";
   ""].
Definition sampleId (args : list string) : result string :=
  if decide (args = ["-u"]) then Ok "1000" else if decide (args = ["-un"]) then Ok "boomerangz" else Ok "wheel".
Example CheckPermissions_sample :
  CheckPermissions (Some sampleId) (λ _, Ok (Join sampleLines (String "010" ""))) "tank/backup/a"
    ["hold"; "receive:append"; "destroy"; "send"; "mount"; "destroy"]
  = Some (Err (ErrMissingPermissions "boomerangz" "tank/backup/a" ["destroy"; "mount"])).
Proof. vm_compute. reflexivity. Qed.
