(* ===== verification/Hash.v ===== *)
(** crypto/sha256 (FIPS 180-4) and encoding/hex, which name targets and streams
    in property, hold and bookmark names. *)

From Stdlib Require Import Ascii.
From S2P Require Import Prelude GoStrings Names.

(** * SHA-256 on lists of bytes *)

Definition word32 (x : Z) : Z := x mod 2 ^ 32.
Definition rotr (x n : Z) : Z := Z.lor (Z.shiftr x n) (word32 (Z.shiftl x (32 - n))).

(** The integer [k]-th root, bit by bit from the highest. *)
Fixpoint rootFrom (bits : nat) (k n r : Z) : Z :=
  match bits with
  | O => r
  | S bits => let r' := r + 2 ^ Z.of_nat bits in rootFrom bits k n (if r' ^ k <=? n then r' else r)
  end.
(** The first 32 fractional bits of the [k]-th root of a number below 2 ^ 9. *)
Definition fractionBits (k n : Z) : Z := word32 (rootFrom 41 k (n * 2 ^ (32 * k)) 0).
Definition isPrime (n : Z) : bool := forallb (λ d, negb (n mod d =? 0)) (seqZ 2 (n - 2)).
Definition primes : list Z := filter (λ n, isPrime n = true) (seqZ 2 310).

(** The round constants come from the cube roots of the first sixty-four primes
    and the initial state from the square roots of the first eight. *)
Definition sha256K : list Z := Eval vm_compute in fractionBits 3 <$> primes.
Definition sha256Init : list Z := Eval vm_compute in fractionBits 2 <$> take 8 primes.

Definition bigEndian (n : nat) (x : Z) : list Z := (λ i, Z.shiftr x (8 * Z.of_nat i) mod 256) <$> reverse (seq 0 n).

Definition sha256Pad (data : list Z) : list Z :=
  let len := Z.of_nat (length data) in
  data ++ 0x80 :: replicate (Z.to_nat ((55 - len) mod 64)) 0 ++ bigEndian 8 (8 * len).

Fixpoint words (l : list Z) : list Z :=
  match l with
  | a :: b :: c :: d :: l => (a * 2 ^ 24 + b * 2 ^ 16 + c * 2 ^ 8 + d) :: words l
  | _ => []
  end.

(** The message schedule, newest word first. *)
Definition scheduleStep (w : list Z) : list Z :=
  let w2 := nth 1 w 0 in let w7 := nth 6 w 0 in let w15 := nth 14 w 0 in let w16 := nth 15 w 0 in
  let s0 := Z.lxor (Z.lxor (rotr w15 7) (rotr w15 18)) (Z.shiftr w15 3) in
  let s1 := Z.lxor (Z.lxor (rotr w2 17) (rotr w2 19)) (Z.shiftr w2 10) in
  word32 (w16 + s0 + w7 + s1) :: w.
Definition schedule (block : list Z) : list Z := reverse (Nat.iter 48 scheduleStep (reverse (words block))).

Definition roundStep (st : list Z) (kw : Z * Z) : list Z :=
  match st with
  | [a; b; c; d; e; f; g; h] =>
    let s1 := Z.lxor (Z.lxor (rotr e 6) (rotr e 11)) (rotr e 25) in
    let ch := Z.lxor (Z.land e f) (Z.land (Z.lxor e 0xffffffff) g) in
    let t1 := word32 (h + s1 + ch + kw.1 + kw.2) in
    let s0 := Z.lxor (Z.lxor (rotr a 2) (rotr a 13)) (rotr a 22) in
    let maj := Z.lxor (Z.lxor (Z.land a b) (Z.land a c)) (Z.land b c) in
    [word32 (t1 + (s0 + maj)); a; b; c; word32 (d + t1); e; f; g]
  | _ => st
  end.
Definition compress (st block : list Z) : list Z :=
  zip_with (λ x y, word32 (x + y)) st (fold_left roundStep (zip sha256K (schedule block)) st).

(** [fuel] bounds the number of blocks; the padded length is enough. *)
Fixpoint compressAll (fuel : nat) (st data : list Z) : list Z :=
  match fuel, data with
  | S fuel, _ :: _ => compressAll fuel (compress st (take 64 data)) (drop 64 data)
  | _, _ => st
  end.
Definition Sum256 (data : list Z) : list Z :=
  let padded := sha256Pad data in compressAll (length padded) sha256Init padded ≫= bigEndian 4.

Definition bytesZ (s : string) : list Z := byteZ <$> bytes_of s.

Example sha256_empty : Identity.EncodeToString (Sum256 (bytesZ "")) = "e3b0c44298fc1c149afbf4c8996fb92427ae41e4649b934ca495991b7852b855".
Proof. vm_compute. reflexivity. Qed.
Example sha256_abc : Identity.EncodeToString (Sum256 (bytesZ "abc")) = "ba7816bf8f01cfea414140de5dae2223b00361a396177a9cb410ff61f20015ad".
Proof. vm_compute. reflexivity. Qed.
Example sha256_two_blocks :
  Identity.EncodeToString (Sum256 (bytesZ "abcdbcdecdefdefgefghfghighijhijkijkljklmklmnlmnomnopnopq"))
  = "248d6a61d20638b8e5c026930c3e6039a33ce45964ff2167f6ecedd419db06c1".
Proof. vm_compute. reflexivity. Qed.

(** * The digest's shape *)

Lemma length_bigEndian n x : length (bigEndian n x) = n.
Proof. unfold bigEndian. by rewrite length_fmap, length_reverse, length_seq. Qed.
Lemma bigEndian_byte n x : Forall (λ b, 0 ≤ b < 256) (bigEndian n x).
Proof. unfold bigEndian. apply Forall_fmap, Forall_true. intros i. cbn. apply Z.mod_pos_bound. lia. Qed.

Lemma length_roundStep st kw : length (roundStep st kw) = length st.
Proof. by destruct st as [|a [|b [|c [|d [|e [|f [|g [|h [|i st]]]]]]]]]. Qed.
Lemma length_compress st block : length (compress st block) = length st.
Proof.
  unfold compress. rewrite length_zip_with. generalize (zip sha256K (schedule block)). intros l.
  assert (∀ st', length (fold_left roundStep l st') = length st') as ->; [|lia].
  induction l as [|kw l IH]; intros st'; cbn; [done|]. by rewrite IH, length_roundStep.
Qed.
Lemma length_compressAll fuel : ∀ st data, length (compressAll fuel st data) = length st.
Proof. induction fuel as [|fuel IH]; intros st [|b data]; cbn [compressAll]; [done..|]. by rewrite IH, length_compress. Qed.

(** A digest is thirty-two bytes. *)
Lemma Sum256_shape data : length (Sum256 data) = 32%nat ∧ Forall (λ b, 0 ≤ b < 256) (Sum256 data).
Proof.
  unfold Sum256. pose proof (length_compressAll (length (sha256Pad data)) sha256Init (sha256Pad data)) as Hl.
  revert Hl. generalize (compressAll (length (sha256Pad data)) sha256Init (sha256Pad data)). intros ws Hl. split.
  - assert (∀ l, length (l ≫= bigEndian 4) = 4 * length l)%nat as ->; [|by rewrite Hl].
    induction l as [|w l IH]; [done|]. change ((w :: l) ≫= ?f) with (f w ++ (l ≫= f)). rewrite length_app, IH, length_bigEndian. cbn [length]. lia.
  - apply Forall_bind, Forall_true. intros w. apply bigEndian_byte.
Qed.
