(* ===== verification/Rfc3339.v ===== *)
(** The layouts time.RFC3339 and time.RFC3339Nano of package time, which the
    stored records use for instants. *)

From Stdlib Require Import Ascii.
From S2P Require Import Prelude GoStrings GoTime.

(** The fraction of a second, without trailing zeros and absent when zero. *)
Definition formatFraction (ns : Z) : string := if ns =? 0 then "" else "." +:+ TrimRight (fixed 9 ns) "0".

(** [t.UTC().Format(time.RFC3339Nano)] for years of at most four digits. *)
Definition FormatRFC3339Nano (t : Time) : string :=
  let '(y, m, d) := civil (t / day) in
  let tod := t mod day in
  fixed 4 y +:+ "-" +:+ fixed 2 m +:+ "-" +:+ fixed 2 d +:+ "T"
  +:+ fixed 2 (tod / hour) +:+ ":" +:+ fixed 2 (tod mod hour / minute) +:+ ":" +:+ fixed 2 (tod mod minute / second)
  +:+ formatFraction (tod mod second) +:+ "Z".

(** A fraction of at least one digit; digits after the ninth are dropped. *)
Definition parseFraction (s : string) : option (Z * string) :=
  match s with
  | String c (String a _ as f) =>
    if (Ascii.eqb c "." || Ascii.eqb c ",") && isDigit a then
      let '(ds, rest) := spanDigits f in
      let kept := String.substring 0 9 ds in
      ns ← atoi kept; Some (ns * 10 ^ (9 - Z.of_nat (String.length kept)), rest)
    else Some (0, s)
  | _ => Some (0, s)
  end.

(** The zone: [Z] or an offset, in seconds. *)
Definition parseZone (s : string) : option (Z * string) :=
  match s with
  | String "Z" rest => Some (0, rest)
  | String sign (String h1 (String h2 (String ":" (String m1 (String m2 rest))))) =>
    '(hr, _) ← getnum (String h1 (String h2 "")) true;
    '(mm, _) ← getnum (String m1 (String m2 "")) true;
    if (24 <? hr) || (60 <? mm) then None
    else if Ascii.eqb sign "+" then Some ((hr * 60 + mm) * 60, rest)
    else if Ascii.eqb sign "-" then Some (- ((hr * 60 + mm) * 60), rest)
    else None
  | _ => None
  end.

(** [time.Parse] with either layout, as an instant; every failure is one error
    here. *)
Definition ParseRFC3339 (s : string) : option Time :=
  '(ys, s) ← splitAt 4 s;
  y ← (if (match ys with String a _ => isDigit a | _ => false end) then atoi ys else None);
  s ← expect "-" s;
  '(m, s) ← getnum s true;
  if (m <=? 0) || (12 <? m) then None else
  s ← expect "-" s;
  '(d, s) ← getnum s true;
  s ← expect "T" s;
  '(h, s) ← getnum s false;
  if 24 <=? h then None else
  s ← expect ":" s;
  '(mi, s) ← getnum s true;
  if 60 <=? mi then None else
  s ← expect ":" s;
  '(sec, s) ← getnum s true;
  if 60 <=? sec then None else
  '(ns, s) ← parseFraction s;
  '(offset, s) ← parseZone s;
  match s with
  | "" => if (d <? 1) || (daysIn m y <? d) then None else Some (Date y m d h mi sec ns - offset * second)
  | _ => None
  end.

Example rfc_format : FormatRFC3339Nano (Date 2024 2 29 7 5 9 120) = "2024-02-29T07:05:09.00000012Z".
Proof. vm_compute. reflexivity. Qed.
Example rfc_parse : ParseRFC3339 "2024-02-29T09:05:09.00000012+02:00" = Some (Date 2024 2 29 7 5 9 120).
Proof. vm_compute. reflexivity. Qed.
Example rfc_parse_bad : ParseRFC3339 "2023-02-29T09:05:09Z" = None.
Proof. vm_compute. reflexivity. Qed.

(** * Round trip *)

Lemma TrimRight_zeros s c : ∃ k, s = TrimRight s c +:+ foldr (λ a t, String a t) "" (replicate k c).
Proof.
  induction s as [|a s [k IH]]; [by exists O|]. cbn [TrimRight]. destruct (TrimRight s c) as [|b t] eqn:E.
  - destruct (Ascii.eqb_spec a c) as [->|Hne].
    + exists (S k). cbn. rewrite app_nil_str in *. by rewrite <- IH.
    + exists k. rewrite app_cons_str, app_nil_str in *. by rewrite <- IH.
  - exists k. rewrite app_cons_str. by rewrite <- IH.
Qed.

Lemma stringZ_app s t acc : stringZ (s +:+ t) acc = stringZ t (stringZ s acc).
Proof. unfold stringZ. by rewrite bytes_of_app, fold_left_app. Qed.

Lemma stringZ_zeros k acc : stringZ (foldr (λ a t, String a t) "" (replicate k "0"%char)) acc = acc * 10 ^ Z.of_nat k.
Proof.
  revert acc. induction k as [|k IH]; intros acc; [cbn; unfold stringZ; cbn; lia|].
  change (stringZ (foldr (λ a t, String a t) "" (replicate k "0"%char)) (10 * acc + 0) = acc * 10 ^ Z.of_nat (S k)).
  rewrite IH, Nat2Z.inj_succ, Z.pow_succ_r by lia. lia.
Qed.

Lemma length_str s : String.length s = length (bytes_of s).
Proof. induction s as [|a s IH]; [done|]. cbn. by rewrite IH. Qed.

Lemma bytes_zeros k c : bytes_of (foldr (λ a t, String a t) "" (replicate k c)) = replicate k c.
Proof. induction k as [|k IH]; [done|]. cbn. by rewrite IH. Qed.

Lemma substring_all s n : (String.length s ≤ n)%nat → String.substring 0 n s = s.
Proof.
  revert s. induction n as [|n IH]; intros [|a s]; cbn; intros H; try done; [lia|]. f_equal. apply IH. lia.
Qed.

(** The digits of a fraction that is not zero. *)
Lemma fraction_digits ns :
  0 < ns < 1000000000 →
  let f := TrimRight (fixed 9 ns) "0" in
  f ≠ "" ∧ Forall (λ a, isDigit a = true) (bytes_of f) ∧ (String.length f ≤ 9)%nat ∧
  stringZ f 0 * 10 ^ (9 - Z.of_nat (String.length f)) = ns.
Proof.
  intros Hn f. destruct (fixed_spec 9 ns) as (Hd & Hv & Hl); [cbn; lia|].
  destruct (TrimRight_zeros (fixed 9 ns) "0") as [k Hk]. fold f in Hk. rewrite Hk in Hd, Hv, Hl.
  rewrite bytes_of_app, bytes_zeros in *. rewrite stringZ_app, stringZ_zeros in Hv.
  apply Forall_app in Hd as [Hd _]. rewrite length_app, length_replicate, <- length_str in Hl.
  split_and!; [|done|lia|].
  - intros E. rewrite E in Hv. unfold stringZ in Hv. cbn in Hv. lia.
  - replace (9 - Z.of_nat (String.length f)) with (Z.of_nat k) by lia. done.
Qed.

Lemma parseFraction_format ns rest :
  0 ≤ ns < 1000000000 → parseFraction (formatFraction ns +:+ String "Z" rest) = Some (ns, String "Z" rest).
Proof.
  intros Hn. unfold formatFraction. destruct (Z.eqb_spec ns 0) as [->|Hne].
  { rewrite app_nil_str. cbn [parseFraction]. by destruct rest. }
  destruct (fraction_digits ns) as (Hf & Hd & Hl & Hv); [lia|]. cbv zeta in *.
  revert Hf Hd Hl Hv. generalize (TrimRight (fixed 9 ns) "0"). intros f Hf Hd Hl Hv.
  destruct f as [|a f]; [done|]. rewrite app_assoc_str, !app_cons_str, app_nil_str. cbn [parseFraction].
  pose proof Hd as Hd'. cbn [bytes_of] in Hd'. apply Forall_cons in Hd' as [-> _]. cbn [Ascii.eqb Bool.eqb orb andb].
  rewrite <- app_cons_str, spanDigits_app by done. rewrite substring_all by done.
  assert (atoi (String a f) = Some (stringZ (String a f) 0)) as ->; [|cbn [mbind option_bind]; by rewrite Hv].
  rewrite <- digits_stringZ by done. unfold atoi. cbn [bytes_of] in Hd. apply Forall_cons in Hd as [Ha _].
  destruct a as [[] [] [] [] [] [] [] []]; first [reflexivity | vm_compute in Ha; discriminate Ha].
Qed.

Lemma ParseRFC3339_fields y m d h mi s n :
  0 ≤ y < 10000 → 1 ≤ m ≤ 12 → 1 ≤ d ≤ daysIn m y → 0 ≤ h < 24 → 0 ≤ mi < 60 → 0 ≤ s < 60 →
  0 ≤ n < 1000000000 →
  ParseRFC3339 (fixed 4 y +:+ "-" +:+ fixed 2 m +:+ "-" +:+ fixed 2 d +:+ "T" +:+ fixed 2 h +:+ ":" +:+ fixed 2 mi
                +:+ ":" +:+ fixed 2 s +:+ formatFraction n +:+ "Z") = Some (Date y m d h mi s n).
Proof.
  intros Hy Hm Hd Hh Hmi Hs Hn. pose proof (daysIn_pos m y) as Hin.
  unfold ParseRFC3339. rewrite (splitAt_fixed 4) by (cbn; lia). cbn [mbind option_bind].
  destruct (atoi_fixed 4 y) as (-> & a & s' & -> & ->); [lia|cbn; lia|]. cbn [mbind option_bind].
  rewrite expect_app. cbn [mbind option_bind]. rewrite getnum_fixed by lia. cbn [mbind option_bind].
  destruct (Z.leb_spec m 0); [lia|]. destruct (Z.ltb_spec 12 m); [lia|]. cbn [orb].
  rewrite expect_app. cbn [mbind option_bind]. rewrite getnum_fixed by lia. cbn [mbind option_bind].
  rewrite expect_app. cbn [mbind option_bind]. rewrite getnum_fixed by lia. cbn [mbind option_bind].
  destruct (Z.leb_spec 24 h); [lia|]. rewrite expect_app. cbn [mbind option_bind].
  rewrite getnum_fixed by lia. cbn [mbind option_bind]. destruct (Z.leb_spec 60 mi); [lia|].
  rewrite expect_app. cbn [mbind option_bind]. rewrite getnum_fixed by lia. cbn [mbind option_bind].
  destruct (Z.leb_spec 60 s); [lia|]. rewrite parseFraction_format by done.
  cbn [mbind option_bind parseZone]. destruct (Z.ltb_spec d 1); [lia|].
  destruct (Z.ltb_spec (daysIn m y) d); [lia|]. cbn [orb]. f_equal. lia.
Qed.

#[local] Ltac Zify.zify_post_hook ::= Z.div_mod_to_equations.

(** Parsing a formatted instant gives the instant back. *)
Lemma ParseRFC3339_Format t :
  0 ≤ Year t < 10000 → ParseRFC3339 (FormatRFC3339Nano t) = Some t.
Proof.
  intros Hy. unfold FormatRFC3339Nano, Year in *. destruct (civil (t / day)) as [[y m] d] eqn:Hc.
  pose proof (Date_civil t y m d Hc) as HD. pose proof (civil_spec _ _ _ _ Hc) as (_ & Hm & Hd).
  assert ((yearOf (t / day)).1 = y) as Hyr.
  { unfold civil in Hc. destruct (yearOf (t / day)) as [y' ?]. destruct (monthFrom _ _ _ _). cbn. congruence. }
  rewrite Hyr in Hy.
  assert (0 ≤ t mod day < day) as Ht by (apply Z.mod_pos_bound; unfold day, hour, minute, second; lia).
  rewrite ParseRFC3339_fields; [by rewrite HD|done..| | | | ]; clear - Ht;
    revert Ht; generalize (t mod day); intros tod Ht; unfold day, hour, minute, second in *; lia.
Qed.
