(* ===== verification/Json.v ===== *)
(** encoding/json as the stored records use it: parsing a value, decoding an
    object into a struct, and encoding strings. *)

From Stdlib Require Import Ascii.
From S2P Require Import Prelude GoStrings GoTime Rfc3339.

(** A JSON value. A number keeps its literal, and a string the literal between
    its quotes beside the text it stands for, because a time decodes from the
    literal. *)
Inductive json :=
| JNull
| JBool (b : bool)
| JNumber (literal : string)
| JString (raw value : string)
| JArray (values : list json)
| JObject (fields : list (string * json)).

(** * Strings *)

(** [utf8.EncodeRune]. *)
Definition byteOf (z : Z) : ascii := ascii_of_N (Z.to_N z).
Definition encodeRune (r : Z) : string :=
  if r <? 0x80 then String (byteOf r) ""
  else if r <? 0x800 then String (byteOf (0xC0 + r / 64)) (String (byteOf (0x80 + r mod 64)) "")
  else if r <? 0x10000 then
    String (byteOf (0xE0 + r / 4096)) (String (byteOf (0x80 + r / 64 mod 64)) (String (byteOf (0x80 + r mod 64)) ""))
  else
    String (byteOf (0xF0 + r / 262144)) (String (byteOf (0x80 + r / 4096 mod 64))
      (String (byteOf (0x80 + r / 64 mod 64)) (String (byteOf (0x80 + r mod 64)) ""))).

Definition concatStrings (l : list string) : string := foldr String.app "" l.

(** A string with every invalid byte replaced by U+FFFD. *)
Definition coerceUTF8 (s : string) : string := concatStrings (encodeRune <$> runes s).

Definition hexValue (a : ascii) : option Z :=
  let b := byteZ a in
  if inZ 48 b 57 then Some (b - 48)
  else if inZ 97 b 102 then Some (b - 87)
  else if inZ 65 b 70 then Some (b - 55)
  else None.

(** Where the scanner is in a string literal: in its text, after a backslash, or
    before the given number of hexadecimal digits. *)
Inductive strState := InText | InEscape | InHex (n : nat).

(** The literal up to the closing quote, and the rest. *)
Fixpoint scanString (st : strState) (s : string) : option (string * string) :=
  match s with
  | "" => None
  | String a s' =>
    let next st := '(raw, rest) ← scanString st s'; Some (String a raw, rest) in
    match st with
    | InText =>
      if byteZ a =? 34 then Some ("", s')
      else if byteZ a =? 92 then next InEscape
      else if byteZ a <? 0x20 then None
      else next InText
    | InEscape =>
      if Ascii.eqb a "u" then next (InHex 4)
      else if ContainsByte "bfnrt/" a || (byteZ a =? 34) || (byteZ a =? 92) then next InText
      else None
    | InHex k =>
      match hexValue a with
      | None => None
      | Some _ => next (match k with S (S n) => InHex (S n) | _ => InText end)
      end
    end
  end.

(** A piece of a literal: a byte of its text, or the value of an escape. *)
Inductive piece := PByte (a : ascii) | PEscape (r : Z) | PUnicode (r : Z).

(** A literal [scanString] does not produce has no pieces after its flaw. *)
Fixpoint pieces (s : string) : list piece :=
  match s with
  | "" => []
  | String a s1 =>
    if negb (byteZ a =? 92) then PByte a :: pieces s1 else
    match s1 with
    | "" => []
    | String b s2 =>
      if Ascii.eqb b "u" then
        match s2 with
        | String h1 (String h2 (String h3 (String h4 s3))) =>
          match hexValue h1, hexValue h2, hexValue h3, hexValue h4 with
          | Some x1, Some x2, Some x3, Some x4 => PUnicode (((x1 * 16 + x2) * 16 + x3) * 16 + x4) :: pieces s3
          | _, _, _, _ => []
          end
        | _ => []
        end
      else
        PEscape (if Ascii.eqb b "b" then 8 else if Ascii.eqb b "f" then 12 else if Ascii.eqb b "n" then 10
                 else if Ascii.eqb b "r" then 13 else if Ascii.eqb b "t" then 9 else byteZ b) :: pieces s2
    end
  end.

(** Joins surrogate pairs; a surrogate without its pair is U+FFFD. *)
Fixpoint assemble (l : list piece) : string :=
  match l with
  | [] => ""
  | PByte a :: l => String a (assemble l)
  | PEscape r :: l => encodeRune r +:+ assemble l
  | PUnicode r :: l =>
    if inZ 0xD800 r 0xDFFF then
      match l with
      | PUnicode r2 :: l2 =>
        if inZ 0xD800 r 0xDBFF && inZ 0xDC00 r2 0xDFFF
        then encodeRune ((r - 0xD800) * 1024 + (r2 - 0xDC00) + 0x10000) +:+ assemble l2
        else encodeRune runeError +:+ assemble l
      | _ => encodeRune runeError +:+ assemble l
      end
    else encodeRune r +:+ assemble l
  end.
Definition unquote (raw : string) : string := coerceUTF8 (assemble (pieces raw)).

(** * Values *)

Definition isJsonSpace (a : ascii) : bool := ContainsByte (String " " (String "009" (String "010" (String "013" "")))) a.
Fixpoint skipSpace (s : string) : string :=
  match s with
  | String a s' => if isJsonSpace a then skipSpace s' else s
  | "" => ""
  end.

(** A number literal and the rest. *)
Definition scanExponent (s : string) : option (string * string) :=
  match s with
  | String e s1 =>
    if Ascii.eqb e "e" || Ascii.eqb e "E" then
      let '(sign, s2) := match s1 with
                         | String c s2 => if Ascii.eqb c "+" || Ascii.eqb c "-" then (String c "", s2) else ("", s1)
                         | "" => ("", "")
                         end in
      match spanDigits s2 with
      | ("", _) => None
      | (ds, rest) => Some (String e (sign +:+ ds), rest)
      end
    else Some ("", s)
  | "" => Some ("", "")
  end.
Definition scanFraction (s : string) : option (string * string) :=
  match s with
  | String "." s1 => match spanDigits s1 with ("", _) => None | (ds, rest) => Some (String "." ds, rest) end
  | _ => Some ("", s)
  end.
Definition scanInteger (s : string) : option (string * string) :=
  match s with
  | String "0" rest => Some ("0", rest)
  | _ => match spanDigits s with ("", _) => None | (ds, rest) => Some (ds, rest) end
  end.
Definition scanNumber (s : string) : option (string * string) :=
  let '(sign, s) := match s with String "-" s' => ("-", s') | _ => ("", s) end in
  '(int, s) ← scanInteger s;
  '(frac, s) ← scanFraction s;
  '(exp, s) ← scanExponent s;
  Some (sign +:+ int +:+ frac +:+ exp, s).

(** What is being parsed: a value, the elements of an array after a comma or at
    its start, or the members of an object likewise. *)
Inductive mode := MValue | MElements (acc : list json) | MMembers (acc : list (string * json)).

(** A byte is consumed at least every other step, so twice the length of the
    input is fuel enough. *)
Fixpoint parseJson (fuel : nat) (m : mode) (s : string) : option (json * string) :=
  match fuel with
  | O => None
  | S fuel =>
    match m with
    | MValue =>
      match skipSpace s with
      | "" => None
      | String a s1 as s0 =>
        if byteZ a =? 34 then '(raw, rest) ← scanString InText s1; Some (JString raw (unquote raw), rest)
        else if Ascii.eqb a "{" then
          match skipSpace s1 with
          | String "}" rest => Some (JObject [], rest)
          | s2 => parseJson fuel (MMembers []) s2
          end
        else if Ascii.eqb a "[" then
          match skipSpace s1 with
          | String "]" rest => Some (JArray [], rest)
          | s2 => parseJson fuel (MElements []) s2
          end
        else if HasPrefix s0 "null" then Some (JNull, TrimPrefix s0 "null")
        else if HasPrefix s0 "true" then Some (JBool true, TrimPrefix s0 "true")
        else if HasPrefix s0 "false" then Some (JBool false, TrimPrefix s0 "false")
        else '(lit, rest) ← scanNumber s0; Some (JNumber lit, rest)
      end
    | MElements acc =>
      '(v, rest) ← parseJson fuel MValue s;
      match skipSpace rest with
      | String "," rest => parseJson fuel (MElements (acc ++ [v])) rest
      | String "]" rest => Some (JArray (acc ++ [v]), rest)
      | _ => None
      end
    | MMembers acc =>
      match skipSpace s with
      | "" => None
      | String a s1 =>
        if byteZ a =? 34 then
          '(raw, rest) ← scanString InText s1;
          match skipSpace rest with
          | String ":" rest =>
            '(v, rest) ← parseJson fuel MValue rest;
            match skipSpace rest with
            | String "," rest => parseJson fuel (MMembers (acc ++ [(unquote raw, v)])) rest
            | String "}" rest => Some (JObject (acc ++ [(unquote raw, v)]), rest)
            | _ => None
            end
          | _ => None
          end
        else None
      end
    end
  end.

(** [json.NewDecoder(s).Decode] up to the typed decoding: the first value and
    what follows it. *)
Definition DecodeValue (s : string) : option (json * string) := parseJson (S (2 * String.length s)) MValue s.
(** [decoder.More()] on what follows. *)
Definition More (rest : string) : bool :=
  match skipSpace rest with
  | "" => false
  | String a _ => negb (Ascii.eqb a "]" || Ascii.eqb a "}")
  end.

(** * Decoding into a struct *)

(** The folding that matches keys with field names: letters match in either
    case, and the two runes outside ASCII that fold to ASCII letters. *)
Definition foldRune (r : Z) : Z :=
  if inZ 97 r 122 then r - 32 else if r =? 0x17F then 83 else if r =? 0x212A then 75 else r.
Definition foldedName (name : string) : list Z := foldRune <$> runes name.
Definition sameField (key name : string) : bool := bool_decide (foldedName key = foldedName name).

(** How a field decodes: [None] is a value of the wrong type. Null leaves every
    field as it is. *)
Definition decodeString (v : json) : option (option string) :=
  match v with JNull => Some None | JString _ s => Some (Some s) | _ => None end.
Definition decodeBool (v : json) : option (option bool) :=
  match v with JNull => Some None | JBool b => Some (Some b) | _ => None end.
Definition decodeUint64 (v : json) : option (option Z) :=
  match v with JNull => Some None | JNumber lit => n ← ParseUint lit 64; Some (Some n) | _ => None end.
Definition decodeInt (v : json) : option (option Z) :=
  match v with JNull => Some None | JNumber lit => n ← ParseInt lit 64; Some (Some n) | _ => None end.
(** [Time.UnmarshalJSON]. *)
Definition decodeTime (v : json) : option (option Time) :=
  match v with JNull => Some None | JString raw _ => t ← ParseRFC3339 raw; Some (Some t) | _ => None end.

(** A field of a struct [T]: its name, and how a value changes the struct. *)
Definition fieldDecoder (T : Type) : Type := string * (json → T → option T).
Definition field {T A} (name : string) (decode : json → option (option A)) (set : A → T → T) : fieldDecoder T :=
  (name, λ v t, d ← decode v; Some (match d with Some a => set a t | None => t end)).

(** Decodes the members in order; [strict] is [DisallowUnknownFields]. *)
Definition decodeMember {T} (fields : list (fieldDecoder T)) (strict : bool) (acc : option T) (kv : string * json) : option T :=
  t ← acc;
  match List.find (λ f : fieldDecoder T, sameField kv.1 f.1) fields with
  | Some f => f.2 kv.2 t
  | None => if strict then None else Some t
  end.
Definition decodeStruct {T} (fields : list (fieldDecoder T)) (strict : bool) (zero : T) (v : json) : option T :=
  match v with
  | JNull => Some zero
  | JObject members => fold_left (decodeMember fields strict) members (Some zero)
  | _ => None
  end.

(** [json.Unmarshal]: one value and nothing but space after it. *)
Definition Unmarshal {T} (fields : list (fieldDecoder T)) (zero : T) (s : string) : option T :=
  '(v, rest) ← DecodeValue s;
  match skipSpace rest with
  | "" => decodeStruct fields false zero v
  | _ => None
  end.

(** * Encoding *)

(** A string literal as [json.Marshal] writes it, without its quotes: invalid
    bytes as U+FFFD, and the characters HTML gives a meaning escaped. *)
Definition encodeStringRune (r : Z) : string :=
  if (r =? 34) || (r =? 92) then String (byteOf 92) (String (byteOf r) "")
  else if r =? 8 then "\b" else if r =? 12 then "\f" else if r =? 10 then "\n" else if r =? 13 then "\r" else if r =? 9 then "\t"
  else if (r <? 0x20) || (r =? 60) || (r =? 62) || (r =? 38) then "\u00" +:+ hexbyte r
  else if r =? 0x2028 then "\u2028" else if r =? 0x2029 then "\u2029"
  else encodeRune r.
(** An invalid byte decodes as U+FFFD like the rune itself, and is written as an
    escape. *)
Fixpoint encodeStringFrom (fuel : nat) (s : string) : string :=
  match fuel, s with
  | S fuel, String a s' =>
    if byteZ a <? 0x80 then encodeStringRune (byteZ a) +:+ encodeStringFrom fuel s'
    else
      let n := if inZ 0xC2 (byteZ a) 0xDF then 2%nat else if inZ 0xE0 (byteZ a) 0xEF then 3%nat else 4%nat in
      match runes (String.substring 0 n s) with
      | [r] => if (n <=? String.length s)%nat then encodeStringRune r +:+ encodeStringFrom fuel (String.substring n (String.length s) s)
               else "\ufffd" +:+ encodeStringFrom fuel s'
      | _ => "\ufffd" +:+ encodeStringFrom fuel s'
      end
  | _, _ => ""
  end.
Definition quoteMark : string := String (byteOf 34) "".
Definition encodeString (s : string) : string := quoteMark +:+ encodeStringFrom (String.length s) s +:+ quoteMark.

(** * Plain text

    Printable ASCII without the quote, the backslash and the three characters of
    HTML encodes as itself and decodes to itself. *)

Definition plainByte (a : ascii) : bool :=
  inZ 0x20 (byteZ a) 0x7E && negb ((byteZ a =? 34) || (byteZ a =? 92) || (byteZ a =? 60) || (byteZ a =? 62) || (byteZ a =? 38)).
Definition plain (s : string) : Prop := Forall (λ a, plainByte a = true) (bytes_of s).
#[export] Instance plain_dec s : Decision (plain s).
Proof. unfold plain. apply _. Defined.

Lemma plainByte_range a : plainByte a = true →
  0x20 ≤ byteZ a ≤ 0x7E ∧ byteZ a ≠ 34 ∧ byteZ a ≠ 92 ∧ byteZ a ≠ 60 ∧ byteZ a ≠ 62 ∧ byteZ a ≠ 38.
Proof.
  unfold plainByte, inZ. rewrite !andb_true_iff, negb_true_iff, !orb_false_iff, !Z.leb_le, !Z.eqb_neq. tauto.
Qed.

Lemma plain_cons a s : plain (String a s) ↔ plainByte a = true ∧ plain s.
Proof. unfold plain. cbn [bytes_of]. by rewrite Forall_cons. Qed.
Lemma plain_app s t : plain (s +:+ t) ↔ plain s ∧ plain t.
Proof. unfold plain. by rewrite bytes_of_app, Forall_app. Qed.

Lemma byteOf_byteZ a : byteOf (byteZ a) = a.
Proof. unfold byteOf, byteZ. rewrite N2Z.id. apply ascii_N_embedding. Qed.

Lemma encodeRune_plain a : plainByte a = true → encodeRune (byteZ a) = String a "".
Proof.
  intros H%plainByte_range. unfold encodeRune. destruct (Z.ltb_spec (byteZ a) 0x80); [|lia]. by rewrite byteOf_byteZ.
Qed.

Lemma encodeStringFrom_plain s fuel : plain s → (String.length s ≤ fuel)%nat → encodeStringFrom fuel s = s.
Proof.
  revert fuel. induction s as [|a s IH]; intros [|fuel] Hp Hl; cbn [encodeStringFrom]; try done; [cbn in Hl; lia|].
  apply plain_cons in Hp as [Ha Hp]. pose proof (plainByte_range a Ha) as Hr.
  destruct (Z.ltb_spec (byteZ a) 0x80); [|lia]. rewrite IH by (done || cbn in Hl; lia).
  unfold encodeStringRune. rewrite encodeRune_plain by done.
  repeat match goal with |- context [?x =? ?y] => destruct (Z.eqb_spec x y); [lia|] end.
  destruct (Z.ltb_spec (byteZ a) 0x20); [lia|]. done.
Qed.
Lemma encodeString_plain s : plain s → encodeString s = quoteMark +:+ s +:+ quoteMark.
Proof. intros H. unfold encodeString. by rewrite encodeStringFrom_plain. Qed.

Lemma runes_cons a s : byteZ a < 0x80 → runes (String a s) = byteZ a :: runes s.
Proof. intros H. cbn [runes]. by destruct (Z.ltb_spec (byteZ a) 0x80); [|lia]. Qed.

Lemma unquote_plain s : plain s → unquote s = s.
Proof.
  intros H. unfold unquote.
  assert (pieces s = PByte <$> bytes_of s) as ->.
  { induction s as [|a s IH]; [done|]. apply plain_cons in H as [Ha%plainByte_range H]. cbn [pieces bytes_of fmap list_fmap].
    destruct (Z.eqb_spec (byteZ a) 92); [lia|]. cbn [negb]. by rewrite IH. }
  assert (assemble (PByte <$> bytes_of s) = s) as ->.
  { clear H. induction s as [|a s IH]; [done|]. cbn. by rewrite IH. }
  unfold coerceUTF8. induction s as [|a s IH]; [done|]. apply plain_cons in H as [Ha H].
  pose proof (plainByte_range a Ha). rewrite runes_cons by lia. cbn [fmap list_fmap concatStrings foldr].
  rewrite encodeRune_plain by done. rewrite app_cons_str, app_nil_str. f_equal. by apply IH.
Qed.

Lemma quoteMark_app s : quoteMark +:+ s = String (byteOf 34) s.
Proof. unfold quoteMark. by rewrite app_cons_str, app_nil_str. Qed.

Lemma scanString_plain s rest : plain s → scanString InText (s +:+ quoteMark +:+ rest) = Some (s, rest).
Proof.
  rewrite quoteMark_app. induction s as [|a s IH]; intros Hp.
  - rewrite app_nil_str. reflexivity.
  - apply plain_cons in Hp as [Ha%plainByte_range Hp]. rewrite app_cons_str. cbn [scanString].
    destruct (Z.eqb_spec (byteZ a) 34); [lia|]. destruct (Z.eqb_spec (byteZ a) 92); [lia|].
    destruct (Z.ltb_spec (byteZ a) 0x20); [lia|]. by rewrite IH.
Qed.

(** Parsing a plain string, and one member of an object of plain keys. *)
Lemma parseJson_string fuel s rest :
  plain s → parseJson (S fuel) MValue (quoteMark +:+ s +:+ quoteMark +:+ rest) = Some (JString s s, rest).
Proof.
  intros H. cbn [parseJson]. rewrite (quoteMark_app (s +:+ _)).
  change (skipSpace (String (byteOf 34) ?x)) with (String (byteOf 34) x). cbv iota beta.
  change (byteZ (byteOf 34) =? 34) with true. cbv iota. rewrite scanString_plain by done. cbn [mbind option_bind].
  by rewrite unquote_plain.
Qed.

Lemma parseJson_member fuel acc key v text rest :
  plain key → parseJson fuel MValue (text +:+ rest) = Some (v, rest) →
  parseJson (S fuel) (MMembers acc) (quoteMark +:+ key +:+ quoteMark +:+ ":" +:+ text +:+ rest) =
  match skipSpace rest with
  | String "," rest => parseJson fuel (MMembers (acc ++ [(key, v)])) rest
  | String "}" rest => Some (JObject (acc ++ [(key, v)]), rest)
  | _ => None
  end.
Proof.
  intros Hk Hv. cbn [parseJson]. rewrite (quoteMark_app (key +:+ _)).
  change (skipSpace (String (byteOf 34) ?x)) with (String (byteOf 34) x). cbv iota beta.
  change (byteZ (byteOf 34) =? 34) with true. cbv iota. rewrite scanString_plain by done. cbn [mbind option_bind].
  rewrite app_cons_str, app_nil_str. change (skipSpace (String ":" ?x)) with (String ":" x). cbv iota beta.
  rewrite Hv. cbn [mbind option_bind]. by rewrite unquote_plain.
Qed.

Lemma parseJson_object fuel s rest :
  parseJson (S fuel) MValue (String "{" (quoteMark +:+ s)) = Some rest ↔ parseJson fuel (MMembers []) (quoteMark +:+ s) = Some rest.
Proof.
  cbn [parseJson]. change (skipSpace (String "{" ?x)) with (String "{" x). cbv iota beta.
  change (byteZ "{" =? 34) with false. change (Ascii.eqb "{" "{") with true. cbv iota.
  rewrite quoteMark_app. by change (skipSpace (String (byteOf 34) ?x)) with (String (byteOf 34) x).
Qed.

(** * Objects as [json.Marshal] writes them *)

(** The text of a member: its key, and how its value is written. *)
Definition memberText (m : string * string) : string := encodeString m.1 +:+ ":" +:+ m.2.
Definition objectText (members : list (string * string)) : string := "{" +:+ Join (memberText <$> members) "," +:+ "}".

(** [text] is read as [v] wherever a member of an object may end. *)
Definition closes (a : ascii) : bool := Ascii.eqb a "," || Ascii.eqb a "}".
Definition reads (text : string) (v : json) : Prop :=
  ∀ fuel a rest, closes a = true → parseJson (S fuel) MValue (text +:+ String a rest) = Some (v, String a rest).

Lemma reads_string s : plain s → reads (encodeString s) (JString s s).
Proof. intros H fuel a rest _. rewrite encodeString_plain by done. rewrite !app_assoc_str. by apply parseJson_string. Qed.

Lemma closes_cases a : closes a = true → a = ","%char ∨ a = "}"%char.
Proof. unfold closes. rewrite orb_true_iff, !Ascii.eqb_eq. done. Qed.

Lemma digit_cases d : isDigit d = true →
  byteZ d =? 34 = false ∧ Ascii.eqb d "{" = false ∧ Ascii.eqb d "[" = false ∧ isJsonSpace d = false ∧
  ∀ s, HasPrefix (String d s) "null" = false ∧ HasPrefix (String d s) "true" = false ∧ HasPrefix (String d s) "false" = false ∧
       (match String d s with String "-" s' => ("-", s') | _ => ("", String d s) end) = ("", String d s).
Proof. destruct d as [[] [] [] [] [] [] [] []]; intros H; vm_compute in H; try discriminate H; by vm_compute. Qed.

Lemma scanInteger_Itoa n a rest : 0 ≤ n → isDigit a = false → scanInteger (Itoa n +:+ String a rest) = Some (Itoa n, String a rest).
Proof.
  intros Hn Ha. pose proof (Itoa_digits n Hn) as Hd. pose proof (Itoa_leading_zero n) as Hz. pose proof (Itoa_not_nil n Hn) as Hne.
  pose proof (spanDigits_app (Itoa n) a rest Hd Ha) as Hs. destruct (Itoa n) as [|d s]; [done|]. rewrite app_cons_str in *.
  destruct (Ascii.eqb_spec d "0") as [->|Hd0].
  - rewrite (Hz s) by done. reflexivity.
  - unfold scanInteger. rewrite Hs. by destruct d as [[] [] [] [] [] [] [] []].
Qed.

Lemma reads_number n : 0 ≤ n → reads (Itoa n) (JNumber (Itoa n)).
Proof.
  intros Hn fuel a rest Hc%closes_cases. pose proof (Itoa_digits n Hn) as Hd. pose proof (Itoa_not_nil n Hn) as Hne.
  assert (isDigit a = false) as Ha by (by destruct Hc as [-> | ->]). pose proof (scanInteger_Itoa n a rest Hn Ha) as Hs.
  destruct (Itoa n) as [|d s] eqn:E; [done|]. rewrite app_cons_str in *. cbn [parseJson].
  apply Forall_cons in Hd as [Hd _]. destruct (digit_cases d Hd) as (H1 & H2 & H3 & H4 & H5).
  destruct (H5 (s +:+ String a rest)) as (H6 & H7 & H8 & H9). cbn [skipSpace]. rewrite H4, H1, H2, H3, H6, H7, H8.
  unfold scanNumber. rewrite H9, Hs. cbn [mbind option_bind].
  assert (scanFraction (String a rest) = Some ("", String a rest)) as -> by (by destruct Hc as [-> | ->]). cbn [mbind option_bind].
  assert (scanExponent (String a rest) = Some ("", String a rest)) as -> by (by destruct Hc as [-> | ->]). cbn [mbind option_bind].
  rewrite app_nil_str. by rewrite !app_str_nil.
Qed.

Definition memberReads (m : string * string) (v : json) : Prop := plain m.1 ∧ reads m.2 v.

Lemma parseJson_memberText fuel acc m v a rest :
  memberReads m v → closes a = true →
  parseJson (S (S fuel)) (MMembers acc) (memberText m +:+ String a rest) =
  if Ascii.eqb a "," then parseJson (S fuel) (MMembers (acc ++ [(m.1, v)])) rest else Some (JObject (acc ++ [(m.1, v)]), rest).
Proof.
  intros [Hk Hr] Ha. unfold memberText. rewrite encodeString_plain by done. rewrite !app_assoc_str.
  rewrite (parseJson_member (S fuel) acc m.1 v m.2 (String a rest) Hk (Hr _ _ _ Ha)).
  by apply closes_cases in Ha as [-> | ->].
Qed.

Lemma parseJson_members ms vs : ms ≠ [] → Forall2 memberReads ms vs → ∀ fuel acc,
  parseJson (S (length ms + fuel)) (MMembers acc) (Join (memberText <$> ms) "," +:+ "}") = Some (JObject (acc ++ zip (fst <$> ms) vs), "").
Proof.
  intros Hne HF. induction HF as [|m v ms vs Hm HF IH]; [done|]. intros fuel acc. destruct ms as [|m' ms].
  - inversion HF; subst. cbn [fmap list_fmap Join length Nat.add]. rewrite (parseJson_memberText _ _ _ v) by done. reflexivity.
  - assert (Join (memberText <$> m :: m' :: ms) "," = memberText m +:+ String "," (Join (memberText <$> m' :: ms) ",")) as -> by done.
    rewrite app_assoc_str, app_cons_str. cbn [length Nat.add]. rewrite (parseJson_memberText _ _ _ v) by done. change (Ascii.eqb "," ",") with true. cbv iota.
    change (S (length ms + fuel)) with (length (m' :: ms) + fuel)%nat.
    rewrite IH by done. by rewrite <- app_assoc.
Qed.

(** * The fuel is enough *)

Abbreviation len := String.length (only parsing).

Lemma skipSpace_len s : (len (skipSpace s) ≤ len s)%nat.
Proof. induction s as [|a s IH]; cbn; [done|]. case_match; cbn; lia. Qed.
Lemma scanString_len s : ∀ st raw rest, scanString st s = Some (raw, rest) → (len rest < len s)%nat.
Proof.
  induction s as [|a s IH]; intros st raw rest H; cbn [scanString] in H; [done|].
  assert (∀ st', ('(raw, rest) ← scanString st' s; Some (String a raw, rest)) = Some (raw, rest) → (len rest < S (len s))%nat) as Hn.
  { intros st' H'. destruct (scanString st' s) as [[raw' rest']|] eqn:E; cbn in H'; [|done]. injection H' as <- <-.
    apply IH in E. lia. }
  cbn [String.length]. destruct st; case_hyps; eauto; lia.
Qed.
Lemma spanDigits_len s : (len (spanDigits s).2 ≤ len s)%nat ∧ ((spanDigits s).1 ≠ "" → len (spanDigits s).2 < len s)%nat.
Proof.
  induction s as [|a s [IH1 IH2]]; cbn; [done|]. destruct (isDigit a); cbn; [|split; [lia|done]].
  destruct (spanDigits s) as [d r]. cbn in *. split; [lia|]. intros _. lia.
Qed.
Lemma scanFraction_len s x rest : scanFraction s = Some (x, rest) → (len rest ≤ len s)%nat.
Proof.
  unfold scanFraction. intros H. case_hyps; try done. all: match goal with
  | E : spanDigits ?t = _ |- _ => pose proof (spanDigits_len t) as Hs; rewrite E in Hs; cbn in *; lia | _ => cbn in *; lia end.
Qed.
Lemma scanExponent_len s x rest : scanExponent s = Some (x, rest) → (len rest ≤ len s)%nat.
Proof.
  unfold scanExponent. destruct s as [|e s]; [by intros [= <- <-]|]. destruct (_ || _); [|by intros [= <- <-]].
  intros H. destruct s as [|c s]; [done|].
  destruct (Ascii.eqb c "+" || Ascii.eqb c "-"); cbv iota beta in H;
    [pose proof (spanDigits_len s) as Hs|pose proof (spanDigits_len (String c s)) as Hs];
    destruct (spanDigits _) as [[|d ds] r]; try done; injection H as <- <-; cbn in *; lia.
Qed.
Lemma scanInteger_len s x rest : scanInteger s = Some (x, rest) → (len rest < len s)%nat.
Proof.
  unfold scanInteger. intros H. pose proof (spanDigits_len s) as [_ Hs]. destruct (spanDigits s) as [[|d ds] r].
  all: case_hyps; cbn in *; try lia; specialize (Hs ltac:(done)); lia.
Qed.
Lemma scanNumber_len s lit rest : scanNumber s = Some (lit, rest) → (len rest < len s)%nat.
Proof.
  unfold scanNumber. set (p := match s with String "-" s' => ("-", s') | _ => ("", s) end).
  assert (len p.2 ≤ len s)%nat as Hp by (unfold p; repeat case_match; cbn; lia). destruct p as [sign s0]. cbn in Hp.
  intros H. destruct (scanInteger s0) as [[i s1]|] eqn:E1; cbn in H; [|done].
  destruct (scanFraction s1) as [[f s2]|] eqn:E2; cbn in H; [|done].
  destruct (scanExponent s2) as [[e s3]|] eqn:E3; cbn in H; [|done]. injection H as <- <-.
  apply scanInteger_len in E1. apply scanFraction_len in E2. apply scanExponent_len in E3. lia.
Qed.
Lemma TrimPrefix_len s p : (len (TrimPrefix s p) ≤ len s)%nat.
Proof. revert s. induction p as [|a p IH]; intros [|b s]; cbn; try done. destruct (_ && _); [|done]. specialize (IH s). lia. Qed.
Lemma literal_len s p : HasPrefix s p = true → p ≠ "" → (len (TrimPrefix s p) < len s)%nat.
Proof.
  intros (t & ->)%HasPrefix_spec Hp. rewrite TrimPrefix_app. destruct p as [|a p]; [done|].
  rewrite app_cons_str. cbn. rewrite !length_str, bytes_of_app, length_app. lia.
Qed.

Lemma parseJson_len fuel : ∀ m s j rest, parseJson fuel m s = Some (j, rest) → (len rest < len s)%nat.
Proof.
  induction fuel as [|fuel IH]; intros m s j rest H; [done|].
  destruct m as [|acc|acc]; cbn [parseJson] in H.
  - pose proof (skipSpace_len s) as Hs. destruct (skipSpace s) as [|a s1]; [done|]. cbn in Hs.
    pose proof (skipSpace_len s1) as Hs1.
    repeat match type of H with
    | (if ?b then _ else _) = _ => destruct b eqn:?
    end.
    + destruct (scanString InText s1) as [[raw r]|] eqn:E; [|done]. injection H as <- <-. apply scanString_len in E. lia.
    + destruct (skipSpace s1) as [|c s2] eqn:E2; [apply IH in H; cbn in *; lia|].
      repeat case_match; try (apply IH in H; cbn in *; lia); simplify_eq; cbn in *; lia.
    + destruct (skipSpace s1) as [|c s2] eqn:E2; [apply IH in H; cbn in *; lia|].
      repeat case_match; try (apply IH in H; cbn in *; lia); simplify_eq; cbn in *; lia.
    + assert (rest = TrimPrefix (String a s1) "null") as -> by congruence.
      pose proof (literal_len (String a s1) "null" ltac:(done) ltac:(done)). cbn [String.length] in *. lia.
    + assert (rest = TrimPrefix (String a s1) "true") as -> by congruence.
      pose proof (literal_len (String a s1) "true" ltac:(done) ltac:(done)). cbn [String.length] in *. lia.
    + assert (rest = TrimPrefix (String a s1) "false") as -> by congruence.
      pose proof (literal_len (String a s1) "false" ltac:(done) ltac:(done)). cbn [String.length] in *. lia.
    + destruct (scanNumber (String a s1)) as [[lit r]|] eqn:E; [|done]. injection H as <- <-. apply scanNumber_len in E.
      cbn [String.length] in *. lia.
  - destruct (parseJson fuel MValue s) as [[v r]|] eqn:E; [|done]. cbn [mbind option_bind] in H. apply IH in E.
    pose proof (skipSpace_len r) as Hr. destruct (skipSpace r) as [|c r']; [done|]. cbn in Hr.
    repeat case_match; try done; try (apply IH in H; lia); simplify_eq; lia.
  - pose proof (skipSpace_len s) as Hs. destruct (skipSpace s) as [|a s1]; [done|]. cbn in Hs.
    destruct (byteZ a =? 34); [|done]. destruct (scanString InText s1) as [[raw r]|] eqn:E; [|done].
    apply scanString_len in E. cbn [mbind option_bind] in H. pose proof (skipSpace_len r) as Hr.
    destruct (skipSpace r) as [|c r']; [done|]. cbn in Hr.
    assert (∀ k, ('(v, rest0) ← parseJson fuel MValue r'; match skipSpace rest0 with
      | String "," rest1 => parseJson fuel (MMembers (acc ++ [(k, v)])) rest1
      | String "}" rest1 => Some (JObject (acc ++ [(k, v)]), rest1) | _ => None end) = Some (j, rest) → (len rest < len s)%nat) as Hk.
    { intros k H'. destruct (parseJson fuel MValue r') as [[v r2]|] eqn:E2; [|done]. apply IH in E2. cbn [mbind option_bind] in H'.
      pose proof (skipSpace_len r2) as Hr2. destruct (skipSpace r2) as [|c2 r3]; [done|]. cbn in Hr2.
      repeat case_match; try done; try (apply IH in H'; lia); simplify_eq; lia. }
    repeat case_match; try done. by eapply Hk.
Qed.

(** The fuel a parse can need. *)
Definition need (m : mode) (s : string) : nat := 2 * len s + match m with MValue => 1 | _ => 2 end.

(** With enough fuel, more of it makes no difference. *)
Lemma parseJson_fuel f : ∀ f' m s, (need m s ≤ f)%nat → (need m s ≤ f')%nat → parseJson f m s = parseJson f' m s.
Proof.
  induction f as [|f IH]; intros [|f'] m s Hf Hf'; try (destruct m; unfold need in *; lia).
  destruct m as [|acc|acc]; unfold need in Hf, Hf'; cbn [parseJson].
  - pose proof (skipSpace_len s) as Hs. destruct (skipSpace s) as [|a s1]; [done|]. cbn in Hs.
    pose proof (skipSpace_len s1) as Hs1.
    assert (∀ m, parseJson f m (skipSpace s1) = parseJson f' m (skipSpace s1)) as Hm.
    { intros m. apply IH; destruct m; unfold need; lia. }
    destruct (byteZ a =? 34); [done|]. destruct (Ascii.eqb a "{"); [|destruct (Ascii.eqb a "["); [|done]];
      (destruct (skipSpace s1) as [|c s2]; [apply Hm|]; repeat case_match; first [done | apply Hm]).
  - rewrite (IH f' MValue s) by (unfold need; lia).
    destruct (parseJson f' MValue s) as [[v r]|] eqn:E; [|done]. cbn [mbind option_bind]. apply parseJson_len in E.
    pose proof (skipSpace_len r) as Hr. destruct (skipSpace r) as [|c r']; [done|]. cbn in Hr.
    pose proof (IH f' (MElements (acc ++ [v])) r' ltac:(unfold need; lia) ltac:(unfold need; lia)). repeat case_match; done.
  - pose proof (skipSpace_len s) as Hs. destruct (skipSpace s) as [|a s1]; [done|]. cbn in Hs.
    destruct (byteZ a =? 34); [|done]. destruct (scanString InText s1) as [[raw r]|] eqn:E; [|done].
    apply scanString_len in E. cbn [mbind option_bind]. pose proof (skipSpace_len r) as Hr.
    destruct (skipSpace r) as [|c r']; [done|]. cbn in Hr. pose proof (IH f' MValue r' ltac:(unfold need; lia) ltac:(unfold need; lia)) as Hv.
    repeat (case_match; [|done]); try done. rewrite Hv. destruct (parseJson f' MValue r') as [[v r2]|] eqn:E2; [|done]. cbn [mbind option_bind]. apply parseJson_len in E2.
    pose proof (skipSpace_len r2) as Hr2. destruct (skipSpace r2) as [|c2 r3]; [done|]. cbn in Hr2.
    rewrite (IH f' (MMembers (acc ++ [(unquote raw, v)])) r3) by (unfold need; lia). done.
Qed.

Lemma DecodeValue_objectText ms vs : ms ≠ [] → Forall2 memberReads ms vs →
  DecodeValue (objectText ms) = Some (JObject (zip (fst <$> ms) vs), "").
Proof.
  intros Hne HF. unfold DecodeValue.
  rewrite (parseJson_fuel _ (S (S (length ms + 2 * len (objectText ms)))) _ _) by (unfold need; lia).
  pose proof (parseJson_members ms vs Hne HF (2 * len (objectText ms)) []) as Hp. revert Hp.
  generalize (length ms + 2 * len (objectText ms))%nat. intros fuel Hp. unfold objectText. rewrite app_cons_str, app_nil_str.
  destruct ms as [|m ms]; [done|].
  assert (∃ s, Join (memberText <$> m :: ms) "," +:+ "}" = quoteMark +:+ s) as [s Es].
  { assert (∃ s, memberText m = quoteMark +:+ s) as [s Hs] by (unfold memberText, encodeString; rewrite !app_assoc_str; eauto).
    rewrite fmap_cons. destruct (memberText <$> ms) as [|x l]; cbn [Join]; rewrite Hs, ?app_assoc_str; eauto. }
  rewrite Es in *. by apply parseJson_object.
Qed.

Lemma decodeMember_int {T} name (set : Z → T → T) fields t n :
  List.find (λ f : fieldDecoder T, sameField name f.1) fields = Some (field name decodeInt set) → 0 ≤ n < 2 ^ 63 →
  decodeMember fields true (Some t) (name, JNumber (Itoa n)) = Some (set n t).
Proof. intros Hf Hn. unfold decodeMember. cbn [mbind option_bind fst snd]. rewrite Hf. cbn. by rewrite ParseInt_Itoa. Qed.
Lemma decodeMember_uint {T} name (set : Z → T → T) fields t n :
  List.find (λ f : fieldDecoder T, sameField name f.1) fields = Some (field name decodeUint64 set) → 0 ≤ n < 2 ^ 64 →
  decodeMember fields true (Some t) (name, JNumber (Itoa n)) = Some (set n t).
Proof. intros Hf Hn. unfold decodeMember. cbn [mbind option_bind fst snd]. rewrite Hf. cbn. by rewrite ParseUint_Itoa. Qed.
Lemma decodeMember_text {T} name (set : string → T → T) fields t s :
  List.find (λ f : fieldDecoder T, sameField name f.1) fields = Some (field name decodeString set) →
  decodeMember fields true (Some t) (name, JString s s) = Some (set s t).
Proof. intros Hf. unfold decodeMember. cbn [mbind option_bind fst snd]. by rewrite Hf. Qed.

Example json_sample :
  DecodeValue ("{" +:+ quoteMark +:+ "a" +:+ quoteMark +:+ ": [1, {}, -2.5e3], " +:+ quoteMark +:+ "\u00e9" +:+ quoteMark +:+ ":null} x")
  = Some (JObject [("a", JArray [JNumber "1"; JObject []; JNumber "-2.5e3"]); (encodeRune 0xE9, JNull)], " x").
Proof. vm_compute. reflexivity. Qed.
