(* ===== verification/Authority.v ===== *)
(** The authority of a source root: internal/lifecycle/authority.go and
    version.go, and the pure reads of an inspected state that
    internal/lifecycle/service.go, forget.go and inspection.go share. *)

From Stdlib Require Import Ascii.
From S2P Require Import Prelude GoStrings GoTime Grid Names Zfs Ownership Policy.

Definition OwnerProperty : string := StateNamespace +:+ "owner".
Definition VersionProperty : string := StateNamespace +:+ "version".
Definition ReferencePrefix : string := StateNamespace +:+ "reference:".
Definition TargetStatePrefix : string := StateNamespace +:+ "target:".

(** [ActiveRoot]. *)
Definition ActiveRoot (effective : Effective) (root : string) : result unit :=
  if negb (ef_Enabled effective) || negb (validPolicy effective)
  then Err (Errorf "source policy must be enabled and valid") else
  let source := match ef_Values effective !! (Namespace +:+ "enabled") with Some v => va_Dataset v | None => "" end in
  if (source =? "")%string then Err (Errorf "source activation must come from locally configured policy")
  else if negb (source =? root)%string
  then Err (Errorf ("activation is inherited from " +:+ source +:+ ", so " +:+ root
                    +:+ " is a member of that root rather than a root"))
  else Ok tt.

(** * version.go *)

Definition CurrentVersion : Z := 2.
Definition unversioned : Z := 1.

(** The loop of [StateVersion]; zero stands for no marker yet. *)
Definition versionRow (root : string) (version : Z) (p : Property) : result Z :=
  if negb (pr_Dataset p =? root)%string || negb (pr_Name p =? VersionProperty)%string || negb (pr_Source p =? SourceLocal)%string
  then Ok version
  else
    let bad := Err (Errorf ("state version marker on " +:+ root +:+ " is invalid")) in
    match Atoi (pr_Value p) with
    | None => bad
    | Some parsed =>
      if negb (version =? 0) || (parsed <? 1) || negb (Itoa parsed =? pr_Value p)%string then bad else Ok parsed
    end.
Definition StateVersion (state : State) (root : string) : result Z :=
  version ← foldM (versionRow root) 0 (Properties state);
  Ok (if version =? 0 then unversioned else version).

Definition CurrentState (state : State) (root : string) : result unit :=
  version ← StateVersion state root;
  if version <? CurrentVersion
  then Err (Errorf ("state on " +:+ root +:+ " is format v" +:+ Itoa version +:+ ", and this build reads v" +:+ Itoa CurrentVersion
                    +:+ "; stop the daemon and run boomerangz migrate " +:+ root))
  else if CurrentVersion <? version
  then Err (Errorf ("state on " +:+ root +:+ " is format v" +:+ Itoa version +:+ ", newer than the v" +:+ Itoa CurrentVersion
                    +:+ " this build reads; upgrade boomerangz"))
  else Ok tt.

Definition keepsRecords (state : State) (root : string) : bool :=
  existsb (λ p, (pr_Dataset p =? root)%string && (pr_Source p =? SourceLocal)%string
                && (HasPrefix (pr_Name p) ReferencePrefix || HasPrefix (pr_Name p) TargetStatePrefix)) (Properties state).

Definition recordsReadable (state : State) (root : string) : result unit :=
  if negb (keepsRecords state root) then Ok tt else CurrentState state root.

Definition authorityProperties (installation lineage : string) : gmap string string :=
  {[ LineageProperty := lineage; OwnerProperty := installation; VersionProperty := Itoa CurrentVersion ]}.

(** * authority.go *)

(** The loop of [RootAuthority]. *)
Definition authorityRow (root : string) (values : gmap string string) (p : Property) : result (gmap string string) :=
  if negb (pr_Dataset p =? root)%string || (negb (pr_Name p =? OwnerProperty)%string && negb (pr_Name p =? LineageProperty)%string)
  then Ok values
  else if negb (pr_Source p =? SourceLocal)%string || negb (ValidID (pr_Value p)) || negb (mget values (pr_Name p) =? "")%string
  then Err (Errorf ("source root " +:+ root +:+ " requires unambiguous explicitly local owner and lineage"))
  else Ok (<[pr_Name p := pr_Value p]> values).

(** [state.Received[dataset][name]]. *)
Definition receivedValue (state : State) (dataset name : string) : string :=
  mget (default ∅ (Received state !! dataset)) name.

Definition RootAuthority (state : State) (root installation : string) : result string :=
  if negb (ValidID installation) then Err (Errorf "valid installation identity required") else
  _ ← ValidateDataset root;
  values ← foldM (authorityRow root) ∅ (Properties state);
  let owner := mget values OwnerProperty in
  let lineage := mget values LineageProperty in
  if (owner =? "")%string || (lineage =? "")%string
  then Err (Errorf ("source root " +:+ root +:+ " lacks local authority; explicit adoption required"))
  else if negb (owner =? installation)%string
  then Err (Errorf ("dormant foreign lineage on " +:+ root +:+ ": owner " +:+ owner +:+ " does not match installation " +:+ installation))
  else
    let hidden := receivedValue state root LineageProperty in
    if negb (hidden =? "")%string && negb (hidden =? lineage)%string
    then Err (Errorf ("conflicting received lineage on " +:+ root))
    else _ ← CurrentState state root; Ok lineage.

(** * service.go: reading a state *)

(** The loop of [storedLineage]. *)
Definition lineageRow (dataset : string) (lineage : string) (p : Property) : result string :=
  if negb (pr_Dataset p =? dataset)%string || negb (pr_Name p =? LineageProperty)%string then Ok lineage
  else if negb (lineage =? "")%string || negb (ValidID (pr_Value p))
          || (negb (pr_Source p =? SourceLocal)%string && negb (pr_Source p =? SourceReceived)%string)
  then Err (Errorf ("ambiguous or invalid lineage on " +:+ dataset))
  else Ok (pr_Value p).
Definition storedLineage (state : State) (dataset : string) : result string :=
  lineage ← foldM (lineageRow dataset) "" (Properties state);
  let hidden := receivedValue state dataset LineageProperty in
  if negb (hidden =? "")%string && negb (hidden =? lineage)%string
  then Err (Errorf ("conflicting or hidden received lineage on " +:+ dataset))
  else Ok lineage.

Definition hasTokens (state : State) : bool := negb (bool_decide (ResumeTokens state = ∅)).

Definition snapshotOf (state : State) (o : Object) : Snapshot :=
  mkSnapshot (ob_Name o) (ob_GUID o) (filter (λ p, pr_Dataset p = ob_Name o) (Properties state))
    (default [] (Holds state !! ob_Name o)) (default [] (Clones state !! ob_Name o)) (hasTokens state).
Definition isSnapshotOf (dataset : string) (o : Object) : bool :=
  (ob_Type o =? "snapshot")%string && HasPrefix (ob_Name o) (dataset +:+ "@").
Definition snapshotsIn (state : State) (dataset : string) : list Snapshot :=
  snapshotOf state <$> filter (λ o, isSnapshotOf dataset o = true) (Objects state).

Definition isDataset (o : Object) : bool := (ob_Type o =? "filesystem")%string || (ob_Type o =? "volume")%string.
Definition scopeReady (state : State) (dataset : string) : result unit :=
  if hasTokens state then Err (Errorf "scope has resumable receive state")
  else if existsb (λ o, (ob_Name o =? dataset)%string && isDataset o && negb (ob_GUID o =? 0)) (Objects state) then Ok tt
  else Err (Errorf "dataset missing from lifecycle inventory").
Definition datasetObjects (state : State) : list Object := filter (λ o, isDataset o = true) (Objects state).

Definition AdoptionLineage (state : State) (dataset : string) : result string :=
  _ ← ValidateDataset dataset;
  _ ← scopeReady state dataset;
  lineage ← storedLineage state dataset;
  if negb (lineage =? "")%string then
    if existsb (λ row, (pr_Dataset row =? dataset)%string && (pr_Name row =? LineageProperty)%string
                       && (pr_Source row =? SourceLocal)%string && (pr_Value row =? lineage)%string) (Properties state)
    then Ok lineage
    else Err (Errorf "received lineage is provenance only; local lineage or unique owned snapshot proof required")
  else Adopt (snapshotsIn state dataset).

Definition Subtree (state : State) (root : string) : list string :=
  ob_Name <$> filter (λ o, (isDataset o && within (ob_Name o) root) = true) (Objects state).

(** The loop of [validateMembers]. *)
Definition validateMember (root : string) (seen : gset string) (member : string) : result (gset string) :=
  _ ← ValidateDataset member;
  if negb (member =? root)%string && negb (HasPrefix member (root +:+ "/"))
  then Err (Errorf ("member " +:+ member +:+ " is outside root " +:+ root))
  else if decide (member ∈ seen) then Err (Errorf ("member " +:+ member +:+ " is repeated"))
  else Ok ({[member]} ∪ seen).
Definition validateMembers (root : string) (members : list string) : result unit :=
  match members with
  | [] => Err (Errorf "snapshot requires at least one member")
  | _ => _ ← foldM (validateMember root) ∅ members; Ok tt
  end.

(** * inspection.go and forget.go *)

Definition DatasetLineage (state : State) (dataset : string) : result string := storedLineage state dataset.
Definition Snapshots (state : State) (dataset : string) : list Snapshot := snapshotsIn state dataset.

Definition ValidTargetID (id : string) : bool :=
  (String.length id =? 64)%nat && negb (ContainsFunc id (λ c, negb (inZ 48 c 57 || inZ 97 c 102))).

(** * What authority requires *)

Definition rowsOf (root name : string) (props : list Property) : list Property :=
  filter (λ p, pr_Dataset p = root ∧ pr_Name p = name) props.
Definition localRowsOf (root name : string) (props : list Property) : list Property :=
  filter (λ p, pr_Dataset p = root ∧ pr_Name p = name ∧ pr_Source p = SourceLocal) props.
Definition localRow (root name value : string) : Property := mkProperty root name value SourceLocal.

Definition authorityKey (k : string) : Prop := k = OwnerProperty ∨ k = LineageProperty.

Lemma owner_lineage : OwnerProperty ≠ LineageProperty.
Proof. by vm_compute. Qed.

Lemma mget_insert v k x : mget (<[k := x]> v) k = x.
Proof. unfold mget. by rewrite lookup_insert_eq. Qed.
Lemma mget_insert_ne v k k' x : k ≠ k' → mget (<[k := x]> v) k' = mget v k'.
Proof. intros H. unfold mget. by rewrite lookup_insert_ne. Qed.

(** One row of the loop: skipped, refused or stored. *)
Lemma authorityRow_cases root v p :
  (¬ (pr_Dataset p = root ∧ authorityKey (pr_Name p)) ∧ authorityRow root v p = Ok v) ∨
  (pr_Dataset p = root ∧ authorityKey (pr_Name p) ∧
    (pr_Source p = SourceLocal ∧ ValidID (pr_Value p) = true ∧ mget v (pr_Name p) = "" ∧
       authorityRow root v p = Ok (<[pr_Name p := pr_Value p]> v) ∨
     ¬ (pr_Source p = SourceLocal ∧ ValidID (pr_Value p) = true ∧ mget v (pr_Name p) = "") ∧ is_ok (authorityRow root v p) = false)).
Proof.
  unfold authorityRow, authorityKey.
  destruct (String.eqb_spec (pr_Dataset p) root), (String.eqb_spec (pr_Name p) OwnerProperty), (String.eqb_spec (pr_Name p) LineageProperty),
    (String.eqb_spec (pr_Source p) SourceLocal), (ValidID (pr_Value p)), (String.eqb_spec (mget v (pr_Name p)) ""); cbn; intuition congruence.
Qed.

Lemma rowsOf_cons root name p props :
  rowsOf root name (p :: props) = if decide (pr_Dataset p = root ∧ pr_Name p = name) then p :: rowsOf root name props else rowsOf root name props.
Proof. done. Qed.

Lemma localRow_eta root k p : pr_Dataset p = root → pr_Name p = k → pr_Source p = SourceLocal → p = localRow root k (pr_Value p).
Proof. destruct p. cbn. by intros -> -> ->. Qed.

Lemma authorityRows_Ok root props : ∀ v0 v,
  foldM (authorityRow root) v0 props = Ok v → ∀ k, authorityKey k →
  (rowsOf root k props = [] ∧ mget v k = mget v0 k) ∨
  (mget v0 k = "" ∧ ValidID (mget v k) = true ∧ rowsOf root k props = [localRow root k (mget v k)]).
Proof.
  induction props as [|p props IH]; intros v0 v H k Hk; [injection H as <-; by left|]. cbn [foldM] in H.
  rewrite rowsOf_cons. destruct (authorityRow_cases root v0 p) as [[Hn E]|(Hd & Hkey & [(Hs & Hv & Hm & E)|[_ E]])].
  - rewrite E in H. cbn [mbind result_bind] in H. rewrite decide_False; [by eapply IH|]. intros [? <-]. naive_solver.
  - rewrite E in H. cbn [mbind result_bind] in H. specialize (IH _ _ H k Hk). case_decide as Hp.
    + destruct Hp as [_ <-]. rewrite mget_insert in IH. right. destruct IH as [[IH1 IH2]|(IH & _ & _)].
      * split_and!; [done|by rewrite IH2|]. rewrite IH1, IH2. f_equal. by apply localRow_eta.
      * rewrite IH in Hv. by vm_compute in Hv.
    + rewrite mget_insert_ne in IH by naive_solver. exact IH.
  - by destruct (authorityRow root v0 p).
Qed.

Lemma authorityRows_total root props : ∀ v0,
  (∀ k, authorityKey k → rowsOf root k props = [] ∨
    mget v0 k = "" ∧ ∃ x, ValidID x = true ∧ rowsOf root k props = [localRow root k x]) →
  ∃ v, foldM (authorityRow root) v0 props = Ok v.
Proof.
  induction props as [|p props IH]; intros v0 H; [by eexists|]. cbn [foldM].
  destruct (authorityRow_cases root v0 p) as [[Hn E]|(Hd & Hkey & [(Hs & Hv & Hm & E)|[Hn E]])].
  - rewrite E. cbn [mbind result_bind]. apply IH. intros k Hk. specialize (H k Hk). rewrite rowsOf_cons, decide_False in H; [done|].
    intros [? <-]. naive_solver.
  - rewrite E. cbn [mbind result_bind]. apply IH. intros k Hk. specialize (H k Hk). rewrite rowsOf_cons in H. case_decide as Hp.
    + left. destruct H as [?|(_ & x & _ & ?)]; congruence.
    + rewrite mget_insert_ne by naive_solver. done.
  - exfalso. specialize (H _ Hkey). rewrite rowsOf_cons, decide_True in H by done.
    destruct H as [?|(Hm & x & Hx & Heq)]; [done|]. apply Hn. injection Heq as Hp _. rewrite Hp in *. done.
Qed.

Lemma versionRow_eq root v p :
  versionRow root v p =
  if decide ((pr_Dataset p = root ∧ pr_Name p = VersionProperty) ∧ pr_Source p = SourceLocal) then
    match Atoi (pr_Value p) with
    | Some n => if negb (v =? 0) || (n <? 1) || negb (Itoa n =? pr_Value p)%string
                then Err (Errorf ("state version marker on " +:+ root +:+ " is invalid")) else Ok n
    | None => Err (Errorf ("state version marker on " +:+ root +:+ " is invalid"))
    end
  else Ok v.
Proof.
  unfold versionRow. case_decide as H.
  - by rewrite (proj2 (eqb_str_true (pr_Dataset p) root)), (proj2 (eqb_str_true (pr_Name p) VersionProperty)),
      (proj2 (eqb_str_true (pr_Source p) SourceLocal)) by tauto.
  - destruct (negb _ || negb _ || negb _) eqn:E; [done|].
    rewrite !orb_false_iff, !negb_false_iff, !eqb_str_true in E. tauto.
Qed.

Lemma versionRows_spec root props : ∀ v0,
  let rows := filter (λ p, (pr_Dataset p = root ∧ pr_Name p = VersionProperty) ∧ pr_Source p = SourceLocal) props in
  0 ≤ v0 →
  foldM (versionRow root) v0 props =
  match rows with
  | [] => Ok v0
  | [p] => match Atoi (pr_Value p) with
           | Some n => if negb (v0 =? 0) || (n <? 1) || negb (Itoa n =? pr_Value p)%string
                       then Err (Errorf ("state version marker on " +:+ root +:+ " is invalid")) else Ok n
           | None => Err (Errorf ("state version marker on " +:+ root +:+ " is invalid"))
           end
  | _ => Err (Errorf ("state version marker on " +:+ root +:+ " is invalid"))
  end.
Proof.
  induction props as [|p props IH]; intros v0 rows Hv; [done|]. cbn [foldM]. subst rows. rewrite filter_cons.
  rewrite versionRow_eq. case_decide as Hp; [|by apply IH]. destruct (Atoi (pr_Value p)) as [n|]; cbn [mbind result_bind].
  2: { destruct (filter _ props); done. }
  destruct (negb (v0 =? 0) || (n <? 1) || negb (Itoa n =? pr_Value p)%string) eqn:E; cbn [mbind result_bind].
  { destruct (filter _ props); done. }
  assert (1 ≤ n) by (rewrite !orb_false_iff in E; lia). rewrite IH by lia. destruct (filter _ props) as [|q [|q' l]]; [done| |done].
  destruct (Z.eqb_spec n 0); [lia|]. cbn [negb orb]. by destruct (Atoi (pr_Value q)).
Qed.

Lemma CurrentState_iff state root :
  CurrentState state root = Ok tt ↔
  filter (λ p, (pr_Dataset p = root ∧ pr_Name p = VersionProperty) ∧ pr_Source p = SourceLocal) (Properties state)
  = [localRow root VersionProperty "2"].
Proof.
  unfold CurrentState, StateVersion. rewrite versionRows_spec by lia. destruct (filter _ (Properties state)) as [|p [|q l]] eqn:Ef; [done| |done].
  assert (p ∈ filter (λ p, (pr_Dataset p = root ∧ pr_Name p = VersionProperty) ∧ pr_Source p = SourceLocal) (Properties state)) as Hin.
  { rewrite Ef. by left. } apply list_elem_of_filter in Hin as [[[Hd Hn] Hs] _].
  destruct (Atoi (pr_Value p)) as [n|] eqn:Ea; cbn [mbind result_bind].
  - destruct (negb (0 =? 0) || (n <? 1) || negb (Itoa n =? pr_Value p)%string) eqn:E; cbn [mbind result_bind].
    + split; [done|]. intros [= ->]. vm_compute in Ea. injection Ea as <-. by vm_compute in E.
    + rewrite !orb_false_iff, !negb_false_iff, eqb_str_true in E. destruct E as [[_ E1] E2].
      destruct (Z.eqb_spec n 0); [lia|]. unfold CurrentVersion.
      destruct (Z.ltb_spec n 2); [split; [done|]; intros [= ->]; vm_compute in Ea; injection Ea as <-; lia|].
      destruct (Z.ltb_spec 2 n); [split; [done|]; intros [= ->]; vm_compute in Ea; injection Ea as <-; lia|].
      assert (n = 2) as -> by lia. split; [intros _|done]. f_equal. rewrite (localRow_eta root VersionProperty p) by done.
      rewrite <- E2. done.
  - split; [done|]. intros [= ->]. by vm_compute in Ea.
Qed.

(** The markers, format and provenance that make [lineage] the lineage this
    installation manages from [root]. *)
Definition authorized (state : State) (root installation lineage : string) : Prop :=
  ValidID installation = true ∧ ValidID lineage = true ∧ ValidateDataset root = Ok tt ∧
  rowsOf root OwnerProperty (Properties state) = [localRow root OwnerProperty installation] ∧
  rowsOf root LineageProperty (Properties state) = [localRow root LineageProperty lineage] ∧
  (receivedValue state root LineageProperty = "" ∨ receivedValue state root LineageProperty = lineage) ∧
  filter (λ p, (pr_Dataset p = root ∧ pr_Name p = VersionProperty) ∧ pr_Source p = SourceLocal) (Properties state)
  = [localRow root VersionProperty "2"].

Lemma RootAuthority_Ok state root installation lineage :
  RootAuthority state root installation = Ok lineage → authorized state root installation lineage.
Proof.
  unfold RootAuthority, authorized. destruct (ValidID installation) eqn:Ei; cbn [negb]; [|done]. intros H.
  apply bind_Ok in H as ([] & Hd & H). apply bind_Ok in H as (values & Hv & H).
  pose proof (authorityRows_Ok _ _ _ _ Hv) as Hk.
  destruct (_ || _) eqn:E1; [done|]. rewrite orb_false_iff, !eqb_str_false in E1. destruct E1 as [Eo El].
  destruct (String.eqb_spec (mget values OwnerProperty) installation) as [Hown|]; cbn [negb] in H; [|done].
  destruct (negb (receivedValue _ _ _ =? "")%string && _) eqn:E2; [done|].
  apply bind_Ok in H as ([] & Hc & [= <-]). apply CurrentState_iff in Hc.
  destruct (Hk OwnerProperty) as [[_ ?]|(_ & _ & Ho)]; [by left|done|].
  destruct (Hk LineageProperty) as [[_ ?]|(_ & Hvl & Hl)]; [by right|done|].
  rewrite Hown in Ho. split_and!; try done.
  rewrite andb_false_iff, !negb_false_iff, !eqb_str_true in E2. tauto.
Qed.

Lemma RootAuthority_complete state root installation lineage :
  authorized state root installation lineage → RootAuthority state root installation = Ok lineage.
Proof.
  intros (Hi & Hl & Hd & Ho & Hlr & Hr & Hc%CurrentState_iff). unfold RootAuthority. rewrite Hi, Hd. cbn [negb mbind result_bind].
  destruct (authorityRows_total root (Properties state) ∅) as [v Hv]; [intros k [-> | ->]; right; eauto|]. rewrite Hv.
  cbn [mbind result_bind]. pose proof (authorityRows_Ok _ _ _ _ Hv) as Hk.
  destruct (Hk OwnerProperty) as [[E _]|(_ & _ & E)]; [by left|by rewrite Ho in E|]. rewrite Ho in E. injection E as Eo.
  destruct (Hk LineageProperty) as [[E _]|(_ & _ & E)]; [by right|by rewrite Hlr in E|]. rewrite Hlr in E. injection E as El.
  rewrite <- Eo, <- El. apply ValidID_not_empty in Hl as Hl'. apply ValidID_not_empty in Hi as Hi'.
  rewrite (proj2 (eqb_str_false _ _) Hi'), (proj2 (eqb_str_false _ _) Hl'), eqb_str_refl. cbn [orb negb].
  destruct Hr as [-> | ->]; rewrite ?eqb_str_refl; cbn [negb andb]; rewrite ?andb_false_r, Hc; done.
Qed.

(** C26: a root's authority is accepted exactly when the root itself carries one
    owner and one lineage, both set locally, the owner is this installation,
    both are identities, the received lineage does not disagree, and the one
    local format marker is the version this build reads. Inherited, received or
    repeated markers never authorise anything. *)
Theorem RootAuthority_iff state root installation lineage :
  RootAuthority state root installation = Ok lineage ↔ authorized state root installation lineage.
Proof. split; [apply RootAuthority_Ok|apply RootAuthority_complete]. Qed.

(** Authority determines the lineage. *)
Lemma authorized_unique state root i1 i2 l1 l2 :
  authorized state root i1 l1 → authorized state root i2 l2 → i1 = i2 ∧ l1 = l2.
Proof. intros (_ & _ & _ & Ho1 & Hl1 & _) (_ & _ & _ & Ho2 & Hl2 & _).
  rewrite Ho1 in Ho2. rewrite Hl1 in Hl2. injection Ho2 as ?. by injection Hl2 as ?. Qed.

(** * Snapshots of a state *)

Lemma elem_of_snapshotsIn state dataset s :
  s ∈ snapshotsIn state dataset ↔ ∃ o, o ∈ Objects state ∧ isSnapshotOf dataset o = true ∧ s = snapshotOf state o.
Proof.
  unfold snapshotsIn. rewrite list_elem_of_fmap. setoid_rewrite list_elem_of_filter. naive_solver.
Qed.

Lemma snapshotsIn_names state dataset :
  sn_Name <$> snapshotsIn state dataset = ob_Name <$> filter (λ o, isSnapshotOf dataset o = true) (Objects state).
Proof. unfold snapshotsIn. by rewrite <- list_fmap_compose. Qed.

Lemma snapshotsIn_NoDup state dataset : NoDup (ob_Name <$> Objects state) → NoDup (sn_Name <$> snapshotsIn state dataset).
Proof. intros H. rewrite snapshotsIn_names. by apply NoDup_fmap_filter. Qed.

Lemma validateMembers_Ok root members :
  validateMembers root members = Ok tt →
  members ≠ [] ∧ NoDup members ∧ Forall (λ m, ValidateDataset m = Ok tt ∧ within m root = true) members.
Proof.
  unfold validateMembers. destruct members as [|m members]; [done|]. intros H. apply bind_Ok in H as (seen & H & _).
  split; [done|]. revert H. generalize (m :: members). clear m members. intros members.
  assert (∀ seen0 seen, foldM (validateMember root) seen0 members = Ok seen →
    NoDup members ∧ Forall (λ m, m ∉ seen0) members ∧ Forall (λ m, ValidateDataset m = Ok tt ∧ within m root = true) members) as Hg.
  { induction members as [|m members IH]; intros seen0 seen1 H; [repeat constructor|]. cbn [foldM] in H.
    destruct (validateMember root seen0 m) as [s1|] eqn:E; cbn [mbind result_bind] in H; [|done].
    apply IH in H as (H1 & H2 & H3). unfold validateMember in E. apply bind_Ok in E as ([] & Hd & E).
    destruct (negb (m =? root)%string && negb (HasPrefix m (root +:+ "/"))) eqn:Ew; [done|]. case_decide as Hin; [done|].
    injection E as <-. rewrite !Forall_forall in *. split_and!.
    - constructor; [|done]. intros Hm. apply H2 in Hm. set_solver.
    - intros x [->|Hx]%elem_of_cons; [done|]. apply H2 in Hx. set_solver.
    - intros x [->|Hx]%elem_of_cons; [|by apply H3]. split; [done|]. unfold within, below.
      rewrite andb_false_iff, !negb_false_iff in Ew. by apply orb_true_iff. }
  intros H. by destruct (Hg _ _ H) as (? & _ & ?).
Qed.
