(* ===== verification/Reference.v ===== *)
(** Recovery proofs: the pure part of internal/lifecycle/reference.go and
    inspection.go. A proof records, on the actor root, that one stream's
    snapshot is an endpoint of one target; what protects it is derived from the
    holds and bookmarks of an inspected state. *)

From Stdlib Require Import Ascii.
From S2P Require Import Prelude GoStrings GoTime Rfc3339 Json Hash Names Zfs Ownership Policy Authority.

Record Reference := mkReference {
  rf_TargetID : string;
  rf_Dataset : string;
  rf_Metadata : Metadata;
  rf_Recursive : bool
}.
#[export] Instance Reference_eq_dec : EqDecision Reference.
Proof. solve_decision. Defined.

Record referenceRecord := mkRecord { rr_Stream : string; rr_Created : Time; rr_Recursive : bool }.
Record ReferenceSource := mkSource { sr_Dataset : string; sr_GUID : Z }.
#[export] Instance ReferenceSource_eq_dec : EqDecision ReferenceSource.
Proof. solve_decision. Defined.

Definition TargetID (target : string) : string := Identity.EncodeToString (Sum256 (bytesZ target)).
Definition streamID (dataset : string) : string := Identity.EncodeToString (take 16 (Sum256 (bytesZ dataset))).

(** * Names *)

Definition property (r : Reference) : string :=
  ReferencePrefix +:+ rf_TargetID r +:+ ":" +:+ streamID (rf_Dataset r) +:+ ":" +:+ SnapshotID (rf_Metadata r).
Definition hold (r : Reference) : string := SnapshotPrefix +:+ rf_TargetID r.
Definition bookmark (r : Reference) : string := rf_Dataset r +:+ "#" +:+ hold r +:+ "-" +:+ SnapshotID (rf_Metadata r).
Definition snapshot (r : Reference) : string := rf_Dataset r +:+ "@" +:+ Name (rf_Metadata r).
Definition sourceSnapshot (r : Reference) (source : ReferenceSource) : string := sr_Dataset source +:+ "@" +:+ Name (rf_Metadata r).
Definition sourceBookmark (r : Reference) (source : ReferenceSource) : string :=
  sr_Dataset source +:+ "#" +:+ hold r +:+ "-" +:+ SnapshotID (rf_Metadata r).
Definition subtree (r : Reference) : string := if rf_Recursive r then rf_Dataset r else "".

Definition BookmarkName (r : Reference) : string := bookmark r.
Definition SnapshotName (r : Reference) : string := snapshot r.
Definition PropertyName (r : Reference) : string := property r.
Definition HoldName (r : Reference) : string := hold r.

Definition inside (dataset root : string) : bool := (dataset =? root)%string || HasPrefix dataset (root +:+ "/").
Definition hasObject (state : State) (name : string) : bool := existsb (λ o, (ob_Name o =? name)%string) (Objects state).

(** * Sources *)

(** The map of objects by name: a later object of a name replaces an earlier. *)
Definition objectsByName (l : list Object) : gmap string Object := fold_left (λ m o, <[ob_Name o := o]> m) l ∅.
Definition isCandidate (r : Reference) (o : Object) : bool :=
  isDataset o && ((ob_Name o =? rf_Dataset r)%string || (rf_Recursive r && HasPrefix (ob_Name o) (rf_Dataset r +:+ "/"))).
Definition heldBy (state : State) (snapshot tag : string) : bool := bool_decide (tag ∈ default [] (Holds state !! snapshot)).

(** The body of the loop over the candidates. *)
Definition sourceOf (r : Reference) (state : State) (objects : gmap string Object) (sources : list ReferenceSource) (dataset : string)
  : result (list ReferenceSource) :=
  let source := mkSource dataset 0 in
  let snap := objects !! sourceSnapshot r source in
  let mark := objects !! sourceBookmark r source in
  let held := heldBy state (sourceSnapshot r source) (hold r) in
  if negb held && bool_decide (mark = None) then Ok sources
  else if match mark with
          | Some b => negb (ob_Type b =? "bookmark")%string || (ob_GUID b =? 0)
                      || match snap with Some s => negb (ob_GUID b =? ob_GUID s) | None => false end
          | None => false
          end
  then Err (Errorf ("checkpoint bookmark " +:+ match mark with Some b => ob_Name b | None => "" end +:+ " does not match its snapshot"))
  else
    let guid := match snap, mark with Some s, _ => ob_GUID s | None, Some b => ob_GUID b | None, None => 0 end in
    if guid =? 0 then Err (Errorf ("source " +:+ dataset +:+ " has no GUID"))
    else Ok (sources ++ [mkSource dataset guid]).

Definition Sources (r : Reference) (state : State) : result (list ReferenceSource) :=
  let candidates := Compact (SortStrings (ob_Name <$> filter (λ o, isCandidate r o = true) (Objects state))) in
  foldM (sourceOf r state (objectsByName (Objects state))) [] candidates.

(** * Stored proofs *)

(** [hex.DecodeString] succeeds. *)
Definition hexText (s : string) : bool :=
  Nat.even (String.length s) && forallb (λ a, bool_decide (is_Some (hexValue a))) (bytes_of s).

Definition recordFields : list (fieldDecoder referenceRecord) :=
  [field "stream" decodeString (λ v r, mkRecord v (rr_Created r) (rr_Recursive r));
   field "created" decodeTime (λ v r, mkRecord (rr_Stream r) v (rr_Recursive r));
   field "recursive" decodeBool (λ v r, mkRecord (rr_Stream r) (rr_Created r) v)].

Definition decodeRecord (value : string) : option referenceRecord :=
  '(v, rest) ← DecodeValue value;
  record ← decodeStruct recordFields true (mkRecord "" zeroTime false) v;
  if More rest then None else Some record.

Definition decodeReference (p : Property) (root lineage : string) : result Reference :=
  match Split (TrimPrefix (pr_Name p) ReferencePrefix) ":" with
  | [target; stream; id] =>
    if negb (ValidID lineage) || negb (String.length target =? 64)%nat || negb (ValidID id)
    then Err (Errorf "invalid reference key")
    else if negb (hexText target) then Err (Errorf "encoding/hex: invalid byte")
    else match decodeRecord (pr_Value p) with
         | None => Err (Errorf "invalid reference record")
         | Some record =>
           let stream := if (rr_Stream record =? "")%string then root else root +:+ "/" +:+ rr_Stream record in
           let created := rr_Created record in
           if negb (is_ok (ValidateDataset stream)) || IsZero created || (Year created <? 1) || (9999 <? Year created)
           then Err (Errorf "invalid reference record")
           else
             let r := mkReference target stream (mkMetadata lineage id created) (rr_Recursive record) in
             if negb (property r =? pr_Name p)%string then Err (Errorf "reference record names another stream") else Ok r
         end
  | _ => Err (Errorf "invalid reference key")
  end.

(** [json.Marshal] of the record; a time whose year has more than four digits
    does not marshal. *)
Definition encodeRecord (r : referenceRecord) : result string :=
  if (Year (rr_Created r) <? 0) || (9999 <? Year (rr_Created r))
  then Err (Errorf "json: error calling MarshalJSON for type time.Time: Time.MarshalJSON: year outside of range [0,9999]")
  else Ok ("{" +:+ (if (rr_Stream r =? "")%string then "" else encodeString "stream" +:+ ":" +:+ encodeString (rr_Stream r) +:+ ",")
           +:+ encodeString "created" +:+ ":" +:+ quoteMark +:+ FormatRFC3339Nano (rr_Created r) +:+ quoteMark
           +:+ (if rr_Recursive r then "," +:+ encodeString "recursive" +:+ ":true" else "") +:+ "}").
Definition encodeReference (r : Reference) (root : string) : result string :=
  encodeRecord (mkRecord (if (rf_Dataset r =? root)%string then "" else TrimPrefix (rf_Dataset r) (root +:+ "/"))
                  (Created (rf_Metadata r)) (rf_Recursive r)).

(** The loop of [referenceRecords]. *)
Definition referenceRow (dataset lineage : string) (st : list Reference * gset string) (p : Property)
  : result (list Reference * gset string) :=
  let '(refs, seen) := st in
  if negb (pr_Dataset p =? dataset)%string || negb (HasPrefix (pr_Name p) ReferencePrefix) then Ok st
  else if negb (pr_Source p =? SourceLocal)%string then Ok st
  else match decodeReference p dataset lineage with
       | Err _ => Err (Errorf ("invalid reference proof " +:+ pr_Name p))
       | Ok r =>
         if decide (pr_Name p ∈ seen) then Err (Errorf ("invalid reference proof " +:+ pr_Name p))
         else Ok (refs ++ [r], {[pr_Name p]} ∪ seen)
       end.
Definition referenceRecords (state : State) (dataset lineage : string) : result (list Reference) :=
  _ ← recordsReadable state dataset;
  st ← foldM (referenceRow dataset lineage) ([], ∅) (Properties state); Ok st.1.
Definition References (state : State) (dataset lineage : string) : result (list Reference) := referenceRecords state dataset lineage.

(** * Evidence *)

Definition findOwned (state : State) (dataset name lineage : string) : result (Snapshot * Metadata) :=
  match List.find (λ s, (sn_Name s =? name)%string) (snapshotsIn state dataset) with
  | Some s => m ← Ownership s lineage; Ok (s, m)
  | None => Err (Errorf "source snapshot not found")
  end.

Definition hasInternal (s : Snapshot) : bool :=
  existsb (λ row, (pr_Name row =? LineageProperty)%string || (pr_Name row =? SnapshotProperty)%string) (sn_Properties s).
(** [ValidateLineageEvidence] of authority.go. *)
Definition ValidateLineageEvidence (state : State) (root lineage : string) : result unit :=
  if negb (ValidID lineage) then Err (Errorf "valid lineage required") else
  _ ← foldM (λ _ s, if hasInternal s then
                      match Ownership s lineage with
                      | Ok _ => Ok tt
                      | Err e => Err (Wrapf ("inconsistent snapshot evidence on " +:+ sn_Name s) e)
                      end
                    else Ok tt) tt (snapshotsIn state root);
  _ ← referenceRecords state root lineage; Ok tt.

(** * Stored proofs read back *)

Lemma plain_digits s : Forall (λ a, isDigit a = true) (bytes_of s) → plain s.
Proof.
  intros H. eapply Forall_impl; [exact H|]. intros a. unfold isDigit, plainByte, inZ.
  rewrite !andb_true_iff, negb_true_iff, !orb_false_iff, !Z.leb_le, !Z.eqb_neq. lia.
Qed.
Lemma plain_fixed w n : 0 ≤ n < 10 ^ Z.of_nat w → plain (fixed w n).
Proof. intros H. by apply plain_digits, fixed_spec. Qed.

Lemma civil_year t y m d : civil (t / day) = (y, m, d) → y = Year t.
Proof.
  unfold civil, Year. destruct (yearOf (t / day)) as [y' ?]. destruct (monthFrom _ _ _ _). cbn. congruence.
Qed.

#[local] Ltac Zify.zify_post_hook ::= Z.div_mod_to_equations.
Lemma plain_RFC3339 t : 0 ≤ Year t < 10000 → plain (FormatRFC3339Nano t).
Proof.
  intros Hy. unfold FormatRFC3339Nano. destruct (civil (t / day)) as [[y m] d] eqn:Hc.
  rewrite <- (civil_year _ _ _ _ Hc) in Hy. apply civil_spec in Hc as (_ & Hm & Hd). pose proof (daysIn_pos m y).
  assert (0 ≤ t mod day < day) as Ht by (apply Z.mod_pos_bound; unfold day, hour, minute, second; lia).
  revert Ht. generalize (t mod day). intros tod Ht. unfold day, hour, minute, second in *.
  rewrite !plain_app.
  assert (∀ n, 0 ≤ n < 100 → plain (fixed 2 n)) as H2 by (intros n Hn; by apply plain_fixed).
  split_and!; [by apply plain_fixed| |apply H2| |apply H2| |apply H2| |apply H2| |apply H2| |];
    [by repeat constructor|lia|by repeat constructor|lia|by repeat constructor|lia|by repeat constructor|lia|by repeat constructor|lia| |by repeat constructor].
  unfold formatFraction. destruct (Z.eqb_spec (tod mod 1000000000) 0); [constructor|]. apply plain_app. split; [by repeat constructor|].
  apply plain_digits, fraction_digits. lia.
Qed.
#[local] Ltac Zify.zify_post_hook ::= idtac.

Lemma parseJson_true f rest : parseJson (S f) MValue ("true" +:+ rest) = Some (JBool true, rest).
Proof.
  cbn [parseJson].
  change (skipSpace ("true" +:+ rest)) with (String "t" ("rue" +:+ rest)). cbv beta iota.
  change (byteZ "t" =? 34) with false. change (Ascii.eqb "t" "{") with false. change (Ascii.eqb "t" "[") with false. cbv iota.
  change (HasPrefix (String "t" ("rue" +:+ rest)) "null") with false. cbv iota.
  change (String "t" ("rue" +:+ rest)) with ("true" +:+ rest). by rewrite HasPrefix_app, TrimPrefix_app.
Qed.

(** The text of a record whose stream is plain, and what it parses to. *)
Lemma parse_created f acc c rest :
  plain c →
  parseJson (S (S f)) (MMembers acc) (encodeString "created" +:+ ":" +:+ quoteMark +:+ c +:+ quoteMark +:+ rest) =
  match skipSpace rest with
  | String "," rest => parseJson (S f) (MMembers (acc ++ [("created", JString c c)])) rest
  | String "}" rest => Some (JObject (acc ++ [("created", JString c c)]), rest)
  | _ => None
  end.
Proof.
  intros Hc. rewrite encodeString_plain by (by repeat constructor). rewrite !app_assoc_str.
  pose proof (parseJson_member (S f) acc "created" (JString c c) (quoteMark +:+ c +:+ quoteMark) rest) as Hm.
  rewrite !app_assoc_str in Hm. rewrite Hm; [done|by repeat constructor|]. by apply parseJson_string.
Qed.

Lemma parse_end f acc c (recursive : bool) :
  plain c →
  parseJson (S (S (S f))) (MMembers acc) (encodeString "created" +:+ ":" +:+ quoteMark +:+ c +:+ quoteMark
    +:+ (if recursive then "," +:+ encodeString "recursive" +:+ ":true" else "") +:+ "}") =
  Some (JObject (acc ++ ("created", JString c c) :: if recursive then [("recursive", JBool true)] else []), "").
Proof.
  intros Hc. rewrite parse_created by done. destruct recursive.
  - rewrite encodeString_plain by (by repeat constructor). rewrite !app_assoc_str, app_cons_str, app_nil_str.
    change (skipSpace (String "," ?x)) with (String "," x). cbv iota beta.
    pose proof (parseJson_member (S f) (acc ++ [("created", JString c c)]) "recursive" (JBool true) "true" "}") as Hm.
    change (":true" +:+ "}") with (":" +:+ "true" +:+ "}"). rewrite Hm; [|by repeat constructor|apply parseJson_true].
    change (skipSpace "}") with "}". cbv iota beta. by rewrite <- app_assoc.
  - rewrite app_nil_str. change (skipSpace "}") with "}". cbv iota beta. done.
Qed.

Lemma parse_record f s c (recursive : bool) :
  plain s → plain c →
  parseJson (S (S (S (S (S f))))) MValue ("{" +:+ (if (s =? "")%string then "" else encodeString "stream" +:+ ":" +:+ encodeString s +:+ ",")
    +:+ encodeString "created" +:+ ":" +:+ quoteMark +:+ c +:+ quoteMark
    +:+ (if recursive then "," +:+ encodeString "recursive" +:+ ":true" else "") +:+ "}") =
  Some (JObject ((if (s =? "")%string then [] else [("stream", JString s s)])
    ++ ("created", JString c c) :: if recursive then [("recursive", JBool true)] else []), "").
Proof.
  intros Hs Hc. set (rest := encodeString "created" +:+ _). rewrite app_cons_str, app_nil_str. destruct (s =? "")%string.
  - rewrite app_nil_str, app_nil_l. subst rest. unfold encodeString at 1. rewrite !app_assoc_str. apply parseJson_object.
    rewrite <- !app_assoc_str. change (quoteMark +:+ encodeStringFrom (String.length "created") "created" +:+ quoteMark) with (encodeString "created").
    pose proof (parse_end (S f) [] c recursive Hc) as He. rewrite !app_assoc_str in *. unfold encodeString at 1 in He.
    rewrite !app_assoc_str in He. exact He.
  - rewrite (encodeString_plain "stream") by (by repeat constructor). rewrite (encodeString_plain s) by done. rewrite !app_assoc_str.
    apply parseJson_object.
    pose proof (parseJson_member (S (S (S f))) [] "stream" (JString s s) (quoteMark +:+ s +:+ quoteMark) ("," +:+ rest)) as Hm.
    rewrite !app_assoc_str in Hm. rewrite Hm; [|by repeat constructor|by apply parseJson_string].
    rewrite app_cons_str, app_nil_str. change (skipSpace (String "," ?x)) with (String "," x). cbv iota beta.
    subst rest. by apply parse_end.
Qed.

Lemma decodeMember_stream st s :
  decodeMember recordFields true (Some st) ("stream", JString s s) = Some (mkRecord s (rr_Created st) (rr_Recursive st)).
Proof. reflexivity. Qed.
Lemma decodeMember_created st c t :
  ParseRFC3339 c = Some t →
  decodeMember recordFields true (Some st) ("created", JString c c) = Some (mkRecord (rr_Stream st) t (rr_Recursive st)).
Proof.
  intros H. change (decodeMember recordFields true (Some st) ("created", JString c c)) with
    (d ← (t ← ParseRFC3339 c; Some (Some t)); Some (match d with Some a => mkRecord (rr_Stream st) a (rr_Recursive st) | None => st end)).
  by rewrite H.
Qed.
Lemma decodeMember_recursive st :
  decodeMember recordFields true (Some st) ("recursive", JBool true) = Some (mkRecord (rr_Stream st) (rr_Created st) true).
Proof. reflexivity. Qed.

Lemma decodeRecord_encode r v :
  plain (rr_Stream r) → encodeRecord r = Ok v → decodeRecord v = Some r.
Proof.
  unfold encodeRecord. destruct ((Year (rr_Created r) <? 0) || (9999 <? Year (rr_Created r))) eqn:Ey; [done|]. intros Hs [= <-].
  rewrite orb_false_iff in Ey. pose proof (plain_RFC3339 (rr_Created r) ltac:(lia)) as Hc.
  pose proof (ParseRFC3339_Format (rr_Created r) ltac:(lia)) as Hp. revert Hc Hp. generalize (FormatRFC3339Nano (rr_Created r)). intros c Hc Hp.
  unfold decodeRecord, DecodeValue. set (text := "{" +:+ _).
  assert (∃ f, S (2 * String.length text) = S (S (S (S (S f))))) as [f Hf].
  { exists (2 * String.length text - 4)%nat. assert (2 ≤ String.length text)%nat; [|lia]. subst text.
    rewrite app_cons_str, app_nil_str, !length_str. cbn [bytes_of length]. rewrite !bytes_of_app, !length_app. cbn [bytes_of length]. lia. }
  rewrite Hf. subst text. rewrite parse_record by done. cbn [mbind option_bind].
  unfold decodeStruct. destruct r as [s t []]; cbn [rr_Stream rr_Created rr_Recursive] in *;
    (destruct (String.eqb_spec s "") as [->|]; cbn [app fold_left]);
    rewrite ?decodeMember_stream, (decodeMember_created _ _ _ Hp), ?decodeMember_recursive; done.
Qed.

(** * Keys *)

Lemma MatchString_Forall2 cs s :
  Identity.MatchString cs s = true → Forall2 (λ c a, c a = true) cs (bytes_of s).
Proof.
  revert s. induction cs as [|c cs IH]; intros [|a s]; cbn; try done. rewrite andb_true_iff. intros [Ha Hs]. constructor; auto.
Qed.

Lemma MatchString_avoids cs s x :
  Identity.MatchString cs s = true → Forall (λ c : ascii → bool, c x = false) cs → x ∉ bytes_of s.
Proof.
  intros H%MatchString_Forall2 Hc Hx. induction H as [|c a cs l Ha _ IH]; [by apply elem_of_nil in Hx|].
  apply Forall_cons in Hc as [Hc Hcs]. apply elem_of_cons in Hx as [->|Hx]; [congruence|auto].
Qed.

Lemma ValidID_no_colon id : ValidID id = true → ":"%char ∉ bytes_of id.
Proof. intros H. eapply MatchString_avoids; [exact H|]. unfold Identity.uuidPattern. by repeat constructor. Qed.

Lemma hex_shape data : Forall (λ b, 0 ≤ b < 256) data →
  ":"%char ∉ bytes_of (Identity.EncodeToString data) ∧ String.length (Identity.EncodeToString data) = (2 * length data)%nat ∧
  hexText (Identity.EncodeToString data) = true.
Proof.
  intros H%EncodeToString_match. split_and!.
  - eapply MatchString_avoids; [exact H|]. apply Forall_replicate. reflexivity.
  - apply MatchString_Forall2, Forall2_length in H. rewrite length_str, <- H. apply length_replicate.
  - apply MatchString_Forall2 in H. unfold hexText. apply andb_true_iff. split.
    + rewrite length_str, <- (Forall2_length _ _ _ H), length_replicate. apply Nat.even_spec. by eexists.
    + apply forallb_forall. intros a Ha%list_elem_of_In. apply bool_decide_eq_true. unfold hexValue.
      assert (Identity.lowerHex a = true) as Hx.
      { clear -H Ha. remember (replicate (2 * length data) Identity.lowerHex) as cs eqn:E.
        assert (Forall (λ c, c = Identity.lowerHex) cs) as Hc by (subst; by apply Forall_replicate). clear E.
        induction H as [|c b cs l Hb _ IH]; [by apply elem_of_nil in Ha|]. apply Forall_cons in Hc as [-> Hc].
        apply elem_of_cons in Ha as [->|Ha]; auto. }
      unfold Identity.lowerHex in Hx. destruct (inZ 48 (byteZ a) 57); [eauto|]. cbn in Hx. rewrite Hx. eauto.
Qed.

Lemma TargetID_shape target :
  ":"%char ∉ bytes_of (TargetID target) ∧ String.length (TargetID target) = 64%nat ∧ hexText (TargetID target) = true.
Proof.
  destruct (Sum256_shape (bytesZ target)) as [Hl Hb]. destruct (hex_shape _ Hb) as (? & Hlen & ?). rewrite Hl in Hlen. done.
Qed.
Lemma streamID_no_colon dataset : ":"%char ∉ bytes_of (streamID dataset).
Proof. apply hex_shape. apply Forall_take. apply Sum256_shape. Qed.

Lemma property_parts r :
  ":"%char ∉ bytes_of (rf_TargetID r) → ValidID (SnapshotID (rf_Metadata r)) = true →
  Split (TrimPrefix (property r) ReferencePrefix) ":" = [rf_TargetID r; streamID (rf_Dataset r); SnapshotID (rf_Metadata r)].
Proof.
  intros Ht Hs%ValidID_no_colon. unfold property. rewrite TrimPrefix_app. rewrite !app_cons_str, !app_nil_str.
  rewrite Split_app by done. rewrite Split_app by apply streamID_no_colon. by rewrite Split_none.
Qed.

(** A proof that can be written: a target's digest, a stream of the root in the
    characters ZFS allows, identities, and a creation time names can carry. *)
Definition writable (r : Reference) (root : string) : Prop :=
  (∃ target, rf_TargetID r = TargetID target) ∧ ValidateDataset (rf_Dataset r) = Ok tt ∧ plain (rf_Dataset r) ∧
  inside (rf_Dataset r) root = true ∧ ValidID (Lineage (rf_Metadata r)) = true ∧ ValidID (SnapshotID (rf_Metadata r)) = true ∧
  Created (rf_Metadata r) ≠ zeroTime ∧ 1 ≤ Year (Created (rf_Metadata r)) ≤ 9999.

Lemma stream_relative d root :
  inside d root = true → ValidateDataset d = Ok tt →
  let rel := if (d =? root)%string then "" else TrimPrefix d (root +:+ "/") in
  (if (rel =? "")%string then root else root +:+ "/" +:+ rel) = d ∧ (plain d → plain rel).
Proof.
  unfold inside. intros H Hd. cbv zeta. destruct (String.eqb_spec d root) as [->|Hne]; [split; [done|constructor]|].
  cbn [orb] in H. apply HasPrefix_spec in H as [t ->]. rewrite TrimPrefix_app. split.
  - destruct (String.eqb_spec t "") as [->|]; [|by rewrite app_assoc_str].
    exfalso. rewrite app_str_nil in Hd. apply validateDataset_iff in Hd as [Hg _].
    change "/" with ("/" +:+ "") in Hg. apply goodTail_app in Hg as [_ Hg]. by apply goodTail_not_empty in Hg.
  - rewrite !plain_app. tauto.
Qed.

Lemma encodeReference_decode r root :
  writable r root →
  ∃ value, encodeReference r root = Ok value ∧
    decodeReference (mkProperty root (property r) value SourceLocal) root (Lineage (rf_Metadata r)) = Ok r.
Proof.
  intros ((target & Ht) & Hd & Hp & Hin & Hl & Hs & Hz & Hy).
  destruct (TargetID_shape target) as (Hc & Hlen & Hhex). rewrite <- Ht in *.
  destruct (stream_relative _ _ Hin Hd) as [Hrel Hplain].
  unfold encodeReference. set (rec := mkRecord _ _ _).
  assert (∃ v, encodeRecord rec = Ok v) as [v Hv].
  { unfold encodeRecord. subst rec. cbn [rr_Created]. destruct (Z.ltb_spec (Year (Created (rf_Metadata r))) 0); [lia|].
    destruct (Z.ltb_spec 9999 (Year (Created (rf_Metadata r)))); [lia|]. by eexists. }
  exists v. split; [done|]. unfold decodeReference. cbn [pr_Name pr_Value]. rewrite property_parts by done.
  rewrite Hl, Hlen, Hs, Hhex. cbn [negb orb Nat.eqb].
  rewrite (decodeRecord_encode rec v) by (done || by apply Hplain). subst rec. cbn [rr_Stream rr_Created rr_Recursive].
  rewrite Hrel, Hd. cbn [is_ok negb orb]. unfold IsZero. destruct (Z.eqb_spec (Created (rf_Metadata r)) zeroTime); [done|].
  destruct (Z.ltb_spec (Year (Created (rf_Metadata r))) 1); [lia|]. destruct (Z.ltb_spec 9999 (Year (Created (rf_Metadata r)))); [lia|].
  cbn [orb]. destruct r as [t d [l s c] rec]. cbn in *. by rewrite eqb_str_refl.
Qed.

(** A replication reference written as a root's property is read back
    unchanged by the decoder, for every target text, every stream inside the root
    and every creation time the encoder accepts. *)
Theorem Reference_roundtrip r root :
  writable r root →
  ∃ value, encodeReference r root = Ok value ∧
    decodeReference (mkProperty root (property r) value SourceLocal) root (Lineage (rf_Metadata r)) = Ok r.
Proof. apply encodeReference_decode. Qed.

Lemma Reference_roundtrip_witness :
  let r := mkReference (TargetID "ssh://backup/tank") "tank/data/home"
    (mkMetadata "11111111-1111-4111-8111-111111111111" "22222222-2222-4222-8222-222222222222" (Date 2026 8 2 12 30 5 250)) true in
  ∃ value, encodeReference r "tank/data" = Ok value ∧
    decodeReference (mkProperty "tank/data" (property r) value SourceLocal) "tank/data" (Lineage (rf_Metadata r)) = Ok r.
Proof.
  intros r. apply (Reference_roundtrip r "tank/data"). unfold writable. split; [by exists "ssh://backup/tank"|].
  split_and!; try (by vm_compute); repeat constructor.
Defined.
