(* ===== verification/Backend.v ===== *)
(** The ZFS interface the lifecycle service works through, as a free monad of
    calls.

    [op] has one constructor per method of [lifecycle.Backend],
    [referenceBackend], [cleanBackend] and [CleanSafety], and of the executors and
    streams of package transfer, with the type of its answer; [OnTarget] is a call
    of the destination's executor where a component has two. Acquiring and
    releasing the service's hierarchy lock, reading randomness and asking whether
    the context is done are calls too. A service method is a [prog]: it makes calls
    and continues with their answers, whatever they are, because nothing bounds
    what another process does to the pools between two calls. Theorems quantify
    over all answers; [always] proves that every call a program can make is one its
    history justifies. *)

From S2P Require Import Prelude Zfs Stream.

Inductive op : Type → Type :=
| Acquire (dataset : string) : op (result unit)
| Unlock (dataset : string) : op unit
| RandRead : op (result (list Z))
| InspectState (dataset : string) (recursive : bool) : op (result State)
| SetProperties (dataset : string) (properties : gmap string string) : op (result unit)
| TakeSnapshot (members : list string) (name : string) (properties : gmap string string) : op (result unit)
| DestroySnapshot (snapshot : string) : op (result unit)
| HoldSnapshot (tag snapshot : string) : op (result unit)
| ReleaseHold (tag snapshot : string) : op (result unit)
| CreateBookmark (snapshot bookmark : string) : op (result unit)
| DestroyBookmark (bookmark : string) : op (result unit)
| InheritProperty (dataset property : string) : op (result unit)
| ListDatasets : op (result (list Dataset))
| GetActivationProperties : op (result (list Property))
| InspectDatasetIdentity (dataset : string) : op (result DatasetIdentity)
| Quiescent (datasets : list string) : op (result unit)
| CheckTarget (dataset targetID : string) : op (result unit)
| GetStoredProperties (datasets : list string) : op (result (list Property))
| CheckPermissions (dataset : string) (permissions : list string) : op (result unit)
| CreateReceiveParent (dataset : string) : op (result unit)
| RenameDataset (from to : string) : op (result unit)
| DestroyDataset (dataset : string) (recursive : bool) : op (result unit)
| AbortReceive (dataset : string) : op (result unit)
| EstimateStream (send : SendOptions) : op (result Estimate)
| RunStream (send : SendOptions) (receive : ReceiveOptions) (estimate : Estimate) : op (result Progress)
| ContextDone : op bool
| OnTarget {R : Type} (o : op R) : op R.

Inductive prog (A : Type) : Type :=
| Ret (a : A)
| Call {R : Type} (o : op R) (k : R → prog A).
Arguments Ret {A} a.
Arguments Call {A R} o k.

Fixpoint bindP {A B} (p : prog A) (k : A → prog B) : prog B :=
  match p with
  | Ret a => k a
  | Call o c => Call o (λ r, bindP (c r) k)
  end.
Definition call {R} (o : op R) : prog R := Call o Ret.

(** Sequencing: [x ⇐ p; q] always continues, [x ⇐? p; q] returns the error of
    [p], as [if err != nil { return err }] does, and [x ⇐! r; q] the same for a
    computation without calls. *)
Declare Scope prog_scope.
Delimit Scope prog_scope with prog.
#[global] Open Scope prog_scope.
Definition bindE {A B} (p : prog (result A)) (k : A → prog (result B)) : prog (result B) :=
  bindP p (λ r, match r with Ok a => k a | Err e => Ret (Err e) end).
Definition bindR {A B} (r : result A) (k : A → prog (result B)) : prog (result B) :=
  match r with Ok a => k a | Err e => Ret (Err e) end.
Notation "x ⇐ p ; q" := (bindP p (λ x, q)) (at level 20, p at level 100, q at level 200) : prog_scope.
Notation "x ⇐? p ; q" := (bindE p (λ x, q)) (at level 20, p at level 100, q at level 200) : prog_scope.
Notation "x ⇐! r ; q" := (bindR r (λ x, q)) (at level 20, r at level 100, q at level 200) : prog_scope.
Notation "' x ⇐? p ; q" := (bindE p (λ x, q)) (at level 20, x pattern, p at level 100, q at level 200) : prog_scope.
Notation "' x ⇐! r ; q" := (bindR r (λ x, q)) (at level 20, x pattern, r at level 100, q at level 200) : prog_scope.

(** The calls of [p] made to the destination's executor. *)
Fixpoint onTarget {A} (p : prog A) : prog A :=
  match p with
  | Ret a => Ret a
  | Call o k => Call (OnTarget o) (λ r, onTarget (k r))
  end.

(** A loop that stops at the first error. *)
Fixpoint forE {A S} (body : S → A → prog (result S)) (s : S) (l : list A) : prog (result S) :=
  match l with
  | [] => Ret (Ok s)
  | x :: l => s' ⇐? body s x; forE body s' l
  end.

(** * Runs *)

(** A call and its answer. *)
Inductive event : Type :=
| Event {R : Type} (o : op R) (r : R).

(** [tr] is the calls and answers of a run of [p] that ends in [a]. *)
Fixpoint runs {A} (p : prog A) (tr : list event) (a : A) : Prop :=
  match p with
  | Ret x => tr = [] ∧ a = x
  | Call o k => ∃ r tr', tr = Event o r :: tr' ∧ runs (k r) tr' a
  end.

(** A handler of every call over a world [W], for running a program. *)
Fixpoint runWith {A W} (h : ∀ R, op R → W → R * W) (p : prog A) (w : W) : A * W :=
  match p with
  | Ret a => (a, w)
  | Call o k => let '(r, w) := h _ o w in runWith h (k r) w
  end.

Lemma runWith_bind {A B W} (h : ∀ R, op R → W → R * W) (p : prog A) (k : A → prog B) : ∀ w,
  runWith h (bindP p k) w = let '(a, w) := runWith h p w in runWith h (k a) w.
Proof. induction p as [a|R o c IH]; intros w; cbn; [done|]. destruct (h R o w) as [r w']. apply IH. Qed.

(** The calls a handler answers in a run, with the result. *)
Fixpoint traceWith {A W} (h : ∀ R, op R → W → R * W) (p : prog A) (w : W) : list event * A :=
  match p with
  | Ret a => ([], a)
  | Call o k => let '(r, w) := h _ o w in let '(tr, a) := traceWith h (k r) w in (Event o r :: tr, a)
  end.
Lemma traceWith_runs {A W} (h : ∀ R, op R → W → R * W) (p : prog A) : ∀ w,
  runs p (traceWith h p w).1 (traceWith h p w).2.
Proof.
  induction p as [a|R o c IH]; intros w; cbn; [done|]. destruct (h R o w) as [r w']. specialize (IH r w').
  destruct (traceWith h (c r) w') as [tr a]. exists r, tr. done.
Qed.

(** The calls that change a pool. *)
Fixpoint mutates {R} (o : op R) : bool :=
  match o with
  | SetProperties _ _ | TakeSnapshot _ _ _ | DestroySnapshot _ | HoldSnapshot _ _ | ReleaseHold _ _
  | CreateBookmark _ _ | DestroyBookmark _ | InheritProperty _ _
  | CreateReceiveParent _ | RenameDataset _ _ | DestroyDataset _ _ | AbortReceive _ | RunStream _ _ _ => true
  | OnTarget o => mutates o
  | _ => false
  end.
Definition eventMutates (e : event) : bool := match e with Event o _ => mutates o end.

Lemma runs_bind {A B} (p : prog A) (k : A → prog B) tr b :
  runs (bindP p k) tr b → ∃ tr1 a tr2, tr = tr1 ++ tr2 ∧ runs p tr1 a ∧ runs (k a) tr2 b.
Proof.
  revert tr. induction p as [a|R o c IH]; intros tr H; cbn in H.
  - exists [], a, tr. done.
  - destruct H as (r & tr' & -> & Hr). apply IH in Hr as (tr1 & a & tr2 & -> & H1 & H2).
    exists (Event o r :: tr1), a, tr2. split_and!; [done|cbn; eauto|done].
Qed.

(** A run of a sequence that succeeds is a run of each step. *)
Lemma runs_bindE {A B} (p : prog (result A)) (k : A → prog (result B)) tr b :
  runs (bindE p k) tr (Ok b) → ∃ tr1 a tr2, tr = tr1 ++ tr2 ∧ runs p tr1 (Ok a) ∧ runs (k a) tr2 (Ok b).
Proof. intros (tr1 & [a|e] & tr2 & -> & H1 & H2)%runs_bind; [by exists tr1, a, tr2|]. by destruct H2. Qed.
Lemma runs_bindR {A B} (r : result A) (k : A → prog (result B)) tr b : runs (bindR r k) tr (Ok b) → ∃ a, r = Ok a ∧ runs (k a) tr (Ok b).
Proof. destruct r as [a|e]; cbn; [by exists a|]. by intros [_ ?]. Qed.
Lemma runs_call {R} (o : op R) tr r : runs (call o) tr r → tr = [Event o r].
Proof. intros (r' & tr' & -> & -> & <-). done. Qed.

(** Programs that change no pool. *)
Fixpoint readonly {A} (p : prog A) : Prop :=
  match p with
  | Ret _ => True
  | Call o k => mutates o = false ∧ ∀ r, readonly (k r)
  end.

Lemma readonly_bind {A B} (p : prog A) (k : A → prog B) : readonly p → (∀ a, readonly (k a)) → readonly (bindP p k).
Proof. induction p as [a|R o c IH]; cbn; [by intros _|]. intros [Ho Hc] Hk. split; [done|]. intros r. by apply IH. Qed.
Lemma readonly_bindE {A B} (p : prog (result A)) (k : A → prog (result B)) : readonly p → (∀ a, readonly (k a)) → readonly (bindE p k).
Proof. intros Hp Hk. apply readonly_bind; [done|]. by intros [a|e]. Qed.
Lemma readonly_bindR {A B} (r : result A) (k : A → prog (result B)) : (∀ a, readonly (k a)) → readonly (bindR r k).
Proof. intros Hk. destruct r as [a|e]; [apply Hk|done]. Qed.
Lemma readonly_forE {A S} (body : S → A → prog (result S)) l : (∀ s x, readonly (body s x)) → ∀ s, readonly (forE body s l).
Proof. intros Hb. induction l as [|x l IH]; intros s; cbn; [done|]. by apply readonly_bindE. Qed.

Definition mutations (tr : list event) : list event := filter (λ e, eventMutates e = true) tr.
Lemma mutations_app tr1 tr2 : mutations (tr1 ++ tr2) = mutations tr1 ++ mutations tr2.
Proof. apply filter_app. Qed.
Lemma readonly_mutations {A} (p : prog A) : ∀ tr a, readonly p → runs p tr a → mutations tr = [].
Proof.
  induction p as [x|R o k IH]; intros tr a; cbn; [by intros _ [-> _]|]. intros [Ho Hk] (r & tr' & -> & Hr).
  unfold mutations. rewrite filter_cons, decide_False by (cbn; congruence). by eapply IH.
Qed.

(** * Calls justified by the history *)

Section Always.
Context (P : list event → ∀ R, op R → Prop).

(** After [pre], every call of [p] satisfies [P] of the calls before it, and the
    result satisfies [Q]. *)
Fixpoint always {A} (pre : list event) (p : prog A) (Q : list event → A → Prop) : Prop :=
  match p with
  | Ret a => Q pre a
  | Call o k => P pre _ o ∧ ∀ r, always (pre ++ [Event o r]) (k r) Q
  end.

Lemma always_mono {A} (p : prog A) : ∀ pre (Q Q' : list event → A → Prop),
  (∀ tr a, Q tr a → Q' tr a) → always pre p Q → always pre p Q'.
Proof. induction p as [a|R o k IH]; intros pre Q Q' HQ; cbn; [apply HQ|]. intros [Hp Hk]. split; [done|]. intros r. by eapply IH. Qed.

Lemma always_bind {A B} (p : prog A) (k : A → prog B) : ∀ pre Q,
  always pre p (λ tr a, always tr (k a) Q) → always pre (bindP p k) Q.
Proof.
  induction p as [a|R o c IH]; intros pre Q H; cbn in *; [done|]. destruct H as [Hp Hk]. split; [done|]. intros r. by apply IH.
Qed.

Lemma always_call {R} (o : op R) pre Q : P pre R o → (∀ r, Q (pre ++ [Event o r]) r) → always pre (call o) Q.
Proof. intros HP HQ. by split. Qed.

(** The error of a step ends the program; [E] is what holds of errors. *)
Lemma always_bindE {A B} (p : prog (result A)) (k : A → prog (result B)) pre Q :
  always pre p (λ tr r, match r with Ok a => always tr (k a) Q | Err e => Q tr (Err e) end) → always pre (bindE p k) Q.
Proof. intros H. apply always_bind. eapply always_mono; [|exact H]. by intros tr [a|e]. Qed.

Lemma always_bindR {A B} (r : result A) (k : A → prog (result B)) pre Q :
  match r with Ok a => always pre (k a) Q | Err e => Q pre (Err e) end → always pre (bindR r k) Q.
Proof. by destruct r. Qed.

Lemma always_conj {A} (p : prog A) : ∀ pre (Q Q' : list event → A → Prop),
  always pre p Q → always pre p Q' → always pre p (λ tr a, Q tr a ∧ Q' tr a).
Proof. induction p as [a|R o k IH]; intros pre Q Q'; cbn; [done|]. intros [Hp Hk] [_ Hk']. split; [done|]. intros r. by apply IH. Qed.

(** A loop keeps an invariant of the history and the loop state. *)
Lemma always_forE {A S} (body : S → A → prog (result S)) (I : list A → list event → S → Prop) (Q : list event → result S → Prop) (l : list A) :
  (∀ x done rest pre s, l = done ++ x :: rest → I done pre s →
    always pre (body s x) (λ tr r, match r with Ok s' => I (done ++ [x]) tr s' | Err e => Q tr (Err e) end)) →
  (∀ tr s, I l tr s → Q tr (Ok s)) →
  ∀ pre s, I [] pre s → always pre (forE body s l) Q.
Proof.
  intros Hb HQ. assert (∀ rest done pre s, l = done ++ rest → I done pre s → always pre (forE body s rest) Q) as Hg.
  { induction rest as [|x rest IH]; intros done pre s El HI; cbn [forE].
    - rewrite app_nil_r in El. subst. by apply HQ.
    - apply always_bindE. eapply always_mono; [|by eapply Hb]. intros tr [s'|e] H; [|done].
      eapply IH; [|exact H]. by rewrite <- app_assoc. }
  intros pre s HI. exact (Hg l [] pre s eq_refl HI).
Qed.

(** A program that only reads is justified wherever reads are. *)
Lemma always_readonly {A} (p : prog A) : (∀ pre R (o : op R), mutates o = false → P pre R o) → readonly p →
  ∀ pre, always pre p (λ tr a, ∃ tr', tr = pre ++ tr' ∧ runs p tr' a).
Proof.
  intros HP. induction p as [a|R o k IH]; intros Hr pre; cbn; [exists []; by rewrite app_nil_r|].
  destruct Hr as [Ho Hk]. split; [by apply HP|]. intros r. eapply always_mono; [|by apply IH].
  intros tr a (tr' & -> & Hruns). exists (Event o r :: tr'). rewrite <- app_assoc. split; [done|]. by exists r, tr'.
Qed.

(** What a program leaves, with the run that left it. *)
Lemma always_seg {A} (p : prog A) : ∀ pre Q, always pre p Q → always pre p (λ tr a, Q tr a ∧ ∃ seg, tr = pre ++ seg ∧ runs p seg a).
Proof.
  induction p as [a|R o k IH]; intros pre Q; cbn; [intros HQ; split; [done|]; exists []; by rewrite app_nil_r|].
  intros [Ho Hk]. split; [done|]. intros r. eapply always_mono; [|exact (IH r _ _ (Hk r))].
  intros tr a [HQ (seg & -> & Hr)]. split; [done|]. exists (Event o r :: seg). rewrite <- app_assoc. split; [done|]. by exists r, seg.
Qed.

(** What [always] says of the runs of a program. *)
Definition justified (pre : list event) (e : event) : Prop := match e with Event o _ => P pre _ o end.
Lemma always_runs {A} (p : prog A) a : ∀ tr pre Q, runs p tr a → always pre p Q →
  Q (pre ++ tr) a ∧ ∀ t1 e t2, tr = t1 ++ e :: t2 → justified (pre ++ t1) e.
Proof.
  induction p as [x|R o k IH]; intros tr pre Q Hr Ha; cbn in Hr, Ha.
  - destruct Hr as [-> ->]. rewrite app_nil_r. split; [done|]. by intros [].
  - destruct Hr as (r & tr' & -> & Hr). destruct Ha as [HP Hk].
    destruct (IH r tr' _ _ Hr (Hk r)) as [HQ Hc]. rewrite <- app_assoc in HQ. split; [done|].
    intros t1 e t2 E. destruct t1 as [|e' t1]; cbn in E; injection E as <- E.
    + by rewrite app_nil_r.
    + specialize (Hc _ _ _ E). by rewrite <- app_assoc in Hc.
Qed.
End Always.

(** Calls justified by a stronger guard. *)
Lemma always_weaken {A} (P P' : list event → ∀ R, op R → Prop) (p : prog A) : (∀ pre R o, P pre R o → P' pre R o) →
  ∀ pre Q, always P pre p Q → always P' pre p Q.
Proof.
  intros HP. induction p as [a|R o k IH]; intros pre Q; cbn; [done|]. intros [Ho Hk]. split; [by apply HP|]. intros r. by apply IH.
Qed.

(** Every call of a program comes after what was before it. *)
Lemma always_extends {A} (P : list event → ∀ R, op R → Prop) (p : prog A) : ∀ pre Q, always P pre p Q →
  always (λ pre' R o, P pre' R o ∧ pre `prefix_of` pre') pre p Q.
Proof.
  assert (∀ base pre Q, base `prefix_of` pre → always P pre p Q → always (λ pre' R o, P pre' R o ∧ base `prefix_of` pre') pre p Q) as H; [|by intros; apply H].
  induction p as [a|R o k IH]; intros base pre Q Hb; cbn; [done|]. intros [Ho Hk]. split; [done|]. intros r. apply IH; [by apply prefix_app_r|done].
Qed.

(** * What a history contains *)

(** A run of [p] that ended in [a]. *)
Definition did {A} (p : prog A) (a : A) (tr : list event) : Prop := ∃ t0 t1 t2, tr = t0 ++ t1 ++ t2 ∧ runs p t1 a.
Lemma did_prefix {A} (p : prog A) a tr tr' : tr `prefix_of` tr' → did p a tr → did p a tr'.
Proof. intros [t ->] (t0 & t1 & t2 & -> & H). exists t0, t1, (t2 ++ t). split; [by rewrite <- !app_assoc|done]. Qed.
Lemma did_seg {A} (p : prog A) a pre seg : runs p seg a → did p a (pre ++ seg).
Proof. intros H. exists pre, seg, []. by rewrite app_nil_r. Qed.

(** A loop without errors. *)
Fixpoint forP {A S} (body : S → A → prog S) (s : S) (l : list A) : prog S :=
  match l with
  | [] => Ret s
  | x :: l => s' ⇐ body s x; forP body s' l
  end.

Lemma always_forP {A S} (P : list event → ∀ R, op R → Prop) (body : S → A → prog S) (I : S → Prop) l :
  (∀ s x pre, x ∈ l → I s → always P pre (body s x) (λ _ s', I s')) → ∀ pre s, I s → always P pre (forP body s l) (λ _ s', I s').
Proof.
  induction l as [|x l IH]; intros Hb pre s Hs; cbn [forP]; [done|]. apply always_bind.
  eapply always_mono; [|apply Hb; [by left|done]]. intros tr s' Hs'. apply IH; [|done]. intros s0 y pre0 Hy. apply Hb. by right.
Qed.
(** The same with an invariant of the history and of the elements done. *)
Lemma always_forP_at {A S} (P : list event → ∀ R, op R → Prop) (body : S → A → prog S) (I : list A → list event → S → Prop) l :
  (∀ x done rest pre s, l = done ++ x :: rest → I done pre s → always P pre (body s x) (λ tr s', I (done ++ [x]) tr s')) →
  ∀ pre s, I [] pre s → always P pre (forP body s l) (λ tr s', I l tr s').
Proof.
  intros Hb. assert (∀ rest done pre s, l = done ++ rest → I done pre s → always P pre (forP body s rest) (λ tr s', I l tr s')) as Hg.
  { induction rest as [|x rest IH]; intros done pre s El HI; cbn [forP].
    - rewrite app_nil_r in El. by subst.
    - apply always_bind. eapply always_mono; [|by eapply Hb]. intros tr s' H. eapply IH; [|exact H]. by rewrite <- app_assoc. }
  intros pre s HI. exact (Hg l [] pre s eq_refl HI).
Qed.
Lemma readonly_forP {A S} (body : S → A → prog S) l : (∀ s x, readonly (body s x)) → ∀ s, readonly (forP body s l).
Proof. intros Hb. induction l as [|x l IH]; intros s; cbn; [done|]. by apply readonly_bind. Qed.

(** * Calls to the destination *)

Definition targetEvent (e : event) : event := match e with Event o r => Event (OnTarget o) r end.

Lemma readonly_onTarget {A} (p : prog A) : readonly p → readonly (onTarget p).
Proof. induction p as [a|R o k IH]; cbn; [done|]. intros [Ho Hk]. split; [done|]. intros r. by apply IH. Qed.

Lemma runs_onTarget {A} (p : prog A) : ∀ tr a, runs (onTarget p) tr a ↔ ∃ tr0, tr = targetEvent <$> tr0 ∧ runs p tr0 a.
Proof.
  induction p as [x|R o k IH]; intros tr a; cbn.
  - split; [intros [-> ->]; by exists []|]. intros (tr0 & -> & -> & ->). done.
  - split.
    + intros (r & tr' & -> & (tr0 & -> & H)%IH). exists (Event o r :: tr0). split; [done|]. by exists r, tr0.
    + intros (tr0 & -> & r & tr1 & -> & H). exists r, (targetEvent <$> tr1). split; [done|]. apply IH. by exists tr1.
Qed.
