(* ===== verification/Direct.v ===== *)
(** The direct executor: internal/zfs/direct.go and the rest of
    internal/zfs/state.go.

    Every operation is a [script]: commands run one after another, each answered
    with its output or an error, arbitrarily, and continued with what its output
    parses to. A [CommandRunner] is what answers: a local process, or one at the
    other end of an SSH connection. [executor] says which script implements which
    operation of [Backend]. The two queries whose answers Permissions and Stream
    take as arguments, [CheckPermissions] and [EstimateSend], are modelled there. *)

From Stdlib Require Import Ascii.
From S2P Require Import Prelude GoStrings Names Zfs Backend.

(** * Commands *)

Inductive tool := ToolZfs | ToolZpool.
#[export] Instance tool_eq_dec : EqDecision tool.
Proof. solve_decision. Defined.

Inductive script (A : Type) : Type :=
| Done (a : A)
| Run (t : tool) (args : list string) (k : result string → script A)
| ContextErr (k : option error → script A).
Arguments Done {A} a.
Arguments Run {A} t args k.
Arguments ContextErr {A} k.

Fixpoint bindS {A B} (p : script A) (k : A → script B) : script B :=
  match p with
  | Done a => k a
  | Run t args c => Run t args (λ r, bindS (c r) k)
  | ContextErr c => ContextErr (λ r, bindS (c r) k)
  end.
Definition bindSE {A B} (p : script (result A)) (k : A → script (result B)) : script (result B) :=
  bindS p (λ r, match r with Ok a => k a | Err e => Done (Err e) end).
Definition bindSR {A B} (r : result A) (k : A → script (result B)) : script (result B) :=
  match r with Ok a => k a | Err e => Done (Err e) end.
Definition run (t : tool) (args : list string) : script (result string) := Run t args Done.

(** [x ⇠ p; q] always continues, [x ⇠? p; q] returns the error of [p], and
    [x ⇠! r; q] that of a computation without commands. *)
Declare Scope script_scope.
Delimit Scope script_scope with script.
#[global] Open Scope script_scope.
Notation "x ⇠ p ; q" := (bindS p (λ x, q)) (at level 20, p at level 100, q at level 200) : script_scope.
Notation "x ⇠? p ; q" := (bindSE p (λ x, q)) (at level 20, p at level 100, q at level 200) : script_scope.
Notation "x ⇠! r ; q" := (bindSR r (λ x, q)) (at level 20, r at level 100, q at level 200) : script_scope.

Fixpoint forS {A S} (body : S → A → script (result S)) (s : S) (l : list A) : script (result S) :=
  match l with
  | [] => Done (Ok s)
  | x :: l => s' ⇠? body s x; forS body s' l
  end.

(** [_, err := d.runner.Run(...)]: the output of a command that only changes
    something is not read. *)
Definition command (t : tool) (args : list string) : script (result unit) :=
  r ⇠ run t args; Done (match r with Ok _ => Ok tt | Err e => Err e end).

(** * Tables *)

Definition MaxTableLine : Z := 1024 * 1024.
Definition field (fields : list string) (i : nat) : string := nth i fields "".

Definition tableLine {A} (columns : nat) (consume : A → list string → result A) (st : A * Z) (text : string) : result (A * Z) :=
  if MaxTableLine <=? Z.of_nat (String.length text)
  then Err (Wrapf "parse zfs output" (Errorf "bufio.Scanner: token too long"))
  else
    let line := st.2 + 1 in
    let fields := Split (dropCR text) "009" in
    if negb (length fields =? columns)%nat
    then Err (Errorf ("parse zfs output line " +:+ Itoa line +:+ ": expected " +:+ Itoa (Z.of_nat columns) +:+ " fields, got " +:+ Itoa (Z.of_nat (length fields))))
    else match consume st.1 fields with
         | Ok a => Ok (a, line)
         | Err e => Err (Wrapf ("parse zfs output line " +:+ Itoa line) e)
         end.
Definition parseTable {A} (output : string) (columns : nat) (consume : A → list string → result A) (a : A) : result A :=
  st ← foldM (tableLine columns consume) (a, 0) (dropLastEmpty (Split output "010")); Ok st.1.

(** [strconv.ParseUint(s, 10, 64)] of a number that must not be zero. *)
Definition positive64 (s : string) (e : error) : result Z :=
  match ParseUint s 64 with
  | Some n => if n =? 0 then Err e else Ok n
  | None => Err e
  end.

(** * Identities *)

Record identityRead := mkIdentityRead { ir_seen : gset string; ir_Type : string; ir_GUID : Z; ir_Placeholder : bool }.

Definition identityRow (dataset : string) (st : identityRead) (fields : list string) : result identityRead :=
  let property := field fields 1 in
  let value := field fields 2 in
  if negb (field fields 0 =? dataset)%string || bool_decide (property ∈ ir_seen st)
  then Err (Errorf ("unexpected dataset identity row " +:+ Quote (field fields 0)))
  else
    let seen := {[property]} ∪ ir_seen st in
    if (property =? "type")%string then
      if negb (value =? Filesystem)%string && negb (value =? Volume)%string
      then Err (Errorf ("unsupported dataset type " +:+ Quote value))
      else Ok (mkIdentityRead seen value (ir_GUID st) (ir_Placeholder st))
    else if (property =? "guid")%string then
      guid ← positive64 value (Errorf "invalid dataset GUID");
      Ok (mkIdentityRead seen (ir_Type st) guid (ir_Placeholder st))
    else if (property =? PlaceholderProperty)%string then
      Ok (mkIdentityRead seen (ir_Type st) (ir_GUID st) ((field fields 3 =? SourceLocal)%string && (value =? "on")%string))
    else Err (Errorf ("unexpected dataset identity property " +:+ Quote property)).

Definition poolRow (pool : string) (guid : Z) (fields : list string) : result Z :=
  if negb (field fields 0 =? pool)%string || negb (field fields 1 =? "guid")%string || negb (guid =? 0)
  then Err (Errorf "unexpected pool identity row")
  else positive64 (field fields 2) (Errorf "invalid pool GUID").

(** The pool runner is never nil for an executor that was constructed. *)
Definition InspectDatasetIdentity (dataset : string) : script (result DatasetIdentity) :=
  _ ⇠! validateDataset dataset;
  output ⇠? run ToolZfs ["get"; "-H"; "-p"; "-t"; "filesystem,volume"; "-o"; "name,property,value,source"; "type,guid," +:+ PlaceholderProperty; dataset];
  st ⇠! parseTable output 4 (identityRow dataset) (mkIdentityRead ∅ "" 0 false);
  if (ir_Type st =? "")%string || (ir_GUID st =? 0) then Done (Err (Errorf "dataset identity is missing")) else
  let pool := (Cut dataset "/").1.1 in
  output ⇠? run ToolZpool ["get"; "-H"; "-p"; "-o"; "name,property,value"; "guid"; pool];
  guid ⇠! parseTable output 3 (poolRow pool) 0;
  if guid =? 0 then Done (Err (Errorf "pool identity is missing")) else
  Done (Ok (mkDatasetIdentity dataset (ir_Type st) (ir_GUID st) pool guid (ir_Placeholder st))).

(** * Inventories *)

Definition datasetRow (datasets : list Dataset) (fields : list string) : result (list Dataset) :=
  _ ← validateDataset (field fields 0);
  if negb (field fields 1 =? Filesystem)%string && negb (field fields 1 =? Volume)%string
  then Err (Errorf ("unsupported dataset type " +:+ Quote (field fields 1)))
  else Ok (datasets ++ [mkDataset (field fields 0) (field fields 1) (field fields 2)]).
Definition parseDatasets (output : string) : result (list Dataset) := parseTable output 3 datasetRow [].
Definition ListDatasets : script (result (list Dataset)) :=
  output ⇠? run ToolZfs ["list"; "-H"; "-p"; "-t"; "filesystem,volume"; "-o"; "name,type,encryptionroot"];
  Done (parseDatasets output).

(** [slices.SortFunc] by [compareProperties]. *)
Definition propertyLe (a b : Property) : Prop := compareProperties a b ≠ Gt.
#[export] Instance propertyLe_dec a b : Decision (propertyLe a b) := decide (compareProperties a b ≠ Gt).
Definition sortProperties (l : list Property) : list Property := merge_sort propertyLe l.

Definition propertyRow (properties : list Property) (fields : list string) : result (list Property) :=
  if negb (HasPrefix (field fields 1) propertyNamespace) then Ok properties
  else
    _ ← validateDataset (field fields 0);
    if negb (field fields 3 =? SourceLocal)%string && negb (field fields 3 =? SourceReceived)%string
    then Err (Errorf ("unsupported property source " +:+ Quote (field fields 3)))
    else Ok (properties ++ [mkProperty (field fields 0) (field fields 1) (field fields 2) (field fields 3)]).
Definition parseProperties (output : string) : result (list Property) :=
  properties ← parseTable output 4 propertyRow []; Ok (sortProperties properties).

Definition storedQuery : list string := ["get"; "-H"; "-p"; "-s"; "local,received"; "-t"; "filesystem,volume"; "-o"; "name,property,value,source"].
Definition GetActivationProperties : script (result (list Property)) :=
  output ⇠? run ToolZfs (storedQuery ++ [propertyNamespace +:+ "enabled"]); Done (parseProperties output).
Definition GetLifecycleProperties : script (result (list Property)) :=
  let keys := Join [propertyNamespace +:+ "state:owner"; propertyNamespace +:+ "state:lineage"; propertyNamespace +:+ "state:inactive"] "," in
  output ⇠? run ToolZfs (storedQuery ++ [keys]); Done (parseProperties output).
Definition GetStoredProperties (datasets : list string) : script (result (list Property)) :=
  if (length datasets =? 0)%nat then Done (Ok []) else
  args ⇠! foldM (λ args dataset, _ ← validateDataset dataset; Ok (args ++ [dataset])) (storedQuery ++ ["all"]) datasets;
  output ⇠? run ToolZfs args; Done (parseProperties output).

(** * Changes *)

Definition snapshotMember (seen : gset string) (dataset : string) : result (gset string) :=
  _ ← validateDataset dataset;
  if bool_decide (dataset ∈ seen) then Err (Errorf ("snapshot set repeats dataset " +:+ Quote dataset)) else Ok ({[dataset]} ∪ seen).
Definition snapshotKey (keys : list string) (key : string) : result (list string) :=
  if negb (HasPrefix key propertyNamespace) then Err (Errorf ("snapshot property " +:+ Quote key +:+ " is outside " +:+ propertyNamespace))
  else Ok (keys ++ [key]).
Definition Snapshot (datasets : list string) (snapshot : string) (properties : gmap string string) : script (result unit) :=
  if (length datasets =? 0)%nat then Done (Err (Errorf "snapshot requires at least one dataset")) else
  _ ⇠! validateComponent "snapshot" snapshot;
  _ ⇠! foldM snapshotMember ∅ datasets;
  keys ⇠! foldM snapshotKey [] (map_to_list properties).*1;
  command ToolZfs ("snapshot" :: concat ((λ key, ["-o"; key +:+ "=" +:+ default "" (properties !! key)]) <$> SortStrings keys)
                   ++ SortStrings ((λ dataset, dataset +:+ "@" +:+ snapshot) <$> datasets)).

Definition DestroySnapshot (snapshot : string) : script (result unit) :=
  _ ⇠! validateSnapshot snapshot; command ToolZfs ["destroy"; snapshot].
Definition Bookmark (snapshot bookmark : string) : script (result unit) :=
  _ ⇠! validateSnapshot snapshot; _ ⇠! validateBookmark bookmark; command ToolZfs ["bookmark"; snapshot; bookmark].
Definition DestroyBookmark (bookmark : string) : script (result unit) :=
  _ ⇠! validateBookmark bookmark; command ToolZfs ["destroy"; bookmark].
Definition Hold (tag snapshot : string) : script (result unit) :=
  _ ⇠! validateComponent "hold tag" tag; _ ⇠! validateSnapshot snapshot; command ToolZfs ["hold"; tag; snapshot].
Definition Release (tag snapshot : string) : script (result unit) :=
  _ ⇠! validateComponent "hold tag" tag; _ ⇠! validateSnapshot snapshot; command ToolZfs ["release"; tag; snapshot].

Definition CreateReceiveParent (dataset : string) : script (result unit) :=
  _ ⇠! validateDataset dataset;
  command ToolZfs ["create"; "-o"; "canmount=noauto"; "-o"; PlaceholderProperty +:+ "=on"; dataset].
Definition RenameDataset (from to : string) : script (result unit) :=
  _ ⇠! validateDataset from;
  _ ⇠! validateDataset to;
  let fromPool := (Cut from "/").1.1 in
  let toPool := (Cut to "/").1.1 in
  if negb (fromPool =? toPool)%string || (from =? fromPool)%string || (to =? toPool)%string || (from =? to)%string || HasPrefix to (from +:+ "/")
  then Done (Err (Errorf ("cannot rename " +:+ from +:+ " to " +:+ to)))
  else command ToolZfs ["rename"; from; to].
Definition AbortReceive (dataset : string) : script (result unit) :=
  _ ⇠! validateDataset dataset; command ToolZfs ["receive"; "-A"; dataset].
Definition DestroyDataset (dataset : string) (recursive : bool) : script (result unit) :=
  _ ⇠! validateDataset dataset;
  command ToolZfs ("destroy" :: (if recursive then ["-r"] else []) ++ [dataset]).

Definition setArgument (properties : gmap string string) (args : list string) (key : string) : result (list string) :=
  let value := default "" (properties !! key) in
  _ ← validateUserProperty key;
  if Contains value NUL then Err (Errorf "property value contains NUL")
  else if MaxUserPropertyValue <? Z.of_nat (String.length value)
  then Err (Errorf ("property " +:+ key +:+ " value is " +:+ Itoa (Z.of_nat (String.length value)) +:+ " bytes, over the ZFS limit of " +:+ Itoa MaxUserPropertyValue))
  else Ok (args ++ [key +:+ "=" +:+ value]).
Definition SetProperties (object : string) (properties : gmap string string) : script (result unit) :=
  _ ⇠! validateObject object;
  if bool_decide (properties = ∅) then Done (Ok tt) else
  args ⇠! foldM (setArgument properties) ["set"] (SortStrings (map_to_list properties).*1);
  command ToolZfs (args ++ [object]).
Definition InheritProperty (object property : string) : script (result unit) :=
  _ ⇠! validateObject object; _ ⇠! validateUserProperty property; command ToolZfs ["inherit"; property; object].

(** * State inspection *)

Definition objectDisappeared (e : error) : bool :=
  Contains (ErrorText e) "cannot open '" && Contains (ErrorText e) "dataset does not exist".
Definition disappearedObject (e : error) (chunk : list string) : string :=
  match List.find (λ name, Contains (ErrorText e) ("cannot open '" +:+ name +:+ "'")) chunk with
  | Some name => name
  | None => Join chunk ", "
  end.

Definition readRow {A} (chunk : list string) (outside : string) (row : A → list string → A) (a : A) (f : list string) : result A :=
  if negb (bool_decide (field f 0 ∈ chunk)) then Err (Errorf outside) else Ok (row a f).
Definition readRows {A} (chunk : list string) (columns : nat) (outside : string) (row : A → list string → A) (a : A) (args : list string) : script (result A) :=
  out ⇠ run ToolZfs args;
  match out with
  | Err e => Done (Err (if objectDisappeared e then ErrInventoryChanged (disappearedObject e chunk) e else e))
  | Ok out => Done (parseTable out columns (readRow chunk outside row) a)
  end.

Definition marker (a : ascii) : bool := Ascii.eqb a "@" || Ascii.eqb a "#".
Definition objectRow (dataset : string) (recursive : bool) (st : gset string * list Object) (fields : list string) : result (gset string * list Object) :=
  let name := field fields 0 in
  let kind := field fields 1 in
  match FieldsFunc marker name with
  | base :: _ =>
    if negb (base =? dataset)%string && negb (HasPrefix base (dataset +:+ "/")) then Err (Errorf ("object outside query scope: " +:+ Quote name)) else
    if negb recursive && negb (base =? dataset)%string then Ok st else
    _ ← validateObject name;
    if bool_decide (name ∈ st.1) then Err (Errorf ("duplicate object " +:+ Quote name)) else
    guid ← positive64 (field fields 2) (Errorf ("invalid GUID for " +:+ name));
    created ← match ParseInt (field fields 3) 64 with
              | Some n => if n <? 0 then Err (Errorf ("invalid creation for " +:+ name)) else Ok n
              | None => Err (Errorf ("invalid creation for " +:+ name))
              end;
    if negb (bool_decide (kind ∈ ["filesystem"; "volume"; "snapshot"; "bookmark"])) then Err (Errorf ("unexpected object type " +:+ Quote kind)) else
    if negb (eqb (kind =? "snapshot")%string (Contains name "@")) || negb (eqb (kind =? "bookmark")%string (Contains name "#"))
    then Err (Errorf ("object name and type disagree: " +:+ Quote name)) else
    txg ← positive64 (field fields 4) (Errorf ("invalid creation transaction for " +:+ name));
    Ok ({[name]} ∪ st.1, st.2 ++ [mkObject name kind guid created txg])
  | [] => Err (Errorf ("object outside query scope: " +:+ Quote name))
  end.
Definition objectLe (a b : Object) : Prop := String.le (ob_Name a) (ob_Name b).
#[export] Instance objectLe_dec a b : Decision (objectLe a b) := decide (String.le (ob_Name a) (ob_Name b)).

(** The rows read so far for each object, those of the first query and those of
    the second. *)
Abbreviation rowMap := (gmap string (list (list string) * list (list string))).
Definition fixedKeys : list string := [propertyNamespace +:+ "state:lineage"; propertyNamespace +:+ "state:snapshot"].
Definition addFirst (rows : rowMap) (name : string) (f : list string) : rowMap :=
  let '(first, second) := default ([], []) (rows !! name) in <[name := (first ++ [f], second)]> rows.
Definition addSecond (rows : rowMap) (name : string) (f : list string) : rowMap :=
  let '(first, second) := default ([], []) (rows !! name) in <[name := (first, second ++ [f])]> rows.

Record chunkRead := mkChunkRead { cr_rows : rowMap; cr_listed : gset string; cr_keys : list string }.
Definition listedKey (name key : string) : string := name +:+ NUL +:+ key.
Definition allRow (st : chunkRead) (f : list string) : chunkRead :=
  let name := field f 0 in
  let key := field f 1 in
  let rows := addFirst (cr_rows st) name [name; key; field f 2; "-"; field f 3] in
  if HasPrefix key propertyNamespace
  then mkChunkRead rows ({[listedKey name key]} ∪ cr_listed st) (cr_keys st ++ [key])
  else mkChunkRead rows (cr_listed st) (cr_keys st).
Definition receivedRow (listed : gset string) (rows : rowMap) (f : list string) : rowMap :=
  if bool_decide (field f 1 ∈ fixedKeys) || bool_decide (listedKey (field f 0) (field f 1) ∈ listed) then addSecond rows (field f 0) f else rows.
Definition allQuery (chunk : list string) : list string := ["get"; "-H"; "-p"; "-o"; "name,property,value,source"; "all"] ++ chunk.
Definition keyQuery (keys chunk : list string) : list string :=
  ["get"; "-H"; "-p"; "-o"; "name,property,value,received,source"; Join keys ","] ++ chunk.
Definition readChunk (rows : rowMap) (chunk : list string) : script (result rowMap) :=
  st ⇠? readRows chunk 4 "property outside exact object query" allRow (mkChunkRead rows ∅ fixedKeys) (allQuery chunk);
  readRows chunk 5 "property outside exact object query" (receivedRow (cr_listed st)) (cr_rows st)
    (keyQuery (Compact (SortStrings (cr_keys st))) chunk).

(** One row applied to the state. *)
Definition applyRow (s : State) (f : list string) : State :=
  let name := field f 0 in
  let key := field f 1 in
  let value := field f 2 in
  let set := negb (value =? "-")%string && negb (value =? "")%string in
  let tokens := if (key =? "receive_resume_token")%string && set then <[name := value]> (ResumeTokens s) else ResumeTokens s in
  let clones := if (key =? "clones")%string && set then <[name := Split value ","]> (Clones s) else Clones s in
  if negb (HasPrefix key propertyNamespace) then mkState (Objects s) (Properties s) (Received s) tokens clones (Holds s)
  else
    let received := if negb (field f 3 =? "-")%string
                    then <[name := <[key := field f 3]> (default ∅ (Received s !! name))]> (Received s) else Received s in
    let properties := if (field f 4 =? "local")%string || (field f 4 =? "received")%string
                      then appendNew (Properties s) (mkProperty name key value (field f 4)) else Properties s in
    mkState (Objects s) properties received tokens clones (Holds s).
Definition applyRows (rows : rowMap) (s : State) (name : string) : State :=
  let '(first, second) := default ([], []) (rows !! name) in fold_left applyRow (first ++ second) s.

Definition holdRow (holds : gmap string (list string)) (f : list string) : gmap string (list string) :=
  <[field f 0 := default [] (holds !! field f 0) ++ [field f 1]]> holds.
Definition holdQuery (chunk : list string) : list string := ["holds"; "-H"] ++ chunk.
Definition readHolds (holds : gmap string (list string)) (chunk : list string) : script (result (gmap string (list string))) :=
  readRows chunk 3 "hold outside queried snapshot" holdRow holds (holdQuery chunk).

(** [slices.Sort] of every hold and clone list, and the canonical order of the
    properties. *)
Definition canonical (s : State) (holds : gmap string (list string)) : State :=
  mkState (Objects s) (sortProperties (Properties s)) (Received s) (ResumeTokens s) (SortStrings <$> Clones s) (SortStrings <$> holds).

Definition named (objects : list Object) : list string := ob_Name <$> filter (λ o, ob_Type o ≠ "bookmark") objects.
Definition snapshotNames (objects : list Object) : list string := ob_Name <$> filter (λ o, ob_Type o = "snapshot") objects.
Definition inventoryQuery (dataset : string) (recursive : bool) : list string :=
  ["list"; "-H"; "-p"; "-r"] ++ (if recursive then [] else ["-d"; "1"])
  ++ ["-t"; "filesystem,volume,snapshot,bookmark"; "-o"; "name,type,guid,creation,createtxg"; dataset].
Definition inspectOnce (batch : nat) (dataset : string) (recursive : bool) : script (result State) :=
  _ ⇠! validateDataset dataset;
  output ⇠? run ToolZfs (inventoryQuery dataset recursive);
  st ⇠! parseTable output 5 (objectRow dataset recursive) (∅, []);
  if negb (bool_decide (dataset ∈ st.1)) then Done (Err (Errorf "dataset missing from inventory")) else
  let objects := merge_sort objectLe st.2 in
  rows ⇠? forS readChunk ∅ (inspectionChunks batch (named objects));
  let state := fold_left (applyRows rows) (named objects) (mkState objects [] ∅ ∅ ∅ ∅) in
  holds ⇠? forS readHolds ∅ (inspectionChunks batch (snapshotNames objects));
  Done (Ok (canonical state holds)).

Definition inspectStateAttempts : nat := 3.
Definition inventoryChange (e : error) : option error :=
  List.find (λ e, match e with ErrInventoryChanged _ _ => true | _ => false end) (errorChain e).
Fixpoint inspectAttempts (fuel : nat) (batch : nat) (dataset : string) (recursive : bool) (changed : error) : script (result State) :=
  match fuel with
  | O => Done (Err changed)
  | S fuel =>
    r ⇠ inspectOnce batch dataset recursive;
    match r with
    | Ok state => Done (Ok state)
    | Err e =>
      match inventoryChange e with
      | None => Done (Err e)
      | Some changed => ContextErr (λ ended, match ended with Some e => Done (Err e) | None => inspectAttempts fuel batch dataset recursive changed end)
      end
    end
  end.
(** The initial [changed] is a nil pointer: no attempt at all cannot happen. *)
Definition InspectState (batch : nat) (dataset : string) (recursive : bool) : script (result State) :=
  inspectAttempts inspectStateAttempts batch dataset recursive (Errorf "").

(** * The executor's methods *)

Definition executor (batch : nat) {R} (o : op R) : option (script R) :=
  match o in op R return option (script R) with
  | Backend.InspectState dataset recursive => Some (InspectState batch dataset recursive)
  | Backend.SetProperties object properties => Some (SetProperties object properties)
  | TakeSnapshot members name properties => Some (Snapshot members name properties)
  | Backend.DestroySnapshot snapshot => Some (DestroySnapshot snapshot)
  | HoldSnapshot tag snapshot => Some (Hold tag snapshot)
  | ReleaseHold tag snapshot => Some (Release tag snapshot)
  | CreateBookmark snapshot bookmark => Some (Bookmark snapshot bookmark)
  | Backend.DestroyBookmark bookmark => Some (DestroyBookmark bookmark)
  | Backend.InheritProperty object property => Some (InheritProperty object property)
  | Backend.ListDatasets => Some ListDatasets
  | Backend.GetActivationProperties => Some GetActivationProperties
  | Backend.InspectDatasetIdentity dataset => Some (InspectDatasetIdentity dataset)
  | Backend.GetStoredProperties datasets => Some (GetStoredProperties datasets)
  | Backend.CreateReceiveParent dataset => Some (CreateReceiveParent dataset)
  | Backend.RenameDataset from to => Some (RenameDataset from to)
  | Backend.DestroyDataset dataset recursive => Some (DestroyDataset dataset recursive)
  | Backend.AbortReceive dataset => Some (AbortReceive dataset)
  | _ => None
  end.

(** [ran p tr a]: [tr] is the commands of a run of [p], with their answers, and
    the run ends in [a]. *)
Abbreviation commandRun := (tool * list string * result string)%type.
Fixpoint ran {A} (p : script A) (tr : list commandRun) (a : A) : Prop :=
  match p with
  | Done x => tr = [] ∧ a = x
  | Run t args k => ∃ r tr', tr = (t, args, r) :: tr' ∧ ran (k r) tr' a
  | ContextErr k => ∃ e, ran (k e) tr a
  end.

(** The answers of a runner, for running a script; the context never ends. *)
Fixpoint answerWith {A} (answer : tool → list string → result string) (p : script A) : list commandRun * A :=
  match p with
  | Done a => ([], a)
  | Run t args k => let r := answer t args in let '(tr, a) := answerWith answer (k r) in ((t, args, r) :: tr, a)
  | ContextErr k => answerWith answer (k None)
  end.
Lemma answerWith_ran {A} answer (p : script A) : ran p (answerWith answer p).1 (answerWith answer p).2.
Proof.
  induction p as [a|t args k IH|k IH]; cbn; [done| |by exists None].
  specialize (IH (answer t args)). destruct (answerWith answer (k (answer t args))) as [tr a]. by exists (answer t args), tr.
Qed.

Lemma ran_bind {A B} (p : script A) (k : A → script B) tr b :
  ran (bindS p k) tr b → ∃ tr1 a tr2, tr = tr1 ++ tr2 ∧ ran p tr1 a ∧ ran (k a) tr2 b.
Proof.
  revert tr. induction p as [a|t args c IH|c IH]; intros tr H; cbn in H.
  - by exists [], a, tr.
  - destruct H as (r & tr' & -> & (tr1 & a & tr2 & -> & H1 & H2)%IH). exists ((t, args, r) :: tr1), a, tr2. split_and!; [done|cbn; eauto|done].
  - destruct H as (e & (tr1 & a & tr2 & -> & H1 & H2)%IH). exists tr1, a, tr2. split_and!; [done|by exists e|done].
Qed.

Lemma ran_command t args tr a : ran (command t args) tr a → ∃ r, tr = [(t, args, r)] ∧ a = match r with Ok _ => Ok tt | Err e => Err e end.
Proof. intros (r & tr' & -> & -> & ->). by exists r. Qed.
