(* ===== verification/DirectSafe.v ===== *)
(** The command line of each change the direct executor makes: the executor runs
    that one and no other, and its queries change nothing. *)

From Stdlib Require Import Ascii.
From S2P Require Import Prelude GoStrings Names Zfs Backend Direct.

(** * Command lines *)

Definition isOption (s : string) : bool := HasPrefix s "-".
Definition settingOf (kv : string * string) : string := kv.1 +:+ "=" +:+ kv.2.

(** The command line each change asks for. The properties it sets and the
    datasets of a snapshot may come in any order. *)
Definition asks (c : op (result unit)) (args : list string) : Prop :=
  match c with
  | TakeSnapshot members name properties => ∃ l ds, l ≡ₚ map_to_list properties ∧ ds ≡ₚ members ∧
      args = "snapshot" :: (l ≫= λ kv, ["-o"; settingOf kv]) ++ ((λ d, d +:+ "@" +:+ name) <$> ds)
  | Backend.SetProperties object properties => ∃ l, l ≡ₚ map_to_list properties ∧ args = "set" :: (settingOf <$> l) ++ [object]
  | Backend.InheritProperty object property => args = ["inherit"; property; object]
  | Backend.DestroySnapshot name | Backend.DestroyBookmark name | Backend.DestroyDataset name false => args = ["destroy"; name]
  | Backend.DestroyDataset name true => args = ["destroy"; "-r"; name]
  | CreateBookmark snapshot bookmark => args = ["bookmark"; snapshot; bookmark]
  | HoldSnapshot tag snapshot => args = ["hold"; tag; snapshot]
  | ReleaseHold tag snapshot => args = ["release"; tag; snapshot]
  | Backend.CreateReceiveParent dataset => args = ["create"; "-o"; "canmount=noauto"; "-o"; PlaceholderProperty +:+ "=on"; dataset]
  | Backend.RenameDataset from to => args = ["rename"; from; to]
  | Backend.AbortReceive dataset => args = ["receive"; "-A"; dataset]
  | _ => False
  end.

(** The options a change is asked for with, but for a hold's tag, which is passed
    as it is. *)
Definition optionOf (c : op (result unit)) (arg : string) : Prop :=
  match c with
  | Backend.DestroyDataset _ recursive => recursive = true ∧ arg = "-r"
  | Backend.AbortReceive _ => arg = "-A"
  | TakeSnapshot _ _ _ | Backend.CreateReceiveParent _ => arg = "-o"
  | HoldSnapshot tag _ | ReleaseHold tag _ => arg = tag
  | _ => False
  end.

(** A snapshot operand is one name, neither a list nor a range. *)
Definition oneSnapshot (c : op (result unit)) : Prop :=
  match c with
  | Backend.DestroySnapshot s | HoldSnapshot _ s | ReleaseHold _ s | CreateBookmark s _ =>
      ∃ d n, s = d +:+ "@" +:+ n ∧ "@"%char ∉ bytes_of d ∧ "@"%char ∉ bytes_of n ∧ ","%char ∉ bytes_of n ∧ "%"%char ∉ bytes_of n
  | _ => True
  end.

(** [o'] is [o], but for the order of the datasets of a snapshot. *)
Definition namedSnapshot (o : op (result unit)) : option (list string * string * gmap string string) :=
  match o with TakeSnapshot members name properties => Some (members, name, properties) | _ => None end.
Definition sameChange (o o' : op (result unit)) : Prop :=
  match namedSnapshot o, namedSnapshot o' with
  | Some (members, name, properties), Some (members', name', properties') => members ≡ₚ members' ∧ name = name' ∧ properties = properties'
  | _, _ => o = o'
  end.
Lemma sameChange_join a b c : sameChange a c → sameChange b c → sameChange a b.
Proof.
  unfold sameChange. destruct (namedSnapshot a) as [[[ma na] pa]|] eqn:Ea, (namedSnapshot b) as [[[mb nb] pb]|] eqn:Eb, (namedSnapshot c) as [[[mc nc] pc]|] eqn:Ec;
    try congruence. intros (H1 & -> & ->) (H2 & -> & ->). split; [by rewrite H1, H2|done].
Qed.

(** The keys a snapshot is tagged with have no equals sign, which its executor
    does not check. *)
Definition plainKeys (c : op (result unit)) : Prop :=
  match c with TakeSnapshot _ _ properties => ∀ k v, properties !! k = Some v → "="%char ∉ bytes_of k | _ => True end.

(** ** A command line gives back its change

    The functions from here to [readChange] invert [asks]; they serve only to show
    that no two changes ask for the same line. *)

Fixpoint readOptions (args : list string) : gmap string string * list string :=
  match args with
  | flag :: setting :: rest =>
    if (flag =? "-o")%string then
      let '(k, v, _) := Cut setting "=" in
      let r := readOptions rest in (<[k := v]> r.1, r.2)
    else (∅, args)
  | _ => (∅, args)
  end.
Definition readName (name : string) : string * string := (Cut name "@").1.
Fixpoint readSet (args : list string) : gmap string string * string :=
  match args with
  | [object] => (∅, object)
  | setting :: args => let '(k, v, _) := Cut setting "=" in let r := readSet args in (<[k := v]> r.1, r.2)
  | [] => (∅, "")
  end.
Definition readChange (args : list string) : option (op (result unit)) :=
  match args with
  | [] => None
  | verb :: args =>
    if (verb =? "snapshot")%string then
      let r := readOptions args in
      Some (TakeSnapshot ((readName <$> r.2).*1) (default "" (head (readName <$> r.2).*2)) r.1)
    else if (verb =? "set")%string then Some (Backend.SetProperties (readSet args).2 (readSet args).1)
    else match args with
    | [x] =>
      if (verb =? "destroy")%string then
        Some (if ContainsByte x "@" then Backend.DestroySnapshot x else if ContainsByte x "#" then Backend.DestroyBookmark x else Backend.DestroyDataset x false)
      else None
    | [x; y] =>
      if (verb =? "destroy")%string then Some (Backend.DestroyDataset y true)
      else if (verb =? "receive")%string then Some (Backend.AbortReceive y)
      else if (verb =? "bookmark")%string then Some (CreateBookmark x y)
      else if (verb =? "hold")%string then Some (HoldSnapshot x y)
      else if (verb =? "release")%string then Some (ReleaseHold x y)
      else if (verb =? "rename")%string then Some (Backend.RenameDataset x y)
      else if (verb =? "inherit")%string then Some (Backend.InheritProperty y x)
      else None
    | [_; _; _; _; d] => if (verb =? "create")%string then Some (Backend.CreateReceiveParent d) else None
    | _ => None
    end
  end.

Lemma isOption_app s t : s ≠ "" → isOption (s +:+ t) = isOption s.
Proof. unfold isOption, HasPrefix. destruct s as [|a s]; [done|]. rewrite app_cons_str. cbn. destruct (Ascii.ascii_dec "-" a); by destruct s, t. Qed.

Lemma dataset_operand d : validateDataset d = Ok tt → isOption d = false ∧ ContainsByte d "@" = false ∧ ContainsByte d "#" = false.
Proof. intros (Hne & Hat & Hh & _ & Hd & _)%validateDataset_ok. by rewrite !ContainsByte_false. Qed.
Lemma snapshot_operand s : validateSnapshot s = Ok tt → isOption s = false ∧ ContainsByte s "@" = true.
Proof.
  intros (d & c & -> & Hd & _)%validateSnapshot_iff. pose proof (validateDataset_ok _ Hd) as (Hne & _ & _ & _ & Hopt & _). split; [by rewrite isOption_app|].
  apply ContainsByte_spec. rewrite !bytes_of_app. set_solver.
Qed.
Lemma bookmark_operand b : validateBookmark b = Ok tt → isOption b = false ∧ ContainsByte b "@" = false ∧ ContainsByte b "#" = true.
Proof.
  unfold validateBookmark. destruct (Cut b "#") as [[d c] found] eqn:E. intros H. case_hyps. destruct found; [|done].
  apply bind_Ok in H as ([] & Hd & Hc). apply Cut_found in E as [-> _]. pose proof (validateDataset_ok _ Hd) as (Hne & Hat & _ & _ & Hopt & _).
  apply validateComponent_ok in Hc as (_ & _ & Hcat & _). rewrite ContainsByte_false, ContainsByte_spec, bytes_of_app.
  split_and!; [by rewrite isOption_app|cbn; set_solver|cbn; set_solver].
Qed.

(** Settings read back, in any order, are the map they came from. *)
Lemma Cut_setting kv : "="%char ∉ bytes_of kv.1 → Cut (settingOf kv) "=" = (kv.1, kv.2, true).
Proof. unfold settingOf. rewrite app_cons_str, app_nil_str. apply Cut_app. Qed.
Lemma readOptions_none names : Forall (λ s, isOption s = false) names → readOptions names = (∅, names).
Proof. intros H. destruct names as [|flag [|s rest]]; [done..|]. cbn. destruct (String.eqb_spec flag "-o") as [->|]; [|done]. by apply Forall_cons in H as [? _]. Qed.
Lemma readOptions_settings l names : (∀ kv, kv ∈ l → "="%char ∉ bytes_of kv.1) → Forall (λ s, isOption s = false) names →
  readOptions ((l ≫= λ kv, ["-o"; settingOf kv]) ++ names) = (list_to_map l, names).
Proof.
  intros Hk Hn. induction l as [|kv l IH]; [by apply readOptions_none|]. cbn [mbind list_bind app readOptions].
  rewrite String.eqb_refl, Cut_setting by (apply Hk; by left). rewrite IH by (intros x Hx; apply Hk; by right). by destruct kv.
Qed.
Lemma readSet_settings l object : (∀ kv, kv ∈ l → "="%char ∉ bytes_of kv.1) → readSet ((settingOf <$> l) ++ [object]) = (list_to_map l, object).
Proof.
  intros Hk. induction l as [|kv l IH]; [done|]. cbn [fmap list_fmap app]. specialize (IH ltac:(intros x Hx; apply Hk; by right)).
  assert (∀ s r, r ≠ [] → readSet (s :: r) = let '(k, v, _) := Cut s "=" in let r := readSet r in (<[k := v]> r.1, r.2)) as Hcons by by intros s [].
  rewrite Hcons by by destruct l. rewrite Cut_setting by (apply Hk; by left). rewrite IH. by destruct kv.
Qed.
Lemma settings_back (l : list (string * string)) m : l ≡ₚ map_to_list m → list_to_map l = (m : gmap string string).
Proof.
  intros Hp. rewrite <- (list_to_map_to_list m). apply list_to_map_proper; [|done]. rewrite Hp. apply NoDup_fst_map_to_list.
Qed.
Lemma readName_names name ds : Forall (λ d, "@"%char ∉ bytes_of d) ds → readName <$> ((λ d, d +:+ "@" +:+ name) <$> ds) = (λ d, (d, name)) <$> ds.
Proof.
  intros H. rewrite <- list_fmap_compose. induction H as [|d ds Hd _ IH]; [done|]. cbn [fmap list_fmap]. f_equal; [|exact IH].
  unfold compose, readName. rewrite app_cons_str, app_nil_str. by rewrite Cut_app.
Qed.

Lemma object_operand object : validateObject object = Ok tt → isOption object = false.
Proof. unfold validateObject. intros H. case_hyps; [by apply snapshot_operand|by apply bookmark_operand|by apply dataset_operand]. Qed.

Lemma userProperty_ok k : validateUserProperty k = Ok tt → "="%char ∉ bytes_of k ∧ isOption k = false ∧ k ≠ "".
Proof.
  unfold validateUserProperty. intros H. case_hyps. apply orb_false_iff in E as [E _]. apply negb_false_iff, HasPrefix_spec in E as [t ->].
  split_and!; [|by rewrite isOption_app|done]. intros Hin. apply ContainsByte_spec in Hin.
  unfold ContainsFunc in E0. rewrite <- not_true_iff_false, existsb_exists in E0. apply E0. clear E0. apply ContainsByte_spec in Hin.
  assert (∀ s, "="%char ∈ bytes_of s → ∃ a b, s = a +:+ String "=" b) as Hsplit.
  { clear. induction s as [|c s IH]; cbn; [set_solver|]. intros [<-|H]%elem_of_cons; [by exists "", s|].
    destruct (IH H) as (a & b & ->). exists (String c a), b. by rewrite app_cons_str. }
  apply Hsplit in Hin as (a & b & ->). exists (byteZ "="). rewrite runes_ascii by done. split; [|done]. apply list_elem_of_In. set_solver.
Qed.

(** The change an operation asks for, and what its answer says of it. *)
Definition changeOf {R} (o : op R) : option (op (result unit) * (R → result unit)) :=
  match o in op R return option (op (result unit) * (R → result unit)) with
  | Backend.SetProperties object properties => Some (Backend.SetProperties object properties, id)
  | TakeSnapshot members name properties => Some (TakeSnapshot members name properties, id)
  | Backend.DestroySnapshot snapshot => Some (Backend.DestroySnapshot snapshot, id)
  | HoldSnapshot tag snapshot => Some (HoldSnapshot tag snapshot, id)
  | ReleaseHold tag snapshot => Some (ReleaseHold tag snapshot, id)
  | CreateBookmark snapshot bookmark => Some (CreateBookmark snapshot bookmark, id)
  | Backend.DestroyBookmark bookmark => Some (Backend.DestroyBookmark bookmark, id)
  | Backend.InheritProperty object property => Some (Backend.InheritProperty object property, id)
  | Backend.CreateReceiveParent dataset => Some (Backend.CreateReceiveParent dataset, id)
  | Backend.RenameDataset from to => Some (Backend.RenameDataset from to, id)
  | Backend.DestroyDataset dataset recursive => Some (Backend.DestroyDataset dataset recursive, id)
  | Backend.AbortReceive dataset => Some (Backend.AbortReceive dataset, id)
  | _ => None
  end.

(** The changes the executor accepts: valid names of the right kind, properties
    of its namespace that zfs can store, and renames within a pool. *)
Definition allowed (c : op (result unit)) : Prop :=
  match c with
  | Backend.SetProperties object properties => validateObject object = Ok tt ∧ ∀ k v, properties !! k = Some v →
      validateUserProperty k = Ok tt ∧ Contains v NUL = false ∧ Z.of_nat (String.length v) ≤ MaxUserPropertyValue
  | TakeSnapshot members name properties => members ≠ [] ∧ NoDup members ∧ Forall (λ d, validateDataset d = Ok tt) members ∧
      validateComponent "snapshot" name = Ok tt ∧ ∀ k v, properties !! k = Some v → HasPrefix k propertyNamespace = true
  | Backend.DestroySnapshot snapshot => validateSnapshot snapshot = Ok tt
  | HoldSnapshot tag snapshot | ReleaseHold tag snapshot => validateComponent "hold tag" tag = Ok tt ∧ validateSnapshot snapshot = Ok tt
  | CreateBookmark snapshot bookmark => validateSnapshot snapshot = Ok tt ∧ validateBookmark bookmark = Ok tt
  | Backend.DestroyBookmark bookmark => validateBookmark bookmark = Ok tt
  | Backend.InheritProperty object property => validateObject object = Ok tt ∧ validateUserProperty property = Ok tt
  | Backend.RenameDataset from to => validateDataset from = Ok tt ∧ validateDataset to = Ok tt ∧
      (Cut from "/").1.1 = (Cut to "/").1.1 ∧ from ≠ (Cut from "/").1.1 ∧ to ≠ (Cut to "/").1.1 ∧ from ≠ to ∧ HasPrefix to (from +:+ "/") = false
  | Backend.CreateReceiveParent dataset | Backend.DestroyDataset dataset _ | Backend.AbortReceive dataset => validateDataset dataset = Ok tt
  | _ => False
  end.

(** No other allowed change asks for the line. *)
Definition unambiguous (c : op (result unit)) (args : list string) : Prop :=
  ∀ R (o : op R) c' answer, changeOf o = Some (c', answer) → allowed c' → plainKeys c' → asks c' args → sameChange c c'.

(** What a run of a change's script is: for an allowed change, the one command
    that asks for it, whose outcome is the answer, or nothing where there is
    nothing to set; for any other, no command and an error. *)
Definition exactly (c : op (result unit)) (tr : list commandRun) (a : result unit) : Prop :=
  (allowed c ∧ ∃ args r, tr = [(ToolZfs, args, r)] ∧ a = match r with Ok _ => Ok tt | Err e => Err e end ∧ asks c args ∧ oneSnapshot c ∧
     (∀ arg, arg ∈ args → isOption arg = true → optionOf c arg) ∧ (plainKeys c → unambiguous c args)) ∨
  (allowed c ∧ tr = [] ∧ a = Ok tt ∧ ∃ object, c = Backend.SetProperties object ∅) ∨
  (¬ allowed c ∧ tr = [] ∧ is_ok a = false).

Ltac operands := repeat match goal with
  | H : validateDataset _ = Ok _ |- _ => apply dataset_operand in H as (? & ? & ?)
  | H : validateSnapshot _ = Ok _ |- _ => apply snapshot_operand in H as (? & ?)
  | H : validateBookmark _ = Ok _ |- _ => apply bookmark_operand in H as (? & ? & ?)
  | H : validateObject _ = Ok _ |- _ => apply object_operand in H
  | H : validateUserProperty _ = Ok _ |- _ => apply userProperty_ok in H as (? & ? & ?)
  end.

Lemma member_options name ds : Forall (λ d, validateDataset d = Ok tt) ds → Forall (λ s, isOption s = false) ((λ d, d +:+ "@" +:+ name) <$> ds).
Proof.
  intros H. apply Forall_fmap. eapply Forall_impl; [exact H|]. intros d (Hne & _ & _ & _ & Hopt & _)%validateDataset_ok. cbn. by rewrite isOption_app.
Qed.

(** A line that asks for an allowed change has no other options. *)
Lemma asks_options R (o : op R) c answer args arg : changeOf o = Some (c, answer) →
  allowed c → asks c args → arg ∈ args → isOption arg = true → optionOf c arg.
Proof.
  intros E Hc Ha Hin Ho. destruct o; try discriminate E; injection E as <- _; cbn [allowed asks optionOf] in *; destruct_and?; operands;
    try (subst args; rewrite !elem_of_cons, elem_of_nil in Hin; intuition (subst; cbn in Ho; congruence)).
  - destruct Ha as (l & Hl & ->). rewrite elem_of_cons, elem_of_app, list_elem_of_singleton, list_elem_of_fmap in Hin.
    destruct Hin as [->|[(kv & -> & Hkv)| ->]]; [done| |congruence]. rewrite Hl in Hkv. destruct kv as [k v]. apply elem_of_map_to_list in Hkv.
    match goal with H : ∀ k v, _ → _ ∧ _ |- _ => destruct (H k v Hkv) as (Hk & _) end. apply userProperty_ok in Hk as (_ & Hk & Hne).
    unfold settingOf in Ho. cbn [fst snd] in Ho. by rewrite isOption_app, Hk in Ho.
  - destruct Ha as (l & ds & Hl & Hds & ->). rewrite elem_of_cons, elem_of_app, list_elem_of_bind in Hin. destruct Hin as [->|[(kv & Hkv & Hl')|Hin]]; [done| |].
    + rewrite !elem_of_cons, elem_of_nil in Hkv. destruct Hkv as [->|[->|[]]]; [done|]. rewrite Hl in Hl'. destruct kv as [k v]. apply elem_of_map_to_list in Hl'.
      match goal with H : ∀ k v, _ → HasPrefix k _ = true |- _ => specialize (H k v Hl'); apply HasPrefix_spec in H as [u ->] end. discriminate Ho.
    + match goal with H : Forall _ members |- _ => rewrite <- Hds in H; apply (member_options name) in H; rewrite Forall_forall in H; specialize (H _ Hin) end. congruence.
  - subst args. rewrite !elem_of_cons, elem_of_nil in Hin. destruct Hin as [->|[->|[->|[->|[->|[->|[]]]]]]]; done || congruence.
  - destruct recursive; subst args; rewrite !elem_of_cons, elem_of_nil in Hin; intuition (subst; cbn in Ho; congruence).
Qed.

Lemma allowed_one R (o : op R) c answer : changeOf o = Some (c, answer) → allowed c → oneSnapshot c.
Proof.
  intros E Hc. destruct o; try discriminate E; injection E as <- _; cbn [allowed oneSnapshot] in *; destruct_and?; try done;
    match goal with H : validateSnapshot _ = Ok _ |- _ => apply validateSnapshot_iff in H as (d & n & -> & (_ & ? & _)%validateDataset_ok & (_ & _ & ? & _)%validateComponent_ok & ? & ?) end;
    by exists d, n.
Qed.

(** It gives the change back. *)
Lemma asks_back R (o : op R) c answer args : changeOf o = Some (c, answer) →
  allowed c → plainKeys c → asks c args → ∃ c', readChange args = Some c' ∧ sameChange c c'.
Proof.
  intros E Hc Hk Ha. destruct o; try discriminate E; injection E as <- _; cbn [allowed asks plainKeys] in *; destruct_and?; operands.
  all: try by (subst args; eexists; split; [cbn -[ContainsByte]; repeat match goal with H : ContainsByte _ _ = _ |- _ => rewrite H end; reflexivity|done]).
  - destruct Ha as (l & Hl & ->). exists (Backend.SetProperties dataset properties). split; [|done]. cbn [readChange String.eqb Ascii.eqb Bool.eqb].
    rewrite readSet_settings; [cbn [fst snd]; by rewrite (settings_back _ _ Hl)|]. intros [k v] Hkv. rewrite Hl in Hkv. apply elem_of_map_to_list in Hkv.
    match goal with H : ∀ k v, _ → _ ∧ _ |- _ => destruct (H k v Hkv) as (Hu & _) end. by destruct (userProperty_ok _ Hu) as [? _].
  - destruct Ha as (l & ds & Hl & Hds & ->). match goal with H : Forall _ members |- _ => rewrite <- Hds in H; rename H into Hv end.
    exists (TakeSnapshot ds name properties). split; [|split; [by symmetry|done]]. cbn [readChange String.eqb Ascii.eqb Bool.eqb]. rewrite readOptions_settings.
    + cbn [fst snd]. rewrite readName_names by (eapply Forall_impl; [exact Hv|]; by intros d (_ & ? & _)%validateDataset_ok).
      destruct ds as [|d ds]; [apply Permutation_nil_l in Hds; congruence|]. cbn. rewrite <- !list_fmap_compose. unfold compose. cbn. rewrite list_fmap_id.
      by rewrite (settings_back _ _ Hl).
    + intros [k v] Hkv. rewrite Hl in Hkv. apply elem_of_map_to_list in Hkv. by eapply Hk.
    + by apply member_options.
  - destruct recursive; subst args; (eexists; split; [cbn -[ContainsByte]; repeat match goal with H : ContainsByte _ _ = _ |- _ => rewrite H end; reflexivity|done]).
Qed.

Lemma exactly_command c args tr a : changeOf c = Some (c, id) → allowed c → asks c args → ran (command ToolZfs args) tr a → exactly c tr a.
Proof.
  intros E Hc Ha (r & -> & ->)%ran_command. left. split; [done|]. exists args, r. split_and!; [done|by destruct r|done|by apply (allowed_one _ c c id)|intros arg; by eapply asks_options|].
  intros Hk R o c' answer E' Hc' Hk' Ha'. destruct (asks_back _ _ _ _ args E Hc Hk Ha) as (d & Hd & H1).
  destruct (asks_back _ _ _ _ args E' Hc' Hk' Ha') as (d' & Hd' & H2). assert (d = d') as -> by congruence. by eapply sameChange_join.
Qed.
Lemma exactly_check {A} (check : result A) (k : A → script (result unit)) c tr a :
  ran (bindSR check k) tr a → (allowed c → ∃ x, check = Ok x) → (∀ x, check = Ok x → ran (k x) tr a → exactly c tr a) → exactly c tr a.
Proof. intros H Hc Hk. destruct check as [x|e]; [by apply (Hk x)|]. destruct H as [-> ->]. right; right. split; [|done]. intros [x Hx]%Hc. done. Qed.
Lemma exactly_refused c e tr a : ¬ allowed c → ran (Done (Err e)) tr a → exactly c tr a.
Proof. intros Hc [-> ->]. by right; right. Qed.

Lemma snapshotMember_Ok seen d seen' : snapshotMember seen d = Ok seen' ↔ validateDataset d = Ok tt ∧ d ∉ seen ∧ seen' = {[d]} ∪ seen.
Proof.
  unfold snapshotMember. destruct (validateDataset d) as [[]|e]; cbn; [|by split; [|intros [? _]]].
  case_bool_decide as Hd; [by split; [|intros (_ & ? & _)]|]. split; [intros [= <-]; by split_and!|by intros (_ & _ & ->)].
Qed.
Lemma foldM_snapshotMember ds : ∀ seen, (∃ seen', foldM snapshotMember seen ds = Ok seen') ↔
  Forall (λ d, validateDataset d = Ok tt) ds ∧ NoDup ds ∧ ∀ d, d ∈ ds → d ∉ seen.
Proof.
  induction ds as [|d ds IH]; intros seen; cbn.
  { split; [intros _; split_and!; [constructor..|set_solver]|by eexists]. }
  rewrite Forall_cons, NoDup_cons. split.
  - intros (seen' & (s & (Hd & Hnew & ->)%snapshotMember_Ok & H)%bind_Ok). destruct (proj1 (IH _) (ex_intro _ _ H)) as (Hv & Hnd & Hs).
    split_and!; [done..| |done|]; [intros Hin; apply (Hs _ Hin); set_solver|]. intros x [->|Hx]%elem_of_cons; [done|]. specialize (Hs _ Hx). set_solver.
  - intros ([Hd Hv] & [Hin Hnd] & Hs). assert (snapshotMember seen d = Ok ({[d]} ∪ seen)) as -> by (apply snapshotMember_Ok; set_solver).
    apply IH. split_and!; [done..|]. intros x Hx. specialize (Hs x ltac:(set_solver)). set_solver.
Qed.
Lemma foldM_snapshotKey keys : ∀ acc l, foldM snapshotKey acc keys = Ok l ↔ l = acc ++ keys ∧ Forall (λ k, HasPrefix k propertyNamespace = true) keys.
Proof.
  induction keys as [|k keys IH]; intros acc l; cbn; [rewrite app_nil_r; split; [intros [=]; by split|by intros [-> _]]|].
  unfold snapshotKey at 2. rewrite Forall_cons. destruct (HasPrefix k propertyNamespace); cbn; [|split; [done|by intros (_ & ? & _)]].
  rewrite IH, <- app_assoc. tauto.
Qed.
Definition storable (m : gmap string string) (k : string) : Prop :=
  validateUserProperty k = Ok tt ∧ Contains (default "" (m !! k)) NUL = false ∧ Z.of_nat (String.length (default "" (m !! k))) ≤ MaxUserPropertyValue.
Lemma setArgument_Ok m acc k l : setArgument m acc k = Ok l ↔ l = acc ++ [(λ k, settingOf (k, default "" (m !! k))) k] ∧ storable m k.
Proof.
  unfold setArgument, storable. destruct (validateUserProperty k) as [[]|e]; cbn [mbind result_bind]; [|by split; [done|intros (_ & ? & _)]].
  destruct (Contains _ NUL); [by split; [done|intros (_ & _ & ? & _)]|].
  destruct (MaxUserPropertyValue <? _) eqn:E; [apply Z.ltb_lt in E|apply Z.ltb_ge in E]; split; [done|intros (_ & _ & _ & ?); lia| |by intros [-> _]].
  intros [= <-]. by split_and!.
Qed.
Lemma foldM_setArgument m keys : ∀ acc l, foldM (setArgument m) acc keys = Ok l ↔
  l = acc ++ ((λ k, settingOf (k, default "" (m !! k))) <$> keys) ∧ Forall (storable m) keys.
Proof.
  induction keys as [|k keys IH]; intros acc l; cbn; [rewrite app_nil_r; split; [intros [=]; by split|by intros [-> _]]|].
  rewrite Forall_cons. split.
  - intros (s & [-> Hk]%setArgument_Ok & [-> Hl]%IH)%bind_Ok. by rewrite <- app_assoc.
  - intros (-> & Hk & Hl). rewrite (proj2 (setArgument_Ok m acc k _) (conj eq_refl Hk)). apply IH. by rewrite <- app_assoc.
Qed.
(** The keys of a map are those of its entries. *)
Lemma Forall_keys (m : gmap string string) (P : string → Prop) : Forall P (map_to_list m).*1 ↔ ∀ k v, m !! k = Some v → P k.
Proof.
  rewrite Forall_fmap, Forall_forall. split; [intros H k v Hk; by apply (H (k, v)), elem_of_map_to_list|].
  intros H [k v] Hk%elem_of_map_to_list. by eapply H.
Qed.

Lemma Forall_storable m : Forall (storable m) (SortStrings (map_to_list m).*1) ↔
  ∀ k v, m !! k = Some v → validateUserProperty k = Ok tt ∧ Contains v NUL = false ∧ Z.of_nat (String.length v) ≤ MaxUserPropertyValue.
Proof.
  unfold SortStrings. rewrite merge_sort_Permutation, Forall_keys. unfold storable.
  split; intros H k v Hk; specialize (H k v Hk); rewrite Hk in *; exact H.
Qed.

(** The keys of a map, in any order, with what it has for them. *)
Lemma entries_perm (m : gmap string string) ks : ks ≡ₚ (map_to_list m).*1 → (λ k, (k, default "" (m !! k))) <$> ks ≡ₚ map_to_list m.
Proof.
  intros ->. rewrite <- list_fmap_compose. rewrite (list_fmap_ext _ id), list_fmap_id; [done|].
  intros i [k v] Hk%list_elem_of_lookup_2%elem_of_map_to_list. cbn. by rewrite Hk.
Qed.
Lemma concat_settings (value : string → string) ks :
  concat ((λ key, ["-o"; key +:+ "=" +:+ value key]) <$> ks) = ((λ k, (k, value k)) <$> ks) ≫= λ kv, ["-o"; settingOf kv].
Proof. induction ks as [|k ks IH]; [done|]. cbn in *. by rewrite IH. Qed.

Lemma Snapshot_exact members name properties tr a :
  ran (Snapshot members name properties) tr a → exactly (TakeSnapshot members name properties) tr a.
Proof.
  intros H. unfold Snapshot in H. destruct members as [|d ds] eqn:Em; [refine (exactly_refused _ _ _ _ _ H); by intros [? _]|]. rewrite <- Em in *. replace (length members =? 0)%nat with false in H by by rewrite Em.
  eapply exactly_check; [done|intros Hc; exists tt; apply Hc|]. clear H. intros [] Hname H.
  eapply exactly_check; [done|intros (_ & ? & ? & _); apply foldM_snapshotMember; split_and!; [done..|set_solver]|]. clear H. intros seen Hs H.
  destruct (proj1 (foldM_snapshotMember _ _) (ex_intro _ _ Hs)) as (Hseen & Hnd & _). clear Hs.
  eapply exactly_check; [done|intros (_ & _ & _ & _ & Hc); eexists; apply foldM_snapshotKey; split; [done|by apply Forall_keys]|].
  clear H. intros keys [-> Hkeys]%foldM_snapshotKey H. rewrite app_nil_l in H. cbn beta iota in H. rewrite concat_settings in H.
  pose proof (merge_sort_Permutation String.le ((λ d, d +:+ "@" +:+ name) <$> members)) as Hp. destruct (Permutation_map_inv _ _ Hp) as (ds' & Hds & Hperm).
  eapply exactly_command; [done|split_and!; [by rewrite Em|done..|by apply Forall_keys]| |exact H].
  exists ((λ k, (k, default "" (properties !! k))) <$> SortStrings (map_to_list properties).*1), ds'.
  split_and!; [apply entries_perm, merge_sort_Permutation|by symmetry|]. f_equal. f_equal. exact Hds.
Qed.

Lemma SetProperties_exact object properties tr a : ran (SetProperties object properties) tr a → exactly (Backend.SetProperties object properties) tr a.
Proof.
  intros H. eapply exactly_check; [done|intros [Hc _]; by eexists|]. clear H. intros [] Hobject H. case_bool_decide as Hm.
  { destruct H as [-> ->]. rewrite Hm. right; left. split; [split; [done|intros k v; by rewrite lookup_empty]|]. split_and!; [done..|by eexists]. }
  eapply exactly_check; [done|intros [_ Hc]; eexists; apply foldM_setArgument; split; [done|by apply Forall_storable]|]. clear H. intros args [-> Hkeys]%foldM_setArgument H.
  eapply exactly_command; [done|by split; [|apply Forall_storable]| |exact H].
  exists ((λ k, (k, default "" (properties !! k))) <$> SortStrings (map_to_list properties).*1).
  split; [apply entries_perm, merge_sort_Permutation|]. by rewrite <- list_fmap_compose.
Qed.

Lemma renamable from to : allowed (Backend.RenameDataset from to) ↔ validateDataset from = Ok tt ∧ validateDataset to = Ok tt ∧
  (negb ((Cut from "/").1.1 =? (Cut to "/").1.1)%string || (from =? (Cut from "/").1.1)%string || (to =? (Cut to "/").1.1)%string || (from =? to)%string
   || HasPrefix to (from +:+ "/")) = false.
Proof. cbn [allowed]. rewrite !orb_false_iff, negb_false_iff, String.eqb_eq, !String.eqb_neq. tauto. Qed.

Ltac exact_check H := eapply exactly_check; [exact H|cbn [allowed]; intros Hc; exists tt; tauto|clear H; intros [] ? H]; cbv beta iota zeta in H.
(** The checks that passed are the ones of an allowed change. *)
Ltac exact_run H := eapply exactly_command; [done|cbn [allowed]; tauto|done|exact H].



(** * Queries *)

Definition isQuery (c : commandRun) : Prop :=
  match c.1.2 with verb :: _ => verb = "list" ∨ verb = "get" ∨ verb = "holds" | [] => False end.
Definition queries {A} (p : script A) : Prop := ∀ tr a, ran p tr a → Forall isQuery tr.

Lemma queries_done {A} (a : A) : queries (Done a).
Proof. by intros tr x [-> ->]. Qed.
Lemma queries_bind {A B} (p : script A) (k : A → script B) : queries p → (∀ a, queries (k a)) → queries (bindS p k).
Proof. intros Hp Hk tr b (tr1 & a & tr2 & -> & H1 & H2)%ran_bind. apply Forall_app. split; [by eapply Hp|by eapply Hk]. Qed.
Lemma queries_bindE {A B} (p : script (result A)) (k : A → script (result B)) : queries p → (∀ a, queries (k a)) → queries (bindSE p k).
Proof. intros Hp Hk. apply queries_bind; [done|]. intros [a|e]; [apply Hk|apply queries_done]. Qed.
Lemma queries_bindR {A B} (r : result A) (k : A → script (result B)) : (∀ a, queries (k a)) → queries (bindSR r k).
Proof. intros Hk. destruct r; [apply Hk|apply queries_done]. Qed.
Lemma queries_run t verb args : verb = "list" ∨ verb = "get" ∨ verb = "holds" → queries (run t (verb :: args)).
Proof. intros Hv tr a (r & tr' & -> & -> & ->). apply Forall_singleton. exact Hv. Qed.
Lemma queries_forS {A S} (body : S → A → script (result S)) l : (∀ s x, queries (body s x)) → ∀ s, queries (forS body s l).
Proof. intros Hb. induction l as [|x l IH]; intros s; [apply queries_done|]. by apply queries_bindE. Qed.
Lemma queries_readRows {A} chunk columns outside (row : A → list string → A) a verb args :
  verb = "list" ∨ verb = "get" ∨ verb = "holds" → queries (readRows chunk columns outside row a (verb :: args)).
Proof. intros Hv. apply queries_bind; [by apply queries_run|]. intros []; apply queries_done. Qed.

Create HintDb queries.
#[export] Hint Resolve queries_done queries_bind queries_bindE queries_bindR queries_run queries_forS queries_readRows : queries.

Lemma queries_inspectOnce batch dataset recursive : queries (inspectOnce batch dataset recursive).
Proof.
  unfold inspectOnce. apply queries_bindR; intros _. apply queries_bindE; [apply queries_run; auto|]. intros output.
  apply queries_bindR; intros st. destruct (negb _); [apply queries_done|]. apply queries_bindE.
  { apply queries_forS. intros rows chunk. apply queries_bindE; [|intros read]; apply queries_readRows; auto. }
  intros rows. apply queries_bindE; [|auto with queries]. apply queries_forS. intros holds chunk. apply queries_readRows; auto.
Qed.
Lemma queries_inspectAttempts fuel batch dataset recursive : ∀ changed, queries (inspectAttempts fuel batch dataset recursive changed).
Proof.
  induction fuel as [|fuel IH]; intros changed; [apply queries_done|]. cbn [inspectAttempts]. apply queries_bind; [apply queries_inspectOnce|].
  intros [state|e]; [apply queries_done|]. destruct (inventoryChange e) as [changed'|]; [|apply queries_done].
  intros tr a [[e'|] H]; [by destruct H as [-> ->]|by eapply IH].
Qed.

(** An operation that changes nothing only asks. *)
Theorem executor_reads batch R (o : op R) p tr a : executor batch o = Some p → mutates o = false → ran p tr a → Forall isQuery tr.
Proof.
  intros Hp Hm. assert (queries p) as Hq; [|apply Hq]. destruct o; try discriminate; injection Hp as <-.
  - apply queries_inspectAttempts.
  - unfold ListDatasets. apply queries_bindE; [apply queries_run|]; auto with queries.
  - unfold GetActivationProperties. apply queries_bindE; [apply queries_run|]; auto with queries.
  - unfold InspectDatasetIdentity. apply queries_bindR; intros _. apply queries_bindE; [apply queries_run; auto|]. intros output.
    apply queries_bindR; intros st. destruct (_ || _); [apply queries_done|]. apply queries_bindE; [apply queries_run; auto|].
    intros output'. apply queries_bindR; intros guid. destruct (_ =? _); apply queries_done.
  - unfold GetStoredProperties. destruct (_ =? _)%nat; [apply queries_done|].
    destruct (foldM _ (storedQuery ++ ["all"]) datasets) as [args|e] eqn:E; [|apply queries_done]. cbn [bindSR].
    assert (∃ l, args = "get" :: l) as [l ->]; [|apply queries_bindE; [apply queries_run|]; auto with queries].
    assert (∀ l acc, (∃ t, acc = "get" :: t) → ∀ r, foldM (λ args dataset, _ ← validateDataset dataset; Ok (args ++ [dataset])) acc l = Ok r → ∃ t, r = "get" :: t) as Hf.
    { clear. induction l as [|d l IH]; intros acc [t ->] r H; cbn in H; [simplify_eq; eauto|]. apply bind_Ok in H as (x & Hx & H).
      apply bind_Ok in Hx as ([] & _ & Hx). simplify_eq. apply IH in H; [done|]. by exists (t ++ [d]). }
    by eapply Hf; [|exact E]; eexists.
Qed.
