(* ===== verification/DirectState.v ===== *)
(** What an inspection by the direct executor sees.

    [inspectOnce] asks for the properties of many objects at a time, twice, and
    sorts what comes back by object. Here is the inspection it stands for: one
    query per object, of all its properties with what was received for each, and
    of the two ownership keys. The theorem shows that both see the same state,
    whatever the size of the batches. *)

From Stdlib Require Import Ascii.
From S2P Require Import Prelude GoStrings Names Zfs Backend Direct.

(** * The canonical order *)

Record ordered {A} (c : A → A → comparison) : Prop := {
  o_sym : ∀ a b, c a b = CompOpp (c b a);
  o_trans : ∀ a b d, c a b ≠ Gt → c b d ≠ Gt → c a d ≠ Gt
}.

Lemma ordered_eq {A} (c : A → A → comparison) : ordered c → ∀ a b d, c a b = Eq → c a d = c b d.
Proof.
  intros [Hs Ht] a b d E. assert (c b a = Eq) as E' by (rewrite Hs, E; done).
  pose proof (Ht a b d) as H1. pose proof (Ht b a d) as H2. pose proof (Ht d b a) as H3. pose proof (Ht d a b) as H4.
  rewrite E in *. rewrite E' in *. rewrite (Hs d b), (Hs d a) in *. destruct (c a d), (c b d); cbn in *; try done;
    exfalso; first [by apply H1|by apply H2|by apply H3|by apply H4].
Qed.

Lemma ordered_or {A} (c d : A → A → comparison) : ordered c → ordered d → ordered (λ a b, cmpOr (c a b) (d a b)).
Proof.
  intros Hc Hd. pose proof (ordered_eq c Hc) as Heq. destruct Hc as [Cs Ct], Hd as [Ds Dt]. split.
  - intros a b. rewrite Cs, Ds. by destruct (c b a), (d b a).
  - intros x y z H1 H2. pose proof (Ct x y z) as H. pose proof (Heq x y z) as He. pose proof (Heq z y x) as He'.
    assert (c y z = Eq → c x z = c x y) as Hyz.
    { intros E. rewrite (Cs x z), (Cs x y). f_equal. apply Heq. by rewrite Cs, E. }
    destruct (c x y) eqn:E1; cbn in H1; try done.
    + rewrite (He eq_refl) in *. destruct (c y z) eqn:E2; cbn in *; try done. by eapply Dt.
    + destruct (c y z) eqn:E2; cbn in H2; try done.
      * by rewrite (Hyz eq_refl).
      * destruct (c x z) eqn:E3; cbn; try done; [|by destruct H]. clear H He Hyz. specialize (Ct z x y). rewrite (Cs z x), E3, E1 in Ct. cbn in Ct.
        rewrite (Cs z y), E2 in Ct. exfalso. by apply Ct.
Qed.

Lemma ordered_strings {A} (f : A → string) : ordered (λ a b, compareStrings (f a) (f b)).
Proof.
  split; [intros a b; apply String.compare_antisym|]. intros a b d H1 H2.
  assert (∀ s t, compareStrings s t ≠ Gt ↔ String.le s t) as Hle.
  { intros s t. unfold String.le, String.leb, compareStrings. by destruct (s ?= t)%string. }
  apply Hle in H1, H2. apply Hle. by trans (f b).
Qed.

Lemma ordered_properties : ordered compareProperties.
Proof.
  apply (ordered_or (λ a b, compareStrings (pr_Dataset a) (pr_Dataset b))); [apply ordered_strings|].
  apply (ordered_or (λ a b, compareStrings (pr_Name a) (pr_Name b))); [apply ordered_strings|].
  apply (ordered_or (λ a b, compareStrings (pr_Source a) (pr_Source b))); apply ordered_strings.
Qed.

Lemma compareProperties_eq a b : compareProperties a b = Eq → a = b.
Proof.
  unfold compareProperties, cmpOr, compareStrings. destruct a, b; cbn. intros H. case_hyps.
  repeat match goal with H : (_ ?= _)%string = Eq |- _ => apply String.compare_eq_iff in H end. by subst.
Qed.

(** Sorting forgets the order of what it is given. *)
Lemma sortProperties_unique l k : l ≡ₚ k → sortProperties l = sortProperties k.
Proof.
  intros Hp. destruct ordered_properties as [Hs Ht].
  assert (Transitive propertyLe) by (intros a b d; apply Ht).
  assert (Total propertyLe). { intros a b. unfold propertyLe. rewrite (Hs b a). destruct (compareProperties a b); cbn; auto. }
  assert (AntiSymm eq propertyLe). { intros a b. unfold propertyLe. rewrite (Hs b a). intros H1 H2. apply compareProperties_eq. by destruct (compareProperties a b). }
  apply (StronglySorted_unique propertyLe); [by apply StronglySorted_merge_sort..|].
  unfold sortProperties. by rewrite !merge_sort_Permutation.
Qed.

Lemma SortStrings_unique l k : l ≡ₚ k → SortStrings l = SortStrings k.
Proof. intros Hp. apply (StronglySorted_unique String.le); [apply SortStrings_sorted..|]. by rewrite !SortStrings_perm. Qed.

Lemma fold_left_perm {A B} (f : B → A → B) l k : l ≡ₚ k → ∀ b, (∀ x y b, x ∈ l → y ∈ l → f (f b x) y = f (f b y) x) → fold_left f l b = fold_left f k b.
Proof.
  induction 1 as [|x l k _ IH|x y l|l k m Hlk IH1 _ IH2]; intros b Hc; cbn [fold_left].
  - done.
  - apply IH. intros a c b' Ha Hd. apply Hc; by right.
  - f_equal. apply Hc; set_solver.
  - rewrite IH1 by done. apply IH2. intros x y b' Hx Hy. apply Hc; by rewrite Hlk.
Qed.

(** * Tables as zfs prints them with -H: tabs between fields, one line per row *)

Definition tab : ascii := "009".
Definition newline : ascii := "010".
Fixpoint table (rows : list (list string)) : string :=
  match rows with
  | [] => ""
  | row :: rows => Join row (String tab "") +:+ String newline (table rows)
  end.
Definition plainField (s : string) : Prop := tab ∉ bytes_of s ∧ newline ∉ bytes_of s ∧ "013"%char ∉ bytes_of s.
Definition printable (columns : nat) (row : list string) : Prop :=
  row ≠ [] ∧ length row = columns ∧ Forall plainField row ∧ Z.of_nat (String.length (Join row (String tab ""))) < MaxTableLine.

Lemma dropLastEmpty_app l : dropLastEmpty (l ++ [""]) = l.
Proof. induction l as [|w [|x l] IH]; [done..|]. cbn [app dropLastEmpty] in *. by rewrite IH. Qed.

Lemma elem_Join c l sep : c ∈ bytes_of (Join l sep) → c ∈ bytes_of sep ∨ ∃ s, s ∈ l ∧ c ∈ bytes_of s.
Proof.
  induction l as [|s [|t l] IH]; cbn [Join]; [set_solver|set_solver|]. rewrite !bytes_of_app, !elem_of_app. intros [H|[H|H]]; [set_solver..|].
  destruct (IH H) as [?|(u & ? & ?)]; [by left|right]. exists u. set_solver.
Qed.
Lemma Join_plain c row : c ≠ tab → Forall (λ s, c ∉ bytes_of s) row → c ∉ bytes_of (Join row (String tab "")).
Proof. intros Hc Hr [H|(s & Hs & H)]%elem_Join; [cbn in H; set_solver|]. by eapply Forall_forall in Hr. Qed.

Lemma Split_table rows : Forall (λ row, Forall plainField row) rows →
  Split (table rows) newline = ((λ row, Join row (String tab "")) <$> rows) ++ [""].
Proof.
  induction 1 as [|row rows Hrow _ IH]; [done|]. cbn [table fmap list_fmap app]. rewrite Split_app, IH; [done|].
  apply Join_plain; [done|]. eapply Forall_impl; [exact Hrow|]. by intros s (_ & ? & _).
Qed.
Lemma dropCR_plain line : "013"%char ∉ bytes_of line → dropCR line = line.
Proof.
  intros H. unfold dropCR. destruct (BeforeLast line "013") as [p|] eqn:E; [|done]. apply BeforeLast_Some in E as (l & -> & _).
  destruct H. rewrite bytes_of_app. cbn. set_solver.
Qed.
Lemma Split_row row : row ≠ [] → Forall plainField row → Split (Join row (String tab "")) tab = row.
Proof. intros Hne Hr. apply Split_Join; [done|]. eapply Forall_impl; [exact Hr|]. by intros s (? & _). Qed.

Lemma tableLine_printed {A} columns (consume : A → list string → result A) a b k row :
  printable columns row → consume a row = Ok b → tableLine columns consume (a, k) (Join row (String tab "")) = Ok (b, k + 1).
Proof.
  intros (Hne & Hl & Hr & Hlen) Hc. unfold tableLine. destruct (Z.leb_spec MaxTableLine (Z.of_nat (String.length (Join row (String tab ""))))); [lia|].
  rewrite dropCR_plain by (apply Join_plain; [done|]; eapply Forall_impl; [exact Hr|]; by intros s (_ & _ & ?)).
  change "009"%char with tab. rewrite Split_row by done. rewrite Hl, Nat.eqb_refl. cbn [negb fst snd]. by rewrite Hc.
Qed.

(** A table whose rows are all accepted is the loop over them. *)
Lemma parseTable_printed {A} columns (consume : A → list string → result A) rows a b :
  Forall (printable columns) rows → foldM consume a rows = Ok b → parseTable (table rows) columns consume a = Ok b.
Proof.
  intros Hr H. unfold parseTable. change "010"%char with newline.
  rewrite Split_table by (eapply Forall_impl; [exact Hr|]; by intros row (_ & _ & ? & _)). rewrite dropLastEmpty_app.
  assert (∃ n, foldM (tableLine columns consume) (a, 0) ((λ row, Join row (String tab "")) <$> rows) = Ok (b, n)) as [n ->]; [|done].
  generalize 0 as k. revert a H. induction Hr as [|row rows Hrow _ IH]; intros a H k; cbn in H; [simplify_eq; by exists k|].
  apply bind_Ok in H as (x & Hx & H). cbn [fmap list_fmap foldM]. erewrite tableLine_printed by done. cbn. by apply IH.
Qed.

(** * What a runner answers *)

Section Answers.
Context (answer : tool → list string → result string).
Definition says {A} (p : script A) : A := (answerWith answer p).2.

Lemma says_bind {A B} (p : script A) (k : A → script B) : says (bindS p k) = says (k (says p)).
Proof.
  unfold says. induction p as [a|t args c IH|c IH]; cbn; [done| |apply IH]. specialize (IH (answer t args)).
  destruct (answerWith answer (bindS (c (answer t args)) k)) as [tr b]. destruct (answerWith answer (c (answer t args))) as [tr' a]. exact IH.
Qed.
Lemma says_bindE {A B} (p : script (result A)) (k : A → script (result B)) a : says p = Ok a → says (bindSE p k) = says (k a).
Proof. intros H. unfold bindSE. by rewrite says_bind, H. Qed.
Lemma says_run t args : says (run t args) = answer t args.
Proof. done. Qed.

Lemma says_readRows {A} chunk columns outside (row : A → list string → A) a args rows : answer ToolZfs args = Ok (table rows) →
  Forall (λ f, printable columns f ∧ field f 0 ∈ chunk) rows → says (readRows chunk columns outside row a args) = Ok (fold_left row rows a).
Proof.
  intros Ha Hr. unfold readRows. rewrite says_bind, says_run, Ha. change (says (Done ?x)) with x.
  apply parseTable_printed; [eapply Forall_impl; [exact Hr|]; by intros f [? _]|].
  clear Ha. revert a. induction Hr as [|f rows [_ Hf] _ IH]; intros a; [done|]. cbn [foldM fold_left].
  assert (readRow chunk outside row a f = Ok (row a f)) as -> by (unfold readRow; by rewrite (bool_decide_true _ Hf)). apply IH.
Qed.

(** A loop of queries, by an invariant of what was asked so far. *)
Lemma says_forS {A S} (body : S → A → script (result S)) (P : list A → S → Prop) l : ∀ d s,
  (∀ d' x r s, d ++ l = d' ++ x :: r → P d' s → ∃ s', says (body s x) = Ok s' ∧ P (d' ++ [x]) s') → P d s →
  ∃ s', says (forS body s l) = Ok s' ∧ P (d ++ l) s'.
Proof.
  induction l as [|x l IH]; intros d s Hstep Hs; [exists s; by rewrite app_nil_r|]. cbn [forS].
  destruct (Hstep d x l s eq_refl Hs) as (s1 & H1 & Hs1). erewrite says_bindE by exact H1.
  rewrite (cons_middle x d l), app_assoc in Hstep |- *. by apply IH.
Qed.
End Answers.

(** * Rows by object *)

Definition rowsOf (rows : rowMap) (n : string) : list (list string) * list (list string) := default ([], []) (rows !! n).

Lemma rowsOf_addFirst rows m f n : rowsOf (addFirst rows m f) n = if decide (n = m) then ((rowsOf rows n).1 ++ [f], (rowsOf rows n).2) else rowsOf rows n.
Proof.
  unfold rowsOf, addFirst. destruct (default ([], []) (rows !! m)) as [first second] eqn:E. case_decide as Hn.
  - subst. by rewrite lookup_insert_eq, E.
  - by rewrite lookup_insert_ne by done.
Qed.
Lemma rowsOf_addSecond rows m f n : rowsOf (addSecond rows m f) n = if decide (n = m) then ((rowsOf rows n).1, (rowsOf rows n).2 ++ [f]) else rowsOf rows n.
Proof.
  unfold rowsOf, addSecond. destruct (default ([], []) (rows !! m)) as [first second] eqn:E. case_decide as Hn.
  - subst. by rewrite lookup_insert_eq, E.
  - by rewrite lookup_insert_ne by done.
Qed.

(** A first row with an empty received column. *)
Definition undated (f : list string) : list string := [field f 0; field f 1; field f 2; "-"; field f 3].
Lemma fold_allRow l : ∀ st n,
  rowsOf (cr_rows (fold_left allRow l st)) n
    = ((rowsOf (cr_rows st) n).1 ++ (undated <$> filter (λ f, field f 0 = n) l), (rowsOf (cr_rows st) n).2).
Proof.
  induction l as [|f l IH]; intros st n; cbn [fold_left]; [rewrite app_nil_r; by destruct (rowsOf _ _)|].
  rewrite IH. clear IH. assert (cr_rows (allRow st f) = addFirst (cr_rows st) (field f 0) (undated f)) as ->.
  { unfold allRow. by destruct (HasPrefix _ _). }
  rewrite rowsOf_addFirst, filter_cons. destruct (decide (n = field f 0)) as [->|Hn].
  - rewrite decide_True by done. cbn. by rewrite <- app_assoc.
  - rewrite decide_False by done. done.
Qed.
Lemma exists_cons {A} (P : A → Prop) x l : (∃ y, y ∈ x :: l ∧ P y) ↔ P x ∨ ∃ y, y ∈ l ∧ P y.
Proof. setoid_rewrite elem_of_cons. split; [intros (y & [->|?] & ?); eauto|intros [?|(y & ? & ?)]; eauto]. Qed.
Lemma fold_allRow_listed l : ∀ st x,
  x ∈ cr_listed (fold_left allRow l st) ↔ x ∈ cr_listed st ∨ ∃ f, f ∈ l ∧ HasPrefix (field f 1) propertyNamespace = true ∧ x = listedKey (field f 0) (field f 1).
Proof.
  induction l as [|f l IH]; intros st x; cbn [fold_left]; [set_solver|]. rewrite IH, exists_cons. unfold allRow at 1.
  destruct (HasPrefix (field f 1) propertyNamespace) eqn:E; cbn [cr_listed]; [rewrite elem_of_union, elem_of_singleton; tauto|]. intuition congruence.
Qed.
Lemma fold_allRow_keys l : ∀ st x,
  x ∈ cr_keys (fold_left allRow l st) ↔ x ∈ cr_keys st ∨ ∃ f, f ∈ l ∧ HasPrefix (field f 1) propertyNamespace = true ∧ x = field f 1.
Proof.
  induction l as [|f l IH]; intros st x; cbn [fold_left]; [set_solver|]. rewrite IH, exists_cons. unfold allRow at 1.
  destruct (HasPrefix (field f 1) propertyNamespace) eqn:E; cbn [cr_keys]; [rewrite elem_of_app, list_elem_of_singleton; tauto|]. intuition congruence.
Qed.
Definition keeps (listed : gset string) (f : list string) : Prop := field f 1 ∈ fixedKeys ∨ listedKey (field f 0) (field f 1) ∈ listed.
Lemma fold_receivedRow listed l : ∀ rows n,
  rowsOf (fold_left (receivedRow listed) l rows) n
    = ((rowsOf rows n).1, (rowsOf rows n).2 ++ filter (λ f, field f 0 = n ∧ keeps listed f) l).
Proof.
  induction l as [|f l IH]; intros rows n; cbn [fold_left]; [rewrite app_nil_r; by destruct (rowsOf _ _)|].
  rewrite IH. clear IH. unfold receivedRow. rewrite filter_cons.
  destruct (bool_decide (field f 1 ∈ fixedKeys) || bool_decide (listedKey (field f 0) (field f 1) ∈ listed)) eqn:E.
  - rewrite rowsOf_addSecond. apply orb_true_iff in E. rewrite !bool_decide_eq_true in E. destruct (decide (n = field f 0)) as [->|Hn].
    + rewrite decide_True by done. cbn. by rewrite <- app_assoc.
    + rewrite decide_False by (intros [? _]; congruence). done.
  - apply orb_false_iff in E. rewrite !bool_decide_eq_false in E. rewrite decide_False by (unfold keeps; tauto). done.
Qed.

(** * The pool as zfs shows it *)

Section Pool.
Context (answer : tool → list string → result string).
(** The properties, values and sources of an object; what a query for one key of
    it gives: value, received value and source; the holds of a snapshot, with
    their times. *)
Context (all : string → list (string * string * string)) (one : string → string → string * string * string)
  (held : string → list (string * string)).

Definition allRows (n : string) : list (list string) := (λ '(p, v, s), [n; p; v; s]) <$> all n.
Definition keyRow (n k : string) : list string := [n; k; (one n k).1.1; (one n k).1.2; (one n k).2].
Definition holdRows (n : string) : list (list string) := (λ '(t, time), [n; t; time]) <$> held n.

(** A key of ours that is listed for the object. *)
Definition listedAt (n k : string) : Prop := HasPrefix k propertyNamespace = true ∧ ∃ v s, (k, v, s) ∈ all n.

(** Operands: some of the names, each once. *)
Definition operands (names chunk : list string) : Prop := chunk ≠ [] ∧ NoDup chunk ∧ chunk ⊆ names.
(** Properties to ask the objects of a chunk for: the two ownership keys and the
    keys of ours that are listed for one of the objects, each once. *)
Definition asked (keys chunk : list string) : Prop :=
  keys ≠ [] ∧ NoDup keys ∧ ∀ k, k ∈ keys → k ∈ fixedKeys ∨ ∃ n, n ∈ chunk ∧ listedAt n k.
(** An answer is a table of these rows, in any order. *)
Definition tabled (args : list string) (expected : list (list string)) : Prop :=
  ∃ rows, rows ≡ₚ expected ∧ answer ToolZfs args = Ok (table rows).

(** A pool at rest, as zfs(8) documents its answers. [zfs get all] has one row for
    each property of each operand, [zfs get] of named properties one for each
    property and operand, with a value of [-] where a user property is not set,
    and [zfs holds] one for each hold of each operand; the order of the rows is not
    relied on. A property has the same value and source in both queries. On top of
    that, what [-H] prints can be told apart: no field has a tab or a line break,
    no name a NUL byte, and no row is longer than the reader takes. *)
Record shows (names snapshots : list string) : Prop := {
  sh_all : ∀ chunk, operands names chunk → tabled (allQuery chunk) (chunk ≫= allRows);
  sh_one : ∀ keys chunk, operands names chunk → asked keys chunk → tabled (keyQuery keys chunk) (chunk ≫= λ n, keyRow n <$> keys);
  sh_held : ∀ chunk, operands snapshots chunk → tabled (holdQuery chunk) (chunk ≫= holdRows);
  sh_once : ∀ n, n ∈ names → NoDup ((λ x, x.1.1) <$> all n);
  sh_same : ∀ n p v s, n ∈ names → (p, v, s) ∈ all n → HasPrefix p propertyNamespace = true → (one n p).1.1 = v ∧ (one n p).2 = s;
  sh_nul : ∀ n, n ∈ names → "000"%char ∉ bytes_of n;
  sh_plain : ∀ n row, n ∈ names → row ∈ allRows n → printable 4 row;
  sh_plainKey : ∀ n k, n ∈ names → k ∈ fixedKeys ∨ (∃ m, m ∈ names ∧ listedAt m k) → printable 5 (keyRow n k);
  sh_plainHold : ∀ n row, n ∈ snapshots → row ∈ holdRows n → printable 3 row
}.

(** The state one query per object shows. *)
Definition referenceRows (n : string) : list (list string) :=
  ((λ '(p, v, s), [n; p; v; (one n p).1.2; s]) <$> all n) ++ (keyRow n <$> fixedKeys).
Definition referenceHolds (snapshots : list string) : gmap string (list string) :=
  foldr (λ n m, if decide (held n = []) then m else <[n := (held n).*1]> m) ∅ snapshots.
Definition shownState (objects : list Object) : State :=
  canonical (fold_left applyRow (named objects ≫= referenceRows) (mkState objects [] ∅ ∅ ∅ ∅)) (referenceHolds (snapshotNames objects)).

Section Read.
Context (names snapshots : list string) (Hshows : shows names snapshots).

(** What the batched inspection has of one object. *)
Definition firstRows (n : string) : list (list string) := (λ '(p, v, s), [n; p; v; "-"; s]) <$> all n.
Definition secondRows (n : string) (second : list (list string)) : Prop :=
  ∀ f, f ∈ second ↔ ∃ k, f = keyRow n k ∧ (k ∈ fixedKeys ∨ listedAt n k).

Lemma filter_bind (g : string → list (list string)) (P : list string → Prop) `{∀ f, Decision (P f)} n chunk :
  NoDup chunk → (∀ m f, f ∈ g m → field f 0 = m) →
  filter (λ f, field f 0 = n ∧ P f) (chunk ≫= g) = if decide (n ∈ chunk) then filter P (g n) else [].
Proof.
  intros Hnd Hg. induction Hnd as [|m chunk Hm _ IH]; [done|]. cbn [mbind list_bind]. rewrite filter_app, IH. clear IH.
  assert (∀ l, (∀ f, f ∈ l → field f 0 = m) → filter (λ f, field f 0 = n ∧ P f) l = if decide (n = m) then filter P l else []) as Hl.
  { clear -H. intros l. induction l as [|f l IH]; intros Hf; [by case_decide|]. rewrite !filter_cons, IH by set_solver.
    pose proof (Hf f ltac:(set_solver)) as <-. destruct (decide (n = field f 0)) as [->|Hn].
    - destruct (decide (P f)); [rewrite decide_True by done|rewrite decide_False by tauto]; done.
    - rewrite decide_False by (intros [? _]; congruence). done. }
  rewrite Hl by auto. destruct (decide (n = m)) as [->|Hn].
  - rewrite decide_False by done. rewrite decide_True by set_solver. apply app_nil_r.
  - destruct (decide (n ∈ chunk)); [rewrite decide_True by set_solver|rewrite decide_False by set_solver]; done.
Qed.

Lemma elem_allRows n f : f ∈ allRows n ↔ ∃ p v s, (p, v, s) ∈ all n ∧ f = [n; p; v; s].
Proof.
  unfold allRows. rewrite list_elem_of_fmap. split; [intros ([[p v] s] & -> & ?); eauto 6|intros (p & v & s & ? & ->); by exists (p, v, s)].
Qed.

Lemma firstRows_undated n : undated <$> allRows n = firstRows n.
Proof. unfold firstRows, allRows. rewrite <- list_fmap_compose. apply list_fmap_ext. by intros _ [[p v] s] _. Qed.

Lemma listedKey_inj n k m k' : "000"%char ∉ bytes_of n → "000"%char ∉ bytes_of m → listedKey n k = listedKey m k' → n = m ∧ k = k'.
Proof.
  unfold listedKey, NUL. rewrite !app_cons_str, !app_nil_str. intros Hn Hm E.
  pose proof (Cut_app n k "000" Hn) as H1. pose proof (Cut_app m k' "000" Hm) as H2. rewrite E, H2 in H1. by injection H1 as -> ->.
Qed.

Lemma elem_bind (g : string → list (list string)) chunk f : f ∈ chunk ≫= g ↔ ∃ n, n ∈ chunk ∧ f ∈ g n.
Proof. rewrite list_elem_of_bind. naive_solver. Qed.
Lemma elem_tabled (g : string → list (list string)) chunk l f : l ≡ₚ chunk ≫= g → f ∈ l ↔ ∃ n, n ∈ chunk ∧ f ∈ g n.
Proof. intros ->. apply elem_bind. Qed.

Section Chunk.
Context (rows : rowMap) (chunk : list string) (Hchunk : operands names chunk) (l : list (list string)) (Hl : l ≡ₚ chunk ≫= allRows).
Let st : chunkRead := fold_left allRow l (mkChunkRead rows ∅ fixedKeys).
Let keys : list string := Compact (SortStrings (cr_keys st)).

Lemma chunk_keys k : k ∈ keys ↔ k ∈ fixedKeys ∨ ∃ n, n ∈ chunk ∧ listedAt n k.
Proof.
  unfold keys, st. rewrite elem_of_Compact, elem_of_SortStrings, fold_allRow_keys. cbn [cr_keys]. apply or_iff_compat_l. split.
  - intros (f & (n & Hn & (p & v & s & Hp & ->)%elem_allRows)%(elem_tabled _ _ _ _ Hl) & Hns & ->). exists n. split; [done|]. split; [done|by exists v, s].
  - intros (n & Hn & Hns & v & s & Hp). exists [n; k; v; s]. split_and!; [|done..]. apply (elem_tabled _ _ _ _ Hl). exists n. split; [done|]. apply elem_allRows. eauto 6.
Qed.

Lemma chunk_listed n k : n ∈ names → listedKey n k ∈ cr_listed st ↔ n ∈ chunk ∧ listedAt n k.
Proof.
  intros Hn. destruct Hchunk as (_ & _ & Hc). unfold st. rewrite fold_allRow_listed. cbn [cr_listed]. split.
  - intros [?|(f & (m & Hm & (p & v & s & Hp & ->)%elem_allRows)%(elem_tabled _ _ _ _ Hl) & Hns & E)]; [set_solver|]. cbn in Hns, E.
    apply listedKey_inj in E as [-> ->]; [|by apply (sh_nul _ _ Hshows)|apply (sh_nul _ _ Hshows); set_solver]. split; [done|]. split; [done|by exists v, s].
  - intros (Hnc & Hns & v & s & Hp). right. exists [n; k; v; s]. split_and!; [|done..]. apply (elem_tabled _ _ _ _ Hl). exists n. split; [done|]. apply elem_allRows. eauto 6.
Qed.

Lemma chunk_asked : asked keys chunk.
Proof.
  split_and!.
  - intros E. assert (propertyNamespace +:+ "state:lineage" ∈ keys) as H by (apply chunk_keys; left; apply list_elem_of_here). rewrite E in H. by apply not_elem_of_nil in H.
  - apply (Compact_NoDup String.le), SortStrings_sorted.
  - intros k. by rewrite chunk_keys.
Qed.

Lemma filter_all (P : list string → Prop) `{∀ f, Decision (P f)} (k : list (list string)) : (∀ f, f ∈ k → P f) → filter P k = k.
Proof. clear. induction k as [|f k IH]; intros Hk; [done|]. rewrite filter_cons, decide_True by (apply Hk; set_solver). rewrite IH by set_solver. done. Qed.

(** A chunk adds the rows of its own objects and leaves the others. *)
Lemma chunk_first n : filter (λ f, field f 0 = n) l ≡ₚ if decide (n ∈ chunk) then allRows n else [].
Proof.
  destruct Hchunk as (_ & Hnd & _). rewrite Hl. rewrite (list_filter_iff (λ f, field f 0 = n) (λ f, field f 0 = n ∧ True)) by tauto. rewrite filter_bind; [|done|].
  - case_decide; [|done]. by rewrite filter_all.
  - intros m f (p & v & s & _ & ->)%elem_allRows. done.
Qed.
Lemma chunk_second l' n f : l' ≡ₚ (chunk ≫= λ n, keyRow n <$> keys) → n ∈ names →
  f ∈ filter (λ f, field f 0 = n ∧ keeps (cr_listed st) f) l' ↔ n ∈ chunk ∧ ∃ k, f = keyRow n k ∧ (k ∈ fixedKeys ∨ listedAt n k).
Proof.
  intros Hl' Hn. rewrite list_elem_of_filter, (elem_tabled _ _ _ _ Hl'). split.
  - intros ([<- Hk] & m & Hm & (k & -> & _)%list_elem_of_fmap). split; [done|]. exists k. split; [done|]. destruct Hk as [?|Hk]; [by left|right].
    by apply chunk_listed in Hk as [_ ?].
  - intros (Hc & k & -> & Hk). split.
    + split; [done|]. destruct Hk as [?|Hk]; [by left|right]. by apply chunk_listed.
    + exists n. split; [done|]. apply list_elem_of_fmap. exists k. split; [done|]. apply chunk_keys. destruct Hk as [?|?]; [by left|right; eauto].
Qed.
End Chunk.

(** All the rows of an object, in some order. *)
Definition readOf (rows : rowMap) (n : string) : Prop :=
  ∃ first second, rowsOf rows n = (first, second) ∧ first ≡ₚ firstRows n ∧ secondRows n second.

Lemma readChunk_says rows chunk : operands names chunk → ∃ rows', says answer (readChunk rows chunk) = Ok rows' ∧
  ∀ n, n ∈ names → if decide (n ∈ chunk) then rowsOf rows n = ([], []) → readOf rows' n else rowsOf rows' n = rowsOf rows n.
Proof.
  intros Hc. destruct (sh_all _ _ Hshows chunk Hc) as (l & Hl & Ha). pose proof (chunk_asked rows chunk l Hl) as Hk.
  destruct (sh_one _ _ Hshows _ chunk Hc Hk) as (l' & Hl' & Ho). pose proof Hc as (_ & _ & Hsub). eexists. split.
  - unfold readChunk. erewrite says_bindE.
    2: { apply says_readRows; [exact Ha|]. apply Forall_forall. intros f (n & Hn & Hf)%(elem_tabled _ _ _ _ Hl).
         split; [eapply (sh_plain _ _ Hshows); [|done]; set_solver|]. apply elem_allRows in Hf as (p & v & s & _ & ->). done. }
    apply says_readRows; [exact Ho|]. apply Forall_forall. intros f (n & Hn & (k & -> & Hin)%list_elem_of_fmap)%(elem_tabled _ _ _ _ Hl').
    split; [|done]. apply (sh_plainKey _ _ Hshows); [set_solver|]. destruct Hk as (_ & _ & Hk). destruct (Hk _ Hin) as [?|(m & Hm & ?)]; [by left|right; exists m; split; [set_solver|done]].
  - intros n Hn. unfold readOf. rewrite fold_receivedRow, fold_allRow. cbn [cr_rows fst snd]. pose proof (chunk_first chunk Hc l Hl n) as Hfirst.
    set (second := filter (λ f, field f 0 = n ∧ _) l'). assert (∀ f, f ∈ second ↔ _) as Hsecond by (intros f; by apply (chunk_second rows chunk Hc l Hl)).
    case_decide as Hin.
    + intros ->. exists (undated <$> filter (λ f, field f 0 = n) l), second. split; [done|]. split; [by rewrite Hfirst, firstRows_undated|].
      intros f. rewrite Hsecond. tauto.
    + symmetry in Hfirst. apply Permutation_nil_l in Hfirst as <-. assert (second = []) as ->; [|rewrite !app_nil_r; by destruct (rowsOf rows n)].
      apply elem_of_nil_inv. intros f [? _]%Hsecond. done.
Qed.

Lemma concat_inspected batch l : concat (inspectionChunks batch l) = l.
Proof. apply concat_chunksFrom; [|done]. destruct batch; cbn; unfold inspectionBatch; lia. Qed.
(** Each chunk the loops ask for has operands not asked for before. *)
Lemma chunks_operands batch l d chunk r : NoDup l → inspectionChunks batch l = d ++ chunk :: r →
  operands l chunk ∧ ∀ n, n ∈ chunk → n ∉ concat d.
Proof.
  intros Hnd E. pose proof (concat_inspected batch l) as Hl.
  assert (chunk ≠ []) as Hne. { eapply (chunksFrom_nonempty (length l)); [|unfold inspectionChunks in E; rewrite E; set_solver]. destruct batch; cbn; unfold inspectionBatch; lia. }
  rewrite E, concat_app in Hl. cbn [concat] in Hl. rewrite <- Hl in Hnd |- *. apply NoDup_app in Hnd as (_ & Hd & (Hc & _)%NoDup_app). split.
  - split_and!; [done..|]. intros n Hn. rewrite !elem_of_app. auto.
  - intros n Hn H. apply (Hd n H). rewrite elem_of_app. auto.
Qed.

(** The rows of every object, however they were read. *)
Lemma read_rows batch : NoDup names → ∃ rows, says answer (forS readChunk ∅ (inspectionChunks batch names)) = Ok rows ∧ ∀ n, n ∈ names → readOf rows n.
Proof.
  intros Hnd. destruct (says_forS answer readChunk (λ d rows, ∀ n, n ∈ names → if decide (n ∈ concat d) then readOf rows n else rowsOf rows n = ([], []))
    (inspectionChunks batch names) [] ∅) as (rows & Hs & Hr).
  - cbn [app]. intros d chunk r rows E Hd. destruct (chunks_operands _ _ _ _ _ Hnd E) as [Hc Hnew].
    destruct (readChunk_says rows chunk Hc) as (rows' & Hs & Hr). exists rows'. split; [done|]. intros n Hn. specialize (Hd n Hn). specialize (Hr n Hn).
    rewrite concat_app. cbn [concat]. rewrite app_nil_r. destruct (decide (n ∈ chunk)) as [Hin|Hin].
    + rewrite decide_False in Hd by auto. rewrite decide_True by set_solver. by apply Hr.
    + unfold readOf. rewrite Hr. destruct (decide (n ∈ concat d)); [rewrite decide_True by set_solver|rewrite decide_False by set_solver]; done.
  - intros n _. cbn [concat]. rewrite decide_False by apply not_elem_of_nil. unfold rowsOf. by rewrite lookup_empty.
  - exists rows. split; [done|]. intros n Hn. specialize (Hr n Hn). cbn [app] in Hr. by rewrite concat_inspected, decide_True in Hr.
Qed.

(** * Holds *)

Lemma fold_holdRow l : ∀ h m, fold_left holdRow l h !! m =
  match (λ f, field f 1) <$> filter (λ f, field f 0 = m) l with [] => h !! m | tags => Some (default [] (h !! m) ++ tags) end.
Proof.
  induction l as [|f l IH]; intros h m; [done|]. cbn [fold_left]. rewrite IH, filter_cons. unfold holdRow. destruct (decide (field f 0 = m)) as [->|Hm].
  - rewrite lookup_insert_eq. cbn. destruct (_ <$> filter _ l); [done|]. by rewrite <- app_assoc.
  - by rewrite lookup_insert_ne.
Qed.
Lemma lookup_referenceHolds l m : referenceHolds l !! m = if decide (m ∈ l ∧ held m ≠ []) then Some (held m).*1 else None.
Proof.
  induction l as [|n l IH]; [cbn; by rewrite decide_False by set_solver|]. unfold referenceHolds in *. cbn [foldr]. destruct (decide (held n = [])) as [Hn|Hn].
  - rewrite IH. destruct (decide (m ∈ l ∧ held m ≠ [])) as [[??]|Hd]; [rewrite decide_True by set_solver|rewrite decide_False; [done|]]; [done|].
    intros [[->|?]%elem_of_cons ?]; tauto.
  - destruct (decide (m = n)) as [->|Hm]; [rewrite lookup_insert_eq, decide_True by set_solver; done|]. rewrite lookup_insert_ne, IH by done.
    destruct (decide (m ∈ l ∧ held m ≠ [])) as [[??]|Hd]; [rewrite decide_True by set_solver|rewrite decide_False by set_solver]; done.
Qed.

(** The holds of a snapshot, in some order. *)
Definition holdsOf (h : gmap string (list string)) (m : string) : Prop :=
  if decide (held m = []) then h !! m = None else ∃ tags, h !! m = Some tags ∧ tags ≡ₚ (held m).*1.

Lemma readHolds_says h chunk : operands snapshots chunk → ∃ h', says answer (readHolds h chunk) = Ok h' ∧
  ∀ m, if decide (m ∈ chunk) then h !! m = None → holdsOf h' m else h' !! m = h !! m.
Proof.
  intros Hc. destruct (sh_held _ _ Hshows chunk Hc) as (l & Hl & Ha). destruct Hc as (_ & Hnd & Hsub). eexists. split.
  - apply says_readRows; [exact Ha|]. apply Forall_forall. intros f (n & Hn & Hf)%(elem_tabled _ _ _ _ Hl).
    split; [eapply (sh_plainHold _ _ Hshows); [|done]; set_solver|]. by apply list_elem_of_fmap in Hf as ([t time] & -> & _).
  - intros m. unfold holdsOf. rewrite fold_holdRow.
    assert ((λ f, field f 1) <$> filter (λ f, field f 0 = m) l ≡ₚ if decide (m ∈ chunk) then (held m).*1 else []) as Hp.
    { rewrite Hl, (list_filter_iff (λ f, field f 0 = m) (λ f, field f 0 = m ∧ True)) by tauto.
      rewrite filter_bind; [|done|by intros n f ([t time] & -> & _)%list_elem_of_fmap]. case_decide; [|done]. rewrite filter_all by done.
      unfold holdRows. rewrite <- list_fmap_compose. apply reflexive_eq, list_fmap_ext. by intros _ [t time] _. }
    set (tags := _ <$> filter _ l) in *. case_decide as Hin.
    + intros ->. destruct (decide (held m = [])) as [E|E].
      * rewrite E in Hp. cbn in Hp. symmetry in Hp. apply Permutation_nil_l in Hp as <-. done.
      * exists tags. split; [|done]. destruct tags; [|done]. apply Permutation_nil_l in Hp. by destruct (held m).
    + symmetry in Hp. by apply Permutation_nil_l in Hp as <-.
Qed.

Lemma read_holds batch : NoDup snapshots → ∃ h, says answer (forS readHolds ∅ (inspectionChunks batch snapshots)) = Ok h ∧
  SortStrings <$> h = SortStrings <$> referenceHolds snapshots.
Proof.
  intros Hnd. destruct (says_forS answer readHolds (λ d h, ∀ m, if decide (m ∈ concat d) then holdsOf h m else h !! m = None)
    (inspectionChunks batch snapshots) [] ∅) as (h & Hs & Hh).
  - cbn [app]. intros d chunk r h E Hd. destruct (chunks_operands _ _ _ _ _ Hnd E) as [Hc Hnew].
    destruct (readHolds_says h chunk Hc) as (h' & Hs & Hr). exists h'. split; [done|]. intros m. specialize (Hd m). specialize (Hr m).
    rewrite concat_app. cbn [concat]. rewrite app_nil_r. destruct (decide (m ∈ chunk)) as [Hin|Hin].
    + rewrite decide_False in Hd by auto. rewrite decide_True by set_solver. by apply Hr.
    + unfold holdsOf. rewrite Hr. destruct (decide (m ∈ concat d)); [rewrite decide_True by set_solver|rewrite decide_False by set_solver]; done.
  - intros m. cbn [concat]. rewrite decide_False by apply not_elem_of_nil. by rewrite lookup_empty.
  - exists h. split; [done|]. apply map_eq. intros m. rewrite !lookup_fmap, lookup_referenceHolds. specialize (Hh m). cbn [app] in Hh. rewrite concat_inspected in Hh.
    destruct (decide (m ∈ snapshots)) as [Hm|Hm]; [|by rewrite Hh, decide_False by tauto]. unfold holdsOf in Hh.
    destruct (decide (held m = [])) as [E|E]; [by rewrite Hh, decide_False by tauto|]. rewrite decide_True by done. destruct Hh as (tags & -> & Hp).
    cbn. f_equal. by apply SortStrings_unique.
Qed.

(** * States, up to the order of their properties *)

Definition sameState (s s' : State) : Prop :=
  Objects s = Objects s' ∧ ResumeTokens s = ResumeTokens s' ∧ Clones s = Clones s' ∧ Received s = Received s' ∧
  NoDup (Properties s) ∧ NoDup (Properties s') ∧ ∀ x, x ∈ Properties s ↔ x ∈ Properties s'.

Lemma canonical_same s s' holds holds' : sameState s s' → SortStrings <$> holds = SortStrings <$> holds' → canonical s holds = canonical s' holds'.
Proof.
  intros (? & ? & ? & ? & H1 & H2 & H) Hh. unfold canonical. f_equal; try congruence. by apply sortProperties_unique, NoDup_Permutation.
Qed.

Definition tokenStep (m : gmap string string) (f : list string) : gmap string string :=
  if (field f 1 =? "receive_resume_token")%string && (negb (field f 2 =? "-")%string && negb (field f 2 =? "")%string)
  then <[field f 0 := field f 2]> m else m.
Definition cloneStep (m : gmap string (list string)) (f : list string) : gmap string (list string) :=
  if (field f 1 =? "clones")%string && (negb (field f 2 =? "-")%string && negb (field f 2 =? "")%string)
  then <[field f 0 := Split (field f 2) ","]> m else m.
Definition ours (f : list string) : bool := HasPrefix (field f 1) propertyNamespace.
Definition yields (f : list string) (x : Property) : Prop :=
  ours f = true ∧ (field f 4 = "local" ∨ field f 4 = "received") ∧ x = mkProperty (field f 0) (field f 1) (field f 2) (field f 4).

Lemma fold_applyRow l : ∀ s,
  Objects (fold_left applyRow l s) = Objects s ∧
  ResumeTokens (fold_left applyRow l s) = fold_left tokenStep l (ResumeTokens s) ∧
  Clones (fold_left applyRow l s) = fold_left cloneStep l (Clones s) ∧
  (NoDup (Properties s) → NoDup (Properties (fold_left applyRow l s))) ∧
  ∀ x, x ∈ Properties (fold_left applyRow l s) ↔ x ∈ Properties s ∨ ∃ f, f ∈ l ∧ yields f x.
Proof.
  induction l as [|f l IH]; intros s; cbn [fold_left]; [split_and!; [done..|set_solver]|].
  destruct (IH (applyRow s f)) as (-> & -> & -> & Hnd & Hx). clear IH. setoid_rewrite Hx. setoid_rewrite exists_cons. clear Hx.
  unfold applyRow in *. fold (ours f) in *. unfold yields at 2. destruct (ours f) eqn:E; cbn [negb] in *.
  - destruct (String.eqb_spec (field f 4) "local") as [El|El]; [|destruct (String.eqb_spec (field f 4) "received") as [Er|Er]]; cbn in *.
    all: split_and!; try done.
    all: try (intros H; apply Hnd; by apply NoDup_appendNew).
    all: intros x; rewrite ?elem_of_appendNew; tauto.
  - cbn in *. split_and!; try done. intros x. intuition congruence.
Qed.

Lemma ours_other f : ours f = true → (∀ m, tokenStep m f = m) ∧ ∀ m, cloneStep m f = m.
Proof.
  unfold ours, tokenStep, cloneStep. intros [t ->]%HasPrefix_spec. split; intros m;
    (match goal with |- context [(?a =? ?b)%string] => destruct (String.eqb_spec a b) as [E|] end; [discriminate E|done]).
Qed.
Lemma fold_ours l : Forall (λ f, ours f = true) l → (∀ m, fold_left tokenStep l m = m) ∧ ∀ m, fold_left cloneStep l m = m.
Proof. induction 1 as [|f l Hf _ [IH1 IH2]]; [done|]. destruct (ours_other f Hf) as [H1 H2]. split; intros m; cbn [fold_left]; by rewrite ?H1, ?H2. Qed.

(** What is received for one object. *)
Definition receive (n : string) (got : string → string) (r : gmap string (gmap string string)) (k : string) : gmap string (gmap string string) :=
  <[n := <[k := got k]> (default ∅ (r !! n))]> r.
Definition effective (l : list (list string)) : list string := (λ f, field f 1) <$> filter (λ f, ours f = true ∧ field f 3 ≠ "-") l.

Lemma fold_received n got l : ∀ s, Forall (λ f, field f 0 = n ∧ (field f 3 = "-" ∨ field f 3 = got (field f 1))) l →
  Received (fold_left applyRow l s) = fold_left (receive n got) (effective l) (Received s).
Proof.
  induction l as [|f l IH]; intros s Hl; [done|]. apply Forall_cons in Hl as [[Hn Hg] Hl]. cbn [fold_left]. rewrite IH by done. unfold effective.
  rewrite filter_cons. unfold applyRow. fold (ours f). destruct (ours f) eqn:E; cbn [negb].
  - destruct (String.eqb_spec (field f 3) "-") as [E3|E3].
    + rewrite decide_False by tauto. done.
    + rewrite decide_True by done. cbn [negb Received fmap list_fmap fold_left]. unfold receive at 3. destruct Hg as [?|Hg]; [done|]. by rewrite Hg, Hn.
  - rewrite decide_False by (intros [? _]; congruence). done.
Qed.

Lemma fold_receive n got ks : ∀ r, ∃ inner : gmap string string, fold_left (receive n got) ks r = (match ks with [] => r | _ => <[n := inner]> r end) ∧
  ∀ k, inner !! k = if decide (k ∈ ks) then Some (got k) else default ∅ (r !! n) !! k.
Proof.
  induction ks as [|k0 ks IH]; intros r; [exists (default ∅ (r !! n)); split; [done|]; intros k; by rewrite decide_False by apply not_elem_of_nil|].
  cbn [fold_left]. destruct (IH (receive n got r k0)) as (inner & E & Hin). clear IH.
  assert (default ∅ (receive n got r k0 !! n) = <[k0 := got k0]> (default ∅ (r !! n))) as Hr by (unfold receive; by rewrite lookup_insert_eq).
  rewrite Hr in Hin. clear Hr.
  exists inner. split.
  - rewrite E. unfold receive. destruct ks as [|k1 ks]; [|by rewrite insert_insert_eq]. f_equal. apply map_eq. intros k. by rewrite Hin, decide_False by apply not_elem_of_nil.
  - intros k. rewrite Hin. destruct (decide (k = k0)) as [->|Hk].
    + rewrite lookup_insert_eq. rewrite (decide_True (P := k0 ∈ k0 :: ks)) by set_solver. by case_decide.
    + rewrite lookup_insert_ne by done. destruct (decide (k ∈ ks)); [rewrite decide_True by set_solver|rewrite decide_False by set_solver]; done.
Qed.
Lemma fold_receive_ext n got ks ks' r : (∀ k, k ∈ ks ↔ k ∈ ks') → fold_left (receive n got) ks r = fold_left (receive n got) ks' r.
Proof.
  intros H. destruct (fold_receive n got ks r) as (inner & -> & H1), (fold_receive n got ks' r) as (inner' & -> & H2).
  assert (inner = inner') as ->. { apply map_eq. intros k. rewrite H1, H2. destruct (decide (k ∈ ks)) as [Hk|Hk]; [rewrite decide_True by by apply H|rewrite decide_False by by rewrite <- H]; done. }
  destruct ks as [|k ks], ks' as [|k' ks']; try done; exfalso; [specialize (H k')|specialize (H k)]; set_solver.
Qed.

(** * One object *)

Lemma fixed_ours n k : k ∈ fixedKeys → ours (keyRow n k) = true.
Proof. intros Hk. repeat (apply elem_of_cons in Hk as [->|Hk]); [done..|by apply not_elem_of_nil in Hk]. Qed.

Lemma elem_second n second f : secondRows n second → f ∈ second ↔ ∃ k, f = keyRow n k ∧ (k ∈ fixedKeys ∨ listedAt n k).
Proof. intros H. apply H. Qed.
Lemma elem_first n first f : first ≡ₚ firstRows n → f ∈ first ↔ ∃ p v s, (p, v, s) ∈ all n ∧ f = [n; p; v; "-"; s].
Proof. intros ->. unfold firstRows. rewrite list_elem_of_fmap. split; [intros ([[p v] s] & -> & ?); eauto 6|intros (p & v & s & ? & ->); by exists (p, v, s)]. Qed.
Lemma elem_reference n f : f ∈ referenceRows n ↔
  (∃ p v s, (p, v, s) ∈ all n ∧ f = [n; p; v; (one n p).1.2; s]) ∨ ∃ k, k ∈ fixedKeys ∧ f = keyRow n k.
Proof.
  unfold referenceRows. rewrite elem_of_app, !list_elem_of_fmap. split.
  - intros [([[p v] s] & -> & ?)|(k & -> & ?)]; [left; eauto 6|right; eauto].
  - intros [(p & v & s & ? & ->)|(k & ? & ->)]; [left; by exists (p, v, s)|right; eauto].
Qed.

Lemma yields_same n first second x : n ∈ names → first ≡ₚ firstRows n → secondRows n second →
  (∃ f, f ∈ first ++ second ∧ yields f x) ↔ ∃ f, f ∈ referenceRows n ∧ yields f x.
Proof.
  intros Hn Hf Hs. split.
  - intros (f & [(p & v & s & Hp & ->)%(elem_first _ _ _ Hf)|(k & -> & [Hk|[Hns (v & s & Hk)]])%(elem_second _ _ _ Hs)]%elem_of_app & Hy).
    + exists [n; p; v; (one n p).1.2; s]. split; [apply elem_reference; left; eauto 6|done].
    + exists (keyRow n k). split; [apply elem_reference; right; eauto|done].
    + destruct (sh_same _ _ Hshows n k v s Hn Hk Hns) as [Ev Es]. exists [n; k; v; (one n k).1.2; s]. split; [apply elem_reference; left; eauto 6|].
      unfold keyRow in Hy. by rewrite Ev, Es in Hy.
  - intros (f & [(p & v & s & Hp & ->)|(k & Hk & ->)]%elem_reference & Hy).
    + exists [n; p; v; "-"; s]. split; [apply elem_of_app; left; apply (elem_first _ _ _ Hf); eauto 6|done].
    + exists (keyRow n k). split; [apply elem_of_app; right; apply Hs; eauto|done].
Qed.

Lemma elem_effective l k : k ∈ effective l ↔ ∃ f, f ∈ l ∧ field f 1 = k ∧ ours f = true ∧ field f 3 ≠ "-".
Proof. unfold effective. rewrite list_elem_of_fmap. setoid_rewrite list_elem_of_filter. split; intros (f & ?); exists f; intuition congruence. Qed.

Lemma received_same n first second s s' : first ≡ₚ firstRows n → secondRows n second → Received s = Received s' →
  Received (fold_left applyRow (first ++ second) s) = Received (fold_left applyRow (referenceRows n) s').
Proof.
  intros Hf Hs HR. rewrite !(fold_received n (λ k, (one n k).1.2)), HR.
  - apply fold_receive_ext. intros k. rewrite !elem_effective. split.
    + intros (f & [(p & v & x & Hp & ->)%(elem_first _ _ _ Hf)|(k' & -> & [Hk|[Hns (v & x & Hk)]])%(elem_second _ _ _ Hs)]%elem_of_app & <- & Ho & Hr); [done|..].
      * exists (keyRow n k'). split; [apply elem_reference; right; eauto|done].
      * exists [n; k'; v; (one n k').1.2; x]. split; [apply elem_reference; left; eauto 6|done].
    + intros (f & [(p & v & x & Hp & ->)|(k' & Hk & ->)]%elem_reference & <- & Ho & Hr).
      * exists (keyRow n p). split; [|done]. apply elem_of_app. right. apply Hs. exists p. split; [done|]. right. split; [done|eauto].
      * exists (keyRow n k'). split; [apply elem_of_app; right; apply Hs; eauto|done].
  - apply Forall_forall. intros f [(p & v & x & Hp & ->)|(k & Hk & ->)]%elem_reference; (split; [done|by right]).
  - apply Forall_forall. intros f [(p & v & x & Hp & ->)%(elem_first _ _ _ Hf)|(k & -> & _)%(elem_second _ _ _ Hs)]%elem_of_app; (split; [done|]); [by left|by right].
Qed.

(** A property is listed once, so the order of the first rows is no matter. *)
Lemma first_commute {B} (f : B → list string → B) (key : string) n first b : n ∈ names → first ≡ₚ firstRows n →
  (∀ r b, field r 1 ≠ key → f b r = b) → fold_left f first b = fold_left f (firstRows n) b.
Proof.
  intros Hn Hp Hk. apply fold_left_perm; [done|]. intros x y c Hx Hy. destruct (decide (field x 1 = key)) as [Ex|Ex]; [|by rewrite !(Hk x)].
  destruct (decide (field y 1 = key)) as [Ey|Ey]; [|by rewrite !(Hk y)].
  apply (elem_first _ _ _ Hp) in Hx as (p & v & s & Hx & ->). apply (elem_first _ _ _ Hp) in Hy as (p' & v' & s' & Hy & ->). cbn in Ex, Ey.
  assert ((p, v, s) = (p', v', s')) as [= -> -> ->]; [|done]. eapply (NoDup_fmap_inj (λ x, x.1.1) (all n)); [by apply (sh_once _ _ Hshows)|done|done|cbn; congruence].
Qed.

Lemma object_same n first second s s' : n ∈ names → first ≡ₚ firstRows n → secondRows n second → sameState s s' →
  sameState (fold_left applyRow (first ++ second) s) (fold_left applyRow (referenceRows n) s').
Proof.
  intros Hn Hfirst Hsecond (HO & HT & HC & HR & Hnd & Hnd' & HP).
  destruct (fold_applyRow (first ++ second) s) as (EO & ET & EC & EN & EP). destruct (fold_applyRow (referenceRows n) s') as (EO' & ET' & EC' & EN' & EP').
  assert (Forall (λ f, ours f = true) second) as Hours.
  { apply Forall_forall. intros f (k & -> & [Hk|[Hk _]])%Hsecond; [by apply fixed_ours|done]. }
  assert (Forall (λ f, ours f = true) (keyRow n <$> fixedKeys)) as Hfixed by (apply Forall_fmap, Forall_forall; intros k Hk; by apply fixed_ours).
  apply fold_ours in Hours as [HoT HoC]. apply fold_ours in Hfixed as [HfT HfC].
  split_and!.
  - congruence.
  - rewrite ET, ET', HT. unfold referenceRows. rewrite !fold_left_app, HoT, HfT.
    rewrite (first_commute tokenStep "receive_resume_token" n first) by (done || (intros r b Hr; unfold tokenStep; by destruct (String.eqb_spec (field r 1) "receive_resume_token"))).
    unfold firstRows. clear. generalize (ResumeTokens s').
    induction (all n) as [|[[p v] x] l IH]; intros m; [done|]. apply IH.
  - rewrite EC, EC', HC. unfold referenceRows. rewrite !fold_left_app, HoC, HfC.
    rewrite (first_commute cloneStep "clones" n first) by (done || (intros r b Hr; unfold cloneStep; by destruct (String.eqb_spec (field r 1) "clones"))).
    unfold firstRows. clear. generalize (Clones s').
    induction (all n) as [|[[p v] x] l IH]; intros m; [done|]. apply IH.
  - apply received_same; done.
  - by apply EN.
  - by apply EN'.
  - intros x. rewrite EP, EP', HP. apply or_iff_compat_l. by apply yields_same.
Qed.

(** Both inspections of all the objects. *)
Lemma objects_same rows : (∀ n, n ∈ names → readOf rows n) →
  ∀ l s s', l ⊆ names → sameState s s' → sameState (fold_left (applyRows rows) l s) (fold_left applyRow (l ≫= referenceRows) s').
Proof.
  intros Hrows. induction l as [|n l IH]; intros s s' Hl H; [done|]. cbn [fold_left mbind list_bind]. rewrite fold_left_app.
  apply IH; [set_solver|]. unfold applyRows. destruct (Hrows n ltac:(set_solver)) as (first & second & E & Hf & Hs). unfold rowsOf in E. rewrite E.
  apply object_same; [set_solver|done..].
Qed.
End Read.
End Pool.

(** * The inventory *)

Lemma parseTable_inv {A} (P : A → Prop) columns (consume : A → list string → result A) output a b :
  (∀ a f b, P a → consume a f = Ok b → P b) → P a → parseTable output columns consume a = Ok b → P b.
Proof.
  intros Hstep Ha H. unfold parseTable in H. apply bind_Ok in H as ([b' k] & H & E). simplify_eq/=. revert H. generalize 0 as k0. revert a Ha.
  induction (dropLastEmpty _) as [|line l IH]; intros a Ha k0 H; cbn in H; [by simplify_eq|]. apply bind_Ok in H as ([a' k'] & Hl & H).
  apply (IH a' ltac:(unfold tableLine in Hl; case_hyps; by eapply Hstep) k' H).
Qed.

(** A row of the inventory is skipped, or is an object not seen before. *)
Lemma objectRow_Ok dataset recursive st f st' : objectRow dataset recursive st f = Ok st' →
  st' = st ∨ ∃ o, ob_Name o ∉ st.1 ∧ st' = ({[ob_Name o]} ∪ st.1, st.2 ++ [o]).
Proof.
  unfold objectRow. destruct (FieldsFunc marker (field f 0)) as [|base rest]; [done|]. destruct (_ && _); [done|].
  destruct (_ && _); [intros [= ->]; by left|]. intros ([] & _ & H)%bind_Ok. destruct (bool_decide (field f 0 ∈ st.1)) eqn:Hseen; [done|].
  apply bind_Ok in H as (guid & _ & H). apply bind_Ok in H as (created & _ & H). destruct (negb _); [done|]. destruct (_ || _); [done|].
  apply bind_Ok in H as (txg & _ & [= <-]). right. eexists (mkObject _ _ _ _ _). split; [|done]. by apply bool_decide_eq_false in Hseen.
Qed.

Lemma inventory_nodup dataset recursive output seen objects : parseTable output 5 (objectRow dataset recursive) (∅, []) = Ok (seen, objects) →
  NoDup (ob_Name <$> objects).
Proof.
  intros H. apply (parseTable_inv (λ st, NoDup (ob_Name <$> st.2) ∧ ∀ o, o ∈ st.2 → ob_Name o ∈ st.1)) in H as [? _]; [done| |split; [constructor|set_solver]].
  clear. intros st f st' [Hnd Hin] [->|(o & Ho & ->)]%objectRow_Ok; [done|]. cbn [fst snd]. split.
  - rewrite fmap_app. apply NoDup_app. split_and!; [done| |apply NoDup_singleton]. intros m (o' & -> & Ho')%list_elem_of_fmap Hm%list_elem_of_singleton. apply Hin in Ho'. by rewrite Hm in Ho'.
  - intros o' [Ho'%Hin| ->%list_elem_of_singleton]%elem_of_app; apply elem_of_union; [by right|left]. by apply elem_of_singleton.
Qed.

Lemma NoDup_named (P : Object → Prop) `{∀ o, base.Decision (P o)} objects : NoDup (ob_Name <$> objects) → NoDup (ob_Name <$> filter P (merge_sort objectLe objects)).
Proof.
  intros Hnd. assert (NoDup (ob_Name <$> merge_sort objectLe objects)) as Hs by (by rewrite merge_sort_Permutation).
  eapply sublist_NoDup; [exact Hs|]. apply fmap_sublist, sublist_filter.
Qed.


(** * A sample pool *)

Module SampleOutput.
Definition all (n : string) : list (string * string * string) :=
  if (n =? "tank")%string then [("type", "filesystem", "-"); (propertyNamespace +:+ "enabled", "on", "local")]
  else [("type", "snapshot", "-"); ("clones", "tank/b,tank/a", "-")].
Definition one (n k : string) : string * string * string :=
  if (n =? "tank")%string && (k =? propertyNamespace +:+ "enabled")%string then ("on", "off", "local") else ("-", "-", "-").
Definition held (n : string) : list (string * string) := [("b", "now"); ("a", "then")].
Definition objects : list Object := [mkObject "tank" "filesystem" 7 100 5; mkObject "tank@a" "snapshot" 8 200 6].
Definition inventory : string := table [["tank"; "filesystem"; "7"; "100"; "5"]; ["tank@a"; "snapshot"; "8"; "200"; "6"]].
Definition answer (t : tool) (args : list string) : result string :=
  if decide (args = inventoryQuery "tank" false) then Ok inventory
  else if decide (take 6 args = allQuery []) then Ok (table (reverse (drop 6 args ≫= allRows all)))
  else if decide (take 5 args = take 5 (keyQuery [] [])) then Ok (table (drop 6 args ≫= λ n, keyRow one n <$> Split (nth 5 args "") ","))
  else Ok (table (drop 2 args ≫= holdRows held)).
Definition names : list string := ["tank"; "tank@a"].

Lemma printable_dec columns row :
  negb (length row =? 0)%nat && (length row =? columns)%nat
  && forallb (λ s, negb (ContainsByte s tab) && negb (ContainsByte s newline) && negb (ContainsByte s "013")) row
  && (Z.of_nat (String.length (Join row (String tab ""))) <? MaxTableLine) = true → printable columns row.
Proof.
  rewrite !andb_true_iff, negb_true_iff, Nat.eqb_neq, Nat.eqb_eq, Z.ltb_lt, forallb_forall. intros (((Hne & Hl) & Hf) & Hlen).
  split_and!; [by intros ->|done| |done]. apply Forall_forall. intros s Hs. specialize (Hf s ltac:(by apply list_elem_of_In)).
  rewrite !andb_true_iff, !negb_true_iff, !ContainsByte_false in Hf. by destruct Hf as [[? ?] ?].
Qed.

Lemma sampled : shows answer all one held names ["tank@a"].
Proof.
  assert (∀ n, n ∈ names → n = "tank" ∨ n = "tank@a") as Hnames.
  { intros n Hn. unfold names in Hn. rewrite !elem_of_cons, elem_of_nil in Hn. tauto. }
  assert (∀ n p v s, n ∈ names → (p, v, s) ∈ all n → (n, p, v, s) ∈ [("tank", "type", "filesystem", "-"); ("tank", propertyNamespace +:+ "enabled", "on", "local");
    ("tank@a", "type", "snapshot", "-"); ("tank@a", "clones", "tank/b,tank/a", "-")]) as Hall.
  { intros n p v s [-> | ->]%Hnames; cbn; rewrite !elem_of_cons, ?elem_of_nil; intuition (simplify_eq; auto 6). }
  assert (∀ k, k ∈ fixedKeys ∨ (∃ m, m ∈ names ∧ listedAt all m k) → k ∈ (propertyNamespace +:+ "enabled") :: fixedKeys) as Hours.
  { intros k [?|(m & Hm & Hns & v & s & Hp)]; [by right|]. pose proof (Hall m k v s Hm Hp) as H. rewrite !elem_of_cons, elem_of_nil in H.
    intuition (simplify_eq; first [done|by left]). }
  split.
  - intros chunk _. exists (reverse (chunk ≫= allRows all)). split; [apply reverse_Permutation|done].
  - intros keys chunk (_ & _ & Hc) (Hne & _ & Hk). eexists. split; [reflexivity|]. unfold answer. rewrite decide_False by done. rewrite decide_False by done.
    rewrite decide_True by done. cbn [nth keyQuery app drop]. rewrite (Split_Join keys ","%char); [done..|]. apply Forall_forall. intros k Hin.
    assert (k ∈ (propertyNamespace +:+ "enabled") :: fixedKeys) as H by (apply Hours; destruct (Hk k Hin) as [?|(m & ? & ?)]; eauto).
    unfold fixedKeys in H. rewrite !elem_of_cons, elem_of_nil in H. apply ContainsByte_false. intuition (subst; done).
  - intros chunk _. eexists. split; [reflexivity|]. unfold answer. rewrite !decide_False; [done|..].
    + destruct chunk as [|a [|b [|c chunk]]]; done.
    + destruct chunk as [|a [|b [|c [|d chunk]]]]; done.
    + destruct chunk; done.
  - intros n [-> | ->]%Hnames; by apply (bool_decide_unpack _).
  - intros n p v s Hn Hp Hns. pose proof (Hall n p v s Hn Hp) as H. rewrite !elem_of_cons, elem_of_nil in H. intuition (simplify_eq; done).
  - intros n [-> | ->]%Hnames; by apply ContainsByte_false.
  - intros n row Hn (p & v & s & Hp & ->)%elem_allRows. pose proof (Hall n p v s Hn Hp) as H. rewrite !elem_of_cons, elem_of_nil in H. apply printable_dec. intuition (simplify_eq; done).
  - intros n k Hn Hk. apply printable_dec. pose proof (Hours k Hk) as Hk'.
    unfold fixedKeys in Hk'. rewrite !elem_of_cons, elem_of_nil in Hk'. apply Hnames in Hn as [-> | ->]; intuition (subst; done).
  - intros n row Hn Hr. apply list_elem_of_singleton in Hn as ->. apply printable_dec. cbn in Hr. rewrite !elem_of_cons, elem_of_nil in Hr. intuition (subst; done).
Qed.
End SampleOutput.

