(* ===== verification/Service.v ===== *)
(** Lifecycle operations that take and destroy snapshots:
    internal/lifecycle/service.go. *)

From S2P Require Import Prelude GoStrings GoTime Grid Names Zfs Ownership Prune Policy Stream Authority Reference Backend.

(** [sv_reference] and [sv_clean] say whether the backend also implements
    [referenceBackend] and [cleanBackend], which the code asks at run time. *)
Record Service := mkService { sv_installation : string; sv_reference : bool; sv_clean : bool }.

(** [NewService] on a backend that is not nil. *)
Definition NewService (installation : string) (reference clean : bool) : result Service :=
  if negb (ValidID installation) then Err (Errorf "valid installation identity required")
  else Ok (mkService installation reference clean).

(** A body under the lock of [s.lock(ctx, dataset)], with the deferred unlock. *)
Definition locked {A} (fail : error → A) (dataset : string) (body : prog A) : prog A :=
  match ValidateDataset dataset with
  | Err e => Ret (fail e)
  | Ok _ =>
    r ⇐ call (Acquire dataset);
    match r with
    | Err e => Ret (fail e)
    | Ok _ => x ⇐ body; _ ⇐ call (Unlock dataset); Ret x
    end
  end.

Definition unchanged (dataset : string) (recursive : bool) (expected : State) : prog (result unit) :=
  current ⇐? call (InspectState dataset recursive);
  Ret (if decide (expected = current) then Ok tt else Err ErrStateChanged).

(** * CreateSnapshot *)

(** What a root without a lineage must not show. *)
Definition freshScope (state : State) : result unit :=
  if existsb (λ p, HasPrefix (pr_Name p) StateNamespace) (Properties state)
  then Err (Errorf "existing internal metadata requires explicit adoption or clean")
  else if existsb (λ kv : string * gmap string string, existsb (λ nv : string * string, HasPrefix nv.1 StateNamespace) (map_to_list kv.2))
            (map_to_list (Received state))
  then Err (Errorf "hidden received metadata requires explicit resolution")
  else Ok tt.

(** The loop over the datasets of the scope. *)
Definition descendantLineage (state : State) (lineage : string) (_ : unit) (o : Object) : result unit :=
  if negb (isDataset o) then Ok tt else
  child ← storedLineage state (ob_Name o);
  if negb (child =? "")%string && negb (child =? lineage)%string
  then Err (Errorf ("conflicting descendant lineage on " +:+ ob_Name o)) else Ok tt.

(** [NewID] and [NewMetadata] with their reads of randomness. *)
Definition newID : prog (result string) := rand ⇐ call RandRead; Ret (NewID rand).
Definition newMetadata (lineage : string) (now : Time) : prog (result Metadata) :=
  if negb (ValidID lineage) || IsZero now || (Year now <? 1) || (9999 <? Year now)
  then Ret (Err (Errorf "valid lineage and creation time are required"))
  else rand ⇐ call RandRead; Ret (NewMetadata lineage now rand).

(** The lineage a root's first snapshot starts, or the one it has. *)
Definition chooseLineage (s : Service) (state : State) (dataset stored : string) : prog (result string) :=
  if (stored =? "")%string then _ ⇐! freshScope state; newID
  else Ret (RootAuthority state dataset (sv_installation s)).

(** Writing a fresh root's authority and reading it back. *)
Definition initLineage (s : Service) (dataset lineage : string) (state : State) : prog (result unit) :=
  _ ⇐? call (SetProperties dataset (authorityProperties (sv_installation s) lineage));
  current ⇐? call (InspectState dataset true);
  Ret (match RootAuthority current dataset (sv_installation s) with
       | Ok actual =>
         if (actual =? lineage)%string && bool_decide (datasetObjects state = datasetObjects current) && negb (hasTokens current)
         then Ok tt else Err (Errorf "scope changed during lineage initialization")
       | Err _ => Err (Errorf "scope changed during lineage initialization")
       end).

(** The loop that verifies the created snapshots. *)
Definition createdVerified (after : State) (lineage : string) (m : Metadata) (member : string) : bool :=
  fold_left (λ verified s, if negb (sn_Name s =? member +:+ "@" +:+ Name m)%string then verified
                           else bool_decide (Ownership s lineage = Ok m)) (snapshotsIn after member) false.
Definition verifyCreated (after : State) (lineage : string) (m : Metadata) (_ : unit) (member : string) : result unit :=
  if createdVerified after lineage m member then Ok tt
  else Err (Errorf ("created snapshot could not be verified on " +:+ member)).

Definition CreateSnapshot (s : Service) (dataset : string) (members : list string) (now : Time) (effective : Effective)
  : prog (result Metadata) :=
  locked Err dataset (
    _ ⇐! ValidateDataset dataset;
    _ ⇐! ActiveRoot effective dataset;
    _ ⇐! validateMembers dataset members;
    state ⇐? call (InspectState dataset true);
    _ ⇐! scopeReady state dataset;
    stored ⇐! storedLineage state dataset;
    lineage ⇐? chooseLineage s state dataset stored;
    _ ⇐! foldM (descendantLineage state lineage) tt (Objects state);
    metadata ⇐? newMetadata lineage now;
    _ ⇐? unchanged dataset true state;
    _ ⇐? (if (stored =? "")%string then initLineage s dataset lineage state else Ret (Ok tt));
    _ ⇐? call (TakeSnapshot members (Name metadata) (metadataProperties metadata));
    after ⇐? call (InspectState dataset true);
    if negb (bool_decide (datasetObjects state = datasetObjects after))
    then Ret (Err (Errorf "dataset scope changed during snapshot creation"))
    else _ ⇐! foldM (verifyCreated after lineage metadata) tt members; Ret (Ok metadata)).

(** * AdoptDataset *)

Definition alreadyOwned (s : Service) (state : State) (dataset lineage : string) : bool :=
  match RootAuthority state dataset (sv_installation s) with Ok current => (current =? lineage)%string | Err _ => false end.

Definition AdoptDataset (s : Service) (dataset : string) (effective : Effective) : prog (result string) :=
  locked Err dataset (
    _ ⇐! ValidateDataset dataset;
    _ ⇐! ActiveRoot effective dataset;
    state ⇐? call (InspectState dataset false);
    stored ⇐! storedLineage state dataset;
    lineage ⇐! (if (stored =? "")%string then AdoptionLineage state dataset else Ok stored);
    if alreadyOwned s state dataset lineage then Ret (Err (Errorf "dataset is already owned by this installation")) else
    version ⇐! StateVersion state dataset;
    if (CurrentVersion <? version) || ((version <? CurrentVersion) && keepsRecords state dataset)
    then Ret (_ ← CurrentState state dataset; Ok "") else
    _ ⇐! ValidateLineageEvidence state dataset lineage;
    _ ⇐? unchanged dataset false state;
    _ ⇐? call (SetProperties dataset (authorityProperties (sv_installation s) lineage));
    after ⇐? call (InspectState dataset false);
    Ret (if bool_decide (RootAuthority after dataset (sv_installation s) = Ok lineage) then Ok lineage
         else Err (Errorf "adopted lineage could not be verified"))).

(** * Prune *)

Record Retention := mkRetention { re_Dataset : string; re_Grid : Grid }.

(** The closure [read]. *)
Definition pruneRead (s : Service) (root dataset : string) : prog (result (State * string)) :=
  rootState ⇐? call (InspectState root false);
  lineage ⇐! RootAuthority rootState root (sv_installation s);
  state ⇐? (if negb (dataset =? root)%string then call (InspectState dataset false) else Ret (Ok rootState));
  _ ⇐! scopeReady state dataset;
  Ret (Ok (state, lineage)).

(** The body of the loop over the plan. *)
Definition pruneStep (s : Service) (root : string) (retention : Retention) (state : State) (lineage : string) (_ : unit) (d : Decision)
  : prog (result unit) :=
  if negb (de_Destroy d) then Ret (Ok tt) else
  read ⇐? pruneRead s root (re_Dataset retention);
  let '(current, actual) := read in
  if negb (bool_decide (datasetObjects state = datasetObjects current)) then Ret (Err (Errorf "dataset identity changed before pruning"))
  else if negb (actual =? lineage)%string then Ret (Err (Errorf "lineage changed before pruning"))
  else
    decisions ⇐! PlanPrune (re_Dataset retention) lineage (re_Grid retention) (snapshotsIn current (re_Dataset retention));
    if existsb (λ next, (de_Snapshot next =? de_Snapshot d)%string && (de_GUID next =? de_GUID d) && de_Destroy next) decisions
    then call (DestroySnapshot (de_Snapshot d))
    else Ret (Err (Errorf ("snapshot eligibility changed before pruning " +:+ de_Snapshot d))).

(** The plan, with the state and lineage it was made from. *)
Definition prunePlan (s : Service) (root : string) (effective : Effective) (retention : Retention)
  : prog (result (State * string * list Decision)) :=
  _ ⇐! ValidateDataset root;
  _ ⇐! ActiveRoot effective root;
  let dataset := re_Dataset retention in
  _ ⇐! ValidateDataset dataset;
  if negb (dataset =? root)%string && negb (HasPrefix dataset (root +:+ "/"))
  then Ret (Err (Errorf ("retention dataset " +:+ dataset +:+ " is outside root " +:+ root)))
  else
    read ⇐? pruneRead s root dataset;
    let '(state, lineage) := read in
    plan ⇐! PlanPrune dataset lineage (re_Grid retention) (snapshotsIn state dataset);
    Ret (Ok (state, lineage, plan)).

(** [Prune] returns its plan with the error. *)
Definition Prune (s : Service) (root : string) (effective : Effective) (retention : Retention) (apply : bool)
  : prog (list Decision * option error) :=
  locked (λ e, ([], Some e)) root (
    r ⇐ prunePlan s root effective retention;
    match r with
    | Err e => Ret ([], Some e)
    | Ok (state, lineage, plan) =>
      if negb apply then Ret (plan, None)
      else
        done ⇐ forE (pruneStep s root retention state lineage) tt plan;
        Ret (plan, match done with Ok _ => None | Err e => Some e end)
    end).

(** * The lock brackets every call *)

Lemma runs_locked {A} (fail : error → A) dataset body tr r :
  runs (locked fail dataset body) tr r →
  Forall (λ e, eventMutates e = false) tr ∨
  ∃ tr', tr = Event (Acquire dataset) (Ok tt) :: tr' ++ [Event (Unlock dataset) tt] ∧ runs body tr' r.
Proof.
  unfold locked. destruct (ValidateDataset dataset) as [[]|e]; [|by intros [-> _]; left].
  intros ([[]|e] & tr1 & -> & H)%(λ H, H); cbn in H.
  - right. apply runs_bind in H as (tr2 & a & tr3 & -> & Hb & H). cbn in H. destruct H as ([] & ? & -> & -> & ->). eauto.
  - left. destruct H as [-> _]. by repeat constructor.
Qed.

(** Whatever changes a pool does so under the lock. *)
Lemma locked_mutation {A} (fail : error → A) dataset body tr r e :
  runs (locked fail dataset body) tr r → e ∈ tr → eventMutates e = true →
  ∃ tr', tr = Event (Acquire dataset) (Ok tt) :: tr' ++ [Event (Unlock dataset) tt].
Proof.
  intros [Hf|(tr' & -> & _)]%runs_locked He Hm; [|eauto]. rewrite Forall_forall in Hf. by rewrite (Hf e He) in Hm.
Qed.

(** A program under the lock makes the calls its body makes. *)
Lemma always_locked_at {A} (P : list event → ∀ R, op R → Prop) (fail : error → A) dataset body Q pre :
  (∀ pre, P pre _ (Acquire dataset)) → (∀ pre, P pre _ (Unlock dataset)) →
  (∀ e, Q pre (fail e)) → (∀ e, Q (pre ++ [Event (Acquire dataset) (Err e)]) (fail e)) →
  always P (pre ++ [Event (Acquire dataset) (Ok tt)]) body (λ tr r, Q (tr ++ [Event (Unlock dataset) tt]) r) →
  always P pre (locked fail dataset body) Q.
Proof.
  intros Ha Hu Hf Hf' Hb. unfold locked. destruct (ValidateDataset dataset); [|apply Hf]. split; [apply Ha|]. intros [[]|e]; [|apply Hf'].
  cbn. apply always_bind. eapply always_mono; [|apply Hb]. intros tr x HQ. split; [apply Hu|]. by intros [].
Qed.
Lemma always_locked {A} (P : list event → ∀ R, op R → Prop) (fail : error → A) dataset body Q pre :
  (∀ pre, P pre _ (Acquire dataset)) → (∀ pre, P pre _ (Unlock dataset)) → (∀ tr e, Q tr (fail e)) →
  (∀ tr, always P tr body (λ tr r, Q (tr ++ [Event (Unlock dataset) tt]) r)) →
  always P pre (locked fail dataset body) Q.
Proof. intros Ha Hu Hf Hb. by apply always_locked_at. Qed.

(** * Prune destroys only what it just proved prunable *)

(** The history ends with the reads that [pruneRead] makes. *)
Definition justRead (root dataset : string) (rootState state : State) (pre : list event) : Prop :=
  ∃ pre0, pre = pre0 ++ Event (InspectState root false) (Ok rootState)
                :: (if (dataset =? root)%string then [] else [Event (InspectState dataset false) (Ok state)]) ∧
          ((dataset =? root)%string = true → state = rootState).

Lemma pruneRead_always (P : list event → ∀ R, op R → Prop) s root dataset pre :
  (∀ pre d r, P pre _ (InspectState d r)) →
  always P pre (pruneRead s root dataset) (λ tr r, match r with
    | Ok (state, lineage) => ∃ rootState, justRead root dataset rootState state tr ∧
        RootAuthority rootState root (sv_installation s) = Ok lineage ∧ scopeReady state dataset = Ok tt
    | Err _ => True end).
Proof.
  intros HP. unfold pruneRead. apply always_bindE, always_call; [apply HP|]. intros [rootState|e]; [|done].
  apply always_bindR. destruct (RootAuthority rootState root (sv_installation s)) as [lineage|] eqn:Ea; [|done].
  destruct (dataset =? root)%string eqn:Ed; cbn [negb].
  - apply always_bindE. cbn. apply always_bindR. destruct (scopeReady rootState dataset) as [[]|] eqn:Es; [|done].
    exists rootState. split_and!; [|done..]. unfold justRead. rewrite Ed. eauto.
  - apply always_bindE, always_call; [apply HP|]. intros [state|e]; [|done]. apply always_bindR.
    destruct (scopeReady state dataset) as [[]|] eqn:Es; [|done]. exists rootState. split_and!; [|done..].
    unfold justRead. rewrite Ed. exists pre. by rewrite <- app_assoc.
Qed.

(** Every destruction is of a snapshot that the reads just made, planned again,
    let go. *)
Definition pruneGuard (s : Service) (root dataset : string) (grid : Grid) (pre : list event) (R : Type) (o : op R) : Prop :=
  match o with
  | DestroySnapshot name => ∃ rootState state lineage ds d, justRead root dataset rootState state pre ∧
      RootAuthority rootState root (sv_installation s) = Ok lineage ∧ scopeReady state dataset = Ok tt ∧
      PlanPrune dataset lineage grid (snapshotsIn state dataset) = Ok ds ∧ d ∈ ds ∧ de_Snapshot d = name ∧ de_Destroy d = true
  | _ => mutates o = false
  end.

Lemma pruneStep_always s root retention state lineage d pre :
  always (pruneGuard s root (re_Dataset retention) (re_Grid retention)) pre (pruneStep s root retention state lineage tt d) (λ _ _, True).
Proof.
  unfold pruneStep. destruct (de_Destroy d); cbn [negb]; [|done]. apply always_bindE.
  eapply always_mono; [|by apply pruneRead_always]. intros tr [[current actual]|e]; [|done].
  intros (rootState & Hr & Ha & Hs). destruct (bool_decide _); cbn [negb]; [|done].
  destruct (String.eqb_spec actual lineage) as [->|]; cbn [negb]; [|done]. apply always_bindR.
  destruct (PlanPrune _ _ _ _) as [ds|] eqn:Hp; [|done]. destruct (existsb _ ds) eqn:Ee; [|done].
  apply existsb_exists in Ee as (d' & Hd'%list_elem_of_In & E). rewrite !andb_true_iff, eqb_str_true in E.
  destruct E as [[En _] Edes]. split; [|done]. exists rootState, current, lineage, ds, d'. done.
Qed.

Lemma Prune_always s root effective retention (apply_ : bool) pre :
  always (λ pre R o, pruneGuard s root (re_Dataset retention) (re_Grid retention) pre R o ∧ (mutates o = true → apply_ = true))
    pre (Prune s root effective retention apply_) (λ _ _, True).
Proof.
  apply always_locked; [done..|]. intros tr. apply always_bind. unfold prunePlan.
  apply always_bindR. destruct (ValidateDataset root); [|done]. apply always_bindR. destruct (ActiveRoot _ _); [|done].
  apply always_bindR. destruct (ValidateDataset (re_Dataset retention)); [|done]. destruct (negb _ && negb _); [done|].
  apply always_bindE. eapply always_mono; [|by apply pruneRead_always]. intros tr1 [[state lineage]|e] _; [|done].
  apply always_bindR. destruct (PlanPrune _ _ _ _) as [plan|]; [|done]. cbn. destruct apply_; cbn [negb]; [|done].
  eapply (always_weaken (pruneGuard s root (re_Dataset retention) (re_Grid retention))); [done|]. apply always_bind. eapply (always_forE _ _ (λ _ _ _, True)); [|done..].
  intros x done_ rest pre' [] _ _. eapply always_mono; [|apply pruneStep_always]. by intros ? [].
Qed.

Definition destroys (e : event) (name : string) : Prop :=
  match e with Event o _ => match o with DestroySnapshot n => n = name | _ => False end end.

Lemma pruneGuard_destroys s root dataset grid pre e :
  justified (pruneGuard s root dataset grid) pre e → eventMutates e = true →
  ∃ rootState state lineage sn m, destroys e (sn_Name sn) ∧ justRead root dataset rootState state pre ∧
    authorized rootState root (sv_installation s) lineage ∧ sn ∈ snapshotsIn state dataset ∧ Owned sn lineage m ∧ unprotected sn ∧
    ∃ sn' m', sn' ∈ snapshotsIn state dataset ∧ sn_Name sn' ≠ sn_Name sn ∧ Owned sn' lineage m' ∧ Created m ≤ Created m'.
Proof.
  destruct e as [R [] r]; cbn; try (intros ??; congruence). intros (rootState & state & lineage & ds & d & Hr & Ha & Hs & HP & Hd & <- & Hdes) _.
  destruct (PlanPrune_destroys _ _ _ _ _ d HP Hd Hdes) as (sn & m & Hin & En & _ & Hm & Hu & d' & sn' & m' & Hd' & Hin' & En' & Hk & Hm' & Hle).
  exists rootState, state, lineage, sn, m. split_and!; [done|done|by apply RootAuthority_Ok|done..|].
  exists sn', m'. split_and!; [done| |done..]. intros E. rewrite <- En, <- En' in E.
  pose proof (PlanPrune_names _ _ _ _ _ HP) as Hnd. assert (d = d') by (apply (NoDup_fmap_inj de_Snapshot _ _ _ Hnd); congruence). congruence.
Qed.

(** C2: pruning destroys a snapshot only under the root's lock, only when
    applying, and only right after reading a state in which the root's authority
    holds, the snapshot belongs to the root's lineage, nothing needs it, and
    another owned snapshot at least as new exists; whatever else happens to the
    pool between its calls. It makes no other change. *)
Theorem Prune_safe s root effective retention (apply_ : bool) tr res t1 e t2 :
  runs (Prune s root effective retention apply_) tr res → tr = t1 ++ e :: t2 → eventMutates e = true →
  apply_ = true ∧ (∃ body, tr = Event (Acquire root) (Ok tt) :: body ++ [Event (Unlock root) tt]) ∧
  ∃ rootState state lineage sn m, destroys e (sn_Name sn) ∧ justRead root (re_Dataset retention) rootState state t1 ∧
    authorized rootState root (sv_installation s) lineage ∧ sn ∈ snapshotsIn state (re_Dataset retention) ∧
    Owned sn lineage m ∧ unprotected sn ∧
    ∃ sn' m', sn' ∈ snapshotsIn state (re_Dataset retention) ∧ sn_Name sn' ≠ sn_Name sn ∧ Owned sn' lineage m' ∧ Created m ≤ Created m'.
Proof.
  intros Hr E Hm. destruct (always_runs _ _ _ tr [] _ Hr (Prune_always s root effective retention apply_ [])) as [_ Hj].
  specialize (Hj t1 e t2 E). rewrite app_nil_l in Hj.
  assert (justified (pruneGuard s root (re_Dataset retention) (re_Grid retention)) t1 e ∧ (eventMutates e = true → apply_ = true)) as [Hg Hap].
  { by destruct e. }
  split_and!; [by apply Hap| |by eapply pruneGuard_destroys].
  eapply locked_mutation; [exact Hr| |done]. subst tr. apply elem_of_middle.
Qed.

(** * Pruning a quiescent pool

    When nothing else changes the pools, the backend promises more: reads show
    the current state, and destroying a snapshot that nothing needs succeeds and
    removes that object and nothing else. *)

Definition withoutObject (name : string) (st : State) : State :=
  mkState (filter (λ o, ob_Name o ≠ name) (Objects st)) (filter (λ p, pr_Dataset p ≠ name) (Properties st))
    (delete name (Received st)) (ResumeTokens st) (delete name (Clones st)) (delete name (Holds st)).

Class QuiescentPool (W : Type) := {
  handle : ∀ R, op R → W → R * W;
  inspect : W → string → bool → State;
  destroyed : string → W → W;
  handle_acquire d w : handle _ (Acquire d) w = (Ok tt, w);
  handle_unlock d w : handle _ (Unlock d) w = (tt, w);
  handle_inspect d r w : handle _ (InspectState d r) w = (Ok (inspect w d r), w);
  handle_destroy d s w : s ∈ snapshotsIn (inspect w d false) d → unprotected s →
    handle _ (DestroySnapshot (sn_Name s)) w = (Ok tt, destroyed (sn_Name s) w);
  inspect_names w d r : NoDup (ob_Name <$> Objects (inspect w d r));
  inspect_destroyed n w d r : inspect (destroyed n w) d r = withoutObject n (inspect w d r)
}.

Lemma snapshotOf_without n st o : ob_Name o ≠ n → snapshotOf (withoutObject n st) o = snapshotOf st o.
Proof.
  intros Hn. unfold snapshotOf, withoutObject, hasTokens. cbn. f_equal.
  - rewrite list_filter_filter. apply list_filter_iff. intros p. split; [tauto|]. intros ->. done.
  - by rewrite lookup_delete_ne.
  - by rewrite lookup_delete_ne.
Qed.

Lemma snapshotsIn_without n st d : snapshotsIn (withoutObject n st) d = filter (λ s, sn_Name s ≠ n) (snapshotsIn st d).
Proof.
  unfold snapshotsIn. cbn [Objects withoutObject]. rewrite list_filter_filter. induction (Objects st) as [|o l IH]; [done|].
  rewrite !filter_cons. destruct (decide (isSnapshotOf d o = true)) as [Hs|Hs].
  - destruct (decide (ob_Name o = n)) as [Hn|Hn].
    + rewrite decide_False by tauto. rewrite fmap_cons, filter_cons, decide_False by (intros Hx; by apply Hx). exact IH.
    + rewrite decide_True by tauto. rewrite !fmap_cons, filter_cons, decide_True by done. rewrite snapshotOf_without by done. by f_equal.
  - rewrite decide_False by tauto. exact IH.
Qed.

Lemma rowsOf_without n st root name :
  root ≠ n → rowsOf root name (Properties (withoutObject n st)) = rowsOf root name (Properties st).
Proof. intros Hn. unfold rowsOf. cbn. rewrite list_filter_filter. apply list_filter_iff. intros p. split; [tauto|]. intros [-> ?]. done. Qed.

Lemma RootAuthority_without n st root installation lineage :
  root ≠ n → RootAuthority st root installation = Ok lineage → RootAuthority (withoutObject n st) root installation = Ok lineage.
Proof.
  intros Hn (Hi & Hl & Hd & Ho & Hlr & Hr & Hc)%RootAuthority_Ok. apply RootAuthority_complete. unfold authorized.
  rewrite !rowsOf_without by done. split_and!; try done.
  - unfold receivedValue in *. cbn. by rewrite lookup_delete_ne.
  - rewrite <- Hc. cbn. rewrite list_filter_filter. apply list_filter_iff. intros p. split; [tauto|]. intros [[-> ?] ?]. done.
Qed.

Lemma scopeReady_without n st d : d ≠ n → scopeReady st d = Ok tt → scopeReady (withoutObject n st) d = Ok tt.
Proof.
  intros Hn. unfold scopeReady, hasTokens. cbn [ResumeTokens withoutObject]. destruct (negb _); [done|].
  destruct (existsb _ (Objects st)) eqn:E; [|done]. intros _. apply existsb_exists in E as (o & Ho%list_elem_of_In & E).
  assert (existsb (λ o, (ob_Name o =? d)%string && isDataset o && negb (ob_GUID o =? 0)) (Objects (withoutObject n st)) = true) as ->; [|done].
  apply existsb_exists. exists o. split; [|done]. apply list_elem_of_In. cbn. apply list_elem_of_filter. split; [|done].
  rewrite !andb_true_iff, eqb_str_true in E. naive_solver.
Qed.

Lemma datasetObjects_without n st s d :
  NoDup (ob_Name <$> Objects st) → s ∈ snapshotsIn st d → sn_Name s = n → datasetObjects (withoutObject n st) = datasetObjects st.
Proof.
  intros Hnd (o & Ho & Hs & ->)%elem_of_snapshotsIn Hn. unfold datasetObjects. cbn. rewrite list_filter_filter.
  apply list_filter_ext_in. intros o' Ho'. split; [tauto|]. intros Hd. split; [done|]. intros E.
  cbn in Hn. assert (o' = o) as -> by (apply (NoDup_fmap_inj ob_Name _ _ _ Hnd); congruence).
  unfold isSnapshotOf, isDataset in *. rewrite andb_true_iff, eqb_str_true in Hs. destruct Hs as [Ht _]. rewrite Ht in Hd. done.
Qed.

Lemma runWith_bindE {A B W} (h : ∀ R, op R → W → R * W) (p : prog (result A)) (k : A → prog (result B)) w :
  runWith h (bindE p k) w = let '(r, w) := runWith h p w in match r with Ok a => runWith h (k a) w | Err e => (Err e, w) end.
Proof. unfold bindE. rewrite runWith_bind. by destruct (runWith h p w) as [[] ?]. Qed.

Lemma runWith_call {R W} (h : ∀ R, op R → W → R * W) (o : op R) w : runWith h (call o) w = h R o w.
Proof. cbn. by destruct (h R o w). Qed.

Section Quiet.
Context `{QuiescentPool W} (s : Service) (root : string) (retention : Retention) (lineage : string).
Abbreviation dataset := (re_Dataset retention) (only parsing).
Abbreviation current w := (snapshotsIn (inspect w dataset false) dataset) (only parsing).

(** What the reads of a prune need. *)
Definition readable (w : W) : Prop :=
  RootAuthority (inspect w root false) root (sv_installation s) = Ok lineage ∧ scopeReady (inspect w dataset false) dataset = Ok tt.

Lemma pruneRead_quiet w : readable w → runWith handle (pruneRead s root dataset) w = (Ok (inspect w dataset false, lineage), w).
Proof.
  intros [Ha Hs]. unfold pruneRead. rewrite runWith_bindE, runWith_call, handle_inspect. rewrite Ha. cbn [bindR].
  rewrite runWith_bindE. destruct (String.eqb_spec dataset root) as [E|Hne]; cbn [negb].
  - cbn [runWith]. rewrite <- E, Hs. done.
  - rewrite runWith_call, handle_inspect, Hs. done.
Qed.

Definition destroyAll (names : list string) (w : W) : W := fold_left (λ w n, destroyed n w) names w.

Lemma current_destroyAll names w : current (destroyAll names w) = filter (λ sn, sn_Name sn ∉ names) (current w).
Proof.
  revert w. induction names as [|n names IH]; intros w; cbn [destroyAll fold_left].
  - symmetry. apply list_filter_all, Forall_forall. intros sn _. apply not_elem_of_nil.
  - change (fold_left (λ w n, destroyed n w) names (destroyed n w)) with (destroyAll names (destroyed n w)).
    rewrite IH, inspect_destroyed, snapshotsIn_without, list_filter_filter. apply list_filter_ext_in. intros sn _.
    rewrite not_elem_of_cons. tauto.
Qed.

Hypothesis Hroot : ValidateDataset root = Ok tt.
Hypothesis Hdataset : ValidateDataset dataset = Ok tt.

Lemma snapshot_not_dataset w sn d : sn ∈ current w → ValidateDataset d = Ok tt → d ≠ sn_Name sn.
Proof.
  intros (o & _ & Ho & ->)%elem_of_snapshotsIn Hd ->. unfold isSnapshotOf in Ho. apply andb_true_iff in Ho as [_ Ho].
  apply HasPrefix_spec in Ho as [t Ht]. cbn in Hd. rewrite Ht in Hd. apply validateDataset_ok in Hd.
  rewrite !bytes_of_app in Hd. set_solver.
Qed.

Lemma readable_destroyed w sn : readable w → sn ∈ current w → readable (destroyed (sn_Name sn) w).
Proof.
  intros [Ha Hs] Hin. split; rewrite inspect_destroyed.
  - apply RootAuthority_without; [by eapply snapshot_not_dataset|done].
  - apply scopeReady_without; [by eapply snapshot_not_dataset|done].
Qed.

(** One step: a snapshot that the present state lets go is destroyed. *)
Lemma pruneStep_quiet w base d sn :
  readable w → datasetObjects base = datasetObjects (inspect w dataset false) →
  (∃ ds, PlanPrune dataset lineage (re_Grid retention) (current w) = Ok ds) →
  sn ∈ current w → Prunable lineage (re_Grid retention) (current w) sn →
  de_Destroy d = true → de_Snapshot d = sn_Name sn → de_GUID d = sn_GUID sn →
  runWith handle (pruneStep s root retention base lineage tt d) w = (Ok tt, destroyed (sn_Name sn) w).
Proof.
  intros Hr Hb [ds HP] Hin Hpr Hdes Hn Hg. unfold pruneStep. rewrite Hdes. cbn [negb].
  rewrite runWith_bindE, pruneRead_quiet by done. cbv beta iota. rewrite bool_decide_true, eqb_str_refl by done. cbn [negb].
  rewrite HP. cbn [bindR]. destruct (PlanPrune_decides _ _ _ _ _ sn HP Hin) as (d' & Hd' & E1 & E2 & Hiff).
  assert (existsb (λ next, (de_Snapshot next =? de_Snapshot d)%string && (de_GUID next =? de_GUID d) && de_Destroy next) ds = true) as ->.
  { apply existsb_exists. exists d'. split; [by apply list_elem_of_In|]. rewrite E1, Hn, eqb_str_refl, E2, Hg, Z.eqb_refl. by apply Hiff. }
  rewrite runWith_call, Hn. apply (handle_destroy dataset); [done|]. by apply Hpr.
Qed.

Definition doomed (ds : list Decision) : list string := de_Snapshot <$> filter (λ d, de_Destroy d = true) ds.

Lemma doomed_cons d ds : doomed (d :: ds) = if de_Destroy d then de_Snapshot d :: doomed ds else doomed ds.
Proof. unfold doomed. rewrite filter_cons. by destruct (de_Destroy d). Qed.

(** The loop: with [gone] of the plan's snapshots destroyed, destroying the rest
    succeeds and destroys exactly them. *)
Lemma pruneLoop_quiet w0 plan base rest : ∀ gone w,
  PlanPrune dataset lineage (re_Grid retention) (current w0) = Ok plan →
  doomed plan = gone ++ doomed rest → (∀ d, d ∈ rest → d ∈ plan) →
  readable w → datasetObjects base = datasetObjects (inspect w dataset false) →
  current w = filter (λ sn, sn_Name sn ∉ gone) (current w0) →
  runWith handle (forE (pruneStep s root retention base lineage) tt rest) w = (Ok tt, destroyAll (doomed rest) w).
Proof using Hroot Hdataset.
  induction rest as [|d rest IH]; intros gone w HP Hg Hsub Hr Hb Hc; [done|]. cbn [forE]. rewrite runWith_bindE, doomed_cons in *.
  pose proof (PlanPrune_names _ _ _ _ _ HP) as Hnd. destruct (PlanPrune_Ok _ _ _ _ _ HP) as (_ & _ & Hall).
  destruct (Hall d (Hsub d (list_elem_of_here _ _))) as (sn & Hin & En & Egu & Hiff).
  destruct (de_Destroy d) eqn:Ed.
  2: { unfold pruneStep at 1. rewrite Ed. cbn [negb runWith]. apply (IH gone); try done. intros d' Hd'. apply Hsub. by right. }
  assert (NoDup (doomed plan)) as Hndd by (by apply NoDup_fmap_filter). rewrite Hg in Hndd. apply NoDup_app in Hndd as (_ & Hdis & _).
  assert (sn ∈ current w) as Hinw.
  { rewrite Hc. apply list_elem_of_filter. split; [|done]. intros Hgone. apply (Hdis _ Hgone). rewrite En. by left. }
  assert (∀ x, x ∈ current w0 → ¬ Prunable lineage (re_Grid retention) (current w0) x → x ∈ current w) as Hkeep.
  { intros x Hx Hnp. rewrite Hc. apply list_elem_of_filter. split; [|done]. intros Hgone.
    assert (x ∈ kept plan (current w0)) as Hk by (by apply (kept_spec _ _ _ _ _ _ HP)).
    unfold kept in Hk. apply list_elem_of_filter in Hk as [Hk _]. apply Hk. fold (doomed plan). rewrite Hg. apply elem_of_app. by left. }
  assert (∀ x, x ∈ current w → x ∈ current w0) as Hsubw by (intros x; rewrite Hc; by intros [_ ?]%list_elem_of_filter).
  rewrite (pruneStep_quiet w base d sn); try done.
  - assert (doomed plan = (gone ++ [de_Snapshot d]) ++ doomed rest) as Hg' by (by rewrite <- app_assoc).
    rewrite (IH (gone ++ [de_Snapshot d])); [by rewrite En| | | | | | ]; try done.
    + intros d' Hd'. apply Hsub. by right.
    + by apply readable_destroyed.
    + rewrite inspect_destroyed, (datasetObjects_without _ _ sn dataset); [done|apply inspect_names|done|done].
    + rewrite inspect_destroyed, snapshotsIn_without, Hc, list_filter_filter. apply list_filter_ext_in. intros x _.
      rewrite elem_of_app, list_elem_of_singleton, En. tauto.
  - rewrite Hc. by eapply PlanPrune_sub.
  - apply (Prunable_stable lineage (re_Grid retention) (current w0)); [done..|]. by apply Hiff.
Qed.
End Quiet.

(** C16: on a pool nothing else changes, applying a prune refines the plan: it
    succeeds, destroys exactly the snapshots the plan dooms, one at a time, and
    leaves exactly those it keeps. Its own destructions never invalidate the
    plan it re-checks before each of them. *)
Theorem Prune_exact `{QuiescentPool W} s root effective retention lineage plan (w : W) :
  ValidateDataset root = Ok tt → ActiveRoot effective root = Ok tt → ValidateDataset (re_Dataset retention) = Ok tt →
  within (re_Dataset retention) root = true → readable s root retention lineage w →
  PlanPrune (re_Dataset retention) lineage (re_Grid retention) (snapshotsIn (inspect w (re_Dataset retention) false) (re_Dataset retention)) = Ok plan →
  let w' := destroyAll (doomed plan) w in
  runWith handle (Prune s root effective retention true) w = ((plan, None), w') ∧
  snapshotsIn (inspect w' (re_Dataset retention) false) (re_Dataset retention)
  = kept plan (snapshotsIn (inspect w (re_Dataset retention) false) (re_Dataset retention)).
Proof.
  intros Hroot Hact Hd Hw Hr HP w'. split; [|apply current_destroyAll].
  unfold Prune, locked. rewrite Hroot, runWith_bind, runWith_call, handle_acquire. rewrite !runWith_bind. unfold prunePlan.
  rewrite Hroot, Hact, Hd. cbn [bindR]. rewrite <- negb_orb. unfold within, below in Hw. rewrite Hw. cbn [negb].
  rewrite runWith_bindE, (pruneRead_quiet s root retention lineage) by done. cbv beta iota. rewrite HP. cbn [bindR runWith].
  rewrite runWith_bind, (pruneLoop_quiet s root retention lineage Hroot Hd w plan _ plan [] w); try done.
  - cbn [runWith]. rewrite runWith_bind, runWith_call, handle_unlock. done.
  - symmetry. apply list_filter_all, Forall_forall. intros ? _. apply not_elem_of_nil.
Qed.

(** * CreateSnapshot writes only what it may *)

(** The history ends with a read of the scope that gave [state]. *)
Definition lastRead (dataset : string) (recursive : bool) (state : State) (pre : list event) : Prop :=
  ∃ pre0, pre = pre0 ++ [Event (InspectState dataset recursive) (Ok state)].

Lemma unchanged_always (P : list event → ∀ R, op R → Prop) dataset recursive expected pre :
  (∀ pre d r, P pre _ (InspectState d r)) →
  always P pre (unchanged dataset recursive expected) (λ tr r, match r with Ok _ => lastRead dataset recursive expected tr | Err _ => True end).
Proof.
  intros HP. unfold unchanged. apply always_bindE, always_call; [apply HP|]. intros [current|e]; [|done]. cbn.
  case_decide as E; [|done]. subst. by exists pre.
Qed.

(** The same, keeping what came before. *)
Lemma unchanged_run (P : list event → ∀ R, op R → Prop) dataset recursive expected pre :
  (∀ pre d r, P pre _ (InspectState d r)) →
  always P pre (unchanged dataset recursive expected) (λ tr r,
    ∃ tr', tr = pre ++ tr' ∧ mutations tr' = [] ∧ (r = Ok tt → lastRead dataset recursive expected tr)).
Proof.
  intros HP. unfold unchanged. apply always_bindE, always_call; [apply HP|]. intros [current|e]; cbn; [|by eexists].
  case_decide as E; [subst|]; eexists; split_and!; try done. intros _. by exists pre.
Qed.

(** What the two kinds of write need: the markers of a root that has no state
    yet, and a snapshot of the members under the authority just read. *)
Definition createGuard (s : Service) (dataset : string) (members : list string) (now : Time) (pre : list event) (R : Type) (o : op R) : Prop :=
  match o with
  | SetProperties d props => d = dataset ∧ ∃ state lineage, lastRead dataset true state pre ∧
      storedLineage state dataset = Ok "" ∧ freshScope state = Ok tt ∧ scopeReady state dataset = Ok tt ∧
      props = authorityProperties (sv_installation s) lineage
  | TakeSnapshot ms name props => ms = members ∧ ∃ state lineage m, lastRead dataset true state pre ∧
      authorized state dataset (sv_installation s) lineage ∧ hasTokens state = false ∧
      Lineage m = lineage ∧ Created m = now ∧ name = Name m ∧ props = metadataProperties m
  | _ => mutates o = false
  end.

(** Every member's snapshot reads back as owned with the returned metadata. *)
Definition createdAll (dataset : string) (members : list string) (tr : list event) (m : Metadata) : Prop :=
  ∃ after, lastRead dataset true after tr ∧ Forall (λ member, ∃ sn, sn ∈ snapshotsIn after member ∧
    sn_Name sn = member +:+ "@" +:+ Name m ∧ Owned sn (Lineage m) m) members.

Lemma newMetadata_always (P : list event → ∀ R, op R → Prop) lineage now pre :
  (∀ pre, P pre _ RandRead) →
  always P pre (newMetadata lineage now) (λ tr r, match r with Ok m => Lineage m = lineage ∧ Created m = now | Err _ => True end).
Proof.
  intros HP. unfold newMetadata. destruct (negb _ || _ || _ || _) eqn:E; [done|]. split; [apply HP|]. intros rand. cbn.
  unfold NewMetadata. rewrite E. by destruct (NewID rand).
Qed.

Lemma scopeReady_tokens state dataset : scopeReady state dataset = Ok tt → hasTokens state = false.
Proof. unfold scopeReady. by destruct (hasTokens state). Qed.

Lemma createdVerified_spec after lineage m member :
  createdVerified after lineage m member = true →
  ∃ sn, sn ∈ snapshotsIn after member ∧ sn_Name sn = member +:+ "@" +:+ Name m ∧ Ownership sn lineage = Ok m.
Proof.
  unfold createdVerified. generalize (snapshotsIn after member). intros l.
  assert (∀ b, fold_left (λ verified s, if negb (sn_Name s =? member +:+ "@" +:+ Name m)%string then verified
      else bool_decide (Ownership s lineage = Ok m)) l b = true → b = true ∨
    ∃ sn, sn ∈ l ∧ sn_Name sn = member +:+ "@" +:+ Name m ∧ Ownership sn lineage = Ok m) as Hl.
  { induction l as [|x l IH]; intros b; cbn [fold_left]; [by left|]. intros [H|(sn & Hin & H)]%IH; [|right; exists sn; split; [by right|done]].
    destruct (String.eqb_spec (sn_Name x) (member +:+ "@" +:+ Name m)) as [En|]; cbn [negb] in H; [|by left].
    apply bool_decide_eq_true in H. right. exists x. split; [by left|done]. }
  intros H. by destruct (Hl _ H).
Qed.

Lemma verifyCreated_eq after lineage m u member : verifyCreated after lineage m u member
  = if createdVerified after lineage m member then Ok tt else Err (Errorf ("created snapshot could not be verified on " +:+ member)).
Proof. done. Qed.

Lemma verifyCreated_Ok after lineage m members :
  foldM (verifyCreated after lineage m) tt members = Ok tt →
  Forall (λ member, ∃ sn, sn ∈ snapshotsIn after member ∧ sn_Name sn = member +:+ "@" +:+ Name m ∧ Ownership sn lineage = Ok m) members.
Proof.
  induction members as [|x members IH]; intros H; [constructor|]. cbn [foldM] in H. rewrite verifyCreated_eq in H.
  destruct (createdVerified after lineage m x) eqn:E; [|discriminate H]. constructor; [by apply createdVerified_spec|exact (IH H)].
Qed.

(** Authority as [initLineage] and [chooseLineage] leave it. *)
Lemma initLineage_always s dataset members now state lineage pre :
  lastRead dataset true state pre → storedLineage state dataset = Ok "" → freshScope state = Ok tt → scopeReady state dataset = Ok tt →
  always (createGuard s dataset members now) pre (initLineage s dataset lineage state)
    (λ tr r, match r with Ok _ => ∃ current, lastRead dataset true current tr ∧
        authorized current dataset (sv_installation s) lineage ∧ hasTokens current = false | Err _ => True end).
Proof.
  intros Hlast Hst Hf Hr. unfold initLineage. apply always_bindE, always_call; [split; [done|]; exists state, lineage; done|].
  intros [[]|e]; [|done]. apply always_bindE, always_call; [done|]. intros [current|e]; [|done]. cbn.
  destruct (RootAuthority current dataset (sv_installation s)) as [actual|] eqn:Ea; [|done].
  destruct (String.eqb_spec actual lineage) as [->|]; cbn [andb]; [|done]. destruct (bool_decide _); cbn [andb]; [|done].
  destruct (hasTokens current) eqn:Et; cbn [negb]; [done|]. exists current. split_and!; [by eexists|by apply RootAuthority_Ok|done].
Qed.

Lemma CreateSnapshot_always s dataset members now effective pre :
  always (createGuard s dataset members now) pre (CreateSnapshot s dataset members now effective)
    (λ tr r, ∀ m, r = Ok m → ∃ tr0, tr = tr0 ++ [Event (Unlock dataset) tt] ∧ createdAll dataset members tr0 m).
Proof.
  apply always_locked; [done..|]. intros tr0.
  eapply (always_mono _ _ _ (λ tr r, match r with Ok m => createdAll dataset members tr m | Err _ => True end));
    [intros tr [m|] H m' [= <-]; by exists tr|].
  apply always_bindR. destruct (ValidateDataset dataset) as [[]|]; [|done]. apply always_bindR. destruct (ActiveRoot _ _) as [[]|]; [|done].
  apply always_bindR. destruct (validateMembers _ _) as [[]|]; [|done]. apply always_bindE, always_call; [done|].
  intros [state|e]; [|done]. apply always_bindR. destruct (scopeReady state dataset) as [[]|] eqn:Hready; [|done].
  apply always_bindR. destruct (storedLineage state dataset) as [stored|] eqn:Hst; [|done].
  apply always_bindE. eapply (always_mono _ _ _ (λ tr r, match r with
    | Ok lineage => if (stored =? "")%string then freshScope state = Ok tt else RootAuthority state dataset (sv_installation s) = Ok lineage
    | Err _ => True end)).
  2: { unfold chooseLineage. destruct (stored =? "")%string; [|by cbn; destruct (RootAuthority _ _ _)].
       apply always_bindR. destruct (freshScope state) as [[]|] eqn:Ef; [|done]. split; [done|]. intros rand. cbn. by destruct (NewID rand). }
  intros tr1 [lineage|e] Hl; [|done]. apply always_bindR. destruct (foldM _ _ _) as [[]|]; [|done].
  apply always_bindE. eapply always_mono; [|by apply newMetadata_always]. intros tr2 [m|e]; [|done]. intros [Hml Hmc].
  apply always_bindE. eapply always_mono; [|by apply unchanged_always]. intros tr3 [[]|e]; [|done]. intros Hlast.
  apply always_bindE. eapply (always_mono _ _ _ (λ tr r, match r with
    | Ok _ => ∃ current, lastRead dataset true current tr ∧ authorized current dataset (sv_installation s) lineage ∧ hasTokens current = false
    | Err _ => True end)).
  2: { destruct (String.eqb_spec stored "") as [->|]; [by apply initLineage_always|]. exists state.
       split_and!; [done|by apply RootAuthority_Ok|by eapply scopeReady_tokens]. }
  intros tr4 [[]|e]; [|done]. intros (current & Hcur & Hauth & Htok).
  apply always_bindE, always_call; [split; [done|]; exists current, lineage, m; done|].
  intros [[]|e]; [|done]. apply always_bindE, always_call; [done|]. intros [after|e]; [|done].
  destruct (bool_decide _); cbn [negb]; [|done]. apply always_bindR. destruct (foldM (verifyCreated _ _ _) _ _) as [[]|] eqn:Hv; [|done].
  exists after. split; [by eexists|]. rewrite Hml. eapply Forall_impl; [by apply verifyCreated_Ok|].
  intros member (sn & H1 & H2 & H3). exists sn. split_and!; [done..|by apply Ownership_Ok].
Qed.

(** C5: taking a snapshot changes a pool only in two ways, whatever happens
    between its calls. It writes a root's markers only when the read just made
    shows a scope with no lineage and no internal metadata. It snapshots the
    members only when the read just made shows this installation's authority over
    the root and no resumable receive. A success is returned only after every
    member's snapshot has been read back as owned with the returned metadata. *)
Theorem CreateSnapshot_safe s dataset members now effective tr res :
  runs (CreateSnapshot s dataset members now effective) tr res →
  (∀ t1 e t2, tr = t1 ++ e :: t2 → justified (createGuard s dataset members now) t1 e) ∧
  (∀ m, res = Ok m → ∃ tr0, tr = tr0 ++ [Event (Unlock dataset) tt] ∧ createdAll dataset members tr0 m).
Proof.
  intros Hr. pose proof (CreateSnapshot_always s dataset members now effective []) as Ha.
  destruct (always_runs _ _ _ tr [] _ Hr Ha) as [HQ Hj]. split; [exact Hj|exact HQ].
Qed.

(** * A pool *)

Module SamplePool.
Definition installation : string := "22222222-2222-4222-8222-222222222222".
Definition state : State :=
  mkState (mkObject "tank/data" "filesystem" 7 0 1 :: ((λ s, mkObject (sn_Name s) "snapshot" (sn_GUID s) 0 1) <$> witnessSnapshots))
    ([localRow "tank/data" OwnerProperty installation; localRow "tank/data" LineageProperty witnessLineage;
      localRow "tank/data" VersionProperty "2"] ++ (witnessSnapshots ≫= sn_Properties)) ∅ ∅ ∅ ∅.
Definition effective : Effective :=
  Resolve (mkDataset "tank/data" Filesystem "-") None [mkProperty "tank/data" (Namespace +:+ "enabled") "on" SourceLocal] ∅.
Definition service : Service := mkService installation true true.
Definition retention : Retention := mkRetention "tank/data" witnessGrid.

(** States with distinct object names; every read shows the whole state. *)
Definition world : Type := { st : State | NoDup (ob_Name <$> Objects st) }.
Lemma without_NoDup n st : NoDup (ob_Name <$> Objects st) → NoDup (ob_Name <$> Objects (withoutObject n st)).
Proof. apply NoDup_fmap_filter. Qed.
Definition remove (n : string) (w : world) : world := exist _ (withoutObject n (`w)) (without_NoDup n _ (proj2_sig w)).
Fixpoint answer (R : Type) (o : op R) (w : world) : R * world :=
  match o with
  | Acquire _ => (Ok tt, w)
  | Unlock _ => (tt, w)
  | RandRead => (Ok (seqZ 0 16), w)
  | InspectState _ _ => (Ok (`w), w)
  | DestroySnapshot n => (Ok tt, remove n w)
  | SetProperties _ _ | TakeSnapshot _ _ _ | HoldSnapshot _ _ | ReleaseHold _ _ | CreateBookmark _ _ | DestroyBookmark _
  | InheritProperty _ _ | Quiescent _ | CheckTarget _ _ => (Ok tt, w)
  | ListDatasets => (Ok [], w)
  | GetActivationProperties => (Ok [], w)
  | InspectDatasetIdentity _ => (Err (Errorf "dataset is unavailable"), w)
  | GetStoredProperties _ => (Ok [], w)
  | CheckPermissions _ _ | CreateReceiveParent _ | RenameDataset _ _ | DestroyDataset _ _ | AbortReceive _ => (Ok tt, w)
  | EstimateStream _ => (Ok (mkEstimate false 0 ""), w)
  | RunStream _ _ _ => (Ok (mkProgress 0 (mkEstimate false 0 "") true), w)
  | ContextDone => (false, w)
  | OnTarget o => answer _ o w
  end.
#[global] Instance pool : QuiescentPool world.
Proof.
  refine {| handle := answer; inspect w _ _ := `w; destroyed := remove |}; try done. intros w _ _. apply (proj2_sig w).
Defined.

Lemma state_names : NoDup (ob_Name <$> Objects state).
Proof. apply (bool_decide_unpack _). by vm_compute. Qed.
Definition start : world := exist _ state state_names.
Lemma state_snapshots : snapshotsIn state "tank/data" = witnessSnapshots.
Proof. by vm_compute. Qed.
Lemma active : ActiveRoot effective "tank/data" = Ok tt.
Proof. by vm_compute. Qed.
Lemma start_readable : readable service "tank/data" retention witnessLineage start.
Proof. split; by vm_compute. Qed.
End SamplePool.

Lemma Prune_exact_witness :
  runWith handle (Prune SamplePool.service "tank/data" SamplePool.effective SamplePool.retention true) SamplePool.start
  = ((witnessPlan, None), destroyAll (doomed witnessPlan) SamplePool.start).
Proof.
  destruct (Prune_exact SamplePool.service "tank/data" SamplePool.effective SamplePool.retention witnessLineage witnessPlan SamplePool.start)
    as [H _]; [by vm_compute|exact SamplePool.active|by vm_compute|by vm_compute|exact SamplePool.start_readable| |exact H].
  change (PlanPrune "tank/data" witnessLineage witnessGrid (snapshotsIn SamplePool.state "tank/data") = Ok witnessPlan).
  rewrite SamplePool.state_snapshots. exact witnessPlan_Ok.
Defined.

Module PruneRun.
Definition run : list event * (list Decision * option error) :=
  traceWith SamplePool.answer (Prune SamplePool.service "tank/data" SamplePool.effective SamplePool.retention true) SamplePool.start.
(** The destruction is the fourth call, after the lock and two reads. *)
Definition before : list event := take 3 run.1.
Definition after : list event := drop 4 run.1.
Definition destruction : event := Event (DestroySnapshot (de_Snapshot witnessDestroyed)) (Ok tt).
Lemma split_run : run.1 = before ++ destruction :: after.
Proof. by vm_compute. Qed.
End PruneRun.

Lemma Prune_safe_witness : ∃ sn, destroys PruneRun.destruction (sn_Name sn) ∧ unprotected sn.
Proof.
  destruct (Prune_safe SamplePool.service "tank/data" SamplePool.effective SamplePool.retention true PruneRun.run.1 PruneRun.run.2
    PruneRun.before PruneRun.destruction PruneRun.after (traceWith_runs _ _ _) PruneRun.split_run eq_refl)
    as (_ & _ & rs & st & l & sn & m & H1 & _ & _ & _ & _ & H2 & _).
  exact (ex_intro _ sn (conj H1 H2)).
Defined.

Module SnapshotRun.
(** A pool in which a snapshot appears with the properties it is given. *)
Definition taken (members : list string) (name : string) (props : gmap string string) (st : State) : State :=
  mkState (Objects st ++ ((λ d, mkObject (d +:+ "@" +:+ name) "snapshot" 99 0 2) <$> members))
    (Properties st ++ (members ≫= λ d, (λ p, localRow (d +:+ "@" +:+ name) p.1 p.2) <$> map_to_list props))
    (Received st) (ResumeTokens st) (Clones st) (Holds st).
Fixpoint answer (R : Type) (o : op R) (st : State) : R * State :=
  match o with
  | Acquire _ => (Ok tt, st)
  | Unlock _ => (tt, st)
  | RandRead => (Ok (seqZ 0 16), st)
  | InspectState _ _ => (Ok st, st)
  | TakeSnapshot members name props => (Ok tt, taken members name props st)
  | SetProperties _ _ | DestroySnapshot _ | HoldSnapshot _ _ | ReleaseHold _ _ | CreateBookmark _ _ | DestroyBookmark _
  | InheritProperty _ _ | Quiescent _ | CheckTarget _ _ => (Ok tt, st)
  | ListDatasets => (Ok [], st)
  | GetActivationProperties => (Ok [], st)
  | InspectDatasetIdentity _ => (Err (Errorf "dataset is unavailable"), st)
  | GetStoredProperties _ => (Ok [], st)
  | CheckPermissions _ _ | CreateReceiveParent _ | RenameDataset _ _ | DestroyDataset _ _ | AbortReceive _ => (Ok tt, st)
  | EstimateStream _ => (Ok (mkEstimate false 0 ""), st)
  | RunStream _ _ _ => (Ok (mkProgress 0 (mkEstimate false 0 "") true), st)
  | ContextDone => (false, st)
  | OnTarget o => answer _ o st
  end.
Definition now : Time := Date 2026 8 2 12 0 0 0.
Definition run : list event * result Metadata :=
  traceWith answer (CreateSnapshot SamplePool.service "tank/data" ["tank/data"] now SamplePool.effective) SamplePool.state.
Definition created : Metadata := mkMetadata witnessLineage "00010203-0405-4607-8809-0a0b0c0d0e0f" now.
Lemma run_created : run.2 = Ok created.
Proof. by vm_compute. Qed.
End SnapshotRun.

Lemma CreateSnapshot_safe_witness :
  length SnapshotRun.run.1 = 7%nat ∧ ∃ tr, createdAll "tank/data" ["tank/data"] tr SnapshotRun.created.
Proof.
  split; [by vm_compute|].
  destruct (CreateSnapshot_safe SamplePool.service "tank/data" ["tank/data"] SnapshotRun.now SamplePool.effective
    SnapshotRun.run.1 SnapshotRun.run.2 (traceWith_runs _ _ _)) as [_ H].
  destruct (H SnapshotRun.created SnapshotRun.run_created) as (tr & _ & Hc). exact (ex_intro _ tr Hc).
Defined.
