(* ===== verification/Discovery.v ===== *)
(** Discovery: internal/discovery/discovery.go.

    [Scan] builds one generation from the reader's answers. No argument list is
    read twice in a scan (a batch holds only datasets not fetched yet), so the
    reader is a record of functions from arguments to answers; every answer is
    arbitrary. Go maps of booleans are sets; a lookup of a missing key of
    [entries] is the zero [Entry]. *)

From Stdlib Require Import Ascii.
From S2P Require Import Prelude GoStrings GoTime Grid Names Zfs Ownership Policy Stream Json Authority Reference.

(** * Data *)

Record Replica := mkReplica { rp_Source : string; rp_Destination : string; rp_Lineage : string }.
Record BlockedTarget := mkBlocked { bt_Target : string; bt_Remote : bool; bt_Reason : string }.

Record Entry := mkEntry {
  en_Dataset : Dataset;
  en_Parent : string;
  en_Inspected : bool;
  en_CoveredBy : string;
  en_Member : bool;
  en_Members : list string;
  en_Policy : Effective;
  en_Stored : list Property;
  en_Blocked : list BlockedTarget;
  en_Replica : Replica
}.

Definition zeroFlags : Flags := mkFlags false false false false false false.
Definition zeroEffective : Effective := mkEffective false emptyGrid [] [] "" zeroFlags zeroFlags ∅ [] "" ∅ [] [].
Definition zeroReplica : Replica := mkReplica "" "" "".
Definition zeroEntry : Entry := mkEntry (mkDataset "" "" "") "" false "" false [] zeroEffective [] [] zeroReplica.

(** [entries[name]]. *)
Definition entryOf (entries : gmap string Entry) (name : string) : Entry := default zeroEntry (entries !! name).

(** [Entry.ErrBlocked] and [Entry.ErrCovered]; [None] is nil. *)
Definition ErrBlocked (e : Entry) (target : string) (remote : bool) : option error :=
  match List.find (λ b, (bt_Target b =? target)%string && Bool.eqb (bt_Remote b) remote) (en_Blocked e) with
  | Some b => Some (Errorf (ds_Name (en_Dataset e) +:+ " may not send to " +:+ target +:+ ": " +:+ bt_Reason b))
  | None => None
  end.
Definition ErrCovered (e : Entry) : option error :=
  if (en_CoveredBy e =? "")%string then None
  else if en_Member e
  then Some (Errorf (ds_Name (en_Dataset e) +:+ " is a member of actor root " +:+ en_CoveredBy e +:+ "; operate on the root"))
  else Some (Errorf (ds_Name (en_Dataset e) +:+ " is excluded from actor root " +:+ en_CoveredBy e +:+ " and cannot act independently")).

Record Generation := mkGeneration { ge_ID : Z; ge_Created : Time; ge_names : list string; ge_entries : gmap string Entry }.
(** [Generation.Entries] and [Generation.Inspect]. *)
Definition Entries (g : Generation) : list Entry := entryOf (ge_entries g) <$> ge_names g.
Definition Inspect (g : Generation) (name : string) : Entry * bool :=
  (entryOf (ge_entries g) name, bool_decide (is_Some (ge_entries g !! name))).

Record RemoteDestination := mkDestination { rd_Namespace : string; rd_Root : string; rd_Canonical : string }.
Record Options := mkOptions {
  op_BatchSize : Z;
  op_MaxArgumentBytes : Z;
  op_Remotes : list string;
  op_Destinations : gmap string RemoteDestination;
  op_ReplicationRoots : list string
}.

(** The reader; [read_Lifecycle] is [None] for one that is no
    [LifecycleReader]. *)
Record Reader := mkReader {
  read_Datasets : result (list Dataset);
  read_Activation : result (list Property);
  read_Lifecycle : option (result (list Property));
  read_Stored : list string → result (list Property)
}.

Record Scanner := mkScanner {
  sc_options : Options;
  sc_remotes : gset string;
  sc_destinations : gmap string RemoteDestination;
  sc_interval : Z;
  sc_current : option Generation;
  sc_requested : bool;
  sc_changed : bool
}.

(** [New]; the reader is given to each scan. *)
Definition NewScanner (options : Options) : result Scanner :=
  let size := if op_BatchSize options =? 0 then 128 else op_BatchSize options in
  let budget := if op_MaxArgumentBytes options =? 0 then 32 * 1024 else op_MaxArgumentBytes options in
  if (size <? 1) || (budget <? 1) then Err (Errorf "discovery batch limits must be positive")
  else Ok (mkScanner (mkOptions size budget (op_Remotes options) (op_Destinations options) (op_ReplicationRoots options))
             (list_to_set (op_Remotes options)) (op_Destinations options) 0 None false false).

(** The requests and changed channels hold one pending value each, so a send
    that would block is dropped. *)
Definition Reconfigure (s : Scanner) (interval : Z) (remotes : list string) (destinations : gmap string RemoteDestination) : result Scanner :=
  if interval <=? 0 then Err (Errorf "reconciliation interval must be positive")
  else Ok (mkScanner (sc_options s) (list_to_set remotes) destinations interval (sc_current s) (sc_requested s) true).
Definition Request (s : Scanner) : Scanner :=
  mkScanner (sc_options s) (sc_remotes s) (sc_destinations s) (sc_interval s) (sc_current s) true (sc_changed s).
Definition SetDestinations (s : Scanner) (destinations : gmap string RemoteDestination) : Scanner :=
  Request (mkScanner (sc_options s) (sc_remotes s) destinations (sc_interval s) (sc_current s) (sc_requested s) (sc_changed s)).

(** * The inventory *)

Definition parentName (name : string) : string := default "" (BeforeLast name "/").

Fixpoint addAncestorsFrom (fuel : nat) (set : gset string) (name : string) : gset string :=
  match fuel with
  | O => set
  | S fuel => if (name =? "")%string then set else addAncestorsFrom fuel ({[name]} ∪ set) (parentName name)
  end.
(** Each parent is shorter than its child. *)
Definition addAncestors (set : gset string) (name : string) : gset string :=
  addAncestorsFrom (String.length name) set name.

Definition indexDataset (inventory : gmap string Dataset) (d : Dataset) : result (gmap string Dataset) :=
  _ ← ValidateDataset (ds_Name d);
  if negb (ds_Type d =? Filesystem)%string && negb (ds_Type d =? Volume)%string
  then Err (Errorf ("invalid dataset type " +:+ Quote (ds_Type d)))
  else match inventory !! ds_Name d with
       | Some _ => Err (Errorf ("duplicate dataset " +:+ Quote (ds_Name d)))
       | None => Ok (<[ds_Name d := d]> inventory)
       end.
Definition checkParent (inventory : gmap string Dataset) (_ : unit) (name : string) : result unit :=
  let parent := parentName name in
  if negb (parent =? "")%string && negb (bool_decide (is_Some (inventory !! parent)))
  then Err (Errorf ("missing parent " +:+ Quote parent)) else Ok tt.
(** Which of several missing parents the error names depends on the order Go
    iterates the map in. *)
Definition indexDatasets (datasets : list Dataset) : result (list string * gmap string Dataset) :=
  inventory ← foldM indexDataset ∅ datasets;
  let names := SortStrings (map_to_list inventory).*1 in
  _ ← foldM (checkParent inventory) tt names;
  Ok (names, inventory).

(** [row.Dataset + "\x00" + row.Name + "\x00" + row.Source]. *)
Definition rowKey (row : Property) : string := pr_Dataset row +:+ NUL +:+ pr_Name row +:+ NUL +:+ pr_Source row.
Definition validateRow (inventory : gmap string Dataset) (allowed : option (gset string)) (activation : bool)
    (seen : gset string) (row : Property) : result (gset string) :=
  if negb (bool_decide (is_Some (inventory !! pr_Dataset row)))
  then Err (Errorf ("property references unknown dataset " +:+ Quote (pr_Dataset row)))
  else if match allowed with Some set => negb (bool_decide (pr_Dataset row ∈ set)) | None => false end
  then Err (Errorf ("property outside requested batch: " +:+ Quote (pr_Dataset row)))
  else if negb (HasPrefix (pr_Name row) Namespace) || (activation && negb (pr_Name row =? Namespace +:+ "enabled")%string)
  then Err (Errorf ("unexpected property " +:+ Quote (pr_Name row)))
  else if negb (pr_Source row =? SourceLocal)%string && negb (pr_Source row =? SourceReceived)%string
  then Err (Errorf ("unexpected property source " +:+ Quote (pr_Source row)))
  else if bool_decide (rowKey row ∈ seen)
  then Err (Errorf ("duplicate stored property " +:+ Quote (pr_Name row) +:+ " on " +:+ Quote (pr_Dataset row)))
  else Ok ({[rowKey row]} ∪ seen).
Definition validateRows (rows : list Property) (inventory : gmap string Dataset) (allowed : option (gset string)) (activation : bool) : result unit :=
  _ ← foldM (validateRow inventory allowed activation) ∅ rows; Ok tt.

Definition rowLe (a b : Property) : Prop := String.le (rowKey a +:+ NUL +:+ pr_Value a) (rowKey b +:+ NUL +:+ pr_Value b).
#[export] Instance rowLe_dec : RelDecision rowLe.
Proof. unfold rowLe. intros a b. apply _. Defined.
Definition sortRows (rows : list Property) : list Property := merge_sort rowLe rows.

Definition groupRow (grouped : gmap string (list Property)) (row : Property) : gmap string (list Property) :=
  <[pr_Dataset row := default [] (grouped !! pr_Dataset row) ++ [row]]> grouped.
Definition group (rows : list Property) : gmap string (list Property) := sortRows <$> fold_left groupRow rows ∅.

Definition resolveName (inventory : gmap string Dataset) (stored : gmap string (list Property)) (fetched remotes : gset string)
    (entries : gmap string Entry) (name : string) : gmap string Entry :=
  let parent := parentName name in
  let inherited := if (parent =? "")%string then None else Some (en_Policy (entryOf entries parent)) in
  let dataset := default (mkDataset "" "" "") (inventory !! name) in
  let rows := default [] (stored !! name) in
  <[name := mkEntry dataset parent (bool_decide (name ∈ fetched)) "" false [] (Resolve dataset inherited rows remotes) rows [] zeroReplica]> entries.
Definition resolve (names : list string) (inventory : gmap string Dataset) (stored : gmap string (list Property)) (fetched remotes : gset string)
  : gmap string Entry := fold_left (resolveName inventory stored fetched remotes) names ∅.

(** * Actor roots *)

(** Assignments to one field. *)
Definition setPolicy (e : Entry) (p : Effective) : Entry :=
  mkEntry (en_Dataset e) (en_Parent e) (en_Inspected e) (en_CoveredBy e) (en_Member e) (en_Members e) p (en_Stored e) (en_Blocked e) (en_Replica e).
Definition setCoveredBy (e : Entry) (root : string) : Entry :=
  mkEntry (en_Dataset e) (en_Parent e) (en_Inspected e) root (en_Member e) (en_Members e) (en_Policy e) (en_Stored e) (en_Blocked e) (en_Replica e).
Definition setMember (e : Entry) : Entry :=
  mkEntry (en_Dataset e) (en_Parent e) (en_Inspected e) (en_CoveredBy e) true (en_Members e) (en_Policy e) (en_Stored e) (en_Blocked e) (en_Replica e).
Definition setMembers (e : Entry) (members : list string) : Entry :=
  mkEntry (en_Dataset e) (en_Parent e) (en_Inspected e) (en_CoveredBy e) (en_Member e) members (en_Policy e) (en_Stored e) (en_Blocked e) (en_Replica e).
Definition setBlocked (e : Entry) (blocked : list BlockedTarget) : Entry :=
  mkEntry (en_Dataset e) (en_Parent e) (en_Inspected e) (en_CoveredBy e) (en_Member e) (en_Members e) (en_Policy e) (en_Stored e) blocked (en_Replica e).
Definition setReplica (e : Entry) (replica : Replica) : Entry :=
  mkEntry (en_Dataset e) (en_Parent e) (en_Inspected e) (en_CoveredBy e) (en_Member e) (en_Members e) (en_Policy e) (en_Stored e) (en_Blocked e) replica.
Definition addWarnings (p : Effective) (warnings : list string) : Effective :=
  mkEffective (ef_Enabled p) (ef_Grid p) (ef_Remote p) (ef_Local p) (ef_Incremental p) (ef_Requested p) (ef_Send p)
    (ef_SetProperties p) (ef_IgnoreProperties p) (ef_Discard p) (ef_Values p) (ef_Warnings p ++ warnings) (ef_Errors p).
Definition clearReplicate (p : Effective) : Effective :=
  let s := ef_Send p in
  mkEffective (ef_Enabled p) (ef_Grid p) (ef_Remote p) (ef_Local p) (ef_Incremental p) (ef_Requested p)
    (mkFlags (LargeBlocks s) (Compressed s) (EmbeddedData s) (Raw s) (Props s) false)
    (ef_SetProperties p) (ef_IgnoreProperties p) (ef_Discard p) (ef_Values p) (ef_Warnings p) (ef_Errors p).
Definition setDiscard (p : Effective) (discard : Discard) : Effective :=
  mkEffective (ef_Enabled p) (ef_Grid p) (ef_Remote p) (ef_Local p) (ef_Incremental p) (ef_Requested p) (ef_Send p)
    (ef_SetProperties p) (ef_IgnoreProperties p) discard (ef_Values p) (ef_Warnings p) (ef_Errors p).

(** [entry.Policy.Values[key].Value]. *)
Definition policyValue (p : Effective) (key : string) : string :=
  match ef_Values p !! key with Some v => va_Value v | None => "" end.

(** A dataset under a root that sends one recursive stream. *)
Definition governedKeys (entry root : Effective) : list string :=
  SortStrings (elements ((dom (ef_Values entry) ∪ dom (ef_Values root)) ∖ {[Namespace +:+ "enabled"]} : gset string)).
Definition replicatedPolicy (root : string) (rootPolicy p : Effective) : Effective :=
  let p1 := if negb (ef_Enabled p)
            then addWarnings p ["replication root " +:+ root +:+ " sends this dataset although it is disabled here; replicate=on cannot exclude descendants"]
            else p in
  fold_left (λ p key, if negb (policyValue p key =? policyValue rootPolicy key)%string
                      then addWarnings p ["replication root " +:+ root +:+ " governs differing " +:+ TrimPrefix key Namespace]
                      else p) (governedKeys p rootPolicy) p1.

(** A member that is sent with its own options. *)
Definition memberPolicy (root : string) (rootPolicy p : Effective) : Effective :=
  let p1 := if Replicate (ef_Send p)
            then addWarnings (clearReplicate p) ["actor root " +:+ root +:+ " sends members individually; replicate is ignored here"]
            else p in
  if negb (ef_Discard p1 =? ef_Discard rootPolicy)%string
  then addWarnings (setDiscard p1 (ef_Discard rootPolicy)) ["actor root " +:+ root +:+ " sets the receive path mapping; discard is ignored here"]
  else p1.

Record rootState := mkRootState { ro_within : gmap string string; ro_members : gmap string (list string); ro_entries : gmap string Entry }.

Definition addMember (members : gmap string (list string)) (root name : string) : gmap string (list string) :=
  <[root := default [] (members !! root) ++ [name]]> members.

(** A dataset inside [root]'s subtree: the switch of [markRoots]. *)
Definition coverEntry (entries : gmap string Entry) (root name : string) : Entry * gmap string Entry :=
  let entry := setCoveredBy (entryOf entries name) root in
  let rootEntry := entryOf entries root in
  if Replicate (ef_Send (en_Policy rootEntry))
  then (setPolicy (setMember entry) (replicatedPolicy root (en_Policy rootEntry) (en_Policy entry)), entries)
  else if ef_Enabled (en_Policy entry) && en_Inspected entry && validPolicy (en_Policy entry)
  then (setPolicy (setMember entry) (memberPolicy root (en_Policy rootEntry) (en_Policy entry)), entries)
  else if ef_Enabled (en_Policy entry)
  then (entry, <[root := setPolicy rootEntry (addWarnings (en_Policy rootEntry)
                   ["member " +:+ name +:+ " is excluded while its policy is invalid"])]> entries)
  else (entry, entries).

Definition markRoot (st : rootState) (name : string) : rootState :=
  let entry := entryOf (ro_entries st) name in
  let above := default "" (ro_within st !! en_Parent entry) in
  let root := if (above =? "")%string && ef_Enabled (en_Policy entry) then name else above in
  let within := <[name := root]> (ro_within st) in
  if (root =? "")%string then mkRootState within (ro_members st) (ro_entries st)
  else if (root =? name)%string then mkRootState within (addMember (ro_members st) root name) (ro_entries st)
  else
    let '(entry, entries) := coverEntry (ro_entries st) root name in
    mkRootState within (if en_Member entry then addMember (ro_members st) root name else ro_members st) (<[name := entry]> entries).

(** Each root's entry is written once, so the order of the roots is no matter. *)
Definition storeMembers (members : gmap string (list string)) (entries : gmap string Entry) : gmap string Entry :=
  merge (λ set entry, match set with Some set => Some (setMembers (default zeroEntry entry) set) | None => entry end) members entries.

Definition checkScope (st : gset string * gmap string Entry) (name : string) : gset string * gmap string Entry :=
  let '(checked, entries) := st in
  let entry := entryOf entries name in
  if negb (en_Member entry) || bool_decide (en_CoveredBy entry ∈ checked) || negb (encryptedDataset (en_Dataset entry)) then st
  else
    let root := entryOf entries (en_CoveredBy entry) in
    if negb (Replicate (ef_Send (en_Policy root))) then st
    else ({[en_CoveredBy entry]} ∪ checked,
          <[en_CoveredBy entry := setPolicy root (ForReplicationScope (en_Policy root) (encryptedDataset (en_Dataset root)) name)]> entries).

Definition markRoots (names : list string) (entries : gmap string Entry) : gmap string Entry :=
  let st := fold_left markRoot names (mkRootState ∅ ∅ entries) in
  (fold_left checkScope names (∅, storeMembers (ro_members st) (ro_entries st))).2.

(** * Replicas *)

Record replica := mkReplicaAt {
  re_root : string;
  re_target : string;
  re_name : string;
  re_remote : bool;
  re_namespace : string;
  re_mapped : string;
  re_established : bool
}.

Definition overlaps (a b : string) : bool := (a =? b)%string || HasPrefix a (b +:+ "/") || HasPrefix b (a +:+ "/").

Definition storedBinding : Type := Z * Z.
Definition bindingFields : list (fieldDecoder storedBinding) :=
  [field "pool_guid" decodeUint64 (λ v b, (v, b.2)); field "anchor_guid" decodeUint64 (λ v b, (b.1, v))].
Definition bindingRow (root : Entry) (bindings : gset string) (row : Property) : gset string :=
  let '(id, isBinding) := CutPrefix (pr_Name row) (StateNamespace +:+ "target:") in
  if negb (pr_Dataset row =? ds_Name (en_Dataset root))%string || negb (pr_Source row =? SourceLocal)%string || negb isBinding
     || ContainsByte id ":"
  then bindings
  else match Unmarshal bindingFields (0, 0) (pr_Value row) with
       | Some (pool, anchor) => if negb (pool =? 0) && negb (anchor =? 0) then {[id]} ∪ bindings else bindings
       | None => bindings
       end.
Definition storedBindings (root : Entry) : gset string := fold_left (bindingRow root) (en_Stored root) ∅.

Definition localReplica (name : string) (discard : Discard) (bound : gset string) (target : string) : list replica :=
  match MapReceiveDataset name target discard with
  | Ok mapped => [mkReplicaAt name ("local destination " +:+ target) target false "local" mapped (bool_decide (TargetID ("local:" +:+ target) ∈ bound))]
  | Err _ => []
  end.
Definition remoteReplica (name : string) (discard : Discard) (bound : gset string) (remotes : gmap string RemoteDestination) (target : string) : list replica :=
  match remotes !! target with
  | None => []
  | Some destination =>
    match MapReceiveDataset name (rd_Root destination) discard with
    | Ok mapped =>
      [mkReplicaAt name ("remote " +:+ target) target true (rd_Namespace destination) mapped
         (negb (rd_Canonical destination =? "")%string && bool_decide (TargetID (rd_Canonical destination) ∈ bound))]
    | Err _ => []
    end
  end.

(** The targets of a root and of its members. *)
Definition memberTargets (entries : gmap string Entry) (name : string) (targets : Effective → list string) : list string :=
  let root := entryOf entries name in
  targets (en_Policy root) ++
  if Replicate (ef_Send (en_Policy root)) then []
  else en_Members root ≫= λ member, if (member =? name)%string then [] else targets (en_Policy (entryOf entries member)).

Definition planRoot (entries : gmap string Entry) (remotes : gmap string RemoteDestination) (st : list replica * list string) (name : string)
  : list replica * list string :=
  let root := entryOf entries name in
  if negb (en_CoveredBy root =? "")%string || negb (ef_Enabled (en_Policy root)) then st
  else
    let bound := storedBindings root in
    let discard := ef_Discard (en_Policy root) in
    (st.1 ++ (Compact (SortStrings (memberTargets entries name ef_Local)) ≫= localReplica name discard bound)
          ++ (Compact (SortStrings (memberTargets entries name ef_Remote)) ≫= remoteReplica name discard bound remotes),
     st.2 ++ [name]).
Definition plannedReplicas (names : list string) (entries : gmap string Entry) (remotes : gmap string RemoteDestination) : list replica * list string :=
  fold_left (planRoot entries remotes) names ([], []).

(** [block] and [describe]. *)
Definition block (entries : gmap string Entry) (r : replica) (reason : string) : gmap string Entry :=
  let entry := entryOf entries (re_root r) in
  let known := existsb (λ b, (bt_Target b =? re_name r)%string && Bool.eqb (bt_Remote b) (re_remote r)) (en_Blocked entry) in
  <[re_root r := if known then entry else setBlocked entry (en_Blocked entry ++ [mkBlocked (re_name r) (re_remote r) reason])]> entries.
Definition describe (r other : replica) : string :=
  re_target r +:+ " places this root's replica at " +:+ re_mapped r +:+ ", which overlaps " +:+ re_root other +:+ "'s replica "
  +:+ re_mapped other +:+ " from " +:+ re_target other.

Definition collidePair (a : replica) (entries : gmap string Entry) (b : replica) : gmap string Entry :=
  if negb (re_namespace a =? re_namespace b)%string || negb (overlaps (re_mapped a) (re_mapped b)) then entries
  else
    let entries := if negb (re_established b) || re_established a then block entries b (describe b a) else entries in
    if negb (re_established a) || re_established b then block entries a (describe a b) else entries.
Definition collideRoot (a : replica) (entries : gmap string Entry) (root : string) : gmap string Entry :=
  if overlaps (re_mapped a) root
  then block entries a (re_target a +:+ " places this root's replica at " +:+ re_mapped a +:+ ", which overlaps actor root " +:+ root +:+ " on this host")
  else entries.
Fixpoint markCollisions (entries : gmap string Entry) (replicas : list replica) (roots : list string) : gmap string Entry :=
  match replicas with
  | [] => entries
  | a :: rest =>
    let entries := fold_left (collidePair a) rest entries in
    let entries := if negb (re_namespace a =? "local")%string then entries else fold_left (collideRoot a) roots entries in
    markCollisions entries rest roots
  end.

(** The loop of [receivedLineage]. *)
Fixpoint receivedFrom (dataset lineage : string) (rows : list Property) : string :=
  match rows with
  | [] => lineage
  | row :: rows =>
    if negb (pr_Dataset row =? dataset)%string then receivedFrom dataset lineage rows
    else if (pr_Name row =? StateNamespace +:+ "owner")%string && (pr_Source row =? SourceLocal)%string then ""
    else if (pr_Name row =? StateNamespace +:+ "lineage")%string && (pr_Source row =? SourceReceived)%string
    then receivedFrom dataset (pr_Value row) rows
    else receivedFrom dataset lineage rows
  end.
Definition receivedLineage (e : Entry) : string := receivedFrom (ds_Name (en_Dataset e)) "" (en_Stored e).

Definition placesHere (entries : gmap string Entry) (name : string) (r : replica) : bool :=
  (re_namespace r =? "local")%string && (re_mapped r =? name)%string
  && match ErrBlocked (entryOf entries (re_root r)) (re_name r) false with None => true | Some _ => false end.
Definition markReplica (replicas : list replica) (replicationRoots : list string) (entries : gmap string Entry) (name : string) : gmap string Entry :=
  let entry := entryOf entries name in
  let m0 := en_Replica (entryOf entries (en_Parent entry)) in
  let m1 := if (rp_Source m0 =? "")%string
            then match List.find (placesHere entries name) replicas with
                 | Some r => mkReplica (re_root r) (re_name r) (rp_Lineage m0)
                 | None => m0
                 end
            else m0 in
  let lineage := receivedLineage entry in
  let m2 := if negb (lineage =? "")%string then mkReplica (rp_Source m1) (rp_Destination m1) lineage else m1 in
  let m3 := if (rp_Destination m2 =? "")%string
            then match List.find (λ root, HasPrefix name (root +:+ "/")) replicationRoots with
                 | Some root => mkReplica (rp_Source m2) root (rp_Lineage m2)
                 | None => m2
                 end
            else m2 in
  <[name := setReplica entry m3]> entries.
Definition markReplicas (names : list string) (entries : gmap string Entry) (replicas : list replica) (replicationRoots : list string) : gmap string Entry :=
  fold_left (markReplica replicas replicationRoots) names entries.

(** * Scanning *)

(** How many of [pending] fit one batch. *)
Fixpoint batchCount (size budget bytes : Z) (pending : list string) : nat :=
  match pending with
  | [] => O
  | name :: pending =>
    let bytes := bytes + Z.of_nat (String.length name) + 1 in
    if (0 <? size) && (bytes <=? budget) then S (batchCount (size - 1) budget bytes pending) else O
  end.

Definition isActivation (row : Property) : bool := (pr_Name row =? Namespace +:+ "enabled")%string.
Definition storeName (grouped : gmap string (list Property)) (stored : gmap string (list Property)) (name : string) : gmap string (list Property) :=
  <[name := default [] (grouped !! name)]> stored.

(** The maps [fetch] fills: [stored] and [fetched]. *)
Definition fetchMaps : Type := gmap string (list Property) * gset string.
Definition fetchBatch (r : Reader) (inventory : gmap string Dataset) (activation : list Property) (batch : list string) (st : fetchMaps)
  : result fetchMaps :=
  rows ← read_Stored r batch;
  let allowed : gset string := list_to_set batch in
  _ ← validateRows rows inventory (Some allowed) false;
  let before := filter (λ row, pr_Dataset row ∈ allowed) activation in
  let after := filter (λ row, isActivation row = true) rows in
  if bool_decide (sortRows before = sortRows after)
  then Ok (fold_left (storeName (group rows)) batch st.1, allowed ∪ st.2)
  else Err (Errorf "activation changed during discovery; retry scan").

(** [None] is out of fuel: each round takes at least one name off [pending]. *)
Fixpoint fetchFrom (fuel : nat) (options : Options) (r : Reader) (inventory : gmap string Dataset) (activation : list Property)
    (pending : list string) (st : fetchMaps) : option (result fetchMaps) :=
  match pending with
  | [] => Some (Ok st)
  | name :: _ =>
    match fuel with
    | O => None
    | S fuel =>
      match batchCount (op_BatchSize options) (op_MaxArgumentBytes options) 0 pending with
      | O => Some (Err (Errorf ("dataset " +:+ Quote name +:+ " exceeds argument budget")))
      | count =>
        match fetchBatch r inventory activation (take count pending) st with
        | Err e => Some (Err e)
        | Ok st => fetchFrom fuel options r inventory activation (drop count pending) st
        end
      end
    end
  end.
Definition fetch (options : Options) (r : Reader) (inventory : gmap string Dataset) (activation : list Property)
    (pending : list string) (st : fetchMaps) : option (result fetchMaps) :=
  fetchFrom (length pending) options r inventory activation pending st.

(** The subtrees of the enabled datasets: [covered] and what [inspect] gains. *)
Definition coverName (entries : gmap string Entry) (st : gset string * gset string) (name : string) : gset string * gset string :=
  let '(covered, inspect) := st in
  let entry := entryOf entries name in
  let '(covered, inspect) :=
    if bool_decide (en_Parent entry ∈ covered) then ({[name]} ∪ covered, {[name]} ∪ inspect) else (covered, inspect) in
  (if ef_Enabled (en_Policy entry) then {[name]} ∪ covered else covered, inspect).

(** The loop of [Scan]; each round but the last fetches a dataset more. *)
Fixpoint scanLoop (fuel : nat) (s : Scanner) (r : Reader) (names : list string) (inventory : gmap string Dataset) (activation : list Property)
    (inspect : gset string) (st : fetchMaps) (entries : gmap string Entry) : option (result (gmap string Entry)) :=
  match filter (λ name, name ∈ inspect ∧ name ∉ st.2) names with
  | [] => Some (Ok entries)
  | pending =>
    match fuel with
    | O => None
    | S fuel =>
      match fetch (sc_options s) r inventory activation pending st with
      | None => None
      | Some (Err e) => Some (Err e)
      | Some (Ok st) =>
        let entries := resolve names inventory st.1 st.2 (sc_remotes s) in
        let inspect := (fold_left (coverName entries) names (∅, inspect)).2 in
        scanLoop fuel s r names inventory activation inspect st entries
      end
    end
  end.

(** Durable lifecycle rows, joined to the activation rows. *)
Definition lifecycleRow (st : gset string * gmap string (list Property)) (row : Property) : gset string * gmap string (list Property) :=
  (if (pr_Source row =? SourceLocal)%string then addAncestors st.1 (pr_Dataset row) else st.1, groupRow st.2 row).
Definition readLifecycle (r : Reader) (inventory : gmap string Dataset) (stored : gmap string (list Property))
  : result (gset string * gmap string (list Property)) :=
  match read_Lifecycle r with
  | None => Ok (∅, stored)
  | Some rows =>
    rows ← rows;
    _ ← validateRows rows inventory None false;
    Ok (fold_left lifecycleRow rows (∅, stored))
  end.

Definition inspectActive (entries : gmap string Entry) (inspect : gset string) (name : string) : gset string :=
  let p := en_Policy (entryOf entries name) in
  if ef_Enabled p || negb (validPolicy p) then addAncestors inspect name else inspect.
Definition inspectRetained (inventory : gmap string Dataset) (inspect : gset string) (name : string) : result (gset string) :=
  match inventory !! name with
  | None => Err (Errorf ("inspection dataset " +:+ Quote name +:+ " is absent from inventory"))
  | Some _ => Ok (addAncestors inspect name)
  end.

(** The entries of a completed inspection. *)
Definition markAll (s : Scanner) (names : list string) (entries : gmap string Entry) : gmap string Entry :=
  let entries := markRoots names entries in
  let '(replicas, roots) := plannedReplicas names entries (sc_destinations s) in
  markReplicas names (markCollisions entries replicas roots) replicas (op_ReplicationRoots (sc_options s)).

Definition scanned (s : Scanner) (r : Reader) (retained : list string) : option (result (list string * gmap string Entry)) :=
  match (datasets ← read_Datasets r;
         index ← indexDatasets datasets;
         activation ← read_Activation r;
         _ ← validateRows activation index.2 None true;
         sparse ← readLifecycle r index.2 (group activation);
         let entries := resolve index.1 index.2 sparse.2 ∅ (sc_remotes s) in
         inspect ← foldM (inspectRetained index.2) (fold_left (inspectActive entries) index.1 sparse.1) retained;
         Ok (index, activation, sparse.2, entries, inspect)) with
  | Err e => Some (Err e)
  | Ok (index, activation, stored, entries, inspect) =>
    match scanLoop (length index.1) s r index.1 index.2 activation inspect (stored, ∅) entries with
    | None => None
    | Some (Err e) => Some (Err e)
    | Some (Ok entries) => Some (Ok (index.1, markAll s index.1 entries))
    end
  end.

(** [Scan]: [before] and [after] are [ctx.Err()] at its two checks. The scanner
    changes only with a published generation. *)
Definition Scan (s : Scanner) (r : Reader) (retained : list string) (before after : option error) (now : Time)
  : option (result Generation * Scanner) :=
  match before with
  | Some e => Some (Err e, s)
  | None =>
    match scanned s r retained with
    | None => None
    | Some (Err e) => Some (Err e, s)
    | Some (Ok (names, entries)) =>
      match after with
      | Some e => Some (Err e, s)
      | None =>
        let id := match sc_current s with Some previous => (ge_ID previous + 1) mod 2 ^ 64 | None => 1 end in
        let generation := mkGeneration id now names entries in
        Some (Ok generation, mkScanner (sc_options s) (sc_remotes s) (sc_destinations s) (sc_interval s) (Some generation) (sc_requested s) (sc_changed s))
      end
    end
  end.

(** * The dataset hierarchy *)

Lemma ends_with_slash r p u : r +:+ "/" = p +:+ u → u ≠ "" → "/"%char ∈ bytes_of u.
Proof.
  intros H Hu. apply (f_equal bytes_of) in H. rewrite !bytes_of_app in H.
  destruct (bytes_of u) as [|c w _] eqn:E using rev_ind; [by destruct u|].
  rewrite app_assoc in H. apply app_inj_tail in H as [_ <-]. apply elem_of_app. right. apply list_elem_of_singleton. done.
Qed.

(** Every proper ancestor of a name contains its parent. *)
Lemma below_parentName n r : below n r = true → within (parentName n) r = true.
Proof.
  unfold below. intros Hr. pose proof Hr as [t Ht]%HasPrefix_spec. unfold parentName.
  destruct (BeforeLast n "/") as [p|] eqn:E; cbn [default from_option].
  - apply BeforeLast_Some in E as (l & En & Hl). apply within_prefix.
    assert (HasPrefix n (p +:+ "/") = true) as Hp by (apply HasPrefix_spec; exists l; by rewrite app_assoc_str).
    destruct (prefix_comparable _ _ _ Hp Hr) as [H|H]; [done|].
    apply HasPrefix_spec in H as [u Hu]. destruct (decide (u = "")) as [->|Hne].
    { rewrite app_str_nil in Hu. rewrite Hu. apply HasPrefix_refl. }
    destruct Hl. apply ends_with_slash in Hu as Hs; [|done]. rewrite En, Hu, !app_assoc_str in Ht. apply app_inj_str in Ht.
    change (String "/" l) with ("/" +:+ l) in Ht. apply app_inj_str in Ht as ->. rewrite bytes_of_app. apply elem_of_app. by left.
  - apply BeforeLast_None in E. destruct E. rewrite Ht, !bytes_of_app, !elem_of_app. left. right. by left.
Qed.

Lemma parentName_below n : parentName n ≠ "" → below n (parentName n) = true.
Proof.
  unfold parentName. destruct (BeforeLast n "/") as [p|] eqn:E; [|done]. intros _. apply BeforeLast_Some in E as (l & -> & _).
  apply HasPrefix_spec. exists l. by rewrite app_assoc_str.
Qed.

Lemma within_empty n : within "" n = true → n = "".
Proof.
  unfold within. rewrite orb_true_iff, eqb_str_true. intros [<-|H]; [done|]. apply below_length in H. cbn in H. lia.
Qed.

Lemma within_cases n r : r ≠ "" → within n r = true ↔ n = r ∨ (parentName n ≠ "" ∧ within (parentName n) r = true).
Proof.
  intros Hr. unfold within at 1. rewrite orb_true_iff, eqb_str_true. split.
  - intros [?|H]; [by left|right]. pose proof (below_parentName _ _ H) as Hw. split; [|done]. intros E. rewrite E in Hw. by apply within_empty in Hw.
  - intros [?|[Hp Hw]]; [by left|right]. apply (below_within_trans _ (parentName n)); [by apply parentName_below|done].
Qed.

(** [addAncestors] adds a name and everything it lies within. *)
Lemma addAncestorsFrom_spec fuel : ∀ set name n, (String.length name ≤ fuel)%nat →
  n ∈ addAncestorsFrom fuel set name ↔ n ∈ set ∨ (n ≠ "" ∧ within name n = true).
Proof.
  induction fuel as [|fuel IH]; intros set name n Hl; cbn [addAncestorsFrom].
  - destruct name; cbn in Hl; [|lia]. split; [by left|]. intros [?|[Hn H%within_empty]]; done.
  - destruct (String.eqb_spec name "") as [->|Hne].
    + split; [by left|]. intros [?|[Hn H%within_empty]]; done.
    + rewrite IH.
      * rewrite elem_of_union, elem_of_singleton. destruct (decide (n = "")) as [->|Hn]; [set_solver|]. rewrite (within_cases name n Hn).
        destruct (decide (parentName name = "")) as [E|]; [|naive_solver]. rewrite E. split; [|naive_solver].
        intros [?|[_ H%within_empty]]; naive_solver.
      * destruct (decide (parentName name = "")) as [->|Hp]; [cbn; lia|]. apply parentName_below, below_length in Hp. lia.
Qed.

Lemma elem_of_addAncestors set name n : n ∈ addAncestors set name ↔ n ∈ set ∨ (n ≠ "" ∧ within name n = true).
Proof. by apply addAncestorsFrom_spec. Qed.

Lemma le_prefix p t : String.le p (p +:+ t).
Proof.
  induction p as [|a p IH]; [by destruct t|]. rewrite app_cons_str. unfold String.le, String.leb in *. cbn [String.compare].
  unfold Ascii.compare. by rewrite N.compare_refl.
Qed.

(** Distinct names, every one after its parent. *)
Definition parentsFirst (names : list string) : Prop :=
  NoDup names ∧ "" ∉ names ∧ ∀ pre n post, names = pre ++ n :: post → parentName n = "" ∨ parentName n ∈ pre.

Lemma parentsFirst_snoc pre n :
  parentsFirst (pre ++ [n]) → parentsFirst pre ∧ n ∉ pre ∧ n ≠ "" ∧ (parentName n = "" ∨ parentName n ∈ pre).
Proof.
  intros (Hnd & He & Hp). apply NoDup_app in Hnd as (H1 & H2 & _). split_and!.
  - split_and!; [done|set_solver|]. intros p m q ->. apply (Hp p m (q ++ [n])). by rewrite <- app_assoc.
  - set_solver.
  - set_solver.
  - by apply (Hp pre n []).
Qed.

Lemma sorted_parentsFirst names :
  StronglySorted String.le names → NoDup names → "" ∉ names →
  (∀ n, n ∈ names → parentName n = "" ∨ parentName n ∈ names) → parentsFirst names.
Proof.
  intros Hs Hnd He Hp. split_and!; [done..|]. intros pre n post ->. destruct (Hp n) as [|H]; [set_solver|by left|right].
  destruct (decide (parentName n = "")) as [E|Hne]; [by rewrite E in H|].
  pose proof (parentName_below _ Hne) as Hb. apply elem_of_app in H as [?|H]; [done|exfalso]. apply elem_of_cons in H as [E|H].
  - rewrite E in Hb. by rewrite below_irrefl in Hb.
  - apply StronglySorted_app_1_r, StronglySorted_inv in Hs as [_ Hs]. rewrite Forall_forall in Hs. specialize (Hs _ H).
    apply HasPrefix_spec in Hb as [t Ht]. rewrite app_assoc_str in Ht.
    assert (String.le (parentName n) n) by (rewrite Ht at 2; apply le_prefix).
    assert (n = parentName n) as E by by apply (anti_symm String.le). apply (f_equal String.length) in E. rewrite Ht in E at 1.
    rewrite !length_app_str in E. cbn in E. lia.
Qed.

(** What [indexDatasets] establishes. *)
Record indexed (names : list string) (inventory : gmap string Dataset) : Prop := {
  ix_names : ∀ n, n ∈ names ↔ is_Some (inventory !! n);
  ix_dataset : ∀ n d, inventory !! n = Some d → ds_Name d = n ∧ ValidateDataset n = Ok tt;
  ix_sorted : StronglySorted String.le names;
  ix_parents : parentsFirst names
}.

Lemma checkParent_Ok inventory names :
  foldM (checkParent inventory) tt names = Ok tt → ∀ n, n ∈ names → parentName n = "" ∨ is_Some (inventory !! parentName n).
Proof.
  induction names as [|x names IH]; intros H n Hn; [by apply elem_of_nil in Hn|]. cbn [foldM] in H. apply bind_Ok in H as ([] & Hx & H).
  apply elem_of_cons in Hn as [->|Hn]; [|by apply IH]. unfold checkParent in Hx.
  destruct (String.eqb_spec (parentName x) ""); [by left|right]. cbn [negb andb] in Hx.
  case_bool_decide; [done|discriminate Hx].
Qed.

Lemma indexDatasets_Ok datasets names inventory : indexDatasets datasets = Ok (names, inventory) → indexed names inventory.
Proof.
  unfold indexDatasets. intros H. apply bind_Ok in H as (inv & Hinv & H). apply bind_Ok in H as ([] & Hp & [= <- <-]).
  assert (∀ n d, inv !! n = Some d → ds_Name d = n ∧ ValidateDataset n = Ok tt) as Hd.
  { refine (foldM_inv (λ inv, ∀ n d, inv !! n = Some d → ds_Name d = n ∧ ValidateDataset n = Ok tt) _ _ _ _ _ _ Hinv); [|done].
    intros s x s' _ Hs Hx n d. unfold indexDataset in Hx. apply bind_Ok in Hx as ([] & Hv & Hx). case_match; [done|]. case_match; [done|].
    injection Hx as <-. rewrite lookup_insert_Some. intros [[<- <-]|[_ ?]]; [done|by apply Hs]. }
  assert (∀ n, n ∈ SortStrings (map_to_list inv).*1 ↔ is_Some (inv !! n)) as Hn.
  { intros n. rewrite elem_of_SortStrings, list_elem_of_fmap. split.
    - intros ([k d] & -> & Hk). apply elem_of_map_to_list in Hk. by exists d.
    - intros [d Hk]. exists (n, d). by rewrite elem_of_map_to_list. }
  split; [done|done|apply SortStrings_sorted|]. apply sorted_parentsFirst.
  - apply SortStrings_sorted.
  - rewrite SortStrings_perm. apply NoDup_fst_map_to_list.
  - intros He. apply Hn in He as [d He]. by apply Hd in He as [_ He].
  - intros n Hin. destruct (checkParent_Ok _ _ Hp n Hin); [by left|right; by apply Hn].
Qed.

(** * Scanning ends *)

Lemma batchCount_le budget pending : ∀ size bytes, (batchCount size budget bytes pending ≤ length pending)%nat.
Proof. induction pending as [|x pending IH]; intros size bytes; cbn; [lia|]. case_match; [|lia]. apply le_n_S, IH. Qed.

Lemma storeNames_lookup grouped batch : ∀ stored n, n ∉ batch → fold_left (storeName grouped) batch stored !! n = stored !! n.
Proof.
  induction batch as [|x batch IH]; intros stored n Hn; [done|]. apply not_elem_of_cons in Hn as [? ?]. cbn [fold_left].
  rewrite IH by done. unfold storeName. by rewrite lookup_insert_ne.
Qed.

Lemma fetchBatch_Ok r inventory activation batch st st' :
  fetchBatch r inventory activation batch st = Ok st' →
  st'.2 = list_to_set batch ∪ st.2 ∧ ∀ n, n ∉ batch → st'.1 !! n = st.1 !! n.
Proof.
  unfold fetchBatch. intros H. apply bind_Ok in H as (rows & _ & H). apply bind_Ok in H as ([] & _ & H). case_bool_decide; [|done].
  injection H as <-. split; [done|]. intros n Hn. by apply storeNames_lookup.
Qed.

(** [fetch] answers, and a success has fetched all that was pending and left
    what is stored for the others. *)
Lemma fetchFrom_total options r inventory activation fuel : ∀ pending st, (length pending ≤ fuel)%nat →
  ∃ res, fetchFrom fuel options r inventory activation pending st = Some res ∧
    ∀ st', res = Ok st' → st'.2 = list_to_set pending ∪ st.2 ∧ ∀ n, n ∉ pending → st'.1 !! n = st.1 !! n.
Proof.
  induction fuel as [|fuel IH]; intros [|x pending] st Hf; cbn [fetchFrom]; cbn in Hf.
  1,3: exists (Ok st); split; [done|]; intros st' [= <-]; split; [set_solver|done]. 1: lia.
  set (count := batchCount _ _ 0 (x :: pending)). assert (count ≤ S (length pending))%nat as Hc by apply batchCount_le.
  clearbody count. destruct count as [|count]; [by eexists|].
  destruct (fetchBatch _ _ _ _ st) as [st1|e] eqn:Hb; [|by eexists].
  destruct (IH (drop (S count) (x :: pending)) st1) as (res & Hres & Hok); [rewrite length_drop; cbn; lia|].
  exists res. split; [done|]. intros st' E. destruct (Hok st' E) as [H1 H2].
  apply fetchBatch_Ok in Hb as [Hb1 Hb2]. split.
  - pose proof (list_to_set_app_L (C:=gset string) (take (S count) (x :: pending)) (drop (S count) (x :: pending))) as Hs.
    rewrite take_drop in Hs. rewrite H1, Hs, Hb1. clear. set_solver.
  - intros n Hn. rewrite <- (take_drop (S count) (x :: pending)), not_elem_of_app in Hn. by rewrite H2, Hb2 by tauto.
Qed.

Lemma scanLoop_total s r names inventory activation fuel : ∀ inspect st entries,
  (length (filter (λ n, n ∉ st.2) names) ≤ fuel)%nat →
  is_Some (scanLoop fuel s r names inventory activation inspect st entries).
Proof.
  induction fuel as [|fuel IH]; intros inspect st entries Hf; cbn [scanLoop];
    set (pending := filter (λ name, name ∈ inspect ∧ name ∉ st.2) names).
  all: assert (pending = [] ∨ ∃ n, n ∈ pending) as [Hp|[n Hp]] by (destruct pending as [|n l]; [by left|right; exists n; by left]).
  1,3: rewrite Hp; by eexists.
  all: assert (n ∈ names ∧ n ∈ inspect ∧ n ∉ st.2) as (Hn & Hi & Hfn) by (apply list_elem_of_filter in Hp; tauto).
  - assert (n ∈ filter (λ n, n ∉ st.2) names) as H by (by apply list_elem_of_filter).
    destruct (filter (λ n, n ∉ st.2) names); [by apply elem_of_nil in H|cbn in Hf; lia].
  - destruct (fetchFrom_total (sc_options s) r inventory activation (length pending) pending st (le_n _)) as (res & Hres & Hok).
    clearbody pending. destruct pending as [|x l]; [by apply elem_of_nil in Hp|]. unfold fetch. rewrite Hres.
    destruct res as [st'|e]; [|by eexists]. apply IH. destruct (Hok st' eq_refl) as [Hst _].
    assert (S (length (filter (λ n, n ∉ st'.2) names)) ≤ length (filter (λ n, n ∉ st.2) names))%nat; [|lia].
    clear -Hst Hn Hp Hfn.
    assert (filter (λ n, n ∉ st'.2) names = filter (λ n, n ∉ st'.2) (filter (λ n, n ∉ st.2) names)) as ->.
    { rewrite list_filter_filter. apply list_filter_ext_in. intros y _. rewrite Hst. set_solver. }
    apply (length_filter_lt (λ n, n ∉ st'.2) _ n); [by apply list_elem_of_filter|]. rewrite Hst. set_solver.
Qed.

Lemma scanned_total s r retained : is_Some (scanned s r retained).
Proof.
  unfold scanned. case_match; [|by eexists]. case_match. case_match. case_match. case_match. subst.
  match goal with |- context [scanLoop ?f ?s ?r ?n ?i ?a ?ins ?st ?e] => destruct (scanLoop_total s r n i a f ins st e) as [res ->] end.
  - apply length_filter.
  - case_match; by eexists.
Qed.

(** C37: every scan ends, whatever the reader answers. It either publishes a new
    generation, numbered one after the last, or fails and leaves the published
    generation and the rest of the scanner as they were. *)
Theorem Scan_total s r retained before after now :
  ∃ res s', Scan s r retained before after now = Some (res, s') ∧
    match res with
    | Err _ => s' = s
    | Ok g => sc_current s' = Some g ∧ before = None ∧ after = None ∧
        ge_ID g = (match sc_current s with Some p => (ge_ID p + 1) mod 2 ^ 64 | None => 1 end) ∧
        scanned s r retained = Some (Ok (ge_names g, ge_entries g))
    end.
Proof.
  unfold Scan. destruct before as [e|]; [by do 2 eexists|]. destruct (scanned_total s r retained) as [[[names entries]|e] ->]; [|by do 2 eexists].
  destruct after; by do 2 eexists.
Qed.

(** * What resolution gives *)

Section Resolve.
Context (inventory : gmap string Dataset) (stored : gmap string (list Property)) (fetched remotes : gset string).

Definition resolvedEntry (entries : gmap string Entry) (name : string) : Entry :=
  let parent := parentName name in
  let dataset := default (mkDataset "" "" "") (inventory !! name) in
  let rows := default [] (stored !! name) in
  mkEntry dataset parent (bool_decide (name ∈ fetched)) "" false []
    (Resolve dataset (if (parent =? "")%string then None else Some (en_Policy (entryOf entries parent))) rows remotes) rows [] zeroReplica.

Lemma resolve_lookup names n :
  parentsFirst names →
  resolve names inventory stored fetched remotes !! n
  = if decide (n ∈ names) then Some (resolvedEntry (resolve names inventory stored fetched remotes) n) else None.
Proof.
  unfold resolve. revert n. induction names as [|x names IH] using rev_ind; intros n Hp; [done|].
  apply parentsFirst_snoc in Hp as (Hp & Hx & Hne & Hpar). rewrite fold_left_app. cbn [fold_left].
  set (entries := fold_left _ names ∅) in *. change (resolveName inventory stored fetched remotes entries x) with (<[x := resolvedEntry entries x]> entries).
  assert (∀ m y, parentName m = "" ∨ parentName m ∈ names → resolvedEntry (<[x := y]> entries) m = resolvedEntry entries m) as Hext.
  { intros m y Hm. unfold resolvedEntry. cbv zeta. destruct (String.eqb_spec (parentName m) "") as [|Hm']; [reflexivity|].
    destruct Hm as [Hm|Hm]; [contradiction|]. assert (x ≠ parentName m) by (intros ->; contradiction).
    assert (entryOf (<[x := y]> entries) (parentName m) = entryOf entries (parentName m)) as ->; [|reflexivity].
    unfold entryOf. by rewrite lookup_insert_ne. }
  destruct (decide (n = x)) as [->|Hnx].
  - rewrite lookup_insert_eq, decide_True by (apply elem_of_app; right; by left). rewrite Hext by exact Hpar. reflexivity.
  - rewrite lookup_insert_ne, IH by done. destruct (decide (n ∈ names)) as [Hn|Hn].
    + rewrite decide_True by (apply elem_of_app; by left). rewrite Hext; [reflexivity|].
      apply list_elem_of_split in Hn as (p & q & ->). destruct Hp as (_ & _ & Hp). destruct (Hp p n q eq_refl); [by left|right].
      apply elem_of_app. by left.
    + rewrite decide_False; [reflexivity|]. intros [?|?%list_elem_of_singleton]%elem_of_app; contradiction.
Qed.
End Resolve.

Definition enabledIn (entries : gmap string Entry) (n : string) : bool := ef_Enabled (en_Policy (entryOf entries n)).

Lemma Resolve_Enabled dataset parent rows remotes :
  ef_Enabled (Resolve dataset parent rows remotes) = (valueOf (resolveValues dataset parent rows) "enabled" =? "on")%string.
Proof.
  unfold Resolve. generalize (resolveValues dataset parent rows). intros values.
  destruct (toggle values "enabled") as [enabled e] eqn:E. apply (f_equal fst) in E. change ((valueOf values "enabled" =? "on")%string = enabled) in E. rewrite E.
  by repeat case_match.
Qed.

(** A key is set by the dataset's own rows, whatever it inherits, or by none. *)
Lemma localValues_own dataset rows k :
  (∃ w, ∀ values, fold_left (localValue dataset) rows values !! k = Some w) ∨
  ∀ values, fold_left (localValue dataset) rows values !! k = values !! k.
Proof.
  induction rows as [|p rows [[w IH]|IH]]; [by right|left; exists w; intros; apply IH|].
  destruct (decide (configures dataset p ∧ pr_Name p = k)) as [[Hc Hk]|Hn].
  - left. exists (mkValue (pr_Value p) dataset). intros values. cbn [fold_left]. rewrite IH, localValue_configures, decide_True by done.
    rewrite Hk. apply lookup_insert_eq.
  - right. intros values. cbn [fold_left]. rewrite IH, localValue_configures. case_decide; [|done].
    rewrite lookup_insert_ne; [done|]. intros E. apply Hn. done.
Qed.

Lemma addDefaults_keep l k v : ∀ values, values !! k = Some v → fold_left addDefault l values !! k = Some v.
Proof.
  induction l as [|[key d] l IH]; intros values H; cbn [fold_left]; [done|]. apply IH. unfold addDefault. cbn [fst snd].
  destruct (values !! (Namespace +:+ key)) eqn:E; [done|]. by rewrite lookup_insert_ne by congruence.
Qed.

Lemma addDefaults_new l k v : ∀ values, fold_left addDefault l values !! (Namespace +:+ k) = Some v →
  values !! (Namespace +:+ k) = Some v ∨ (k, va_Value v) ∈ l.
Proof.
  induction l as [|[key d] l IH]; intros values H; cbn [fold_left] in H; [by left|]. apply IH in H as [H|H]; [|right; by right].
  unfold addDefault in H. cbn [fst snd] in H. destruct (values !! (Namespace +:+ key)) eqn:E; [by left|].
  apply lookup_insert_Some in H as [[Hk <-]|[_ H]]; [|by left]. apply app_inj_str in Hk as ->. right. by left.
Qed.

(** A dataset is enabled by its parent's policy or by its own rows, whatever it
    inherits. *)
Lemma Resolve_enabled_cases dataset parent rows remotes :
  ef_Enabled (Resolve dataset parent rows remotes) = true →
  (∃ p, parent = Some p ∧ valueOf (ef_Values p) "enabled" = "on") ∨
  ∀ parent' remotes', ef_Enabled (Resolve dataset parent' rows remotes') = true.
Proof.
  rewrite Resolve_Enabled, eqb_str_true. unfold valueOf at 1, resolveValues. intros H.
  destruct (fold_left addDefault _ _ !! (Namespace +:+ "enabled")) as [v|] eqn:E; [|discriminate H].
  apply addDefaults_new in E as [E|E].
  - destruct (localValues_own (ds_Name dataset) rows (Namespace +:+ "enabled")) as [[w Hw]|Hw]; rewrite Hw in E.
    + right. intros parent' remotes'. rewrite Resolve_Enabled, eqb_str_true. unfold valueOf, resolveValues.
      rewrite (addDefaults_keep _ _ v) by (rewrite Hw; exact E). exact H.
    + left. unfold inheritedValues in E. destruct parent as [p|]; [|by rewrite lookup_empty in E].
      apply map_lookup_filter_Some in E as [E _]. exists p. split; [done|]. unfold valueOf. by rewrite E.
  - exfalso. unfold defaults in E. rewrite H, !elem_of_cons, elem_of_nil in E. clear -E. naive_solver.
Qed.

(** * Everything under an enabled dataset is inspected *)

Lemma parentsFirst_parent names n : parentsFirst names → n ∈ names → parentName n = "" ∨ parentName n ∈ names.
Proof.
  intros (_ & _ & Hp) Hn. apply list_elem_of_split in Hn as (p & q & ->). destruct (Hp p n q eq_refl); [by left|right].
  apply elem_of_app. by left.
Qed.

Lemma parentsFirst_ancestor names n a : parentsFirst names → n ∈ names → a ≠ "" → within n a = true → a ∈ names.
Proof.
  intros Hp Hn Ha. remember (String.length n) as k eqn:Hk. assert (String.length n ≤ k)%nat as Hl by lia. clear Hk.
  revert n Hn Hl. induction k as [|k IH]; intros n Hn Hl Hw; (apply within_cases in Hw as [->|[Hne Hw]]; [done| |done]).
  all: pose proof (below_length _ _ (parentName_below _ Hne)); destruct (parentsFirst_parent _ _ Hp Hn); [done|].
  - lia.
  - apply (IH (parentName n)); [done|lia|done].
Qed.

Definition enabledAbove (entries : gmap string Entry) (n : string) : Prop :=
  ∃ a, a ≠ "" ∧ within n a = true ∧ enabledIn entries a = true.

Lemma enabledAbove_step entries n :
  n ≠ "" → enabledAbove entries n ↔ enabledIn entries n = true ∨ (parentName n ≠ "" ∧ enabledAbove entries (parentName n)).
Proof.
  intros Hn. split.
  - intros (a & Ha & Hw & He). apply within_cases in Hw as [->|[? ?]]; [by left|right; split; [done|by exists a]|done].
  - intros [?|(Hp & a & Ha & Hw & He)]; [exists n; split_and!; auto with bz|]. exists a. split_and!; [done| |done].
    apply (within_trans _ (parentName n)); [by apply below_within, parentName_below|done].
Qed.

Lemma coverNames_spec entries inspect names covered inspect' :
  parentsFirst names → (∀ n, n ∈ names → en_Parent (entryOf entries n) = parentName n) →
  fold_left (coverName entries) names (∅, inspect) = (covered, inspect') →
  (∀ n, n ∈ covered ↔ n ∈ names ∧ enabledAbove entries n) ∧ inspect ⊆ inspect' ∧
  ∀ n, n ∈ names → parentName n ≠ "" → enabledAbove entries (parentName n) → n ∈ inspect'.
Proof.
  revert covered inspect'. induction names as [|x names IH] using rev_ind; intros covered inspect' Hp Hpar.
  { intros [= <- <-]. split_and!; [set_solver|done|]. intros n []%elem_of_nil. }
  apply parentsFirst_snoc in Hp as (Hp & Hx & Hne & Hpx). rewrite fold_left_app. cbn [fold_left].
  destruct (fold_left (coverName entries) names (∅, inspect)) as [c i] eqn:E.
  destruct (IH c i Hp ltac:(intros; apply Hpar; apply elem_of_app; by left) eq_refl) as (H1 & H2 & H3). clear IH E.
  unfold coverName. rewrite (Hpar x) by (apply elem_of_app; right; by left). fold (enabledIn entries x).
  assert (parentName x ∈ c ↔ parentName x ≠ "" ∧ enabledAbove entries (parentName x)) as Hc.
  { rewrite H1. destruct Hp as (_ & He & _). split; [|naive_solver]. intros [Hin ?]. split; [|done]. intros E. by rewrite E in Hin. }
  pose proof (enabledAbove_step entries x Hne) as Hstep.
  case_bool_decide as Hb; destruct (enabledIn entries x) eqn:He; intros [= <- <-]; (split_and!; [|set_solver|]);
    intros n; rewrite elem_of_app, list_elem_of_singleton;
    try (rewrite ?elem_of_union, ?elem_of_singleton, H1; split; [|by intros [[?| ->] ?]; auto; naive_solver]; naive_solver);
    intros [Hn| ->]; try (intros; apply elem_of_union; right; by apply H3); set_solver.
Qed.

Section ScanLoop.
Context (s : Scanner) (r : Reader) (names : list string) (inventory : gmap string Dataset) (activation : list Property).
Context (sparse : gmap string (list Property)) (Hnames : parentsFirst names).
Abbreviation resolved st := (resolve names inventory st.1 st.2 (sc_remotes s)).

Lemma resolved_entry stored fetched n :
  n ∈ names → entryOf (resolve names inventory stored fetched (sc_remotes s)) n
  = resolvedEntry inventory stored fetched (sc_remotes s) (resolve names inventory stored fetched (sc_remotes s)) n.
Proof. intros Hn. unfold entryOf at 1. rewrite resolve_lookup, decide_True by done. reflexivity. Qed.

Lemma resolved_missing stored fetched n :
  n ∉ names → entryOf (resolve names inventory stored fetched (sc_remotes s)) n = zeroEntry.
Proof. intros Hn. unfold entryOf at 1. rewrite resolve_lookup, decide_False by done. reflexivity. Qed.

Definition inheritedFrom (entries : gmap string Entry) (n : string) : option Effective :=
  if (parentName n =? "")%string then None else Some (en_Policy (entryOf entries (parentName n))).
Lemma resolved_policy (st : fetchMaps) n :
  n ∈ names → en_Policy (entryOf (resolved st) n)
  = Resolve (default (mkDataset "" "" "") (inventory !! n)) (inheritedFrom (resolved st) n) (default [] (st.1 !! n)) (sc_remotes s).
Proof. intros Hn. rewrite resolved_entry by done. reflexivity. Qed.

(** An enabled dataset is below an enabled one, or its own rows enable it in
    every resolution. *)
Lemma resolved_enabled_cases (st st' : fetchMaps) n :
  n ∈ names → enabledIn (resolved st) n = true → default [] (st.1 !! n) = default [] (st'.1 !! n) →
  (parentName n ≠ "" ∧ enabledAbove (resolved st) (parentName n)) ∨ enabledIn (resolved st') n = true.
Proof.
  unfold enabledIn. intros Hn He Hrows. rewrite resolved_policy in He by done.
  apply Resolve_enabled_cases in He as [(p & Hp & Hon)|He].
  - left. unfold inheritedFrom in Hp. destruct (String.eqb_spec (parentName n) "") as [|Hne]; [discriminate Hp|]. split; [exact Hne|].
    apply (inj Some) in Hp. destruct (parentsFirst_parent _ _ Hnames Hn) as [|Hpar]; [contradiction|].
    exists (parentName n). split_and!; [exact Hne|apply within_refl|]. unfold enabledIn. rewrite Hp.
    rewrite <- Hp, resolved_policy, Resolve_Values in Hon by exact Hpar. rewrite <- Hp, resolved_policy, Resolve_Enabled by exact Hpar.
    by apply eqb_str_true.
  - right. rewrite resolved_policy, <- Hrows by done. apply He.
Qed.

Record scanInv (inspect : gset string) (st : fetchMaps) (entries : gmap string Entry) : Prop := {
  si_entries : entries = resolved st;
  si_fetched : st.2 ⊆ inspect;
  si_sparse : ∀ n, n ∉ st.2 → st.1 !! n = sparse !! n;
  si_base : ∀ n, n ∈ names → enabledIn (resolved (sparse, ∅ : gset string)) n = true → n ∈ inspect;
  si_below : st.2 = ∅ ∨ ∀ n, n ∈ names → parentName n ≠ "" → enabledAbove entries (parentName n) → n ∈ inspect
}.

(** Once a round is over, all of an enabled dataset's subtree is asked for. *)
Lemma scanInv_above inspect st entries n :
  scanInv inspect st entries → st.2 ≠ ∅ → n ∈ names → enabledAbove entries n → n ∈ inspect.
Proof.
  intros [-> Hf Hs Hb [?|Hw]] Hst Hn Ha; [done|]. destruct (decide (n = "")) as [->|Hne]; [by destruct Hnames as (_ & ? & _)|].
  apply enabledAbove_step in Ha as [Ha|[Hp Ha]]; [|by apply Hw|done].
  destruct (decide (n ∈ st.2)) as [|Hnf]; [by apply Hf|].
  destruct (resolved_enabled_cases st (sparse, ∅) n Hn Ha) as [[Hp Hab]|He]; [cbn; by rewrite Hs|by apply Hw|by apply Hb].
Qed.

Lemma scanInv_round inspect st entries st' :
  scanInv inspect st entries →
  fetch (sc_options s) r inventory activation (filter (λ name, name ∈ inspect ∧ name ∉ st.2) names) st = Some (Ok st') →
  scanInv (fold_left (coverName (resolved st')) names (∅, inspect)).2 st' (resolved st').
Proof.
  intros [-> Hf Hs Hb _] Hfetch. unfold fetch in Hfetch. set (pending := filter _ names) in *.
  destruct (fetchFrom_total (sc_options s) r inventory activation (length pending) pending st (le_n _)) as (res & Hres & Hok).
  rewrite Hres in Hfetch. injection Hfetch as ->. destruct (Hok st' eq_refl) as [H2 H1].
  assert (∀ n, n ∈ pending → n ∈ inspect) as Hpi by (intros n Hn; apply list_elem_of_filter in Hn; tauto).
  destruct (fold_left (coverName (resolved st')) names (∅, inspect)) as [covered inspect'] eqn:Ec.
  destruct (coverNames_spec (resolved st') inspect names covered inspect' Hnames) as (_ & Hsub & Hcov); [|done|].
  { intros n Hn. by rewrite resolved_entry. }
  cbn [snd]. split.
  - reflexivity.
  - rewrite H2. set_solver.
  - intros n Hn. rewrite H2 in Hn. rewrite H1 by set_solver. apply Hs. set_solver.
  - intros n Hn He. apply Hsub. by apply Hb.
  - right. exact Hcov.
Qed.

Lemma scanInv_done inspect st entries :
  scanInv inspect st entries → filter (λ name, name ∈ inspect ∧ name ∉ st.2) names = [] →
  ∀ n, n ∈ names → enabledAbove entries n → n ∈ st.2.
Proof.
  intros Hinv Hp n Hn Ha.
  assert (∀ a, a ∈ names → a ∈ inspect → a ∈ st.2) as Hdone.
  { intros a Han Hai. apply dec_stable. intros Hnot. apply (not_elem_of_nil a). rewrite <- Hp. by apply list_elem_of_filter. }
  destruct (decide (st.2 = ∅)) as [E|Hne]; [exfalso|by apply Hdone; [|eapply scanInv_above]].
  destruct Ha as (a & Hna & Hw & He). pose proof (parentsFirst_ancestor _ _ _ Hnames Hn Hna Hw) as Han.
  assert (a ∈ st.2) as Hin; [|rewrite E in Hin; by apply elem_of_empty in Hin].
  apply Hdone; [done|]. apply (si_base _ _ _ Hinv); [done|]. rewrite (si_entries _ _ _ Hinv) in He.
  assert (st = (sparse, ∅)) as <-; [|done]. destruct st as [st1 st2]. cbn in E. subst. f_equal. apply map_eq. intros k.
  by apply (si_sparse _ _ _ Hinv), not_elem_of_empty.
Qed.

Lemma scanLoop_inspects fuel : ∀ inspect st entries entries',
  scanInv inspect st entries → scanLoop fuel s r names inventory activation inspect st entries = Some (Ok entries') →
  ∃ st', entries' = resolved st' ∧ ∀ n, n ∈ names → enabledAbove entries' n → n ∈ st'.2.
Proof.
  induction fuel as [|fuel IH]; intros inspect st entries entries' Hinv H; cbn [scanLoop] in H;
    destruct (filter (λ name, name ∈ inspect ∧ name ∉ st.2) names) as [|x pending] eqn:Ep.
  2: discriminate H.
  1,2: injection H as <-; exists st; split; [apply Hinv|by eapply scanInv_done].
  rewrite <- Ep in H. destruct (fetch _ _ _ _ _ _) as [[st'|e]|] eqn:Ef; [|discriminate H..].
  eapply IH; [|exact H]. by eapply scanInv_round.
Qed.
End ScanLoop.

Lemma inspectActive_spec entries names : ∀ inspect,
  inspect ⊆ fold_left (inspectActive entries) names inspect ∧
  ∀ n, n ∈ names → n ≠ "" → enabledIn entries n = true → n ∈ fold_left (inspectActive entries) names inspect.
Proof.
  induction names as [|x names IH]; intros inspect; cbn [fold_left]; [split; [done|by intros n ?%elem_of_nil]|].
  destruct (IH (inspectActive entries inspect x)) as [H1 H2].
  assert (inspect ⊆ inspectActive entries inspect x) as Hx.
  { intros n Hn. unfold inspectActive. case_match; [apply elem_of_addAncestors; by left|done]. }
  split; [by etransitivity|]. intros n [->|Hn]%elem_of_cons Hne He; [|by apply H2].
  apply H1. unfold inspectActive. unfold enabledIn in He. rewrite He. cbn [orb]. apply elem_of_addAncestors. right. auto with bz.
Qed.

(** The entries of a scan: a resolution in which everything under an enabled
    dataset was fetched, then marked. *)
Lemma scanned_Ok s r retained names entries :
  scanned s r retained = Some (Ok (names, entries)) →
  ∃ inventory st, indexed names inventory ∧
    let found := resolve names inventory st.1 st.2 (sc_remotes s) in
    entries = markAll s names found ∧ ∀ n, n ∈ names → enabledAbove found n → n ∈ st.2.
Proof.
  unfold scanned. destruct (_ ≫= _) as [[[[[index activation] stored] found] inspect]|e] eqn:H; [|done].
  apply bind_Ok in H as (datasets & _ & H). apply bind_Ok in H as (index' & Hidx & H). apply bind_Ok in H as (act & _ & H).
  apply bind_Ok in H as ([] & _ & H). apply bind_Ok in H as (sparse & _ & H). apply bind_Ok in H as (ins & Hins & H).
  injection H as -> -> <- <- ->. destruct index as [names' inventory]. apply indexDatasets_Ok in Hidx. cbn [fst snd] in *.
  set (base := resolve names' inventory sparse.2 ∅ (sc_remotes s)) in *.
  destruct (scanLoop _ _ _ _ _ _ _ _ _) as [[found|e]|] eqn:Hl; [|done..]. intros [= <- <-]. exists inventory.
  destruct (inspectActive_spec base names' sparse.1) as [Hsub Hen]. pose proof (ix_parents _ _ Hidx) as Hp.
  assert (fold_left (inspectActive base) names' sparse.1 ⊆ inspect) as Hmono.
  { refine (foldM_inv (λ i, _ ⊆ i) _ _ _ _ _ _ Hins); [|done]. intros i x i' _ Hi Hx. unfold inspectRetained in Hx.
    case_match; [|done]. injection Hx as <-. intros n Hn. apply elem_of_addAncestors. left. by apply Hi. }
  assert (scanInv s names' inventory sparse.2 inspect (sparse.2, ∅) base) as Hinv.
  { split; [reflexivity|apply empty_subseteq|done| |by left]. intros n Hn He. apply Hmono, Hen; [done| |done].
    intros ->. by destruct Hp as (_ & ? & _). }
  destruct (scanLoop_inspects s r names' inventory activation sparse.2 Hp _ _ _ _ _ Hinv Hl) as (st & -> & Hst).
  exists st. split; [done|]. cbv zeta. split; [reflexivity|exact Hst].
Qed.
