(* ===== verification/Actors.v ===== *)
(** Actor roots and replicas: what [markRoots], [markCollisions] and
    [markReplicas] of internal/discovery/discovery.go establish, and what a scan
    that completes guarantees. *)

From Stdlib Require Import Ascii.
From S2P Require Import Prelude GoStrings GoTime Grid Names Zfs Ownership Policy Stream Json Authority Reference Discovery.

(** * The root above a dataset *)

(** [r] is the topmost enabled dataset that [n] lies within. *)
Definition isTop (entries : gmap string Entry) (r n : string) : Prop :=
  r ≠ "" ∧ within n r = true ∧ enabledIn entries r = true ∧
  ∀ a, a ≠ "" → within r a = true → enabledIn entries a = true → a = r.

Lemma isTop_unique entries r r' n : isTop entries r n → isTop entries r' n → r = r'.
Proof.
  intros (Hr & Hw & He & Hm) (Hr' & Hw' & He' & Hm'). destruct (within_chain _ _ _ Hw Hw') as [H|H].
  - symmetry. by apply Hm.
  - by apply Hm'.
Qed.

Lemma isTop_self entries r n : isTop entries r n → isTop entries r r.
Proof. intros (Hr & Hw & He & Hm). split_and!; auto with bz. Qed.

Lemma isTop_enabledAbove entries r n : isTop entries r n → enabledAbove entries n.
Proof. intros (Hr & Hw & He & Hm). by exists r. Qed.

(** What [within] of markRoots holds for a dataset: its root, or nothing. *)
Definition topOf (entries : gmap string Entry) (n r : string) : Prop :=
  (r = "" ∧ ¬ enabledAbove entries n) ∨ isTop entries r n.

Lemma topOf_unique entries n r r' : topOf entries n r → topOf entries n r' → r = r'.
Proof.
  intros [[-> H]|H] [[-> H']|H']; [done| | |by eapply isTop_unique].
  - by apply isTop_enabledAbove in H'.
  - by apply isTop_enabledAbove in H.
Qed.

(** The step of markRoots from a parent's root to a dataset's. *)
Lemma topOf_step entries n above :
  n ≠ "" → (if decide (parentName n = "") then above = "" else topOf entries (parentName n) above) →
  topOf entries n (if (above =? "")%string && enabledIn entries n then n else above).
Proof.
  intros Hn Ha. pose proof (enabledAbove_step entries n Hn) as Hstep. destruct (String.eqb_spec above "") as [->|Hne]; cbn [andb].
  - assert (parentName n = "" ∨ ¬ enabledAbove entries (parentName n)) as Hno.
    { case_decide; [by left|right]. destruct Ha as [[_ ?]|(? & _)]; done. }
    destruct (enabledIn entries n) eqn:He; [right|left; split; [done|naive_solver]].
    split_and!; [done|apply within_refl|done|]. intros a Hna [->|[Hp Hw]]%within_cases Hea; [done| |done].
    exfalso. destruct Hno as [?|[]]; [done|]. by exists a.
  - case_decide as Hp; [done|]. destruct Ha as [[? _]|(H1 & H2 & H3 & H4)]; [done|]. right. split_and!; [done| |done|done].
    apply (within_trans _ (parentName n)); [by apply below_within, parentName_below|done].
Qed.

(** * What marking leaves alone *)

Record kept (e0 e : Entry) : Prop := {
  kp_Dataset : en_Dataset e = en_Dataset e0;
  kp_Parent : en_Parent e = en_Parent e0;
  kp_Inspected : en_Inspected e = en_Inspected e0;
  kp_Stored : en_Stored e = en_Stored e0;
  kp_Blocked : en_Blocked e = en_Blocked e0;
  kp_Enabled : ef_Enabled (en_Policy e) = ef_Enabled (en_Policy e0)
}.
#[export] Instance kept_preorder : PreOrder kept.
Proof. split; [by intros e|]. intros e1 e2 e3 [] []. split; congruence. Qed.

(** A root before its members are known differs in warnings only. *)
Definition warned (e0 e : Entry) : Prop := ∃ w, e = setPolicy e0 (addWarnings (en_Policy e0) w).
Lemma warned_refl e : warned e e.
Proof. exists []. destruct e as [? ? ? ? ? ? p ? ? ?]. unfold setPolicy, addWarnings. cbn. destruct p. cbn. by rewrite app_nil_r. Qed.
Lemma warned_more e0 e w : warned e0 e → warned e0 (setPolicy e (addWarnings (en_Policy e) w)).
Proof. intros [w0 ->]. exists (w0 ++ w). unfold setPolicy, addWarnings. cbn. by rewrite app_assoc. Qed.

Lemma entryOf_insert entries k e n : entryOf (<[k := e]> entries) n = if decide (n = k) then e else entryOf entries n.
Proof. unfold entryOf. case_decide as E; [subst; by rewrite lookup_insert_eq|by rewrite lookup_insert_ne by congruence]. Qed.

Lemma replicatedPolicy_Enabled root rp p : ef_Enabled (replicatedPolicy root rp p) = ef_Enabled p.
Proof.
  unfold replicatedPolicy. generalize (governedKeys p rp). intros keys.
  assert (∀ q, ef_Enabled (fold_left (λ p key, if negb (policyValue p key =? policyValue rp key)%string
    then addWarnings p ["replication root " +:+ root +:+ " governs differing " +:+ TrimPrefix key Namespace] else p) keys q) = ef_Enabled q) as ->.
  { induction keys as [|k keys IH]; intros q; cbn [fold_left]; [done|]. rewrite IH. by case_match. }
  by destruct (ef_Enabled p) eqn:E.
Qed.

Lemma memberPolicy_Enabled root rp p : ef_Enabled (memberPolicy root rp p) = ef_Enabled p.
Proof. unfold memberPolicy. destruct (Replicate (ef_Send p)); by case_match. Qed.

(** Which datasets inside a root are its members. *)
Definition joins (rootEntry entry : Entry) : bool :=
  Replicate (ef_Send (en_Policy rootEntry)) || (ef_Enabled (en_Policy entry) && en_Inspected entry && validPolicy (en_Policy entry)).

Lemma coverEntry_spec entries r x e entries' :
  coverEntry entries r x = (e, entries') → en_Member (entryOf entries x) = false →
  kept (entryOf entries x) e ∧ en_CoveredBy e = r ∧ en_Members e = en_Members (entryOf entries x) ∧
  en_Member e = joins (entryOf entries r) (entryOf entries x) ∧
  (entries' = entries ∨ ∃ w, entries' = <[r := setPolicy (entryOf entries r) (addWarnings (en_Policy (entryOf entries r)) w)]> entries).
Proof.
  unfold coverEntry, joins. intros H Hm. destruct (Replicate _); cbn [orb].
  { injection H as <- <-. split_and!; [|by auto..]. split; [done..|apply replicatedPolicy_Enabled]. }
  cbn [setCoveredBy en_Policy en_Inspected] in H. destruct (_ && _ && _) eqn:E.
  { injection H as <- <-. split_and!; [|by auto..]. split; [done..|apply memberPolicy_Enabled]. }
  destruct (ef_Enabled _); injection H as <- <-; split_and!; try done; [by right; eexists|by left].
Qed.

(** * The loop of markRoots *)

Section MarkRoots.
Context (E0 : gmap string Entry).
Abbreviation entry0 := (entryOf E0).

(** Entries as [resolve] makes them. *)
Definition fresh (n : string) : Prop :=
  en_Parent (entry0 n) = parentName n ∧ en_CoveredBy (entry0 n) = "" ∧ en_Member (entry0 n) = false ∧ en_Members (entry0 n) = [].

(** How an entry is marked, given the root of its dataset. *)
Definition marked (r n : string) (e : Entry) : Prop :=
  if decide (r = "") then e = entry0 n
  else if decide (r = n) then warned (entry0 n) e
  else kept (entry0 n) e ∧ en_CoveredBy e = r ∧ en_Members e = [] ∧ en_Member e = joins (entry0 r) (entry0 n).

Definition memberOf (entries : gmap string Entry) (r n : string) : Prop :=
  en_Member (entryOf entries n) = true ∧ en_CoveredBy (entryOf entries n) = r.
#[local] Instance memberOf_dec entries r n : base.Decision (memberOf entries r n).
Proof. unfold memberOf. apply _. Defined.

Record rootsInv (pre : list string) (st : rootState) : Prop := {
  ri_within : ∀ n, n ∈ pre → ∃ r, ro_within st !! n = Some r ∧ topOf E0 n r;
  ri_outside : ∀ n, n ∉ pre → ro_within st !! n = None ∧ entryOf (ro_entries st) n = entry0 n;
  ri_marked : ∀ n r, n ∈ pre → topOf E0 n r → marked r n (entryOf (ro_entries st) n);
  ri_members : ∀ r, ro_members st !! r =
    if decide (r ∈ pre ∧ ro_within st !! r = Some r) then Some (r :: filter (memberOf (ro_entries st) r) pre) else None
}.

Lemma joins_warned r n e : warned (entry0 r) e → joins e (entry0 n) = joins (entry0 r) (entry0 n).
Proof. by intros [w ->]. Qed.

(** Members lie below roots that came before them. *)
Lemma rootsInv_member pre st r n :
  rootsInv pre st → (∀ n, n ∈ pre → fresh n) → n ∈ pre → memberOf (ro_entries st) r n → isTop E0 r n ∧ r ≠ n.
Proof.
  intros Hinv Hf Hn [Hm Hc]. destruct (ri_within _ _ Hinv n Hn) as (r' & _ & Ht). destruct (Hf n Hn) as (_ & _ & Hf1 & _).
  pose proof (ri_marked _ _ Hinv n r' Hn Ht) as Hmk. unfold marked in Hmk. case_decide; [subst; congruence|].
  case_decide; [destruct Hmk as [w Hw]; rewrite Hw in Hm; cbn in Hm; congruence|]. destruct Hmk as (_ & Hr & _).
  rewrite Hr in Hc. subst r'. split; [|done]. destruct Ht as [[? _]|?]; done.
Qed.

(** The root [markRoot] finds. *)
Definition rootFor (st : rootState) (x : string) : string :=
  let above := default "" (ro_within st !! parentName x) in
  if (above =? "")%string && enabledIn E0 x then x else above.

Lemma rootFor_top pre st x :
  rootsInv pre st → parentsFirst (pre ++ [x]) → topOf E0 x (rootFor st x).
Proof.
  intros Hinv Hp. apply parentsFirst_snoc in Hp as ((_ & He & _) & Hx & Hne & Hpar). apply topOf_step; [done|].
  case_decide as E.
  - rewrite E. by rewrite (proj1 (ri_outside _ _ Hinv "" He)).
  - destruct Hpar as [?|Hpar]; [done|]. by destruct (ri_within _ _ Hinv _ Hpar) as (r & -> & Ht).
Qed.

Lemma filter_snoc {A} (P : A → Prop) `{!∀ x, base.Decision (P x)} l x : filter P (l ++ [x]) = filter P l ++ (if decide (P x) then [x] else []).
Proof. rewrite filter_app, filter_cons, filter_nil. by case_decide. Qed.

Lemma isTop_before pre x r : parentsFirst (pre ++ [x]) → isTop E0 r x → r ≠ x → r ∈ pre.
Proof.
  intros Hp (Hr & Hw & _) Hne. apply parentsFirst_snoc in Hp as (Hp & Hx & Hnx & Hpx).
  apply within_cases in Hw as [?|[Hn Hw]]; [congruence| |done]. destruct Hpx as [?|Hpx]; [done|]. by eapply parentsFirst_ancestor.
Qed.

(** What one round of the loop does. *)
Record roundOf (x root : string) (st st' : rootState) : Prop := {
  rd_within : ro_within st' = <[x := root]> (ro_within st);
  rd_other : ∀ n, n ≠ x → entryOf (ro_entries st') n = entryOf (ro_entries st) n ∨
    (n = root ∧ root ≠ "" ∧ ∃ w, entryOf (ro_entries st') n = setPolicy (entryOf (ro_entries st) n) (addWarnings (en_Policy (entryOf (ro_entries st) n)) w));
  rd_marked : marked root x (entryOf (ro_entries st') x);
  rd_members : ro_members st' =
    if decide (root ≠ "" ∧ (root = x ∨ en_Member (entryOf (ro_entries st') x) = true)) then addMember (ro_members st) root x else ro_members st
}.

Lemma markRoot_round pre st x :
  rootsInv pre st → parentsFirst (pre ++ [x]) → fresh x → roundOf x (rootFor st x) st (markRoot st x).
Proof.
  intros Hinv Hp (Hpar & Hc & Hm & Hms). pose proof (rootFor_top _ _ _ Hinv Hp) as Htop. pose proof Hp as Hpf.
  apply parentsFirst_snoc in Hp as (Hp & Hx & Hne & Hpx). destruct (ri_outside _ _ Hinv x Hx) as [_ Hex].
  unfold markRoot. rewrite Hex, Hpar. fold (enabledIn E0 x). fold (rootFor st x). set (root := rootFor st x) in *.
  destruct (String.eqb_spec root "") as [Er|Hr].
  { split; cbn [ro_within ro_members ro_entries]; [done|by left| |by rewrite decide_False by tauto]. unfold marked. by rewrite decide_True. }
  destruct (String.eqb_spec root x) as [Ex|Hrx].
  { split; cbn [ro_within ro_members ro_entries]; [done|by left| |rewrite decide_True by auto; by rewrite Ex].
    unfold marked. rewrite decide_False, decide_True, Hex by done. apply warned_refl. }
  destruct Htop as [[? _]|Htop]; [done|].
  assert (root ∈ pre) as Hrp by by eapply isTop_before.
  assert (warned (entry0 root) (entryOf (ro_entries st) root)) as Hwarn.
  { pose proof (ri_marked _ _ Hinv root root Hrp (or_intror (isTop_self _ _ _ Htop))) as H. unfold marked in H.
    by rewrite decide_False, decide_True in H. }
  destruct (coverEntry (ro_entries st) root x) as [e entries'] eqn:Ec.
  destruct (coverEntry_spec _ _ _ _ _ Ec) as (Hk & Hcov & Hmem & Hjoin & Hent); [by rewrite Hex|].
  rewrite Hex in Hk, Hmem, Hjoin. split; cbn [ro_within ro_members ro_entries]; [done|..].
  - intros n Hn. rewrite entryOf_insert, decide_False by done. destruct Hent as [->|[w ->]]; [by left|].
    rewrite entryOf_insert. case_decide; [subst; right; eauto|by left].
  - rewrite entryOf_insert, decide_True by done. unfold marked. rewrite !decide_False by done. split_and!; [done|done|congruence|].
    by rewrite Hjoin, (joins_warned root).
  - assert (entryOf (<[x := e]> entries') x = e) as -> by (by rewrite entryOf_insert, decide_True).
    destruct (en_Member e); [by rewrite decide_True by auto|].
    rewrite decide_False; [done|]. naive_solver.
Qed.

Lemma round_memberOf (pre : list string) st st' x root r n :
  roundOf x root st st' → x ∉ pre → n ∈ pre → memberOf (ro_entries st') r n ↔ memberOf (ro_entries st) r n.
Proof.
  intros H Hx Hn. unfold memberOf. assert (n ≠ x) as Hne by (by intros ->). by destruct (rd_other _ _ _ _ H n Hne) as [->|(_ & _ & w & ->)].
Qed.

Lemma round_memberOf_new st st' x root r :
  roundOf x root st st' → fresh x →
  memberOf (ro_entries st') r x ↔ root ≠ "" ∧ root ≠ x ∧ r = root ∧ en_Member (entryOf (ro_entries st') x) = true.
Proof.
  intros H (_ & _ & Hf & _). pose proof (rd_marked _ _ _ _ H) as Hm. unfold marked in Hm. unfold memberOf.
  case_decide; [rewrite Hm, Hf; naive_solver|]. case_decide.
  - destruct Hm as [w ->]. cbn. rewrite Hf. naive_solver.
  - destruct Hm as (_ & -> & _). naive_solver.
Qed.

Lemma marked_warned r n e w : r = n → marked r n e → r ≠ "" → marked r n (setPolicy e (addWarnings (en_Policy e) w)).
Proof. unfold marked. intros -> H Hn. rewrite decide_False, decide_True in * by done. by apply warned_more. Qed.

(** The members a round leaves are those of the datasets seen so far. *)
Lemma rootsInv_members pre st st' x :
  rootsInv pre st → parentsFirst (pre ++ [x]) → (∀ n, n ∈ pre ++ [x] → fresh n) → roundOf x (rootFor st x) st st' →
  ∀ r, ro_members st' !! r =
    if decide (r ∈ pre ++ [x] ∧ ro_within st' !! r = Some r) then Some (r :: filter (memberOf (ro_entries st') r) (pre ++ [x])) else None.
Proof.
  intros Hinv Hpf Hf Hr r. pose proof (rootFor_top _ _ _ Hinv Hpf) as Htop. set (root := rootFor st x) in *.
  pose proof Hpf as (Hp & Hx & Hne & Hpx)%parentsFirst_snoc.
  assert (fresh x) as Hfx by (apply Hf, elem_of_app; right; by left).
  assert (∀ n, n ∈ pre → fresh n) as Hfp by (intros; apply Hf, elem_of_app; by left).
  assert (filter (memberOf (ro_entries st') r) pre = filter (memberOf (ro_entries st) r) pre) as Hfil.
  { apply list_filter_ext_in. intros n Hn. by eapply round_memberOf. }
  rewrite filter_snoc, Hfil, (rd_members _ _ _ _ Hr), (rd_within _ _ _ _ Hr). unfold addMember.
  pose proof (ri_members _ _ Hinv r) as Hold. pose proof (round_memberOf_new st st' x root r Hr Hfx) as Hnew.
  destruct (decide (r = x)) as [->|Hrx].
  - rewrite decide_False in Hold by tauto. rewrite (decide_False (P := memberOf _ x x)) by naive_solver.
    assert (filter (memberOf (ro_entries st) x) pre = []) as ->.
    { apply list_filter_none. intros n Hn Hm. destruct (rootsInv_member _ _ _ _ Hinv Hfp Hn Hm) as [Ht _].
      apply Hx. destruct Ht as (? & ? & _). by eapply parentsFirst_ancestor. }
    rewrite lookup_insert_eq. destruct (decide (root = x)) as [E|].
    + rewrite E, decide_True by auto. rewrite decide_True by (split; [apply elem_of_app; right; by left|done]).
      by rewrite lookup_insert_eq, Hold.
    + rewrite (decide_False (P := x ∈ pre ++ [x] ∧ Some root = Some x)) by naive_solver. case_decide; [by rewrite lookup_insert_ne|done].
  - rewrite (lookup_insert_ne (ro_within st)) by congruence.
    assert ((r ∈ pre ++ [x] ∧ ro_within st !! r = Some r) ↔ (r ∈ pre ∧ ro_within st !! r = Some r)) as Hiff.
    { rewrite elem_of_app, list_elem_of_singleton. naive_solver. }
    rewrite (decide_ext _ _ _ _ Hiff). destruct (decide (r = root)) as [->|Hrr].
    + destruct (decide (root = "")) as [E|Hr0].
      { rewrite decide_False by tauto. rewrite Hold. case_decide as Hd; [|done]. destruct Hd as [Hd _]. rewrite E in Hd.
        by destruct Hp as (_ & ? & _). }
      destruct Htop as [[? _]|Htop]; [done|]. pose proof (isTop_before _ _ _ Hpf Htop Hrx) as Hrp.
      destruct (ri_within _ _ Hinv _ Hrp) as (r' & Hw & Ht'). assert (r' = root) as ->.
      { eapply topOf_unique; [exact Ht'|right; by eapply isTop_self]. }
      rewrite decide_True in Hold by done. rewrite (decide_True (P := root ∈ pre ∧ _)) by done.
      destruct (en_Member (entryOf (ro_entries st') x)) eqn:Em.
      * rewrite decide_True by auto. rewrite lookup_insert_eq, Hold, decide_True by (by apply Hnew). done.
      * rewrite decide_False by naive_solver. rewrite Hold, decide_False, app_nil_r by (intros ?%Hnew; naive_solver). done.
    + rewrite (decide_False (P := memberOf _ r x)), app_nil_r by naive_solver. rewrite <- Hold. clear Hold.
      case_decide; [by rewrite lookup_insert_ne|done].
Qed.

Lemma rootsInv_step pre st st' x :
  rootsInv pre st → parentsFirst (pre ++ [x]) → (∀ n, n ∈ pre ++ [x] → fresh n) →
  roundOf x (rootFor st x) st st' → rootsInv (pre ++ [x]) st'.
Proof.
  intros Hinv Hp Hf Hr. pose proof (rootFor_top _ _ _ Hinv Hp) as Htop. set (root := rootFor st x) in *.
  pose proof Hp as Hpf. apply parentsFirst_snoc in Hp as (Hp & Hx & Hne & Hpx).
  assert (∀ n, n ∈ pre → n ≠ x) as Hnx by (by intros n ? ->).
  assert (root ≠ "" → root ≠ x → root ∈ pre) as Hrp.
  { intros H1 H2. destruct Htop as [[? _]|Htop]; [done|]. by eapply isTop_before. }
  split.
  - intros n [Hn| ->%list_elem_of_singleton]%elem_of_app; rewrite (rd_within _ _ _ _ Hr).
    + rewrite lookup_insert_ne by (apply not_eq_sym; auto). by apply Hinv.
    + exists root. by rewrite lookup_insert_eq.
  - intros n [Hn Hn']%not_elem_of_app. rewrite list_elem_of_singleton in Hn'. destruct (ri_outside _ _ Hinv n Hn) as [H1 H2].
    rewrite (rd_within _ _ _ _ Hr), lookup_insert_ne by congruence. split; [done|]. rewrite <- H2.
    destruct (rd_other _ _ _ _ Hr n Hn') as [?|(-> & H3 & _)]; [done|]. by destruct (Hn (Hrp H3 Hn')).
  - intros n r [Hn| ->%list_elem_of_singleton]%elem_of_app Ht.
    + pose proof (ri_marked _ _ Hinv n r Hn Ht) as Hm. destruct (rd_other _ _ _ _ Hr n (Hnx n Hn)) as [->|(-> & H3 & w & ->)]; [done|].
      assert (r = root) as -> by (eapply topOf_unique; [exact Ht|]; destruct Htop as [[? _]|H]; [done|right; by eapply isTop_self]).
      by apply marked_warned.
    + rewrite (topOf_unique _ _ _ _ Ht Htop). apply Hr.
  - apply (rootsInv_members _ _ _ _ Hinv Hpf Hf Hr).
Qed.

Lemma rootsInv_all names :
  parentsFirst names → (∀ n, n ∈ names → fresh n) → rootsInv names (fold_left markRoot names (mkRootState ∅ ∅ E0)).
Proof.
  induction names as [|x names IH] using rev_ind; intros Hp Hf.
  - split; [by intros n ?%elem_of_nil|done|by intros n r ?%elem_of_nil|].
    intros r. rewrite decide_False; [done|]. by intros [?%elem_of_nil _].
  - rewrite fold_left_app. cbn [fold_left]. assert (rootsInv names (fold_left markRoot names (mkRootState ∅ ∅ E0))) as Hinv.
    { apply IH; [by apply parentsFirst_snoc in Hp as [? _]|]. intros n Hn. apply Hf, elem_of_app. by left. }
    eapply rootsInv_step; [done..|]. apply (markRoot_round names); [done..|]. apply Hf, elem_of_app. right. by left.
Qed.

(** An entry after its root's policy was checked for the whole scope. *)
Definition repoliced (e e' : Entry) : Prop := ∃ p, e' = setPolicy e p ∧ ef_Enabled p = ef_Enabled (en_Policy e).
Lemma repoliced_refl e : repoliced e e.
Proof. exists (en_Policy e). by destruct e. Qed.

Lemma ForReplicationScope_Enabled p b d : ef_Enabled (ForReplicationScope p b d) = ef_Enabled p.
Proof. unfold ForReplicationScope. by repeat case_match. Qed.

Lemma checkScope_repoliced names : ∀ st n,
  repoliced (entryOf st.2 n) (entryOf (fold_left checkScope names st).2 n).
Proof.
  induction names as [|x names IH]; intros st n; [apply repoliced_refl|]. cbn [fold_left].
  destruct (IH (checkScope st x) n) as (p & -> & Hp). destruct st as [checked entries]. unfold checkScope in *. cbn [snd] in *.
  repeat case_match; cbn [snd] in *; try (by exists p). rewrite entryOf_insert in *. case_decide as E; [|by exists p].
  subst. exists p. split; [done|]. rewrite Hp. cbn. apply ForReplicationScope_Enabled.
Qed.

Lemma storeMembers_entryOf members entries n :
  entryOf (storeMembers members entries) n = match members !! n with Some set => setMembers (entryOf entries n) set | None => entryOf entries n end.
Proof. unfold storeMembers, entryOf. rewrite lookup_merge. by destruct (members !! n), (entries !! n). Qed.

(** What markRoots makes of the entries, given each dataset's root. *)
Lemma markRoots_spec names n r :
  parentsFirst names → (∀ n, n ∈ names → fresh n) → n ∈ names → topOf E0 n r →
  let e := entryOf (markRoots names E0) n in
  kept (entry0 n) e ∧ en_CoveredBy e = (if decide (r = n) then "" else r) ∧
  en_Member e = (if decide (r = n ∨ r = "") then false else joins (entry0 r) (entry0 n)) ∧
  en_Members e = (if decide (r = n) then n :: filter (memberOf (markRoots names E0) n) names else []).
Proof.
  intros Hp Hf Hn Ht. pose proof (rootsInv_all names Hp Hf) as Hinv. unfold markRoots. set (st := fold_left markRoot names _) in *.
  set (stored := storeMembers (ro_members st) (ro_entries st)). set (final := (fold_left checkScope names (∅, stored)).2).
  assert (∀ m, repoliced (entryOf stored m) (entryOf final m)) as Hrep by (intros m; apply (checkScope_repoliced names (∅, stored))).
  assert (filter (memberOf final n) names = filter (memberOf (ro_entries st) n) names) as ->.
  { apply list_filter_ext_in. intros m _. unfold memberOf. destruct (Hrep m) as (p & -> & _). unfold stored.
    rewrite storeMembers_entryOf. by destruct (ro_members st !! m). }
  destruct (Hrep n) as (p & Hfin & Hpe). destruct (Hf n Hn) as (_ & H1 & H2 & H3). cbv zeta. rewrite Hfin. clear Hfin.
  assert (n ≠ "") as Hne by (by intros ->; destruct Hp as (_ & ? & _)).
  destruct (ri_within _ _ Hinv n Hn) as (r' & Hw & Ht'). rewrite (topOf_unique _ _ _ _ Ht' Ht) in Hw. clear Ht' r'.
  pose proof (ri_marked _ _ Hinv n r Hn Ht) as Hm. unfold stored in *. rewrite storeMembers_entryOf, (ri_members _ _ Hinv n) in *.
  unfold marked in Hm. destruct (decide (r = n)) as [->|Hrn].
  - rewrite decide_False, ?decide_True in Hm by done. rewrite decide_True in * by (done || by auto). rewrite decide_True by auto.
    destruct Hm as [w Hm]. rewrite Hm in *. cbn in *. split_and!; [by split|done..].
  - rewrite decide_False in Hpe by naive_solver. rewrite (decide_False (P := n ∈ names ∧ _)) by naive_solver.
    destruct (decide (r = "")) as [->|Hr].
    + rewrite decide_True by auto. rewrite Hm in *. split_and!; [by split|done..].
    + destruct Hm as ([] & H4 & H5 & H6). rewrite decide_False by naive_solver. split_and!; [|done..]. split; cbn; congruence.
Qed.
End MarkRoots.

(** * Collisions *)

Definition replicaKey (r : replica) : string * string * bool := (re_root r, re_name r, re_remote r).

Lemma exists_in_cons {A} (P : A → Prop) x l : (∃ y, y ∈ x :: l ∧ P y) ↔ P x ∨ ∃ y, y ∈ l ∧ P y.
Proof. setoid_rewrite elem_of_cons. naive_solver. Qed.

(** Whether the entries block a target. *)
Definition blockedAt (entries : gmap string Entry) (k : string * string * bool) : bool :=
  existsb (λ b, (bt_Target b =? k.1.2)%string && Bool.eqb (bt_Remote b) k.2) (en_Blocked (entryOf entries k.1.1)).

Lemma ErrBlocked_None e target remote :
  ErrBlocked e target remote = None ↔ existsb (λ b, (bt_Target b =? target)%string && Bool.eqb (bt_Remote b) remote) (en_Blocked e) = false.
Proof. unfold ErrBlocked. induction (en_Blocked e) as [|b l IH]; [done|]. cbn. by destruct (_ && _). Qed.

Lemma block_blockedAt entries r reason k :
  blockedAt (block entries r reason) k = true ↔ blockedAt entries k = true ∨ k = replicaKey r.
Proof.
  unfold blockedAt, block. rewrite entryOf_insert. destruct k as [[root name] remote]. cbn [fst snd]. unfold replicaKey.
  case_decide as E; [subst|naive_solver]. destruct (existsb _ (en_Blocked (entryOf entries (re_root r)))) eqn:Hk.
  - split; [by left|]. intros [?|[= -> ->]]; [done|]. exact Hk.
  - cbn [setBlocked en_Blocked]. rewrite existsb_app, orb_true_iff. cbn [existsb bt_Target bt_Remote]. rewrite orb_false_r, andb_true_iff, eqb_str_true, eqb_true_iff.
    naive_solver.
Qed.

(** Two replicas that cannot both be received. *)
Definition clash (a b : replica) : bool := (re_namespace a =? re_namespace b)%string && overlaps (re_mapped a) (re_mapped b).
(** Which of the two gives way: the one without a stored binding, or both. *)
Definition yields (a b : replica) : bool := negb (re_established a) || re_established b.

Lemma overlaps_overlapping a b : overlaps a b = overlapping a b.
Proof. done. Qed.
Lemma clash_sym a b : clash a b = clash b a.
Proof. unfold clash. by rewrite String.eqb_sym, !overlaps_overlapping, overlapping_sym. Qed.

Definition pairBlocks (a b : replica) (k : string * string * bool) : Prop :=
  clash a b = true ∧ ((yields b a = true ∧ k = replicaKey b) ∨ (yields a b = true ∧ k = replicaKey a)).

Lemma collidePair_blockedAt a entries b k :
  blockedAt (collidePair a entries b) k = true ↔ blockedAt entries k = true ∨ pairBlocks a b k.
Proof.
  unfold collidePair, pairBlocks, clash, yields. rewrite <- negb_andb. destruct (_ && overlaps _ _); cbn [negb]; [|naive_solver].
  destruct (negb (re_established b) || re_established a), (negb (re_established a) || re_established b);
    rewrite ?block_blockedAt; naive_solver.
Qed.

Lemma collidePairs_blockedAt a rest k : ∀ entries,
  blockedAt (fold_left (collidePair a) rest entries) k = true ↔ blockedAt entries k = true ∨ ∃ b, b ∈ rest ∧ pairBlocks a b k.
Proof.
  induction rest as [|b rest IH]; intros entries; cbn [fold_left]; [set_solver|].
  rewrite IH, collidePair_blockedAt, (exists_in_cons (λ b, pairBlocks a b k)). tauto.
Qed.

Lemma collideRoots_blockedAt a roots k : ∀ entries,
  blockedAt (fold_left (collideRoot a) roots entries) k = true ↔
  blockedAt entries k = true ∨ (k = replicaKey a ∧ ∃ root, root ∈ roots ∧ overlaps (re_mapped a) root = true).
Proof.
  induction roots as [|root roots IH]; intros entries; cbn [fold_left]; [set_solver|]. rewrite IH. unfold collideRoot.
  rewrite (exists_in_cons (λ root, overlaps (re_mapped a) root = true)).
  destruct (overlaps (re_mapped a) root); [rewrite block_blockedAt; tauto|]. intuition discriminate.
Qed.

(** The host's own datasets a local replica would overlap. *)
Definition inSource (roots : list string) (a : replica) : Prop :=
  re_namespace a = "local" ∧ ∃ root, root ∈ roots ∧ overlaps (re_mapped a) root = true.

Fixpoint blocksAt (roots : list string) (l : list replica) (k : string * string * bool) : Prop :=
  match l with
  | [] => False
  | a :: rest => (∃ b, b ∈ rest ∧ pairBlocks a b k) ∨ (k = replicaKey a ∧ inSource roots a) ∨ blocksAt roots rest k
  end.

Lemma markCollisions_blockedAt roots l k : ∀ entries,
  blockedAt (markCollisions entries l roots) k = true ↔ blockedAt entries k = true ∨ blocksAt roots l k.
Proof.
  induction l as [|a rest IH]; intros entries; cbn [markCollisions blocksAt]; [tauto|]. rewrite IH. unfold inSource.
  destruct (String.eqb_spec (re_namespace a) "local"); cbn [negb]; rewrite ?collideRoots_blockedAt, collidePairs_blockedAt; tauto.
Qed.

(** A target is blocked for these reasons only. *)
Definition collides (l : list replica) (roots : list string) (a : replica) : Prop :=
  (∃ b, b ∈ l ∧ b ≠ a ∧ clash a b = true ∧ yields a b = true) ∨ inSource roots a.

Lemma blocksAt_collides roots l a :
  NoDup (replicaKey <$> l) → a ∈ l → blocksAt roots l (replicaKey a) ↔ collides l roots a.
Proof.
  induction l as [|x l IH]; intros Hnd Ha; [by apply elem_of_nil in Ha|]. cbn [blocksAt].
  rewrite fmap_cons in Hnd. apply NoDup_cons in Hnd as [Hx Hnd].
  assert (∀ b, b ∈ l → replicaKey b ≠ replicaKey x) as Hne by (intros b Hb E; apply Hx; rewrite <- E; by apply list_elem_of_fmap_2).
  unfold collides. setoid_rewrite elem_of_cons. apply elem_of_cons in Ha as [->|Ha].
  - assert (¬ blocksAt roots l (replicaKey x)) as Hno.
    { clear IH Hnd. revert Hne. clear Hx. induction l as [|y l IHl]; intros Hne; cbn [blocksAt]; [tauto|].
      assert (replicaKey y ≠ replicaKey x) by (apply Hne; by left).
      intros [(b & Hb & _ & [[_ E]|[_ E]])|[[E _]|Hl]]; [|congruence|congruence|].
      - apply (Hne b); [by right|done].
      - apply IHl; [|done]. intros b Hb. apply Hne. by right. }
    split.
    + intros [(b & Hb & Hc & [[_ E]|[Hy _]])|[[_ ?]|?]]; [by destruct (Hne b Hb)| |by right|done].
      left. exists b. split_and!; [by right|intros ->; by destruct (Hne _ Hb)|done..].
    + intros [(b & [->|Hb] & Hbx & Hc & Hy)|?]; [done| |naive_solver]. left. exists b. unfold pairBlocks. naive_solver.
  - rewrite (IH Hnd Ha). assert (replicaKey a ≠ replicaKey x) as Hax by auto. assert (a ≠ x) by congruence. unfold collides. split.
    + intros [(b & Hb & Hc & [[Hy E]|[_ E]])|[[E _]|[(b & ? & ?)|?]]]; [|congruence..|naive_solver|naive_solver].
      assert (b = a) as ->.
      { apply list_elem_of_lookup in Hb as [i Hi], Ha as [j Hj]. assert (i = j) as <-; [|congruence].
        apply (NoDup_lookup _ i j (replicaKey a) Hnd); rewrite list_lookup_fmap; [rewrite Hi|by rewrite Hj]. cbn. congruence. }
      left. exists x. rewrite clash_sym. naive_solver.
    + intros [(b & [->|Hb] & Hbx & Hc & Hy)|?]; [|naive_solver..].
      left. exists a. rewrite clash_sym in Hc. unfold pairBlocks. naive_solver.
Qed.

(** * The planned replicas *)

Definition isActor (e : Entry) : Prop := en_CoveredBy e = "" ∧ ef_Enabled (en_Policy e) = true.
#[export] Instance isActor_dec e : base.Decision (isActor e).
Proof. unfold isActor. apply _. Defined.

(** The actor roots of a generation. *)
Definition actorRoots (names : list string) (entries : gmap string Entry) : list string := filter (λ n, isActor (entryOf entries n)) names.

Definition replicasOf (entries : gmap string Entry) (remotes : gmap string RemoteDestination) (name : string) : list replica :=
  let root := entryOf entries name in
  (Compact (SortStrings (memberTargets entries name ef_Local)) ≫= localReplica name (ef_Discard (en_Policy root)) (storedBindings root))
  ++ (Compact (SortStrings (memberTargets entries name ef_Remote)) ≫= remoteReplica name (ef_Discard (en_Policy root)) (storedBindings root) remotes).

Lemma planRoot_eq entries remotes st x :
  planRoot entries remotes st x = if decide (isActor (entryOf entries x)) then (st.1 ++ replicasOf entries remotes x, st.2 ++ [x]) else st.
Proof.
  unfold planRoot. destruct (String.eqb_spec (en_CoveredBy (entryOf entries x)) "") as [E1|E1];
    destruct (ef_Enabled (en_Policy (entryOf entries x))) eqn:E2; cbn [negb orb].
  1: rewrite decide_True by done; reflexivity.
  all: rewrite decide_False by (intros []; congruence); reflexivity.
Qed.

Lemma plannedReplicas_eq names entries remotes :
  plannedReplicas names entries remotes = (actorRoots names entries ≫= replicasOf entries remotes, actorRoots names entries).
Proof.
  unfold plannedReplicas, actorRoots. assert (∀ l rs, fold_left (planRoot entries remotes) names (l, rs) =
    (l ++ (filter (λ n, isActor (entryOf entries n)) names ≫= replicasOf entries remotes), rs ++ filter (λ n, isActor (entryOf entries n)) names)) as H;
    [|apply (H [] [])].
  induction names as [|x names IH]; intros l rs; cbn [fold_left]; [by rewrite filter_nil, !app_nil_r|].
  rewrite planRoot_eq, filter_cons. case_decide; cbn [fst snd]; rewrite IH; [|done]. cbn [mbind list_bind]. by rewrite <- !app_assoc.
Qed.

Lemma NoDup_bind_keys {A B K} (f : A → list B) (key : B → K) (l : list A) :
  NoDup l → (∀ x, x ∈ l → NoDup (key <$> f x)) →
  (∀ x y b c, x ∈ l → y ∈ l → b ∈ f x → c ∈ f y → key b = key c → x = y) → NoDup (key <$> (l ≫= f)).
Proof.
  induction 1 as [|x l Hx Hnd IH]; intros H1 H2; [constructor|]. cbn [mbind list_bind]. rewrite fmap_app. apply NoDup_app. split_and!.
  - apply H1. by left.
  - intros k Hk Hk'. apply list_elem_of_fmap in Hk as (b & -> & Hb), Hk' as (c & E & Hc). apply list_elem_of_bind in Hc as (y & Hc & Hy).
    apply Hx. assert (x = y) as ->; [|done]. apply (H2 x y b c); [by left|by right|done..].
  - apply IH; [intros y Hy; apply H1; by right|]. intros y z b c Hy Hz. apply H2; by right.
Qed.

Lemma targets_NoDup l : NoDup (Compact (SortStrings l)).
Proof. apply (Compact_NoDup String.le), SortStrings_sorted. Qed.

Lemma localReplica_key name discard bound target r : r ∈ localReplica name discard bound target → replicaKey r = (name, target, false).
Proof. unfold localReplica. case_match; [|by intros ?%elem_of_nil]. by intros ->%list_elem_of_singleton. Qed.
Lemma remoteReplica_key name discard bound remotes target r :
  r ∈ remoteReplica name discard bound remotes target → replicaKey r = (name, target, true).
Proof. unfold remoteReplica. do 2 (case_match; [|by intros ?%elem_of_nil]). by intros ->%list_elem_of_singleton. Qed.

Lemma replicasOf_root entries remotes name r : r ∈ replicasOf entries remotes name → re_root r = name.
Proof.
  unfold replicasOf. intros [H|H]%elem_of_app; apply list_elem_of_bind in H as (t & H & _);
    [apply localReplica_key in H|apply remoteReplica_key in H]; unfold replicaKey in H; congruence.
Qed.

Lemma replicasOf_keys entries remotes name : NoDup (replicaKey <$> replicasOf entries remotes name).
Proof.
  unfold replicasOf. rewrite fmap_app. apply NoDup_app. split_and!.
  - apply NoDup_bind_keys; [apply targets_NoDup| |].
    + intros x _. unfold localReplica. case_match; repeat constructor. by intros ?%elem_of_nil.
    + intros x y b c _ _ Hb%localReplica_key Hc%localReplica_key. congruence.
  - intros k Hk Hk'. apply list_elem_of_fmap in Hk as (b & -> & Hb), Hk' as (c & E & Hc).
    apply list_elem_of_bind in Hb as (x & Hb%localReplica_key & _), Hc as (y & Hc%remoteReplica_key & _). congruence.
  - apply NoDup_bind_keys; [apply targets_NoDup| |].
    + intros x _. unfold remoteReplica. repeat case_match; repeat constructor. by intros ?%elem_of_nil.
    + intros x y b c _ _ Hb%remoteReplica_key Hc%remoteReplica_key. congruence.
Qed.

Lemma plannedReplicas_keys names entries remotes : NoDup names → NoDup (replicaKey <$> (plannedReplicas names entries remotes).1).
Proof.
  intros Hnd. rewrite plannedReplicas_eq. apply NoDup_bind_keys; [by apply NoDup_filter|intros; apply replicasOf_keys|].
  intros x y b c _ _ Hb%replicasOf_root Hc%replicasOf_root. unfold replicaKey. congruence.
Qed.

(** * Blocking and marking replicas change nothing else *)

Definition placed (e e' : Entry) : Prop := ∃ b r, e' = setReplica (setBlocked e b) r.
#[export] Instance placed_preorder : PreOrder placed.
Proof.
  split; [intros e; exists (en_Blocked e), (en_Replica e); by destruct e|].
  intros e1 e2 e3 (b & r & ->) (b' & r' & ->). by exists b', r'.
Qed.

Lemma block_placed entries r reason n : placed (entryOf entries n) (entryOf (block entries r reason) n).
Proof.
  unfold block. rewrite entryOf_insert. case_decide; [subst|done]. case_match; [done|]. eexists _, (en_Replica _). cbn. done.
Qed.

Lemma fold_placed {A} (f : gmap string Entry → A → gmap string Entry) l n :
  (∀ entries x, placed (entryOf entries n) (entryOf (f entries x) n)) → ∀ entries, placed (entryOf entries n) (entryOf (fold_left f l entries) n).
Proof. intros Hf. induction l as [|x l IH]; intros entries; cbn [fold_left]; [done|]. etransitivity; [apply Hf|apply IH]. Qed.

Lemma markCollisions_placed roots l n : ∀ entries, placed (entryOf entries n) (entryOf (markCollisions entries l roots) n).
Proof.
  induction l as [|a l IH]; intros entries; cbn [markCollisions]; [done|]. etransitivity; [|apply IH].
  etransitivity; [apply (fold_placed (collidePair a) l)|case_match; [done|apply fold_placed]]; clear; intros entries x.
  - unfold collidePair. repeat case_match; try done; try apply block_placed. etransitivity; apply block_placed.
  - unfold collideRoot. case_match; [apply block_placed|done].
Qed.

Lemma markReplicas_placed names replicas roots n entries :
  placed (entryOf entries n) (entryOf (markReplicas names entries replicas roots) n) ∧
  en_Blocked (entryOf (markReplicas names entries replicas roots) n) = en_Blocked (entryOf entries n).
Proof.
  unfold markReplicas. revert entries. induction names as [|x names IH]; intros entries; cbn [fold_left]; [done|].
  destruct (IH (markReplica replicas roots entries x)) as [H1 H2]. rewrite H2. clear IH H2.
  assert (placed (entryOf entries n) (entryOf (markReplica replicas roots entries x) n) ∧
    en_Blocked (entryOf (markReplica replicas roots entries x) n) = en_Blocked (entryOf entries n)) as [H3 H4]; [|split; [by etransitivity|done]].
  unfold markReplica. rewrite entryOf_insert. case_decide; [subst|done]. split; [|done].
  eexists (en_Blocked _), _. unfold setReplica, setBlocked. cbn. reflexivity.
Qed.

(** * What a completed scan publishes *)

Lemma Scan_Ok s r retained before after now g s' :
  Scan s r retained before after now = Some (Ok g, s') →
  ∃ inventory st, indexed (ge_names g) inventory ∧
    let found := resolve (ge_names g) inventory st.1 st.2 (sc_remotes s) in
    ge_entries g = markAll s (ge_names g) found ∧ ∀ n, n ∈ ge_names g → enabledAbove found n → n ∈ st.2.
Proof.
  unfold Scan. destruct before; [done|]. destruct (scanned s r retained) as [[[names entries]|e]|] eqn:H; [|done..].
  destruct after; [done|]. intros [= <- _]. by apply scanned_Ok in H.
Qed.

Section Marked.
Context (s : Scanner) (names : list string) (inventory : gmap string Dataset) (st : fetchMaps) (Hidx : indexed names inventory).
Let found : gmap string Entry := resolve names inventory st.1 st.2 (sc_remotes s).
Let final : gmap string Entry := markAll s names found.
Let roots : gmap string Entry := markRoots names found.

Lemma found_fresh n : n ∈ names → fresh found n.
Proof.
  intros Hn. unfold fresh, found. rewrite (resolved_entry s names inventory (ix_parents _ _ Hidx)) by done. done.
Qed.

Lemma final_placed n : placed (entryOf roots n) (entryOf final n).
Proof.
  unfold final, markAll. fold roots. destruct (plannedReplicas names roots (sc_destinations s)) as [replicas actors].
  etransitivity; [apply markCollisions_placed|]. apply markReplicas_placed.
Qed.

Lemma final_enabled n : n ∈ names → enabledIn final n = enabledIn found n.
Proof.
  intros Hn. destruct (Hidx) as [_ _ _ Hp]. unfold enabledIn. destruct (final_placed n) as (b & rp & ->). cbn [setReplica setBlocked en_Policy].
  assert (∃ r, topOf found n r) as [r Ht].
  { destruct (ri_within _ _ _ (rootsInv_all found names Hp found_fresh) n Hn) as (r & _ & Ht). by exists r. }
  destruct (markRoots_spec found names n r Hp found_fresh Hn Ht) as ([] & _). done.
Qed.

Lemma final_enabledAbove n : n ∈ names → enabledAbove final n ↔ enabledAbove found n.
Proof.
  intros Hn. unfold enabledAbove. split; intros (a & Ha & Hw & He); exists a;
    (rewrite final_enabled in * || rewrite <- final_enabled); try done; by eapply parentsFirst_ancestor; [apply Hidx|..].
Qed.

Lemma final_isTop r n : n ∈ names → isTop final r n ↔ isTop found r n.
Proof.
  intros Hn. assert (∀ a, a ≠ "" → within n a = true → enabledIn final a = enabledIn found a) as He.
  { intros a Ha Hw. apply final_enabled. by eapply parentsFirst_ancestor; [apply Hidx|..]. }
  unfold isTop. split; intros (H1 & H2 & H3 & H4); (split_and!; [done|done|by rewrite <- H3, He|]);
    intros a Ha Hw Hea; apply H4; try done; rewrite <- Hea; [|symmetry]; apply He; try done; by eapply within_trans.
Qed.

Lemma final_top n : n ∈ names → ∃ r, topOf found n r.
Proof.
  intros Hn. destruct (ri_within _ _ _ (rootsInv_all found names (ix_parents _ _ Hidx) found_fresh) n Hn) as (r & _ & Ht). by exists r.
Qed.

Lemma final_spec n r :
  n ∈ names → topOf found n r →
  let e := entryOf final n in
  en_Dataset e = en_Dataset (entryOf found n) ∧ en_Inspected e = en_Inspected (entryOf found n) ∧
  en_CoveredBy e = (if decide (r = n) then "" else r) ∧
  en_Member e = (if decide (r = n ∨ r = "") then false else joins (entryOf found r) (entryOf found n)) ∧
  en_Members e = (if decide (r = n) then n :: filter (λ m, en_Member (entryOf final m) = true ∧ en_CoveredBy (entryOf final m) = n) names else []).
Proof.
  intros Hn Ht. destruct (markRoots_spec found names n r (ix_parents _ _ Hidx) found_fresh Hn Ht) as ([] & H1 & H2 & H3).
  assert (filter (λ m, en_Member (entryOf final m) = true ∧ en_CoveredBy (entryOf final m) = n) names = filter (memberOf roots n) names) as ->.
  { apply list_filter_ext_in. intros m _. unfold memberOf. by destruct (final_placed m) as (b & rp & ->). }
  destruct (final_placed n) as (b & rp & ->). by split_and!.
Qed.

Lemma name_not_empty n : n ∈ names → n ≠ "".
Proof. intros Hn ->. by destruct Hidx as [_ _ _ (_ & ? & _)]. Qed.

Lemma final_inspected :
  (∀ n, n ∈ names → enabledAbove found n → n ∈ st.2) → ∀ n, n ∈ names → enabledAbove found n → en_Inspected (entryOf final n) = true.
Proof.
  intros Hcov n Hn Ha. destruct (final_top n Hn) as [t Ht]. destruct (final_spec n t Hn Ht) as (_ & -> & _).
  unfold found. rewrite (resolved_entry s names inventory (ix_parents _ _ Hidx)) by done. cbn. by apply bool_decide_eq_true, Hcov.
Qed.

Lemma final_covered n :
  n ∈ names → en_CoveredBy (entryOf final n) ≠ "" ∨ enabledIn final n = true → enabledAbove found n.
Proof.
  intros Hn H. destruct (final_top n Hn) as [t [[-> Ht]|Ht]]; [|by eapply isTop_enabledAbove].
  destruct (final_spec n "" Hn (or_introl (conj eq_refl Ht))) as (_ & _ & Hc & _). destruct H as [H|H]; [by case_decide|].
  apply final_enabledAbove; [done|]. exists n. split_and!; [by apply name_not_empty|apply within_refl|done].
Qed.

Lemma final_actor a : a ∈ actorRoots names final → a ∈ names ∧ isTop found a a.
Proof.
  intros [[Hc Ha] Hn]%list_elem_of_filter. split; [done|]. destruct (final_top a Hn) as [t Ht].
  destruct (final_spec a t Hn Ht) as (_ & _ & Hca & _). rewrite Hc in Hca. destruct Ht as [[_ []]|Ht].
  - by apply final_covered; [|right].
  - case_decide; [by subst|]. by destruct Ht.
Qed.

Lemma final_actors_disjoint a b :
  a ∈ actorRoots names final → b ∈ actorRoots names final → overlapping a b = true → a = b.
Proof.
  intros [_ (? & _ & ? & Ha)]%final_actor [_ (? & _ & ? & Hb)]%final_actor [Hw|Hw]%overlapping_within; [symmetry|]; auto.
Qed.
End Marked.

(** C18: in every published generation the dataset hierarchy is partitioned by
    actor roots. A dataset inside the subtree of an enabled one is assigned to the
    topmost enabled dataset above it, and to nothing otherwise; no two actor roots
    overlap; a root's members are itself first, then exactly its covered member
    datasets in inventory order; and everything inside a root was fully
    inspected. *)
Theorem Scan_roots s r retained before after now g s' :
  Scan s r retained before after now = Some (Ok g, s') →
  let e := entryOf (ge_entries g) in
  (∀ n root, n ∈ ge_names g → isTop (ge_entries g) root n → en_CoveredBy (e n) = (if decide (root = n) then "" else root)) ∧
  (∀ n, n ∈ ge_names g → en_CoveredBy (e n) ≠ "" ∨ ef_Enabled (en_Policy (e n)) = true → en_Inspected (e n) = true) ∧
  (∀ n, n ∈ ge_names g → ¬ enabledAbove (ge_entries g) n → en_CoveredBy (e n) = "" ∧ en_Member (e n) = false) ∧
  (∀ a b, a ∈ actorRoots (ge_names g) (ge_entries g) → b ∈ actorRoots (ge_names g) (ge_entries g) → overlapping a b = true → a = b) ∧
  (∀ a, a ∈ actorRoots (ge_names g) (ge_entries g) →
    en_Members (e a) = a :: filter (λ m, en_Member (e m) = true ∧ en_CoveredBy (e m) = a) (ge_names g)).
Proof.
  intros (inventory & st & Hidx & He & Hcov)%Scan_Ok. cbv zeta. rewrite He. split_and!.
  - intros n root Hn Ht. apply (final_isTop s _ inventory st Hidx) in Ht; [|done]. apply (final_spec s _ inventory st Hidx n root Hn (or_intror Ht)).
  - intros n Hn H. apply (final_inspected s _ inventory st Hidx Hcov); [done|]. by apply (final_covered s _ inventory st Hidx).
  - intros n Hn H. rewrite (final_enabledAbove s _ inventory st Hidx n Hn) in H.
    destruct (final_spec s _ inventory st Hidx n "" Hn (or_introl (conj eq_refl H))) as (_ & _ & -> & -> & _).
    split; [by case_decide|by rewrite decide_True by auto].
  - apply (final_actors_disjoint s _ inventory st Hidx).
  - intros a Ha. destruct (final_actor s _ inventory st Hidx a Ha) as [Hn Ht].
    destruct (final_spec s _ inventory st Hidx a a Hn (or_intror Ht)) as (_ & _ & _ & _ & ->). by rewrite decide_True.
Qed.

Lemma plannedReplicas_placed names e e' remotes :
  (∀ n, placed (entryOf e n) (entryOf e' n)) → plannedReplicas names e' remotes = plannedReplicas names e remotes.
Proof.
  intros H. rewrite !plannedReplicas_eq. assert (actorRoots names e' = actorRoots names e) as ->.
  { apply list_filter_ext_in. intros n _. unfold isActor. by destruct (H n) as (b & rp & ->). }
  f_equal. assert (∀ n, replicasOf e' remotes n = replicasOf e remotes n) as Hr; [|by induction (actorRoots names e) as [|a l IH]; cbn; [|rewrite Hr; f_equal]].
  intros n. assert (∀ f, memberTargets e' n f = memberTargets e n f) as Hm.
  { intros f. unfold memberTargets. destruct (H n) as (b & rp & ->). cbn. f_equal. case_match; [done|].
    induction (en_Members (entryOf e n)) as [|m l IH]; cbn; [done|]. rewrite IH. f_equal. case_match; [done|]. by destruct (H m) as (b' & rp' & ->). }
  unfold replicasOf. rewrite !Hm. by destruct (H n) as (b & rp & ->).
Qed.

Section Blocked.
Context (s : Scanner) (names : list string) (inventory : gmap string Dataset) (st : fetchMaps) (Hidx : indexed names inventory).
Let found : gmap string Entry := resolve names inventory st.1 st.2 (sc_remotes s).
Let final : gmap string Entry := markAll s names found.

Lemma final_planned : plannedReplicas names final (sc_destinations s) = plannedReplicas names (markRoots names found) (sc_destinations s).
Proof. apply plannedReplicas_placed, (final_placed s names inventory st). Qed.

Lemma planned_unblocked a :
  a ∈ (plannedReplicas names (markRoots names found) (sc_destinations s)).1 → blockedAt (markRoots names found) (replicaKey a) = false.
Proof.
  rewrite plannedReplicas_eq. cbn [fst]. intros (n & Hr%replicasOf_root & [_ Hn]%list_elem_of_filter)%list_elem_of_bind.
  unfold blockedAt, replicaKey. cbn [fst snd]. rewrite Hr. destruct (final_top s names inventory st Hidx n Hn) as [t Ht].
  destruct (markRoots_spec found names n t (ix_parents _ _ Hidx) (found_fresh s names inventory st Hidx) Hn Ht) as ([] & _).
  rewrite kp_Blocked0. unfold found. by rewrite (resolved_entry s names inventory (ix_parents _ _ Hidx)).
Qed.

Lemma final_blocked a :
  let replicas := (plannedReplicas names final (sc_destinations s)).1 in
  a ∈ replicas →
  ErrBlocked (entryOf final (re_root a)) (re_name a) (re_remote a) = None ↔ ¬ collides replicas (actorRoots names final) a.
Proof.
  cbv zeta. rewrite ErrBlocked_None. change (existsb _ _) with (blockedAt final (replicaKey a)).
  assert (actorRoots names final = (plannedReplicas names final (sc_destinations s)).2) as -> by by rewrite plannedReplicas_eq.
  rewrite final_planned. intros Ha. pose proof (planned_unblocked a Ha) as Hun.
  assert (NoDup names) as Hnd by apply (ix_parents _ _ Hidx).
  pose proof (plannedReplicas_keys names (markRoots names found) (sc_destinations s) Hnd) as Hkeys.
  unfold final, markAll. destruct (plannedReplicas names (markRoots names found) (sc_destinations s)) as [replicas actors]. cbn [fst snd] in *.
  rewrite <- (blocksAt_collides actors replicas a Hkeys Ha), <- not_true_iff_false.
  unfold blockedAt at 1. destruct (markReplicas_placed names replicas (op_ReplicationRoots (sc_options s)) (replicaKey a).1.1
    (markCollisions (markRoots names found) replicas actors)) as [_ ->].
  fold (blockedAt (markCollisions (markRoots names found) replicas actors) (replicaKey a)).
  rewrite markCollisions_blockedAt, Hun. intuition discriminate.
Qed.
End Blocked.

(** Where a replica goes: the configured root, the namespace it is in and the
    target's canonical identity. *)
Definition destinationOf (remotes : gmap string RemoteDestination) (a : replica) : option (string * string * string) :=
  if re_remote a then (λ d, (rd_Root d, rd_Namespace d, rd_Canonical d)) <$> remotes !! re_name a
  else Some (re_name a, "local", "local:" +:+ re_name a).
(** A root's local binding for a target, with the GUIDs of a pool and an anchor.
    Which dataset it was made for is not asked. *)
Definition boundFor (root : Entry) (canonical : string) : Prop :=
  ∃ row pool anchor, row ∈ en_Stored root ∧ pr_Dataset row = ds_Name (en_Dataset root) ∧ pr_Source row = SourceLocal ∧
    pr_Name row = StateNamespace +:+ "target:" +:+ TargetID canonical ∧
    Unmarshal bindingFields (0, 0) (pr_Value row) = Some (pool, anchor) ∧ pool ≠ 0 ∧ anchor ≠ 0.
(** A planned replica is where its root's mapping puts it. *)
Definition placedBy (entries : gmap string Entry) (remotes : gmap string RemoteDestination) (a : replica) : Prop :=
  ∃ root namespace canonical, destinationOf remotes a = Some (root, namespace, canonical) ∧ re_namespace a = namespace ∧
    MapReceiveDataset (re_root a) root (ef_Discard (en_Policy (entryOf entries (re_root a)))) = Ok (re_mapped a) ∧
    (re_established a = true ↔ canonical ≠ "" ∧ boundFor (entryOf entries (re_root a)) canonical).

Lemma bindingRow_elem root bindings row id : id ∈ bindingRow root bindings row ↔ id ∈ bindings ∨
  pr_Dataset row = ds_Name (en_Dataset root) ∧ pr_Source row = SourceLocal ∧ pr_Name row = StateNamespace +:+ "target:" +:+ id ∧ ":"%char ∉ bytes_of id ∧
  ∃ pool anchor, Unmarshal bindingFields (0, 0) (pr_Value row) = Some (pool, anchor) ∧ pool ≠ 0 ∧ anchor ≠ 0.
Proof.
  unfold bindingRow, CutPrefix. set (prefix := StateNamespace +:+ "target:").
  assert (StateNamespace +:+ "target:" +:+ id = prefix +:+ id) as -> by by unfold prefix; rewrite app_assoc_str.
  destruct (HasPrefix (pr_Name row) prefix) eqn:Hp.
  2: { cbn [negb]. rewrite !orb_true_r. cbn. split; [by left|]. intros [?|(_ & _ & E & _)]; [done|]. by rewrite E, HasPrefix_app in Hp. }
  apply HasPrefix_spec in Hp as [x Ex]. rewrite Ex, TrimPrefix_app.
  destruct (String.eqb_spec (pr_Dataset row) (ds_Name (en_Dataset root))); cbn [negb orb]; [|tauto].
  destruct (String.eqb_spec (pr_Source row) SourceLocal); cbn [negb orb]; [|tauto]. destruct (ContainsByte x ":") eqn:Hc.
  { apply ContainsByte_spec in Hc. split; [by left|]. intros [?|(_ & _ & E%app_inj_str & Hn & _)]; [done|]. by subst. }
  apply ContainsByte_false in Hc. destruct (Unmarshal _ _ _) as [[pool anchor]|].
  2: { split; [by left|]. intros [?|(_ & _ & _ & _ & ? & ? & [=] & _)]. done. }
  destruct (Z.eqb_spec pool 0), (Z.eqb_spec anchor 0); cbn [negb andb].
  4: rewrite elem_of_union, elem_of_singleton; split; [intros [->|?]; [right; by eauto 10|by left]|intros [?|(_ & _ & E%app_inj_str & _)]; [by right|by left]].
  all: split; [by left|]; intros [?|(_ & _ & _ & _ & ? & ? & [= <- <-] & ? & ?)]; done.
Qed.
Lemma storedBindings_elem root canonical : TargetID canonical ∈ storedBindings root ↔ boundFor root canonical.
Proof.
  unfold storedBindings, boundFor. assert (∀ l bindings, TargetID canonical ∈ fold_left (bindingRow root) l bindings ↔ TargetID canonical ∈ bindings ∨
    ∃ row pool anchor, row ∈ l ∧ pr_Dataset row = ds_Name (en_Dataset root) ∧ pr_Source row = SourceLocal ∧
      pr_Name row = StateNamespace +:+ "target:" +:+ TargetID canonical ∧
      Unmarshal bindingFields (0, 0) (pr_Value row) = Some (pool, anchor) ∧ pool ≠ 0 ∧ anchor ≠ 0) as H; [|rewrite H; set_solver].
  destruct (TargetID_shape canonical) as [Hn _].
  induction l as [|row l IH]; intros bindings; cbn [fold_left]; [set_solver|]. rewrite IH, bindingRow_elem. setoid_rewrite elem_of_cons. naive_solver.
Qed.
Lemma planned_placed names entries remotes a : a ∈ (plannedReplicas names entries remotes).1 → placedBy entries remotes a.
Proof.
  rewrite plannedReplicas_eq. cbn [fst]. intros (n & Hr & _)%list_elem_of_bind. pose proof (replicasOf_root _ _ _ _ Hr) as Hn. unfold placedBy. rewrite Hn.
  unfold replicasOf in Hr. apply elem_of_app in Hr as [H|H]; apply list_elem_of_bind in H as (target & H & _).
  - unfold localReplica in H. destruct (MapReceiveDataset _ _ _) as [m|] eqn:Em; [|by apply not_elem_of_nil in H]. apply list_elem_of_singleton in H as ->.
    eexists _, _, _. split_and!; [done..|]. cbn [re_established re_name]. rewrite bool_decide_eq_true, storedBindings_elem.
    split; [by split|by intros [_ ?]].
  - unfold remoteReplica in H. destruct (remotes !! target) as [d|] eqn:Ed; [|by apply not_elem_of_nil in H].
    destruct (MapReceiveDataset _ _ _) as [m|] eqn:Em; [|by apply not_elem_of_nil in H]. apply list_elem_of_singleton in H as ->.
    exists (rd_Root d), (rd_Namespace d), (rd_Canonical d). unfold destinationOf. cbn [re_remote re_name re_namespace re_mapped re_established]. rewrite Ed. split_and!; [done..|].
    rewrite andb_true_iff, negb_true_iff, String.eqb_neq, bool_decide_eq_true, storedBindings_elem. tauto.
Qed.


Module SampleScan.
Definition on (dataset name value : string) : Property := mkProperty dataset (Namespace +:+ name) value SourceLocal.
(** Two roots send to overlapping destinations; the first has a stored binding
    there. *)
Definition binding : Property :=
  mkProperty "tank/data" (StateNamespace +:+ "target:" +:+ TargetID "local:backup")
    ("{" +:+ encodeString "pool_guid" +:+ ":1," +:+ encodeString "anchor_guid" +:+ ":2}") SourceLocal.
Definition datasets : list Dataset := (λ n, mkDataset n Filesystem "-") <$> ["tank"; "backup"; "tank/web"; "tank/data"; "tank/data/home"].
Definition activation : list Property := [on "tank/data" "enabled" "on"; on "tank/web" "enabled" "on"].
Definition stored (batch : list string) : result (list Property) :=
  Ok (filter (λ p, pr_Dataset p ∈ batch) (activation ++ [on "tank/data" "local" "backup"; on "tank/web" "local" "backup/web"; binding])).
Definition reader : Reader := mkReader (Ok datasets) (Ok activation) (Some (Ok [])) stored.
Definition scanner : Scanner := mkScanner (mkOptions 128 32768 [] ∅ []) ∅ ∅ 60 None false false.
Definition now : Time := Date 2026 8 2 12 0 0 0.
Definition run : option (result Generation * Scanner) := Scan scanner reader [] None None now.
Definition generation : Generation := match run with Some (Ok g, _) => g | _ => mkGeneration 0 0 [] ∅ end.
Definition after : Scanner := match run with Some (_, s) => s | _ => scanner end.
Lemma run_Ok : Scan scanner reader [] None None now = Some (Ok generation, after).
Proof.
  assert (match run with Some (Ok _, _) => true | _ => false end = true) as H by by vm_compute.
  unfold generation, after, run in *. by destruct (Scan _ _ _ _ _ _) as [[[] ?]|].
Qed.
(** The planned replicas of the two roots. *)
Definition data : replica := mkReplicaAt "tank/data" "local destination backup" "backup" false "local" "backup" true.
Definition web : replica := mkReplicaAt "tank/web" "local destination backup/web" "backup/web" false "local" "backup/web" false.
Lemma planned : (plannedReplicas (ge_names generation) (ge_entries generation) (sc_destinations scanner)).1 = [data; web].
Proof. by vm_compute. Qed.
Lemma roots : actorRoots (ge_names generation) (ge_entries generation) = ["tank/data"; "tank/web"].
Proof. by vm_compute. Qed.
End SampleScan.

Lemma Scan_roots_witness :
  en_Members (entryOf (ge_entries SampleScan.generation) "tank/data") = ["tank/data"; "tank/data/home"] ∧
  (overlapping "tank/data" "tank/web" = true → "tank/data" = "tank/web").
Proof.
  destruct (Scan_roots _ _ _ _ _ _ _ _ SampleScan.run_Ok) as (_ & _ & _ & H1 & H2).
  rewrite SampleScan.roots in H1, H2. split.
  - etransitivity; [apply (H2 "tank/data"); by left|by vm_compute].
  - apply H1; [by left|right; by left].
Defined.

