(* ===== verification/Proofs.v ===== *)
(** Recovery proofs: the operations of internal/lifecycle/reference.go and
    inspection.go that write, checkpoint and release them. *)

From Stdlib Require Import Ascii.
From S2P Require Import Prelude GoStrings GoTime Grid Names Zfs Ownership Prune Policy Json Stream Authority Reference Backend Service.

(** * Reading what a proof involves *)

Definition unavailable : error := Errorf "reference operations unavailable".

(** The datasets [proofScope] reads besides the root. *)
Definition wantDataset (root subtree : string) (wanted : list string) (dataset : string) : list string :=
  if negb (dataset =? root)%string && negb (bool_decide (dataset ∈ wanted)) && ((subtree =? "")%string || negb (inside dataset subtree))
  then wanted ++ [dataset] else wanted.
Definition wantedDatasets (root : string) (datasets : list string) (subtree : string) : list string :=
  fold_left (wantDataset root subtree) datasets []
  ++ (if negb (subtree =? "")%string && negb (subtree =? root)%string then [subtree] else []).

Definition readMember (subtree : string) (inventory : list Dataset) (state : State) (dataset : string) : prog (result State) :=
  if negb (existsb (λ d, (ds_Name d =? dataset)%string) inventory) then Ret (Ok state)
  else member ⇐? call (InspectState dataset (dataset =? subtree)%string); Ret (Ok (MergeStates [state; member])).

Definition proofScope (s : Service) (root : string) (datasets : list string) (subtree : string) : prog (result State) :=
  state ⇐? call (InspectState root (root =? subtree)%string);
  match wantedDatasets root datasets subtree with
  | [] => Ret (Ok state)
  | wanted =>
    if negb (sv_reference s) then Ret (Err unavailable)
    else
      inventory ⇐? call ListDatasets;
      forE (readMember subtree inventory) state (SortStrings wanted)
  end.

Definition proofUnchanged (s : Service) (root : string) (datasets : list string) (subtree : string) (expected : State) : prog (result unit) :=
  current ⇐? proofScope s root datasets subtree;
  Ret (if decide (expected = current) then Ok tt else Err ErrStateChanged).

Definition referenceState (s : Service) (dataset : string) (r : Reference) : prog (result (State * string * list ReferenceSource)) :=
  _ ⇐! ValidateDataset dataset;
  state ⇐? proofScope s dataset [rf_Dataset r] (subtree r);
  _ ⇐! scopeReady state dataset;
  lineage ⇐! RootAuthority state dataset (sv_installation s);
  refs ⇐! referenceRecords state dataset lineage;
  if negb (bool_decide (r ∈ refs)) then Ret (Err (Errorf "reference proof is missing or changed"))
  else sources ⇐! Sources r state; Ret (Ok (state, lineage, sources)).

(** * Protect *)

Definition datasetOf (snapshot : string) : string := (Cut snapshot "@").1.1.

(** What the loop over the source snapshots has found; [None] is no instant yet. *)
Record protectState := mkProtect { ps_instant : option Metadata; ps_recursive : bool; ps_own : bool; ps_seen : gset string }.

Definition protectSource (state : State) (stream lineage : string) (st : protectState) (snapshot : string) : result protectState :=
  if bool_decide (snapshot ∈ ps_seen st) then Err (Errorf "duplicate source snapshot") else
  let dataset := datasetOf snapshot in
  if negb (inside dataset stream) then Err (Errorf ("source snapshot " +:+ snapshot +:+ " is outside stream " +:+ stream)) else
  found ← findOwned state dataset snapshot lineage;
  if match ps_instant st with Some instant => negb (bool_decide (found.2 = instant)) | None => false end
  then Err (Errorf ("source snapshot " +:+ snapshot +:+ " is not of the stream's instant"))
  else Ok (mkProtect (Some (default found.2 (ps_instant st))) (ps_recursive st || negb (dataset =? stream)%string)
             (ps_own st || (dataset =? stream)%string) ({[snapshot]} ∪ ps_seen st)).

(** The loop over the stored proofs. *)
Definition priorProof (st : Reference * bool) (prior : Reference) : result (Reference * bool) :=
  let '(r, _) := st in
  if negb (property prior =? property r)%string then Ok st
  else if negb (bool_decide (prior = r))
          && (negb (bool_decide (rf_Metadata prior = rf_Metadata r)) || negb (rf_Dataset prior =? rf_Dataset r)%string || negb (rf_Recursive prior))
  then Err (Errorf "conflicting reference proof")
  else Ok (prior, true).

(** The checks of [ProtectSet] on what it read: the proof to have, whether it is
    stored, and the snapshots without its hold. *)
Definition protectPlan (s : Service) (dataset stream : string) (snapshots : list string) (target : string) (state : State)
  : result (Reference * bool * list string) :=
  _ ← scopeReady state dataset;
  lineage ← RootAuthority state dataset (sv_installation s);
  found ← foldM (protectSource state stream lineage) (mkProtect None false false ∅) snapshots;
  if negb (ps_own found) then Err (Errorf "stream snapshot must be among its sources") else
  refs ← referenceRecords state dataset lineage;
  st ← foldM priorProof (mkReference (TargetID target) stream (default emptyMetadata (ps_instant found)) (ps_recursive found), false) refs;
  let '(r, exists_) := st in
  if negb exists_ && existsb (λ snapshot, heldBy state snapshot (hold r)) snapshots
  then Err (Errorf "unproven existing target hold")
  else Ok (r, exists_, filter (λ snapshot, heldBy state snapshot (hold r) = false) snapshots).

Definition storeProof (dataset stream : string) (r : Reference) : prog (result unit) :=
  value ⇐! encodeReference r dataset;
  if MaxUserPropertyValue <? Z.of_nat (String.length value)
  then Ret (Err (Errorf ("recovery proof for stream " +:+ stream +:+ " needs " +:+ Itoa (Z.of_nat (String.length value))
                         +:+ " bytes, over the ZFS property limit of " +:+ Itoa MaxUserPropertyValue)))
  else call (SetProperties dataset {[property r := value]}).

Definition ProtectSet (s : Service) (dataset stream : string) (snapshots : list string) (target : string) : prog (result Reference) :=
  locked Err dataset (
    if negb (sv_reference s) then Ret (Err unavailable) else
    _ ⇐! ValidateDataset dataset;
    if (TrimSpace target =? "")%string || ContainsAny target (String "000" (String "013" (String "010" "")))
    then Ret (Err (Errorf "canonical non-secret target identity required"))
    else if (length snapshots =? 0)%nat then Ret (Err (Errorf "at least one source snapshot is required"))
    else
      _ ⇐! ValidateDataset stream;
      if negb (inside stream dataset) then Ret (Err (Errorf ("stream " +:+ stream +:+ " is outside root " +:+ dataset))) else
      let datasets := datasetOf <$> snapshots in
      state ⇐? proofScope s dataset datasets "";
      plan ⇐! protectPlan s dataset stream snapshots target state;
      let '(r, exists_, unheld) := plan in
      if exists_ && (length unheld =? 0)%nat then Ret (Ok r) else
      _ ⇐? proofUnchanged s dataset datasets "" state;
      _ ⇐? (if exists_ then Ret (Ok tt) else storeProof dataset stream r);
      _ ⇐? forE (λ _ snapshot, call (HoldSnapshot (hold r) snapshot)) tt unheld;
      Ret (Ok r)).

Definition Protect (s : Service) (dataset snapshot target : string) : prog (result Reference) :=
  ProtectSet s dataset (datasetOf snapshot) [snapshot] target.

(** * Checkpoint *)

Definition checkpointSource (state : State) (lineage : string) (r : Reference) (verifiedGUIDs : gmap string Z)
    (missing : list ReferenceSource) (source : ReferenceSource) : result (list ReferenceSource) :=
  let name := sourceSnapshot r source in
  let mismatch := Err (Errorf ("destination snapshot GUID does not match source: " +:+ name)) in
  let verified := verifiedGUIDs !! name in
  if match verified with Some guid => negb (guid =? sr_GUID source) | None => false end then mismatch
  else if hasObject state (sourceBookmark r source) then Ok missing
  else if default 0 verified =? 0 then mismatch
  else
    found ← findOwned state (sr_Dataset source) name lineage;
    if negb (sn_GUID found.1 =? sr_GUID source) || negb (bool_decide (found.2 = rf_Metadata r)) || negb (bool_decide (hold r ∈ sn_Holds found.1))
    then Err (Errorf "source GUID or protecting hold changed")
    else Ok (missing ++ [source]).

(** Which of several unprotected snapshots the error names depends on the order
    Go iterates the map in. *)
Definition checkpointPlan (state : State) (lineage : string) (sources : list ReferenceSource) (r : Reference) (verifiedGUIDs : gmap string Z)
  : result (list ReferenceSource) :=
  if negb (match sources with source :: _ => (sr_Dataset source =? rf_Dataset r)%string | [] => false end)
  then Err (Errorf ("stream snapshot is not protected: " +:+ snapshot r))
  else match List.find (λ kv : string * Z, negb (existsb (λ source, (sourceSnapshot r source =? kv.1)%string) sources)) (map_to_list verifiedGUIDs) with
       | Some kv => Err (Errorf ("reference proof does not protect " +:+ kv.1))
       | None => foldM (checkpointSource state lineage r verifiedGUIDs) [] sources
       end.

Definition CheckpointSet (s : Service) (dataset : string) (r : Reference) (verifiedGUIDs : gmap string Z) : prog (result unit) :=
  locked Err dataset (
    if negb (sv_reference s) then Ret (Err unavailable) else
    '(state, lineage, sources) ⇐? referenceState s dataset r;
    missing ⇐! checkpointPlan state lineage sources r verifiedGUIDs;
    if (length missing =? 0)%nat then Ret (Ok tt) else
    _ ⇐? proofUnchanged s dataset [rf_Dataset r] (subtree r) state;
    forE (λ _ source, call (CreateBookmark (sourceSnapshot r source) (sourceBookmark r source))) tt missing).

Definition Checkpoint (s : Service) (dataset : string) (r : Reference) (verifiedGUID : Z) : prog (result unit) :=
  CheckpointSet s dataset r {[snapshot r := verifiedGUID]}.

(** * Release *)

Record sourceState := mkSourceState { ss_source : ReferenceSource; ss_hasBookmark : bool; ss_hasHold : bool }.

Definition releaseSource (state : State) (lineage : string) (r : Reference) (found : list sourceState) (source : ReferenceSource)
  : result (list sourceState) :=
  let hasHold := heldBy state (sourceSnapshot r source) (hold r) in
  if hasHold && match findOwned state (sr_Dataset source) (sourceSnapshot r source) lineage with
                | Ok (owned, metadata) => negb (sn_GUID owned =? sr_GUID source) || negb (bool_decide (metadata = rf_Metadata r))
                | Err _ => true
                end
  then Err (Errorf "held snapshot ownership changed")
  else Ok (found ++ [mkSourceState source (hasObject state (sourceBookmark r source)) hasHold]).

Definition releaseItem (r : Reference) (_ : unit) (item : sourceState) : prog (result unit) :=
  _ ⇐? (if ss_hasBookmark item then call (DestroyBookmark (sourceBookmark r (ss_source item))) else Ret (Ok tt));
  if ss_hasHold item then call (ReleaseHold (hold r) (sourceSnapshot r (ss_source item))) else Ret (Ok tt).

Definition ReleaseReference (s : Service) (dataset : string) (r : Reference) : prog (result unit) :=
  locked Err dataset (
    if negb (sv_reference s) then Ret (Err unavailable) else
    '(state, lineage, sources) ⇐? referenceState s dataset r;
    found ⇐! foldM (releaseSource state lineage r) [] sources;
    _ ⇐? proofUnchanged s dataset [rf_Dataset r] (subtree r) state;
    _ ⇐? forE (releaseItem r) tt found;
    call (InheritProperty dataset (property r))).

Definition completedSource (state : State) (lineage : string) (r : Reference) (held : list ReferenceSource) (source : ReferenceSource)
  : result (list ReferenceSource) :=
  if negb (heldBy state (sourceSnapshot r source) (hold r)) then Ok held
  else if match findOwned state (sr_Dataset source) (sourceSnapshot r source) lineage with
          | Ok (owned, metadata) => negb (sn_GUID owned =? sr_GUID source) || negb (bool_decide (metadata = rf_Metadata r))
          | Err _ => true
          end
  then Err (Errorf "held snapshot proof changed")
  else if negb (hasObject state (sourceBookmark r source)) then Err (Errorf "verified checkpoint is missing")
  else Ok (held ++ [source]).

Definition ReleaseCompletedHold (s : Service) (dataset : string) (r : Reference) : prog (result unit) :=
  locked Err dataset (
    if negb (sv_reference s) then Ret (Err unavailable) else
    '(state, lineage, sources) ⇐? referenceState s dataset r;
    held ⇐! foldM (completedSource state lineage r) [] sources;
    if (length held =? 0)%nat then Ret (Ok tt) else
    _ ⇐? proofUnchanged s dataset [rf_Dataset r] (subtree r) state;
    forE (λ _ source, call (ReleaseHold (hold r) (sourceSnapshot r source))) tt held).

(** * What a proof's writes rest on *)

(** The history ends with a read of the scope of a proof that gave [state]. *)
Definition scopeRead (s : Service) (root : string) (datasets : list string) (subtree : string) (state : State) (pre : list event) : Prop :=
  ∃ pre0 tr, pre = pre0 ++ tr ∧ runs (proofScope s root datasets subtree) tr (Ok state).

(** It ends with two such reads, one right after the other, that gave the same. *)
Definition scopeReread (s : Service) (root : string) (datasets : list string) (subtree : string) (state : State) (pre : list event) : Prop :=
  ∃ pre0 tr1 tr2, pre = pre0 ++ tr1 ++ tr2 ∧
    runs (proofScope s root datasets subtree) tr1 (Ok state) ∧ runs (proofScope s root datasets subtree) tr2 (Ok state).

Lemma scopeReread_read s root datasets subtree state pre : scopeReread s root datasets subtree state pre → scopeRead s root datasets subtree state pre.
Proof. intros (pre0 & tr1 & tr2 & -> & _ & H). exists (pre0 ++ tr1), tr2. by rewrite app_assoc. Qed.

(** The same, followed only by events of the given kind. *)
Definition readThen (Q : event → Prop) (s : Service) (root : string) (datasets : list string) (subtree : string) (state : State) (pre : list event) : Prop :=
  ∃ pre1 pre2, pre = pre1 ++ pre2 ∧ scopeReread s root datasets subtree state pre1 ∧ Forall Q pre2.

Lemma readThen_start Q s root datasets subtree state pre : scopeReread s root datasets subtree state pre → readThen Q s root datasets subtree state pre.
Proof. intros H. exists pre, []. rewrite app_nil_r. split_and!; [done|done|constructor]. Qed.
Lemma readThen_snoc (Q : event → Prop) s root datasets subtree state pre e :
  readThen Q s root datasets subtree state pre → Q e → readThen Q s root datasets subtree state (pre ++ [e]).
Proof. intros (p1 & p2 & -> & H1 & H2) He. exists p1, (p2 ++ [e]). rewrite app_assoc. split_and!; [done|done|]. apply Forall_app. by repeat constructor. Qed.

Lemma readMember_readonly sub inventory state dataset : readonly (readMember sub inventory state dataset).
Proof. unfold readMember. case_match; [done|]. by apply readonly_bindE. Qed.
Lemma proofScope_readonly s root datasets sub : readonly (proofScope s root datasets sub).
Proof.
  unfold proofScope. apply readonly_bindE; [done|]. intros state. case_match; [done|]. case_match; [done|].
  apply readonly_bindE; [done|]. intros inventory. apply readonly_forE. apply readMember_readonly.
Qed.

Section Reads.
Context (P : list event → ∀ R, op R → Prop) (HP : ∀ pre R (o : op R), mutates o = false → P pre R o).

Lemma proofScope_always s root datasets sub pre :
  always P pre (proofScope s root datasets sub) (λ tr r, match r with Ok state => scopeRead s root datasets sub state tr | Err _ => True end).
Proof.
  eapply always_mono; [|by apply always_readonly, proofScope_readonly]. intros tr [state|e] (tr' & -> & H); [|done]. by exists pre, tr'.
Qed.

Lemma proofUnchanged_always s root datasets sub expected pre : scopeRead s root datasets sub expected pre →
  always P pre (proofUnchanged s root datasets sub expected)
    (λ tr r, match r with Ok _ => scopeReread s root datasets sub expected tr | Err _ => True end).
Proof.
  intros (pre0 & tr0 & -> & H0). unfold proofUnchanged. apply always_bindE.
  eapply always_mono; [|by apply always_readonly, proofScope_readonly]. intros tr [state|e] (tr' & -> & H); [|done].
  cbn. case_decide; [subst|done]. exists pre0, tr0, tr'. by rewrite <- app_assoc.
Qed.

Lemma referenceState_always s dataset r pre :
  always P pre (referenceState s dataset r) (λ tr res, match res with
    | Ok (state, lineage, sources) => authorized state dataset (sv_installation s) lineage ∧
        (∃ refs, referenceRecords state dataset lineage = Ok refs ∧ r ∈ refs) ∧ Sources r state = Ok sources ∧
        scopeRead s dataset [rf_Dataset r] (subtree r) state tr
    | Err _ => True end).
Proof.
  unfold referenceState. apply always_bindR. destruct (ValidateDataset dataset); [|done]. apply always_bindE.
  eapply always_mono; [|apply proofScope_always]. intros tr [state|e]; [|done]. intros Hread.
  apply always_bindR. destruct (scopeReady state dataset); [|done]. apply always_bindR.
  destruct (RootAuthority state dataset (sv_installation s)) as [lineage|] eqn:Ha; [|done]. apply always_bindR.
  destruct (referenceRecords state dataset lineage) as [refs|] eqn:Hr; [|done]. case_bool_decide; cbn [negb]; [|done]. apply always_bindR.
  destruct (Sources r state) eqn:Hs; [|done]. cbn. split_and!; [by apply RootAuthority_Ok|by exists refs|done|done].
Qed.
End Reads.

Lemma findOwned_Ok state dataset name lineage sn m :
  findOwned state dataset name lineage = Ok (sn, m) → sn ∈ snapshotsIn state dataset ∧ sn_Name sn = name ∧ Owned sn lineage m.
Proof.
  unfold findOwned. destruct (List.find _ _) as [s|] eqn:E; [|done]. intros H. apply bind_Ok in H as (m' & Ho & [= <- <-]).
  apply List.find_some in E as [Hin Hn]. apply eqb_str_true in Hn. split_and!; [by apply list_elem_of_In|done|by apply Ownership_Ok].
Qed.

(** A proof is stored, unchanged, under this installation's authority. *)
Definition proven (s : Service) (dataset : string) (r : Reference) (state : State) (lineage : string) : Prop :=
  authorized state dataset (sv_installation s) lineage ∧ ∃ refs, referenceRecords state dataset lineage = Ok refs ∧ r ∈ refs.

(** The source's snapshot is present, owned at the proof's instant and of the
    source's GUID. *)
Definition sourceOwned (state : State) (lineage : string) (r : Reference) (source : ReferenceSource) (sn : Snapshot) : Prop :=
  sn ∈ snapshotsIn state (sr_Dataset source) ∧ sn_Name sn = sourceSnapshot r source ∧ sn_GUID sn = sr_GUID source ∧
  Owned sn lineage (rf_Metadata r).

(** * Checkpoints follow verification *)

Definition checkpointable (state : State) (lineage : string) (r : Reference) (verified : gmap string Z) (source : ReferenceSource) : Prop :=
  verified !! sourceSnapshot r source = Some (sr_GUID source) ∧ sr_GUID source ≠ 0 ∧
  hasObject state (sourceBookmark r source) = false ∧
  ∃ sn, sourceOwned state lineage r source sn ∧ hold r ∈ sn_Holds sn.

Lemma checkpointSource_Ok state lineage r verified missing source missing' :
  checkpointSource state lineage r verified missing source = Ok missing' →
  Forall (checkpointable state lineage r verified) missing → Forall (checkpointable state lineage r verified) missing'.
Proof.
  unfold checkpointSource. intros H Hm. case_match eqn:Hv; [done|]. destruct (hasObject _ _) eqn:Ho; [by injection H as <-|].
  destruct (verified !! sourceSnapshot r source) as [guid|] eqn:Eg; cbn [default from_option id] in H; [|done].
  apply negb_false_iff, Z.eqb_eq in Hv as ->. destruct (Z.eqb_spec (sr_GUID source) 0) as [|Hz]; [done|].
  apply bind_Ok in H as ([sn m] & Hf & H). cbn [fst snd] in H. destruct (Z.eqb_spec (sn_GUID sn) (sr_GUID source)); cbn [negb orb] in H; [|done].
  do 2 (case_bool_decide; cbn [negb orb] in H; [|done]). injection H as <-. apply Forall_app. split; [done|]. repeat constructor; [done..|].
  apply findOwned_Ok in Hf as (? & ? & ?). subst m. by exists sn.
Qed.

Definition checkpointGuard (s : Service) (dataset : string) (r : Reference) (verified : gmap string Z) (pre : list event) (R : Type) (o : op R) : Prop :=
  match o with
  | CreateBookmark snap mark => ∃ state lineage source, snap = sourceSnapshot r source ∧ mark = sourceBookmark r source ∧
      readThen (λ e, ∃ a b, e = Event (CreateBookmark a b) (Ok tt)) s dataset [rf_Dataset r] (subtree r) state pre ∧
      proven s dataset r state lineage ∧ checkpointable state lineage r verified source
  | _ => mutates o = false
  end.

Lemma CheckpointSet_always s dataset r verified pre :
  always (checkpointGuard s dataset r verified) pre (CheckpointSet s dataset r verified) (λ _ _, True).
Proof.
  apply always_locked; [done..|]. intros tr. destruct (negb _); [done|]. apply always_bindE.
  eapply always_mono; [|apply referenceState_always; by intros ? ? []]. intros tr1 [[[state lineage] sources]|e]; [|done]. intros (Ha & Hr & _ & Hfirst).
  apply always_bindR. destruct (checkpointPlan _ _ _ _ _) as [missing|] eqn:Hp; [|done]. destruct (length missing =? 0)%nat; [done|].
  assert (Forall (checkpointable state lineage r verified) missing) as Hm.
  { unfold checkpointPlan in Hp. destruct (negb _); [done|]. destruct (List.find _ _); [done|].
    refine (foldM_inv (λ m, Forall _ m) _ _ _ _ _ _ Hp); [|constructor]. intros m x m' _ Hm Hx. by eapply checkpointSource_Ok. }
  apply always_bindE. eapply always_mono; [|apply proofUnchanged_always; [by intros ? ? []|exact Hfirst]]. intros tr2 [[]|e]; [|done]. intros Hread.
  apply (always_forE _ _ (λ _ tr _, readThen (λ e, ∃ a b, e = Event (CreateBookmark a b) (Ok tt)) s dataset [rf_Dataset r] (subtree r) state tr));
    [|done|by apply readThen_start].
  intros source dn rest tr3 [] -> Ht. apply always_call.
  - exists state, lineage, source. apply Forall_app in Hm as [_ Hm]. apply Forall_cons in Hm as [Hm _]. by split_and!.
  - intros [[]|e]; [|done]. apply readThen_snoc; [done|]. by eexists _, _.
Qed.

(** A checkpoint bookmark is created only for a source whose destination
    GUID was verified to equal the source's, whose snapshot is owned at the
    proof's instant and carries the proof's hold, while the proof is stored under
    this installation's authority; all of it read again, unchanged, with nothing
    but other checkpoints of the call made since. Checkpointing changes nothing
    else. *)
Theorem CheckpointSet_safe s dataset r verified tr res t1 e t2 :
  runs (CheckpointSet s dataset r verified) tr res → tr = t1 ++ e :: t2 → eventMutates e = true →
  ∃ state lineage source answer, e = Event (CreateBookmark (sourceSnapshot r source) (sourceBookmark r source)) answer ∧
    readThen (λ e, ∃ a b, e = Event (CreateBookmark a b) (Ok tt)) s dataset [rf_Dataset r] (subtree r) state t1 ∧
    proven s dataset r state lineage ∧ checkpointable state lineage r verified source.
Proof.
  intros Hr E Hm. destruct (always_runs _ _ _ tr [] _ Hr (CheckpointSet_always s dataset r verified [])) as [_ Hj].
  specialize (Hj t1 e t2 E). rewrite app_nil_l in Hj. destruct e as [R o a]. destruct o; try discriminate Hm; try discriminate Hj; try (cbn in Hm, Hj; congruence).
  destruct Hj as (state & lineage & source & -> & -> & H). by exists state, lineage, source, a.
Qed.

(** * A proof outlives what it proves *)

Definition heldState (state : State) (r : Reference) (source : ReferenceSource) : sourceState :=
  mkSourceState source (hasObject state (sourceBookmark r source)) (heldBy state (sourceSnapshot r source) (hold r)).

(** A held source's snapshot is still the one the proof names. *)
Definition heldOwned (state : State) (lineage : string) (r : Reference) (source : ReferenceSource) : Prop :=
  heldBy state (sourceSnapshot r source) (hold r) = true → ∃ sn, sourceOwned state lineage r source sn.

Lemma ownedStill_Ok state lineage r source :
  match findOwned state (sr_Dataset source) (sourceSnapshot r source) lineage with
  | Ok (owned, metadata) => negb (sn_GUID owned =? sr_GUID source) || negb (bool_decide (metadata = rf_Metadata r))
  | Err _ => true
  end = false → ∃ sn, sourceOwned state lineage r source sn.
Proof.
  destruct (findOwned _ _ _ _) as [[sn m]|] eqn:Hf; [|done]. rewrite orb_false_iff, !negb_false_iff, Z.eqb_eq, bool_decide_eq_true.
  intros [Hg ->]. apply findOwned_Ok in Hf as (? & ? & ?). by exists sn.
Qed.

Lemma releaseSources_Ok state lineage r sources : ∀ found found',
  foldM (releaseSource state lineage r) found sources = Ok found' →
  found' = found ++ (heldState state r <$> sources) ∧ Forall (heldOwned state lineage r) sources.
Proof.
  induction sources as [|x sources IH]; intros found found'; cbn [foldM].
  { intros [= <-]. cbn. by rewrite app_nil_r. }
  intros H. apply bind_Ok in H as (found1 & Hx & H). unfold releaseSource in Hx. destruct (_ && _) eqn:Hh; [done|]. injection Hx as <-.
  apply IH in H as [-> Hf]. rewrite <- app_assoc. split; [done|]. constructor; [|done]. intros Hheld. rewrite Hheld in Hh. cbn [andb] in Hh.
  by apply ownedStill_Ok.
Qed.

Definition released (r : Reference) (item : sourceState) (pre : list event) : Prop :=
  (ss_hasBookmark item = true → Event (DestroyBookmark (sourceBookmark r (ss_source item))) (Ok tt) ∈ pre) ∧
  (ss_hasHold item = true → Event (ReleaseHold (hold r) (sourceSnapshot r (ss_source item))) (Ok tt) ∈ pre).

Definition releasing (e : event) : Prop :=
  (∃ mark, e = Event (DestroyBookmark mark) (Ok tt)) ∨ ∃ tag snap, e = Event (ReleaseHold tag snap) (Ok tt).

Definition releaseGuard (s : Service) (dataset : string) (r : Reference) (pre : list event) (R : Type) (o : op R) : Prop :=
  mutates o = true → ∃ state lineage sources,
    readThen releasing s dataset [rf_Dataset r] (subtree r) state pre ∧ proven s dataset r state lineage ∧ Sources r state = Ok sources ∧
    match o with
    | DestroyBookmark mark => ∃ source, source ∈ sources ∧ mark = sourceBookmark r source
    | ReleaseHold tag snap => ∃ source sn, source ∈ sources ∧ tag = hold r ∧ snap = sourceSnapshot r source ∧ sourceOwned state lineage r source sn
    | InheritProperty d p => d = dataset ∧ p = property r ∧ Forall (λ source, released r (heldState state r source) pre) sources
    | _ => False
    end.

Lemma releaseItem_always s dataset r state lineage sources source pre :
  proven s dataset r state lineage → Sources r state = Ok sources → source ∈ sources → heldOwned state lineage r source →
  readThen releasing s dataset [rf_Dataset r] (subtree r) state pre →
  always (releaseGuard s dataset r) pre (releaseItem r tt (heldState state r source)) (λ tr res, match res with
    | Ok _ => readThen releasing s dataset [rf_Dataset r] (subtree r) state tr ∧ released r (heldState state r source) tr ∧
              ∀ e, e ∈ pre → e ∈ tr
    | Err _ => True end).
Proof.
  intros Hp Hs Hin Hown Hread. unfold releaseItem. apply always_bindE.
  eapply (always_mono _ _ _ (λ tr res, match res with
    | Ok _ => readThen releasing s dataset [rf_Dataset r] (subtree r) state tr ∧
        (ss_hasBookmark (heldState state r source) = true → Event (DestroyBookmark (sourceBookmark r source)) (Ok tt) ∈ tr) ∧ ∀ e, e ∈ pre → e ∈ tr
    | Err _ => True end)).
  2: { cbn [ss_hasBookmark heldState]. destruct (hasObject _ _); [|by cbn]. apply always_call; [intros _; exists state, lineage, sources; split_and!; eauto|].
       intros [[]|e]; [|done]. split_and!; [apply readThen_snoc; [done|left; eauto]|intros _; set_solver|set_solver]. }
  intros tr [[]|e]; [|done]. intros (H1 & H2 & H3). unfold released. cbn [ss_hasHold heldState] in *.
  destruct (heldBy _ _ _) eqn:Hh; [|by cbn]. destruct (Hown Hh) as [sn Hsn].
  apply always_call; [intros _; exists state, lineage, sources; split_and!; try done; by exists source, sn|].
  intros [[]|e]; [|done]. split_and!; [apply readThen_snoc; [done|right; eauto]|intros Hb; specialize (H2 Hb); set_solver|intros _; set_solver|set_solver].
Qed.

Lemma released_mono r item pre tr : (∀ e, e ∈ pre → e ∈ tr) → released r item pre → released r item tr.
Proof. intros H [H1 H2]. split; auto. Qed.

Lemma ReleaseReference_always s dataset r pre :
  always (releaseGuard s dataset r) pre (ReleaseReference s dataset r) (λ _ _, True).
Proof.
  apply always_locked; [done..|]. intros tr. destruct (negb _); [done|]. apply always_bindE.
  eapply always_mono; [|apply referenceState_always; intros ? R o Ho; unfold releaseGuard; by rewrite Ho].
  intros tr1 [[[state lineage] sources]|e]; [|done]. intros (Ha & Hr & Hs & Hfirst).
  apply always_bindR. destruct (foldM _ _ _) as [found|] eqn:Hf; [|done]. apply releaseSources_Ok in Hf as [-> Hown]. rewrite app_nil_l.
  apply always_bindE. eapply always_mono; [|apply proofUnchanged_always; [intros ? R o Ho; unfold releaseGuard; by rewrite Ho|exact Hfirst]].
  intros tr2 [[]|e]; [|done]. intros Hread. apply always_bindE.
  apply (always_forE _ _ (λ dn tr _, readThen releasing s dataset [rf_Dataset r] (subtree r) state tr ∧ Forall (λ item, released r item tr) dn)).
  - intros item dn rest tr3 [] E [Ht Hd].
    assert (∃ source, source ∈ sources ∧ item = heldState state r source) as (source & Hin & ->).
    { assert (item ∈ heldState state r <$> sources) as H by (rewrite E; set_solver). apply list_elem_of_fmap in H as (source & -> & ?). eauto. }
    eapply always_mono; [|apply (releaseItem_always s dataset r state lineage sources); try done; by rewrite Forall_forall in Hown; apply Hown].
    intros tr4 [[]|e]; [|done]. intros (H1 & H2 & H3). split; [done|]. apply Forall_app. split; [|by apply Forall_singleton].
    eapply Forall_impl; [exact Hd|]. intros item. by apply released_mono.
  - intros tr3 [] [Ht Hd]. apply always_call; [|done]. intros _. exists state, lineage, sources.
    split_and!; [done..|]. by rewrite Forall_fmap in Hd.
  - split; [by apply readThen_start|constructor].
Qed.

(** C11: releasing a proof removes it last. A bookmark is destroyed or a hold
    released only for a source of a proof stored under this installation's
    authority, a hold only from the snapshot the proof names, all read twice in a
    row and found the same, with nothing since but the call's own removals; and the proof's own property is
    removed only after every checkpoint and every hold found for it was removed
    successfully, so neither is ever left without the proof that explains it. *)
Theorem ReleaseReference_safe s dataset r tr res t1 e t2 :
  runs (ReleaseReference s dataset r) tr res → tr = t1 ++ e :: t2 → eventMutates e = true →
  ∃ state lineage sources,
    readThen releasing s dataset [rf_Dataset r] (subtree r) state t1 ∧ proven s dataset r state lineage ∧ Sources r state = Ok sources ∧
    match e with
    | Event (DestroyBookmark mark) _ => ∃ source, source ∈ sources ∧ mark = sourceBookmark r source
    | Event (ReleaseHold tag snap) _ =>
        ∃ source sn, source ∈ sources ∧ tag = hold r ∧ snap = sourceSnapshot r source ∧ sourceOwned state lineage r source sn
    | Event (InheritProperty d p) _ => d = dataset ∧ p = property r ∧ Forall (λ source, released r (heldState state r source) t1) sources
    | _ => False
    end.
Proof.
  intros Hr E Hm. destruct (always_runs _ _ _ tr [] _ Hr (ReleaseReference_always s dataset r [])) as [_ Hj].
  specialize (Hj t1 e t2 E). rewrite app_nil_l in Hj. destruct e as [R o a]. specialize (Hj Hm). destruct o; exact Hj.
Qed.

(** * Completed holds *)

Lemma completedSource_Ok state lineage r sources : ∀ held held',
  foldM (completedSource state lineage r) held sources = Ok held' →
  Forall (λ source, (∃ sn, sourceOwned state lineage r source sn) ∧ hasObject state (sourceBookmark r source) = true) held →
  Forall (λ source, (∃ sn, sourceOwned state lineage r source sn) ∧ hasObject state (sourceBookmark r source) = true) held'.
Proof.
  induction sources as [|x sources IH]; intros held held'; cbn [foldM]; [by intros [= <-]|].
  intros H. apply bind_Ok in H as (held1 & Hx & H). intros Hh. apply (IH _ _ H). clear H IH. unfold completedSource in Hx.
  destruct (negb _); [by injection Hx as <-|]. match type of Hx with (if ?b then _ else _) = _ => destruct b eqn:Hf; [discriminate Hx|] end.
  destruct (hasObject _ _) eqn:Ho; cbn [negb] in Hx; [|done]. injection Hx as <-. apply Forall_app. split; [done|]. apply Forall_singleton.
  split; [by apply ownedStill_Ok|done].
Qed.

Definition completedGuard (s : Service) (dataset : string) (r : Reference) (pre : list event) (R : Type) (o : op R) : Prop :=
  match o with
  | ReleaseHold tag snap => ∃ state lineage source sn,
      readThen releasing s dataset [rf_Dataset r] (subtree r) state pre ∧ proven s dataset r state lineage ∧
      tag = hold r ∧ snap = sourceSnapshot r source ∧ sourceOwned state lineage r source sn ∧ hasObject state (sourceBookmark r source) = true
  | _ => mutates o = false
  end.

Lemma ReleaseCompletedHold_always s dataset r pre :
  always (completedGuard s dataset r) pre (ReleaseCompletedHold s dataset r) (λ _ _, True).
Proof.
  apply always_locked; [done..|]. intros tr. destruct (negb _); [done|]. apply always_bindE.
  eapply always_mono; [|apply referenceState_always; by intros ? ? []]. intros tr1 [[[state lineage] sources]|e]; [|done]. intros (Ha & Hr & _ & Hfirst).
  apply always_bindR. destruct (foldM _ _ _) as [held|] eqn:Hf; [|done]. apply completedSource_Ok in Hf; [|constructor].
  destruct (length held =? 0)%nat; [done|]. apply always_bindE.
  eapply always_mono; [|apply proofUnchanged_always; [by intros ? ? []|exact Hfirst]]. intros tr2 [[]|e]; [|done]. intros Hread.
  apply (always_forE _ _ (λ _ tr _, readThen releasing s dataset [rf_Dataset r] (subtree r) state tr)); [|done|by apply readThen_start].
  intros source dn rest tr3 [] -> Ht. apply Forall_app in Hf as [_ Hf]. apply Forall_cons in Hf as [[[sn Hsn] Ho] _].
  apply always_call; [exists state, lineage, source, sn; by split_and!|]. intros [[]|e]; [|done]. apply readThen_snoc; [done|]. right. eauto.
Qed.

(** After a verified transfer a hold is released only from the snapshot the
    stored proof names and only while that source's checkpoint bookmark exists,
    read again unchanged; so a source never loses its hold and its checkpoint
    both. Nothing else is changed. *)
Theorem ReleaseCompletedHold_safe s dataset r tr res t1 e t2 :
  runs (ReleaseCompletedHold s dataset r) tr res → tr = t1 ++ e :: t2 → eventMutates e = true →
  ∃ state lineage source sn answer, e = Event (ReleaseHold (hold r) (sourceSnapshot r source)) answer ∧
    readThen releasing s dataset [rf_Dataset r] (subtree r) state t1 ∧ proven s dataset r state lineage ∧
    sourceOwned state lineage r source sn ∧ hasObject state (sourceBookmark r source) = true.
Proof.
  intros Hr E Hm. destruct (always_runs _ _ _ tr [] _ Hr (ReleaseCompletedHold_always s dataset r [])) as [_ Hj].
  specialize (Hj t1 e t2 E). rewrite app_nil_l in Hj. destruct e as [R o a]. destruct o; try discriminate Hm; try discriminate Hj; try (cbn in Hm, Hj; congruence).
  destruct Hj as (state & lineage & source & sn & H1 & H2 & -> & -> & H3). by exists state, lineage, source, sn, a.
Qed.

(** * A hold is backed by a proof *)

(** The snapshots are owned, inside the stream and of one instant. *)
Definition instantOf (state : State) (stream lineage : string) (m : Metadata) (snap : string) : Prop :=
  inside (datasetOf snap) stream = true ∧ ∃ sn, sn ∈ snapshotsIn state (datasetOf snap) ∧ sn_Name sn = snap ∧ Owned sn lineage m.

Lemma protectSources_Ok state stream lineage snapshots : ∀ st st',
  foldM (protectSource state stream lineage) st snapshots = Ok st' →
  (∀ m, ps_instant st = Some m → ps_instant st' = Some m) ∧
  Forall (instantOf state stream lineage (default emptyMetadata (ps_instant st'))) snapshots.
Proof.
  induction snapshots as [|x snapshots IH]; intros st st'; cbn [foldM]; [by intros [= <-]|].
  intros H. apply bind_Ok in H as (st1 & Hx & H). destruct (IH _ _ H) as [H1 H2]. clear IH H. unfold protectSource in Hx.
  case_bool_decide; [done|]. destruct (inside _ _) eqn:Hin; cbn [negb] in Hx; [|done]. apply bind_Ok in Hx as ([sn m0] & Hf & Hx). cbn [fst snd] in Hx.
  apply findOwned_Ok in Hf as (Hs & Hn & Ho).
  assert (ps_instant st1 = Some m0 ∧ ∀ m, ps_instant st = Some m → m = m0) as [E1 E2].
  { destruct (ps_instant st) as [m1|]; [case_bool_decide as E; cbn [negb] in Hx; [|done]|]; injection Hx as <-; cbn; split; naive_solver. }
  rewrite (H1 _ E1) in *. split; [intros m E; by rewrite (E2 _ E)|]. constructor; [|done]. split; [done|]. by exists sn.
Qed.

Lemma app_inj_left s t u : s +:+ u = t +:+ u → s = t.
Proof. intros E. apply (f_equal bytes_of) in E. rewrite !bytes_of_app in E. apply app_inv_tail in E. by apply bytes_of_inj. Qed.

Lemma property_target r r' :
  property r = property r' → rf_Metadata r = rf_Metadata r' → rf_Dataset r = rf_Dataset r' → rf_TargetID r = rf_TargetID r'.
Proof. unfold property. intros E Em Ed. rewrite Em, Ed in E. apply app_inj_str in E. by apply app_inj_left in E. Qed.

(** The proof a call asks for, or a recursive one that covers it. *)
Definition requested (target stream : string) (m : Metadata) (r : Reference) : Prop :=
  rf_TargetID r = TargetID target ∧ rf_Dataset r = stream ∧ rf_Metadata r = m.

Lemma priorProofs_Ok target stream m refs : ∀ st st',
  foldM priorProof st refs = Ok st' → requested target stream m st.1 →
  requested target stream m st'.1 ∧ property st'.1 = property st.1 ∧
  (if st'.2 then st'.1 ∈ refs ∨ st' = st else st' = st ∧ ∀ prior, prior ∈ refs → property prior ≠ property st.1).
Proof.
  induction refs as [|x refs IH]; intros [r b] st'; cbn [foldM].
  { intros [= <-] Hr. cbn. split_and!; [done..|]. destruct b; [by right|]. split; [done|]. by intros ? ?%elem_of_nil. }
  intros H Hr. apply bind_Ok in H as ([r1 b1] & Hx & H). unfold priorProof in Hx. cbn [fst snd] in *.
  destruct (String.eqb_spec (property x) (property r)) as [Ep|Ep]; cbn [negb] in Hx.
  - match type of Hx with (if ?c then _ else _) = _ => destruct c eqn:Hc; [discriminate Hx|] end.
    assert (r1 = x ∧ b1 = true) as [-> ->] by (split; congruence).
    assert (requested target stream m x) as Hrx.
    { destruct (decide (x = r)) as [->|Hne]; [done|]. rewrite bool_decide_eq_false_2 in Hc by done. cbn [negb andb] in Hc.
      rewrite !orb_false_iff, !negb_false_iff, bool_decide_eq_true, eqb_str_true in Hc. destruct Hc as [[Hm Hd] _].
      destruct Hr as (H1 & H2 & H3). split_and!; [|congruence..]. rewrite <- H1. by apply property_target. }
    destruct (IH (x, true) st' H Hrx) as (H1 & H2 & H3). split_and!; [done|cbn in H2; congruence|].
    destruct (st'.2) eqn:E; [left; apply elem_of_cons|]; [destruct H3 as [?| ->]; [by right|by left]|]. destruct H3 as [-> _]. done.
  - assert (r1 = r ∧ b1 = b) as [-> ->] by (split; congruence). destruct (IH (r, b) st' H Hr) as (H1 & H2 & H3). split_and!; [done..|].
    destruct (st'.2); [destruct H3; [left; by apply elem_of_cons; right|by right]|]. destruct H3 as [-> H3]. split; [done|].
    intros prior [->|Hp]%elem_of_cons; [done|by apply H3].
Qed.

Lemma protectPlan_Ok s dataset stream snapshots target state r exists_ unheld :
  protectPlan s dataset stream snapshots target state = Ok (r, exists_, unheld) →
  ∃ lineage refs m, authorized state dataset (sv_installation s) lineage ∧ referenceRecords state dataset lineage = Ok refs ∧
    requested target stream m r ∧ Forall (instantOf state stream lineage m) snapshots ∧
    (if exists_ then r ∈ refs else ∀ prior, prior ∈ refs → property prior ≠ property r) ∧
    unheld = filter (λ snap, heldBy state snap (hold r) = false) snapshots.
Proof.
  unfold protectPlan. intros H. apply bind_Ok in H as ([] & _ & H). apply bind_Ok in H as (lineage & Ha & H).
  apply bind_Ok in H as (found & Hf & H). destruct (ps_own found) eqn:Hown; cbn [negb] in H; [|done].
  apply bind_Ok in H as (refs & Hr & H). apply bind_Ok in H as ([r' b] & Hp & H).
  match type of H with (if ?c then _ else _) = _ => destruct c; [discriminate H|] end.
  injection H as -> -> <-.
  apply (priorProofs_Ok target stream (default emptyMetadata (ps_instant found))) in Hp as (H1 & H2 & H3); [|by split_and!]. cbn [fst snd] in *.
  exists lineage, refs, (default emptyMetadata (ps_instant found)). split_and!; [by apply RootAuthority_Ok|done|done| |..].
  - by apply protectSources_Ok in Hf as [_ ?].
  - destruct exists_; [|by destruct H3 as [[= <-] ?]]. destruct H3 as [?|[=]]; done.
  - done.
Qed.

Definition protecting (e : event) : Prop :=
  (∃ d p, e = Event (SetProperties d p) (Ok tt)) ∨ ∃ tag snap, e = Event (HoldSnapshot tag snap) (Ok tt).

(** The proof is stored in what was read, or was stored since. *)
Definition backed (dataset : string) (r : Reference) (refs : list Reference) (pre : list event) : Prop :=
  r ∈ refs ∨ ∃ value, encodeReference r dataset = Ok value ∧ Event (SetProperties dataset {[property r := value]}) (Ok tt) ∈ pre.

Definition protectGuard (s : Service) (dataset stream : string) (snapshots : list string) (target : string) (pre : list event) (R : Type) (o : op R) : Prop :=
  mutates o = true → ∃ state lineage refs r m,
    readThen protecting s dataset (datasetOf <$> snapshots) "" state pre ∧
    authorized state dataset (sv_installation s) lineage ∧ referenceRecords state dataset lineage = Ok refs ∧ requested target stream m r ∧
    Forall (instantOf state stream lineage m) snapshots ∧
    match o with
    | SetProperties d props => d = dataset ∧ (∀ prior, prior ∈ refs → property prior ≠ property r) ∧
        ∃ value, encodeReference r dataset = Ok value ∧ Z.of_nat (String.length value) ≤ MaxUserPropertyValue ∧ props = {[property r := value]}
    | HoldSnapshot tag snap => tag = hold r ∧ snap ∈ snapshots ∧ backed dataset r refs pre
    | _ => False
    end.

(** What a successful call leaves: every snapshot held under the proof. *)
Definition protectedAll (s : Service) (dataset : string) (snapshots : list string) (tr : list event) (r : Reference) : Prop :=
  ∃ state, Forall (λ snap, heldBy state snap (hold r) = true ∨ Event (HoldSnapshot (hold r) snap) (Ok tt) ∈ tr) snapshots ∧
    ∃ pre post, tr = pre ++ post ∧ scopeRead s dataset (datasetOf <$> snapshots) "" state pre.

Lemma storeProof_always s dataset stream snapshots target state lineage refs m r pre :
  readThen protecting s dataset (datasetOf <$> snapshots) "" state pre →
  authorized state dataset (sv_installation s) lineage → referenceRecords state dataset lineage = Ok refs → requested target stream m r →
  Forall (instantOf state stream lineage m) snapshots → (∀ prior, prior ∈ refs → property prior ≠ property r) →
  always (protectGuard s dataset stream snapshots target) pre (storeProof dataset stream r) (λ tr res, match res with
    | Ok _ => readThen protecting s dataset (datasetOf <$> snapshots) "" state tr ∧ backed dataset r refs tr
    | Err _ => True end).
Proof.
  intros Hread Ha Hr Hq Hi Hno. unfold storeProof. apply always_bindR. destruct (encodeReference r dataset) as [value|] eqn:He; [|done].
  destruct (Z.ltb_spec MaxUserPropertyValue (Z.of_nat (String.length value))); [done|]. apply always_call.
  - intros _. exists state, lineage, refs, r, m. split_and!; try done. by exists value.
  - intros [[]|e]; [|done]. split; [apply readThen_snoc; [done|left; eauto]|]. right. exists value. split; [done|]. set_solver.
Qed.

Lemma backed_mono dataset r refs pre tr : (∀ e, e ∈ pre → e ∈ tr) → backed dataset r refs pre → backed dataset r refs tr.
Proof. intros H [?|(v & ? & ?)]; [by left|right]. eauto. Qed.

Lemma holdAll_always s dataset stream snapshots target state lineage refs m r unheld pre :
  readThen protecting s dataset (datasetOf <$> snapshots) "" state pre →
  authorized state dataset (sv_installation s) lineage → referenceRecords state dataset lineage = Ok refs → requested target stream m r →
  Forall (instantOf state stream lineage m) snapshots → backed dataset r refs pre → (∀ snap, snap ∈ unheld → snap ∈ snapshots) →
  always (protectGuard s dataset stream snapshots target) pre (forE (λ _ snap, call (HoldSnapshot (hold r) snap)) tt unheld) (λ tr res, match res with
    | Ok _ => readThen protecting s dataset (datasetOf <$> snapshots) "" state tr ∧ Forall (λ snap, Event (HoldSnapshot (hold r) snap) (Ok tt) ∈ tr) unheld
    | Err _ => True end).
Proof.
  intros Hread Ha Hr Hq Hi Hb Hsub.
  apply (always_forE _ _ (λ dn tr _, readThen protecting s dataset (datasetOf <$> snapshots) "" state tr ∧ backed dataset r refs tr ∧
    Forall (λ snap, Event (HoldSnapshot (hold r) snap) (Ok tt) ∈ tr) dn)); [|by intros tr [] (? & _ & ?)|by split_and!].
  intros snap dn rest tr [] E (H1 & H2 & H3). apply always_call.
  - intros _. exists state, lineage, refs, r, m. split_and!; try done. apply Hsub. rewrite E. set_solver.
  - intros [[]|e]; [|done]. split_and!; [apply readThen_snoc; [done|right; eauto]|eapply backed_mono; [|done]; set_solver|].
    apply Forall_app. split; [|apply Forall_singleton; set_solver]. eapply Forall_impl; [exact H3|]. set_solver.
Qed.

Lemma ProtectSet_always s dataset stream snapshots target pre :
  always (protectGuard s dataset stream snapshots target) pre (ProtectSet s dataset stream snapshots target)
    (λ tr res, ∀ r, res = Ok r → ∃ tr0, tr = tr0 ++ [Event (Unlock dataset) tt] ∧ protectedAll s dataset snapshots tr0 r).
Proof.
  assert (∀ pre R (o : op R), mutates o = false → protectGuard s dataset stream snapshots target pre R o) as HP.
  { intros p R o Ho. unfold protectGuard. by rewrite Ho. }
  apply always_locked; [done..|]. intros tr0.
  eapply (always_mono _ _ _ (λ tr res, match res with Ok r => protectedAll s dataset snapshots tr r | Err _ => True end));
    [intros tr [r|] H r' [= <-]; by exists tr|].
  destruct (negb (sv_reference s)); [done|]. apply always_bindR. destruct (ValidateDataset dataset); [|done].
  destruct (_ || _); [done|]. destruct (_ =? 0)%nat; [done|]. apply always_bindR. destruct (ValidateDataset stream); [|done].
  destruct (negb (inside stream dataset)); [done|]. cbv zeta. apply always_bindE.
  eapply always_mono; [|by apply proofScope_always]. intros tr1 [state|e]; [|done]. intros Hread1.
  apply always_bindR. destruct (protectPlan _ _ _ _ _ _) as [[[r ex] unheld]|] eqn:Hp; [|done].
  apply protectPlan_Ok in Hp as (lineage & refs & m & Ha & Hr & Hq & Hi & Hex & Hun).
  assert (∀ tr pre post, tr = pre ++ post → scopeRead s dataset (datasetOf <$> snapshots) "" state pre →
    Forall (λ snap, Event (HoldSnapshot (hold r) snap) (Ok tt) ∈ tr) unheld → protectedAll s dataset snapshots tr r) as Hdone.
  { intros tr p q -> Hsr Hall. exists state. split; [|by exists p, q]. apply Forall_forall. intros snap Hs.
    destruct (heldBy state snap (hold r)) eqn:Eh; [by left|right]. rewrite Forall_forall in Hall. apply Hall. rewrite Hun.
    by apply list_elem_of_filter. }
  destruct (ex && _) eqn:Hskip.
  { apply (Hdone tr1 tr1 []); [by rewrite app_nil_r|done|]. apply andb_true_iff in Hskip as [_ Hs]. destruct unheld; [constructor|done]. }
  apply always_bindE. eapply always_mono; [|by apply proofUnchanged_always]. intros tr2 [[]|e]; [|done]. intros Hread.
  apply (readThen_start protecting) in Hread. apply always_bindE.
  eapply (always_mono _ _ _ (λ tr res, match res with
    | Ok _ => readThen protecting s dataset (datasetOf <$> snapshots) "" state tr ∧ backed dataset r refs tr | Err _ => True end)).
  2: { destruct ex; [split; [done|by left]|]. by eapply storeProof_always. }
  intros tr3 [[]|e]; [|done]. intros [Hread3 Hb]. apply always_bindE. eapply always_mono; [|eapply (holdAll_always _ _ _ _ _ state); try done].
  - intros tr4 [[]|e]; [|done]. intros [(p & q & -> & Hsr%scopeReread_read & _) Hall]. by eapply Hdone.
  - intros snap. rewrite Hun, list_elem_of_filter. tauto.
Qed.

(** C10: protecting a stream's endpoint writes its proof before any hold. Each
    hold is placed on a snapshot the call names, owned and of the stream's
    instant, and only when the proof is already stored or the call stored it
    first; the proof is stored only when none with its key exists; both only after
    what they rest on was read twice in a row and found the same, with nothing
    since but the call's own writes. On success every named snapshot is
    held under the proof. *)
Theorem ProtectSet_safe s dataset stream snapshots target tr res :
  runs (ProtectSet s dataset stream snapshots target) tr res →
  (∀ t1 e t2, tr = t1 ++ e :: t2 → justified (protectGuard s dataset stream snapshots target) t1 e) ∧
  (∀ r, res = Ok r → ∃ tr0, tr = tr0 ++ [Event (Unlock dataset) tt] ∧ protectedAll s dataset snapshots tr0 r).
Proof.
  intros Hr. destruct (always_runs _ _ _ tr [] _ Hr (ProtectSet_always s dataset stream snapshots target [])) as [HQ Hj]. by split.
Qed.

(** * A pool to run on *)

Module SimPool.
(** A state with the given rows of a dataset replaced. *)
Definition withRows (d : string) (props : gmap string string) (st : State) : State :=
  mkState (Objects st) (filter (λ p, ¬ (pr_Dataset p = d ∧ is_Some (props !! pr_Name p))) (Properties st) ++ ((λ kv, localRow d kv.1 kv.2) <$> map_to_list props))
    (Received st) (ResumeTokens st) (Clones st) (Holds st).
Definition withoutRow (d name : string) (st : State) : State :=
  mkState (Objects st) (filter (λ p, ¬ (pr_Dataset p = d ∧ pr_Name p = name)) (Properties st)) (Received st) (ResumeTokens st) (Clones st) (Holds st).
Definition withHolds (snap : string) (f : list string → list string) (st : State) : State :=
  mkState (Objects st) (Properties st) (Received st) (ResumeTokens st) (Clones st) (<[snap := f (default [] (Holds st !! snap))]> (Holds st)).
Definition withMark (snap mark : string) (st : State) : State :=
  mkState (Objects st ++ ((λ o, mkObject mark "bookmark" (ob_GUID o) 0 1) <$> filter (λ o, ob_Name o = snap) (Objects st)))
    (Properties st) (Received st) (ResumeTokens st) (Clones st) (Holds st).
Definition withoutMark (mark : string) (st : State) : State :=
  mkState (filter (λ o, ob_Name o ≠ mark) (Objects st)) (Properties st) (Received st) (ResumeTokens st) (Clones st) (Holds st).

Fixpoint answer (R : Type) (o : op R) (st : State) : R * State :=
  match o with
  | Acquire _ => (Ok tt, st)
  | Unlock _ => (tt, st)
  | RandRead => (Ok (seqZ 0 16), st)
  | InspectState _ _ => (Ok st, st)
  | SetProperties d props => (Ok tt, withRows d props st)
  | DestroySnapshot n => (Ok tt, withoutObject n st)
  | TakeSnapshot _ _ _ | Quiescent _ | CheckTarget _ _ => (Ok tt, st)
  | HoldSnapshot tag snap => (Ok tt, withHolds snap (λ l, l ++ [tag]) st)
  | ReleaseHold tag snap => (Ok tt, withHolds snap (filter (λ t, t ≠ tag)) st)
  | CreateBookmark snap mark => (Ok tt, withMark snap mark st)
  | DestroyBookmark mark => (Ok tt, withoutMark mark st)
  | InheritProperty d name => (Ok tt, withoutRow d name st)
  | ListDatasets => (Ok [], st)
  | GetActivationProperties => (Ok [], st)
  | InspectDatasetIdentity _ => (Err (Errorf "dataset is unavailable"), st)
  | GetStoredProperties _ => (Ok [], st)
  | CheckPermissions _ _ | CreateReceiveParent _ | RenameDataset _ _ | DestroyDataset _ _ | AbortReceive _ => (Ok tt, st)
  | EstimateStream _ => (Ok (mkEstimate false 0 ""), st)
  | RunStream _ _ _ => (Ok (mkProgress 0 (mkEstimate false 0 "") true), st)
  | ContextDone => (false, st)
  | OnTarget o => answer _ o st
  end.

(** One endpoint protected, checkpointed, and its hold or its proof released. *)
Definition first : string := sn_Name (witnessSnapshot (Date 2024 1 1 0 1 0 0) 1).
Definition guid : Z := sn_GUID (witnessSnapshot (Date 2024 1 1 0 1 0 0) 1).
Definition protect : prog (result Reference) := ProtectSet SamplePool.service "tank/data" "tank/data" [first] "local:backup".
Definition proof : Reference := mkReference (TargetID "local:backup") "tank/data" (witnessMetadata (Date 2024 1 1 0 1 0 0) 1) false.
Definition protected : State := (runWith answer protect SamplePool.state).2.
Definition checkpoint : prog (result unit) := CheckpointSet SamplePool.service "tank/data" proof {[first := guid]}.
Definition checkpointed : State := (runWith answer checkpoint protected).2.
Definition complete : prog (result unit) := ReleaseCompletedHold SamplePool.service "tank/data" proof.
Definition unprotect : prog (result unit) := ReleaseReference SamplePool.service "tank/data" proof.

Lemma protect_Ok : (traceWith answer protect SamplePool.state).2 = Ok proof.
Proof. by vm_compute. Qed.

(** The first call of a trace that changes the pool, with what is around it. *)
Fixpoint splitMutation (tr : list event) : option (list event * event * list event) :=
  match tr with
  | [] => None
  | e :: tr => if eventMutates e then Some ([], e, tr)
               else match splitMutation tr with Some (t1, x, t2) => Some (e :: t1, x, t2) | None => None end
  end.
Lemma splitMutation_Some tr : ∀ t1 e t2, splitMutation tr = Some (t1, e, t2) → tr = t1 ++ e :: t2 ∧ eventMutates e = true.
Proof.
  induction tr as [|x tr IH]; intros t1 e t2; cbn; [done|]. destruct (eventMutates x) eqn:E; [by intros [= <- <- <-]|].
  destruct (splitMutation tr) as [[[t1' e'] t2']|]; [|done]. intros [= <- <- <-]. destruct (IH _ _ _ eq_refl) as [-> ?]. done.
Qed.
Definition mutationOf {A} (p : prog A) (st : State) : list event * event * list event :=
  default ([], Event (Unlock "") tt, []) (splitMutation (traceWith answer p st).1).
Lemma mutationOf_split {A} (p : prog A) st :
  match splitMutation (traceWith answer p st).1 with Some _ => true | None => false end = true →
  (traceWith answer p st).1 = (mutationOf p st).1.1 ++ (mutationOf p st).1.2 :: (mutationOf p st).2 ∧ eventMutates (mutationOf p st).1.2 = true.
Proof.
  unfold mutationOf. destruct (splitMutation _) as [[[t1 e] t2]|] eqn:E; [|done]. intros _. by apply splitMutation_Some.
Qed.
End SimPool.

Lemma ProtectSet_safe_witness :
  length (traceWith SimPool.answer SimPool.protect SamplePool.state).1 = 6%nat ∧
  ∃ tr, protectedAll SamplePool.service "tank/data" [SimPool.first] tr SimPool.proof.
Proof.
  split; [by vm_compute|].
  destruct (ProtectSet_safe SamplePool.service "tank/data" "tank/data" [SimPool.first] "local:backup" _ _
    (traceWith_runs SimPool.answer SimPool.protect SamplePool.state)) as [_ H].
  destruct (H SimPool.proof SimPool.protect_Ok) as (tr & _ & Hp). exact (ex_intro _ tr Hp).
Defined.

Lemma CheckpointSet_safe_witness : ∃ state lineage source,
  checkpointable state lineage SimPool.proof {[SimPool.first := SimPool.guid]} source.
Proof.
  destruct (SimPool.mutationOf_split SimPool.checkpoint SimPool.protected ltac:(by vm_compute)) as [Hs Hm].
  destruct (CheckpointSet_safe SamplePool.service "tank/data" SimPool.proof _ _ _ _ _ _
    (traceWith_runs SimPool.answer SimPool.checkpoint SimPool.protected) Hs Hm) as (state & lineage & source & _ & _ & _ & _ & H).
  exact (ex_intro _ state (ex_intro _ lineage (ex_intro _ source H))).
Defined.

Lemma ReleaseCompletedHold_safe_witness : ∃ state lineage source sn, sourceOwned state lineage SimPool.proof source sn.
Proof.
  destruct (SimPool.mutationOf_split SimPool.complete SimPool.checkpointed ltac:(by vm_compute)) as [Hs Hm].
  destruct (ReleaseCompletedHold_safe SamplePool.service "tank/data" SimPool.proof _ _ _ _ _
    (traceWith_runs SimPool.answer SimPool.complete SimPool.checkpointed) Hs Hm) as (state & lineage & source & sn & _ & _ & _ & _ & H & _).
  exact (ex_intro _ state (ex_intro _ lineage (ex_intro _ source (ex_intro _ sn H)))).
Defined.

Lemma ReleaseReference_safe_witness : ∃ state lineage, proven SamplePool.service "tank/data" SimPool.proof state lineage.
Proof.
  destruct (SimPool.mutationOf_split SimPool.unprotect SimPool.checkpointed ltac:(by vm_compute)) as [Hs Hm].
  destruct (ReleaseReference_safe SamplePool.service "tank/data" SimPool.proof _ _ _ _ _
    (traceWith_runs SimPool.answer SimPool.unprotect SimPool.checkpointed) Hs Hm) as (state & lineage & _ & _ & H & _).
  exact (ex_intro _ state (ex_intro _ lineage H)).
Defined.
