(* ===== verification/Scheduler.v ===== *)
(** Snapshot scheduling: internal/daemon/scheduler.go.

    [Lookup], [Entries], [Complete] and [Retry] run under the scheduler's mutex
    from start to end and are functions on the state. Two methods do not.

    [Update] reads the previous entry of each root in a critical section of its
    own, the members of that entry after it, and installs the new set in a last
    one, so what it read is an argument of [updateItems] and the state it replaces
    an argument of [updateInstall]; [Update] is the two with nothing in between.

    [Next] is one round of its loop: it fires a root or waits. It selects and
    marks the root in a critical section, [nextSelect], and makes the schedule
    after it, [nextFire]. The entry it copied shares its map of members with the
    scheduler's own entry, so what other goroutines do to the root in between is
    seen: [sharedMembers] is the map after the events in between. A reading of the
    map is taken to happen at one point; one that overlaps a write is a data race,
    which Go leaves undefined. *)

From S2P Require Import Prelude GoStrings GoTime Grid Names Zfs Policy Authority Discovery Actors Service.

(** * Data *)

Record ScheduleMember := mkScheduleMember { sm_Dataset : string; sm_Grid : Grid }.
#[export] Instance ScheduleMember_eq_dec : EqDecision ScheduleMember.
Proof. solve_decision. Defined.
(** [ScheduleMember.Retention]. *)
Definition RetentionOf (m : ScheduleMember) : Retention := mkRetention (sm_Dataset m) (sm_Grid m).

Record Schedule := mkSchedule {
  sch_Dataset : string;
  sch_Policy : Effective;
  sch_Members : list ScheduleMember;
  sch_Due : list string;
  sch_Deadline : Time;
  sch_Force : bool
}.

Record memberDeadline := mkMemberDeadline { md_grid : Grid; md_cadence : Z; md_next : Time }.
Record deadline := mkDeadline {
  dl_policy : Effective;
  dl_members : gmap string memberDeadline;
  dl_order : list string;
  dl_replicate : option (list ScheduleMember);
  dl_pending : bool
}.

(** The scheduler's entries; [NewScheduler] starts with none. *)
Abbreviation deadlines := (gmap string deadline).
Definition NewScheduler : deadlines := ∅.

(** The loop of [deadline.earliest], in the order the map is iterated. *)
Definition earlier (earliest : Time) (member : memberDeadline) : Time :=
  if IsZero earliest || (md_next member <? earliest) then md_next member else earliest.
Definition earliest (d : deadline) : Time := fold_left earlier (map_to_list (dl_members d)).*2 zeroTime.

(** [deadline.all]; [dl_replicate] is [None] for a nil slice. *)
Definition allMembers (d : deadline) : list string :=
  match dl_replicate d with Some members => sm_Dataset <$> members | None => dl_order d end.

(** [d.members[name]]. *)
Definition memberOf (d : deadline) (name : string) : memberDeadline :=
  default (mkMemberDeadline emptyGrid 0 zeroTime) (dl_members d !! name).

(** [deadline.schedule]. *)
Definition schedule (d : deadline) (dataset : string) (now : Time) : Schedule :=
  let at_ := earliest d in
  match dl_replicate d with
  | Some members => mkSchedule dataset (dl_policy d) members (if negb (IsZero now) && negb (now <? at_) then allMembers d else []) at_ false
  | None =>
    mkSchedule dataset (dl_policy d) ((λ name, mkScheduleMember name (md_grid (memberOf d name))) <$> dl_order d)
      (filter (λ name, IsZero now = false ∧ (now <? md_next (memberOf d name)) = false) (dl_order d)) at_ false
  end.

Definition Lookup (s : deadlines) (dataset : string) : option Schedule :=
  item ← s !! dataset;
  let sch := schedule item dataset zeroTime in
  Some (mkSchedule (sch_Dataset sch) (sch_Policy sch) (sch_Members sch) (allMembers item) (sch_Deadline sch) (sch_Force sch)).

(** [Entries] and [entriesLocked]. *)
Definition deadlineEntries (s : deadlines) : gmap string Time := earliest <$> s.

(** * Update *)

Definition isSchedulable (entry : Entry) : bool :=
  if negb (en_CoveredBy entry =? "")%string || negb (en_Inspected entry) || negb (ef_Enabled (en_Policy entry)) || negb (validPolicy (en_Policy entry))
  then false
  else is_ok (ActiveRoot (en_Policy entry) (ds_Name (en_Dataset entry))).

(** The loop over the timed members of a root. *)
Definition timeMember (byName : gmap string Entry) (previous : option deadline) (now : Time)
    (st : gmap string memberDeadline * list string) (name : string) : gmap string memberDeadline * list string :=
  match byName !! name with
  | None => st
  | Some member =>
    let grid := ef_Grid (en_Policy member) in
    let cadence := Cadence grid in
    if cadence <=? 0 then st
    else
      let next := match previous with
                  | Some p => match dl_members p !! name with
                              | Some old => if md_cadence old =? cadence then md_next old else now
                              | None => now
                              end
                  | None => now
                  end in
      (<[name := mkMemberDeadline grid cadence next]> st.1, st.2 ++ [name])
  end.

Definition updateItem (byName : gmap string Entry) (previous : option deadline) (now : Time) (entry : Entry) : option deadline :=
  let root := ds_Name (en_Dataset entry) in
  let p := en_Policy entry in
  let replicated := if Replicate (ef_Send p) && negb (bool_decide (en_Members entry = []))
                    then Some ((λ name, mkScheduleMember name (ef_Grid p)) <$> en_Members entry) else None in
  let timed := if Replicate (ef_Send p) then [root] else en_Members entry in
  let '(members, order) := fold_left (timeMember byName previous now) timed (∅, []) in
  match order with
  | [] => None
  | _ => Some (mkDeadline p members order replicated (match previous with Some p => dl_pending p | None => false end))
  end.

(** The loop over the entries; [previous root] is what [s.entry(root)] gave. *)
Definition updateEntry (byName : gmap string Entry) (previous : string → option deadline) (now : Time)
    (st : deadlines * list string) (entry : Entry) : deadlines * list string :=
  if negb (isSchedulable entry) then st
  else
    let root := ds_Name (en_Dataset entry) in
    match updateItem byName (previous root) now entry with
    | None => st
    | Some item => (<[root := item]> st.1, st.2 ++ [root])
    end.
Definition updateItems (entries : list Entry) (previous : string → option deadline) (now : Time) : deadlines * list string :=
  let byName := fold_left (λ m e, <[ds_Name (en_Dataset e) := e]> m) entries (∅ : gmap string Entry) in
  fold_left (updateEntry byName previous now) entries (∅, []).

(** The critical section at the end: active and removed roots, and the new
    entries. *)
Definition updateInstall (s next : deadlines) (active : list string) : list string * list string * deadlines :=
  (SortStrings active, SortStrings (elements (dom s ∖ dom next : gset string)), next).

Definition Update (s : deadlines) (entries : list Entry) (now : Time) : result (list string * list string * deadlines) :=
  if IsZero now then Err (Errorf "scheduler update time is required")
  else
    let '(next, active) := updateItems entries (λ root, s !! root) now in
    Ok (updateInstall s next active).

(** * Settling a fired root *)

Definition setNext (members : gmap string memberDeadline) (name : string) (at_ : memberDeadline → Time) : gmap string memberDeadline :=
  match members !! name with
  | Some m => <[name := mkMemberDeadline (md_grid m) (md_cadence m) (at_ m)]> members
  | None => members
  end.
Definition settle (d : deadline) (members : gmap string memberDeadline) : deadline :=
  mkDeadline (dl_policy d) members (dl_order d) (dl_replicate d) false.

(** Under replicate=on the root is the only timed member. *)
Definition dueNames (item : deadline) (dataset : string) (due : list string) : list string :=
  match dl_replicate item, due with Some _, _ :: _ => [dataset] | _, _ => due end.

(** The deferred members are distinct keys, so their order is no matter. *)
Definition Complete (s : deadlines) (dataset : string) (due : list string) (completed : Time) (deferred : gmap string Time) : deadlines :=
  match s !! dataset with
  | None => s
  | Some item =>
    let members := fold_left (λ ms name, setNext ms name (λ m, completed + md_cadence m)) (dueNames item dataset due) (dl_members item) in
    <[dataset := settle item (fold_left (λ ms kv, setNext ms kv.1 (λ _, kv.2)) (map_to_list deferred) members)]> s
  end.

Definition Retry (s : deadlines) (dataset : string) (notBefore : Time) : deadlines :=
  match s !! dataset with
  | None => s
  | Some item =>
    <[dataset := settle item ((λ m, if md_next m <? notBefore then mkMemberDeadline (md_grid m) (md_cadence m) notBefore else m) <$> dl_members item)]> s
  end.

(** * Next *)

(** The loop over the entries, in the order [order] Go iterates them in. *)
Definition pick (s : deadlines) (st : string * Time) (name : string) : string * Time :=
  match s !! name with
  | None => st
  | Some item =>
    let next := earliest item in
    if dl_pending item || (negb (IsZero st.2) && negb (next <? st.2)) then st else (name, next)
  end.
Definition select (s : deadlines) (order : list string) : string * Time := fold_left (pick s) order ("", zeroTime).

Definition markPending (d : deadline) : deadline := mkDeadline (dl_policy d) (dl_members d) (dl_order d) (dl_replicate d) true.

(** The critical section: the selected root, its earliest deadline, the copy of
    its entry and the state it leaves. [now] is the clock at [time.Until]; [None]
    is a round that waits. *)
Definition nextSelect (s : deadlines) (order : list string) (now : Time) : option (string * Time * deadline * deadlines) :=
  let '(selected, at_) := select s order in
  if (selected =? "")%string then None
  else if at_ <=? now then
    match s !! selected with
    | Some item => Some (selected, at_, markPending item, <[selected := markPending item]> s)
    | None => None
    end
  else None.

(** What another goroutine does to the entries between two critical sections:
    settle a root, fire one, or install a new set. *)
Inductive event :=
| Completed (dataset : string) (due : list string) (completed : Time) (deferred : gmap string Time)
| Retried (dataset : string) (notBefore : Time)
| Selected (order : list string) (now : Time)
| Installed (next : deadlines).
Definition happen (s : deadlines) (e : event) : deadlines :=
  match e with
  | Completed dataset due completed deferred => Complete s dataset due completed deferred
  | Retried dataset notBefore => Retry s dataset notBefore
  | Selected order now => match nextSelect s order now with Some (_, s') => s' | None => s end
  | Installed next => next
  end.

(** The map of members that a copy of the entry of [root] refers to. The entry in
    the state has the same map, and [Complete] and [Retry] write to it in place,
    until an install replaces the entries by ones with maps of their own. *)
Fixpoint sharedMembers (s : deadlines) (root : string) (members : gmap string memberDeadline) (events : list event) : gmap string memberDeadline :=
  match events with
  | [] => members
  | Installed _ :: _ => members
  | e :: events =>
    let s' := happen s e in
    sharedMembers s' root (match s' !! root with Some item => dl_members item | None => members end) events
  end.

(** [item] with what its map holds by now. *)
Definition readMembers (item : deadline) (members : gmap string memberDeadline) : deadline :=
  mkDeadline (dl_policy item) members (dl_order item) (dl_replicate item) (dl_pending item).

(** After the critical section; [fired] is the clock at [time.Now]. *)
Definition nextFire (selected : string) (at_ : Time) (item : deadline) (members : gmap string memberDeadline) (fired : Time) : Schedule :=
  schedule (readMembers item members) selected (if fired <? at_ then at_ else fired).

(** A round of [Next] with [events] between its two parts. *)
Definition Next (s : deadlines) (order : list string) (now : Time) (events : list event) (fired : Time) : option (Schedule * deadlines) :=
  match nextSelect s order now with
  | None => None
  | Some (selected, at_, item, s') =>
    Some (nextFire selected at_ item (sharedMembers s' selected (dl_members item) events) fired, fold_left happen events s')
  end.

(** * Deadlines in every reachable state *)

Definition member_wf (m : memberDeadline) : Prop := 0 < md_cadence m ∧ 0 < md_next m.
Record deadline_wf (d : deadline) : Prop := {
  dw_order : ∀ name, name ∈ dl_order d ↔ is_Some (dl_members d !! name);
  dw_members : map_Forall (λ _ m, member_wf m) (dl_members d);
  dw_timed : dl_order d ≠ [];
  dw_replicate : dl_replicate d ≠ Some []
}.
Definition scheduler_wf (s : deadlines) : Prop := map_Forall (λ name d, name ≠ "" ∧ deadline_wf d) s.

(** The minimum of a loop that starts from the zero time. *)
Lemma earlier_min l : ∀ z, 0 ≤ z → Forall (λ m, 0 < md_next m) l →
  let r := fold_left earlier l z in
  (r = z ∨ ∃ m, m ∈ l ∧ md_next m = r) ∧ (0 < z → r ≤ z) ∧ (∀ m, m ∈ l → r ≤ md_next m) ∧ (l ≠ [] → 0 < r).
Proof.
  induction l as [|m l IH]; intros z Hz Hl; cbn [fold_left]; [split_and!; [by left|lia|by intros ? ?%elem_of_nil|done]|].
  apply Forall_cons in Hl as [Hm Hl]. unfold earlier at 2 4 6 8 10. unfold IsZero, zeroTime.
  assert (∃ z', (if (z =? 0) || (md_next m <? z) then md_next m else z) = z' ∧ 0 < z' ∧ (z' = md_next m ∨ z' = z) ∧ z' ≤ md_next m ∧ (0 < z → z' ≤ z)) as (z' & -> & H1 & H2 & H3 & H4).
  { eexists. split; [reflexivity|]. destruct (Z.eqb_spec z 0), (Z.ltb_spec (md_next m) z); cbn [orb]; lia. }
  destruct (IH z' ltac:(lia) Hl) as (A & B & C & D). set (r := fold_left earlier l z') in *. specialize (B H1). split_and!.
  - destruct A as [->|(m' & Hm' & <-)]; [destruct H2 as [->| ->]; [right; exists m; split; [by left|done]|by left]|]. right. exists m'. split; [by right|done].
  - lia.
  - intros m' [->|Hm']%elem_of_cons; [lia|by apply C].
  - intros _. destruct A as [->|(m' & Hm' & <-)]; [done|]. by rewrite Forall_forall in Hl; apply Hl.
Qed.

Lemma earliest_spec d : deadline_wf d →
  0 < earliest d ∧ (∃ name m, dl_members d !! name = Some m ∧ md_next m = earliest d) ∧
  ∀ name m, dl_members d !! name = Some m → earliest d ≤ md_next m.
Proof.
  intros [Ho Hm Ht _]. unfold earliest. set (l := (map_to_list (dl_members d)).*2).
  assert (∀ m, m ∈ l ↔ ∃ name, dl_members d !! name = Some m) as Hl.
  { intros m. unfold l. rewrite list_elem_of_fmap. setoid_rewrite <- elem_of_map_to_list. split; [intros ([k v] & -> & ?); by exists k|intros [k ?]; by exists (k, m)]. }
  assert (Forall (λ m, 0 < md_next m) l) as Hpos.
  { apply Forall_forall. intros m [name Hn]%Hl. apply (Hm _ _ Hn). }
  destruct (earlier_min l zeroTime ltac:(done) Hpos) as (A & _ & C & D).
  assert (l ≠ []) as Hne.
  { destruct (dl_order d) as [|x o] eqn:E; [done|]. destruct (proj1 (Ho x)) as [m Hx]; [by left|].
    assert (m ∈ l) as H by (apply Hl; by exists x). intros E'. rewrite E' in H. by apply elem_of_nil in H. }
  specialize (D Hne). split_and!; [done| |].
  - destruct A as [A|(m & Hm' & E)]; [unfold zeroTime in *; lia|]. apply Hl in Hm' as [name ?]. eauto.
  - intros name m Hn. apply C, Hl. eauto.
Qed.

(** [select] finds a least deadline among the roots that are not pending. *)
Lemma select_spec s order : scheduler_wf s →
  match select s order with
  | (name, at_) =>
    (name = "" ∧ at_ = zeroTime ∧ ∀ n d, n ∈ order → s !! n = Some d → dl_pending d = true) ∨
    (∃ d, s !! name = Some d ∧ dl_pending d = false ∧ at_ = earliest d ∧ 0 < at_ ∧
      ∀ n d', n ∈ order → s !! n = Some d' → dl_pending d' = false → at_ ≤ earliest d')
  end.
Proof.
  intros Hwf. unfold select. induction order as [|x order IH] using rev_ind; [left; split_and!; try done; by intros ? ? ?%elem_of_nil|].
  rewrite fold_left_app. cbn [fold_left]. destruct (fold_left (pick s) order ("", zeroTime)) as [name at_]. unfold pick. cbn [snd].
  destruct (s !! x) as [item|] eqn:Ex.
  2: { destruct IH as [(H1 & H2 & H3)|(d & H1 & H2 & H3 & H4 & H5)]; [left|right; exists d]; split_and!; try done.
       - intros n d [Hn| ->%list_elem_of_singleton]%elem_of_app Hd; [by eapply H3|congruence].
       - intros n d' [Hn| ->%list_elem_of_singleton]%elem_of_app Hd; [by eapply H5|congruence]. }
  destruct (dl_pending item) eqn:Ep; cbn [orb].
  { destruct IH as [(H1 & H2 & H3)|(d & H1 & H2 & H3 & H4 & H5)]; [left|right; exists d]; split_and!; try done.
    - intros n d [Hn| ->%list_elem_of_singleton]%elem_of_app Hd; [by eapply H3|congruence].
    - intros n d' [Hn| ->%list_elem_of_singleton]%elem_of_app Hd; [by eapply H5|congruence]. }
  destruct (earliest_spec item (proj2 (Hwf _ _ Ex))) as (He & _). destruct IH as [(-> & -> & H3)|(d & H1 & H2 & H3 & H4 & H5)].
  - change (IsZero zeroTime) with true. cbn [negb andb]. right. exists item. split_and!; try done.
    intros n d' [Hn| ->%list_elem_of_singleton]%elem_of_app Hd Hp; [specialize (H3 _ _ Hn Hd); congruence|]. assert (item = d') as -> by congruence. lia.
  - assert (IsZero at_ = false) as -> by (unfold IsZero, zeroTime; lia). cbn [negb andb].
    destruct (Z.ltb_spec (earliest item) at_); cbn [negb]; right; [exists item|exists d]; split_and!; try done;
      intros n d' [Hn| ->%list_elem_of_singleton]%elem_of_app Hd Hp.
    + specialize (H5 _ _ Hn Hd Hp). lia.
    + assert (item = d') as -> by congruence. lia.
    + by eapply H5.
    + assert (item = d') as -> by congruence. lia.
Qed.

(** ** Updates keep deadlines *)

Definition nextOf (previous : option deadline) (now : Time) (name : string) (m : memberDeadline) : Time :=
  match previous ≫= λ p, dl_members p !! name with
  | Some old => if md_cadence old =? md_cadence m then md_next old else now
  | None => now
  end.

Lemma no_names {A} (name : string) : name ∈ (@nil string) ↔ is_Some ((∅ : gmap string A) !! name).
Proof. rewrite lookup_empty. split; [by intros ?%elem_of_nil|by intros []]. Qed.

Lemma timeMembers_spec byName previous now timed : ∀ st st',
  fold_left (timeMember byName previous now) timed st = st' →
  (∀ name, name ∈ st.2 ↔ is_Some (st.1 !! name)) → map_Forall (λ name m, 0 < md_cadence m ∧ md_next m = nextOf previous now name m) st.1 →
  (∀ name, name ∈ st'.2 ↔ is_Some (st'.1 !! name)) ∧ map_Forall (λ name m, 0 < md_cadence m ∧ md_next m = nextOf previous now name m) st'.1.
Proof.
  induction timed as [|x timed IH]; intros st st'; cbn [fold_left]; [by intros ->|]. intros H Ho Hm. apply (IH _ _ H); clear IH H.
  - intros name. unfold timeMember. destruct (byName !! x) as [e|]; [|done]. cbv zeta. destruct (_ <=? 0); [done|]. cbn [fst snd].
    rewrite elem_of_app, list_elem_of_singleton, lookup_insert_is_Some, Ho. destruct (decide (x = name)); naive_solver.
  - unfold timeMember. destruct (byName !! x) as [e|]; [|done]. cbv zeta. destruct (Z.leb_spec (Cadence (ef_Grid (en_Policy e))) 0); [done|]. cbn [fst].
    apply map_Forall_insert_2; [|done]. cbn [md_cadence md_next]. split; [lia|]. unfold nextOf. cbn [md_cadence].
    destruct previous as [p|]; cbn [mbind option_bind]; [|done]. by destruct (dl_members p !! x).
Qed.

(** What [updateItem] makes of a root and its previous deadline. *)
Record kept (previous : option deadline) (now : Time) (d : deadline) : Prop := {
  kd_order : ∀ name, name ∈ dl_order d ↔ is_Some (dl_members d !! name);
  kd_members : map_Forall (λ name m, 0 < md_cadence m ∧ md_next m = nextOf previous now name m) (dl_members d);
  kd_timed : dl_order d ≠ [];
  kd_replicate : dl_replicate d ≠ Some [];
  kd_pending : dl_pending d = match previous with Some p => dl_pending p | None => false end
}.

Lemma updateItem_kept byName previous now entry d : updateItem byName previous now entry = Some d → kept previous now d.
Proof.
  unfold updateItem. destruct (fold_left (timeMember byName previous now) _ (∅, [])) as [members order] eqn:E.
  apply timeMembers_spec in E as [H1 H2]; [|intros name; apply no_names|cbn; apply map_Forall_empty]. cbn [fst snd] in *.
  destruct order as [|o order]; [done|]. intros [= <-]. split; cbn [dl_order dl_members dl_replicate dl_pending]; [done|done|done| |done].
  destruct (Replicate _), (en_Members entry); done.
Qed.

Lemma updateEntries_spec byName previous now entries : ∀ st st',
  fold_left (updateEntry byName previous now) entries st = st' →
  (∀ root, root ∈ st.2 ↔ is_Some (st.1 !! root)) → map_Forall (λ root d, root ≠ "" ∧ kept (previous root) now d) st.1 →
  (∀ root, root ∈ st'.2 ↔ is_Some (st'.1 !! root)) ∧ map_Forall (λ root d, root ≠ "" ∧ kept (previous root) now d) st'.1.
Proof.
  induction entries as [|e entries IH]; intros st st'; cbn [fold_left]; [by intros ->|]. intros H Ha Hk.
  assert (isSchedulable e = true → ds_Name (en_Dataset e) ≠ "") as Hne.
  { unfold isSchedulable. destruct (_ || _); [done|]. unfold ActiveRoot. destruct (_ || _); [done|]. cbv zeta. generalize (ds_Name (en_Dataset e)).
    intros root. destruct (match ef_Values _ !! _ with Some v => _ | None => _ end =? "")%string eqn:E; [done|].
    intros H' ->. rewrite E in H'. discriminate H'. }
  apply (IH _ _ H); clear IH H; unfold updateEntry; destruct (isSchedulable e); cbn [negb]; try done; specialize (Hne eq_refl);
    destruct (updateItem _ _ _ _) as [d|] eqn:Eu; try done; cbn [fst snd].
  - intros root. rewrite elem_of_app, list_elem_of_singleton, lookup_insert_is_Some, Ha. destruct (decide (ds_Name (en_Dataset e) = root)); naive_solver.
  - apply map_Forall_insert_2; [|done]. split; [done|]. by eapply updateItem_kept.
Qed.

Lemma updateItems_spec entries previous now :
  (∀ root, root ∈ (updateItems entries previous now).2 ↔ is_Some ((updateItems entries previous now).1 !! root)) ∧
  map_Forall (λ root d, root ≠ "" ∧ kept (previous root) now d) (updateItems entries previous now).1.
Proof.
  unfold updateItems. cbv zeta. apply (updateEntries_spec _ _ _ _ _ _ eq_refl); [intros root; apply no_names|apply map_Forall_empty].
Qed.

(** ** Reachable states *)

Lemma kept_wf previous now d : 0 < now → (∀ p name m, previous = Some p → dl_members p !! name = Some m → member_wf m) → kept previous now d → deadline_wf d.
Proof.
  intros Hn Hp [H1 H2 H3 H4 _]. split; [done| |done..]. intros name m Hm. destruct (H2 _ _ Hm) as [Hc He]. split; [done|]. rewrite He.
  unfold nextOf. destruct previous as [p|]; cbn; [|done]. destruct (dl_members p !! name) as [old|] eqn:E; [|done].
  case_match; [|done]. apply (Hp p _ _ eq_refl E).
Qed.

Lemma setNext_wf d members name at_ :
  (∀ n, n ∈ dl_order d ↔ is_Some (members !! n)) → map_Forall (λ _ m, member_wf m) members → (∀ m, member_wf m → 0 < at_ m) →
  (∀ n, n ∈ dl_order d ↔ is_Some (setNext members name at_ !! n)) ∧ map_Forall (λ _ m, member_wf m) (setNext members name at_).
Proof.
  intros Ho Hm Ha. unfold setNext. destruct (members !! name) as [m|] eqn:E; [|done]. split.
  - intros n. rewrite lookup_insert_is_Some, Ho. destruct (decide (name = n)) as [->|]; [rewrite E|]; naive_solver.
  - apply map_Forall_insert_2; [|done]. pose proof (Hm _ _ E) as Hw. split; [apply Hw|by apply Ha].
Qed.

Lemma setNexts_wf {A} d (key : A → string) (at_ : A → memberDeadline → Time) l : ∀ members,
  (∀ n, n ∈ dl_order d ↔ is_Some (members !! n)) → map_Forall (λ _ m, member_wf m) members → Forall (λ x, ∀ m, member_wf m → 0 < at_ x m) l →
  (∀ n, n ∈ dl_order d ↔ is_Some (fold_left (λ ms x, setNext ms (key x) (at_ x)) l members !! n)) ∧
  map_Forall (λ _ m, member_wf m) (fold_left (λ ms x, setNext ms (key x) (at_ x)) l members).
Proof.
  induction l as [|x l IH]; intros members Ho Hm Ha; cbn [fold_left]; [done|]. apply Forall_cons in Ha as [Hx Ha].
  destruct (setNext_wf d members (key x) (at_ x) Ho Hm Hx). by apply IH.
Qed.

Lemma Complete_wf s dataset due completed deferred :
  scheduler_wf s → 0 < completed → map_Forall (λ _ t, 0 < t) deferred → scheduler_wf (Complete s dataset due completed deferred).
Proof.
  intros Hwf Hc Hd. unfold Complete. destruct (s !! dataset) as [item|] eqn:E; [|done]. destruct (Hwf _ _ E) as [Hn [H1 H2 H3 H4]].
  apply map_Forall_insert_2; [|done]. split; [done|]. cbv zeta. set (due' := dueNames item dataset due).
  destruct (setNexts_wf item id (λ _ m, completed + md_cadence m) due' (dl_members item) H1 H2) as [A1 A2].
  { apply Forall_forall. intros x _ m [? ?]. lia. }
  destruct (setNexts_wf item fst (λ (kv : string * Time) _, kv.2) (map_to_list deferred) _ A1 A2) as [B1 B2].
  { apply Forall_forall. intros [k t] Hk m _. apply elem_of_map_to_list in Hk. apply (Hd _ _ Hk). }
  by split.
Qed.

Lemma Retry_wf s dataset notBefore : scheduler_wf s → scheduler_wf (Retry s dataset notBefore).
Proof.
  intros Hwf. unfold Retry. destruct (s !! dataset) as [item|] eqn:E; [|done]. destruct (Hwf _ _ E) as [Hn [H1 H2 H3 H4]].
  apply map_Forall_insert_2; [|done]. split; [done|]. split; cbn [settle dl_members dl_order dl_replicate]; [|..|done|done].
  - intros n. rewrite lookup_fmap, H1. destruct (dl_members item !! n); cbn; [done|]. by split; intros [].
  - intros n m. rewrite lookup_fmap. intros (m0 & Hm & ->)%fmap_Some. destruct (H2 _ _ Hm) as [? ?].
    destruct (Z.ltb_spec (md_next m0) notBefore); split; cbn; lia.
Qed.

(** The states of a scheduler whose methods overlap as its locks allow. An
    [Update] may have read the entry of each root in an earlier state, and each
    member of it in yet another: the map is read after the entry, outside the
    lock. *)
Inductive schedReach : deadlines → Prop :=
| reach_new : schedReach NewScheduler
| reach_update (s : deadlines) (entries : list Entry) (previous : string → option deadline) (read : string → string → deadlines) (now : Time) :
    schedReach s → (∀ root name, schedReach (read root name)) → 0 < now →
    (∀ root p name m, previous root = Some p → dl_members p !! name = Some m →
      ∃ d, read root name !! root = Some d ∧ dl_members d !! name = Some m) →
    schedReach (updateInstall s (updateItems entries previous now).1 (updateItems entries previous now).2).2
| reach_complete s dataset due completed deferred :
    schedReach s → 0 < completed → map_Forall (λ _ t, 0 < t) deferred → schedReach (Complete s dataset due completed deferred)
| reach_retry s dataset notBefore : schedReach s → schedReach (Retry s dataset notBefore)
| reach_next s order now selected at_ item s' : schedReach s → nextSelect s order now = Some (selected, at_, item, s') → schedReach s'.

Lemma nextSelect_Some s order now selected at_ item s' :
  nextSelect s order now = Some (selected, at_, item, s') →
  select s order = (selected, at_) ∧ at_ ≤ now ∧ ∃ d, s !! selected = Some d ∧ item = markPending d ∧ s' = <[selected := markPending d]> s.
Proof.
  unfold nextSelect. destruct (select s order) as [n t]. destruct (n =? "")%string; [done|].
  destruct (Z.leb_spec t now); [|done]. destruct (s !! n) as [d|] eqn:E; [|done]. intros [= <- <- <- <-]. split_and!; [done..|]. by exists d.
Qed.

Lemma nextSelect_wf s order now selected at_ item s' :
  scheduler_wf s → nextSelect s order now = Some (selected, at_, item, s') → scheduler_wf s'.
Proof.
  intros Hwf (_ & _ & d & Hd & _ & ->)%nextSelect_Some. apply map_Forall_insert_2; [|done]. destruct (Hwf _ _ Hd) as [Hn []]. by split.
Qed.

Lemma schedReach_wf s : schedReach s → scheduler_wf s.
Proof.
  induction 1 as [|s entries previous read now _ IH _ IHr Hn Hread|s dataset due completed deferred _ IH Hc Hd|s dataset notBefore _ IH|s order now selected at_ item s' _ IH H].
  - apply map_Forall_empty.
  - cbn [updateInstall snd]. destruct (updateItems_spec entries previous now) as [_ Hk].
    intros root d Hd. destruct (Hk _ _ Hd) as [Hne Hkept]. split; [done|]. eapply kept_wf; [done| |exact Hkept].
    intros p name m Hp Hm. destruct (Hread root p name m Hp Hm) as (d' & Hd' & Hm'). apply (dw_members _ (proj2 (IHr root name _ _ Hd')) _ _ Hm').
  - by apply Complete_wf.
  - by apply Retry_wf.
  - by eapply nextSelect_wf.
Qed.

(** ** What [Next] reads *)

Definition clocked (e : event) : Prop :=
  match e with Completed _ _ completed deferred => 0 < completed ∧ map_Forall (λ _ t, 0 < t) deferred | _ => True end.
(** Events that leave the members of the root as they were: none settles it before
    its entry is replaced. *)
Fixpoint undisturbed (root : string) (events : list event) : Prop :=
  match events with
  | [] => True
  | Installed _ :: _ => True
  | Completed dataset _ _ _ :: events => dataset ≠ root ∧ undisturbed root events
  | Retried dataset _ :: events => dataset ≠ root ∧ undisturbed root events
  | Selected _ _ :: events => undisturbed root events
  end.

Lemma happen_wf s e : clocked e → (∀ next, e ≠ Installed next) → scheduler_wf s → scheduler_wf (happen s e).
Proof.
  intros He Hi Hwf. destruct e as [dataset due completed deferred|dataset notBefore|order now|next]; cbn [happen].
  - destruct He. by apply Complete_wf.
  - by apply Retry_wf.
  - destruct (nextSelect s order now) as [[[[? ?] ?] s']|] eqn:E; [|done]. by eapply nextSelect_wf.
  - by destruct (Hi next).
Qed.

(** Only an install replaces the entry of a root. *)
Lemma happen_root s e root item : (∀ next, e ≠ Installed next) → s !! root = Some item →
  ∃ item', happen s e !! root = Some item' ∧ dl_order item' = dl_order item ∧ (undisturbed root [e] → dl_members item' = dl_members item).
Proof.
  intros Hi Hs. destruct e as [dataset due completed deferred|dataset notBefore|order now|next]; cbn [happen undisturbed].
  - unfold Complete. destruct (decide (dataset = root)) as [->|Hne]; [rewrite Hs, lookup_insert_eq; eexists; by split_and!; [..|intros [? _]]|].
    exists item. destruct (s !! dataset); by rewrite ?lookup_insert_ne.
  - unfold Retry. destruct (decide (dataset = root)) as [->|Hne]; [rewrite Hs, lookup_insert_eq; eexists; by split_and!; [..|intros [? _]]|].
    exists item. destruct (s !! dataset); by rewrite ?lookup_insert_ne.
  - destruct (nextSelect s order now) as [[[[selected at_] copy] s']|] eqn:E; [|by exists item].
    apply nextSelect_Some in E as (_ & _ & d & Hd & _ & ->). destruct (decide (selected = root)) as [->|Hne].
    + rewrite lookup_insert_eq. eexists. split; [done|]. by replace d with item by congruence.
    + rewrite lookup_insert_ne by done. by exists item.
  - by destruct (Hi next).
Qed.

(** The map keeps its keys and stays well formed, and an undisturbed one its
    contents. *)
Lemma sharedMembers_spec root events : ∀ s item, Forall clocked events → scheduler_wf s → s !! root = Some item →
  let members := sharedMembers s root (dl_members item) events in
  (∀ name, name ∈ dl_order item ↔ is_Some (members !! name)) ∧ map_Forall (λ _ m, member_wf m) members ∧
  (undisturbed root events → members = dl_members item).
Proof.
  induction events as [|e events IH]; intros s item Hc Hwf Hs; cbv zeta.
  { destruct (Hwf _ _ Hs) as [_ [? ?]]. done. }
  apply Forall_cons in Hc as [He Hc].
  assert ((∃ next, e = Installed next) ∨ ∀ next, e ≠ Installed next) as [[next ->]|Hi] by (destruct e; eauto).
  { destruct (Hwf _ _ Hs) as [_ [? ?]]. done. }
  destruct (happen_root s e root item Hi Hs) as (item' & Hs' & Ho & Hm).
  destruct (IH _ _ Hc (happen_wf s e He Hi Hwf) Hs') as (H1 & H2 & H3). rewrite Ho in H1.
  assert (sharedMembers s root (dl_members item) (e :: events) = sharedMembers (happen s e) root (dl_members item') events) as ->.
  { cbn [sharedMembers]. rewrite Hs'. destruct e; try done. by destruct (Hi next). }
  split_and!; [done..|]. intros Hu. assert (undisturbed root [e] ∧ undisturbed root events) as [U1 U2].
  { destruct e as [| | |next]; cbn in *; [tauto..|by destruct (Hi next)]. }
  by rewrite H3, Hm.
Qed.

(** The members due when a root fires at [fired]. *)
Definition dueAt (d : deadline) (fired : Time) (due : list string) : Prop :=
  match dl_replicate d with
  | Some members => (earliest d ≤ fired → due = sm_Dataset <$> members) ∧ (fired < earliest d → due = [])
  | None => ∀ name, name ∈ due ↔ ∃ m, dl_members d !! name = Some m ∧ md_next m ≤ fired
  end.

Lemma schedule_due d dataset fired :
  deadline_wf d → 0 < fired → dueAt d fired (sch_Due (schedule d dataset fired)) ∧ (earliest d ≤ fired → sch_Due (schedule d dataset fired) ≠ []).
Proof.
  intros Hwf Hf. assert (IsZero fired = false) as Hz by (unfold IsZero, zeroTime; lia). unfold schedule, dueAt, allMembers.
  destruct (dl_replicate d) as [members|] eqn:Er; cbn [sch_Due].
  - rewrite Hz. cbn [negb andb]. assert (members ≠ []) by (intros ->; by destruct (dw_replicate _ Hwf)).
    destruct (Z.ltb_spec fired (earliest d)); cbn [negb]; (split; [split; [try done; lia|try done; lia]|]); [lia|]. by destruct members.
  - assert (∀ name, name ∈ filter (λ name, IsZero fired = false ∧ (fired <? md_next (memberOf d name)) = false) (dl_order d) ↔
      ∃ m, dl_members d !! name = Some m ∧ md_next m ≤ fired) as Hdue.
    { intros name. rewrite list_elem_of_filter, Hz, (dw_order _ Hwf), Z.ltb_ge. unfold memberOf. split.
      - intros [[_ Hn] [m Hm]]. rewrite Hm in Hn. by exists m.
      - intros (m & Hm & Hn). rewrite Hm. split; [done|by eexists]. }
    split; [done|]. intros He. destruct (earliest_spec d Hwf) as (_ & (name & m & Hm & E) & _). intros Hnil.
    apply (not_elem_of_nil name). rewrite <- Hnil. apply Hdue. exists m. split; [done|lia].
Qed.

(** The selection alone: it waits exactly when no root that is not already running
    has a deadline that has passed. *)
Lemma nextSelect_fires s order now : scheduler_wf s → (∀ n, n ∈ order ↔ is_Some (s !! n)) →
  match nextSelect s order now with
  | None => ∀ n d, s !! n = Some d → dl_pending d = true ∨ now < earliest d
  | Some (selected, at_, item, s') => ∃ d, s !! selected = Some d ∧ dl_pending d = false ∧ at_ = earliest d ∧ 0 < at_ ≤ now ∧
      (∀ n d', s !! n = Some d' → dl_pending d' = false → at_ ≤ earliest d') ∧ item = markPending d ∧ s' = <[selected := markPending d]> s
  end.
Proof.
  intros Hr Ho. pose proof (select_spec s order Hr) as Hsel. destruct (nextSelect s order now) as [[[[name at_] item] s']|] eqn:E.
  - apply nextSelect_Some in E as (Es & Hn & d & Hd & -> & ->). rewrite Es in Hsel.
    destruct Hsel as [(-> & _)|(d' & Hd' & Hp & -> & Hpos & Hmin)]; [by destruct (Hr _ _ Hd)|]. assert (d' = d) as -> by congruence.
    exists d. split_and!; [done..| |done|done]. intros n d' Hn'. apply (Hmin n); [apply Ho; by eexists|done].
  - unfold nextSelect in E. destruct (select s order) as [name at_]. intros n d Hd. destruct (dl_pending d) eqn:Hp; [by left|right].
    assert (n ∈ order) as Hin by (apply Ho; by eexists).
    destruct Hsel as [(_ & _ & Hall)|(d' & Hd' & _ & -> & Hpos & Hmin)]; [specialize (Hall _ _ Hin Hd); congruence|].
    specialize (Hmin _ _ Hin Hd Hp). destruct (String.eqb_spec name "") as [->|]; [by destruct (Hr _ _ Hd')|].
    destruct (Z.leb_spec (earliest d') now); [by rewrite Hd' in E|lia].
Qed.

(** C36: in every state a scheduler can reach, a round of [Next] fires a root
    exactly when some root that is not already running has a deadline that has
    passed. It fires one whose deadline is earliest and marks only it as running;
    whatever other goroutines do after that is kept. The schedule is made after
    the lock is released, from the map the entry shares with the scheduler: it
    names as due exactly the members whose own deadline has passed in that map, or
    all of them under one recursive stream whose deadline has passed. The map has
    the members of the selection, and unless the root was settled in the meantime
    their deadlines too; then at least one member is due. The times completions
    are reported with lie after the zero time. *)
Theorem Next_fires s order now events fired :
  schedReach s → (∀ n, n ∈ order ↔ is_Some (s !! n)) → Forall clocked events →
  match Next s order now events fired with
  | None => ∀ n d, s !! n = Some d → dl_pending d = true ∨ now < earliest d
  | Some (sch, s') => ∃ d, s !! sch_Dataset sch = Some d ∧ dl_pending d = false ∧ earliest d ≤ now ∧
      (∀ n d', s !! n = Some d' → dl_pending d' = false → earliest d ≤ earliest d') ∧
      let marked := <[sch_Dataset sch := markPending d]> s in
      let members := sharedMembers marked (sch_Dataset sch) (dl_members d) events in
      s' = fold_left happen events marked ∧
      (∀ name, is_Some (members !! name) ↔ is_Some (dl_members d !! name)) ∧
      dueAt (readMembers d members) (Z.max fired (earliest d)) (sch_Due sch) ∧
      (undisturbed (sch_Dataset sch) events → members = dl_members d ∧ sch_Due sch ≠ [])
  end.
Proof.
  intros Hr%schedReach_wf Ho Hc. pose proof (nextSelect_fires s order now Hr Ho) as Hsel. unfold Next.
  destruct (nextSelect s order now) as [[[[name at_] item] s1]|] eqn:E; [|done]. destruct Hsel as (d & Hd & Hp & -> & [Hpos Hnow] & Hmin & -> & ->).
  cbn [dl_members markPending]. set (members := sharedMembers _ name (dl_members d) events). unfold nextFire.
  assert (∀ x t, sch_Dataset (schedule x name t) = name) as -> by (intros; unfold schedule; by destruct (dl_replicate _)).
  exists d. fold members. destruct (Hr _ _ Hd) as [_ Hwf].
  destruct (sharedMembers_spec name events (<[name := markPending d]> s) (markPending d) Hc) as (H1 & H2 & H3);
    [by eapply nextSelect_wf|apply lookup_insert_eq|]. change (dl_members (markPending d)) with (dl_members d) in *. fold members in H1, H2, H3.
  replace (if fired <? earliest d then earliest d else fired) with (Z.max fired (earliest d)) by (destruct (Z.ltb_spec fired (earliest d)); lia).
  assert (deadline_wf (readMembers (markPending d) members)) as Hwf' by (destruct Hwf; by split).
  destruct (schedule_due (readMembers (markPending d) members) name (Z.max fired (earliest d)) Hwf' ltac:(lia)) as [D1 D2].
  split_and!; [done..| |done|]; [intros n; by rewrite <- H1, <- (dw_order _ Hwf)|]. intros Hu. specialize (H3 Hu). split; [done|]. apply D2.
  unfold earliest at 1. cbn [readMembers dl_members]. rewrite H3. unfold earliest. lia.
Qed.

(** An update keeps what it may of the schedule. A root that stays scheduled
    keeps being marked as running; each member keeps its deadline exactly while
    its cadence is unchanged and is due at once otherwise, as is every member of a
    new root; and the roots reported as active and removed are those the schedule
    now has and no longer has. *)
Theorem Update_keeps s entries now active removed s' :
  Update s entries now = Ok (active, removed, s') →
  (∀ root, root ∈ active ↔ is_Some (s' !! root)) ∧
  (∀ root, root ∈ removed ↔ is_Some (s !! root) ∧ s' !! root = None) ∧
  ∀ root d', s' !! root = Some d' →
    dl_pending d' = (match s !! root with Some d => dl_pending d | None => false end) ∧
    ∀ name m', dl_members d' !! name = Some m' →
      0 < md_cadence m' ∧
      md_next m' = match s !! root ≫= λ d, dl_members d !! name with
                   | Some m => if md_cadence m =? md_cadence m' then md_next m else now
                   | None => now
                   end.
Proof.
  unfold Update. destruct (IsZero now); [done|]. pose proof (updateItems_spec entries (λ root, s !! root) now) as [Ha Hk].
  destruct (updateItems entries (λ root, s !! root) now) as [next act]. cbn [fst snd] in *. unfold updateInstall. intros [= <- <- <-]. split_and!.
  - intros root. by rewrite elem_of_SortStrings.
  - intros root. rewrite elem_of_SortStrings, elem_of_elements, elem_of_difference, !elem_of_dom, eq_None_not_Some. done.
  - intros root d' Hd'. destruct (Hk _ _ Hd') as [_ [_ Hm _ _ Hp]]. split; [done|]. intros name m' Hm'. apply (Hm _ _ Hm').
Qed.

(** C39: A completion between an update's read of the previous deadline and its
    install is lost: the completion clears the mark of the running root, and the
    root the update installs carries it again, so no selection fires it. *)
Theorem Update_loses_Complete s entries now root d due completed deferred :
  s !! root = Some d → dl_pending d = true →
  let '(next, active) := updateItems entries (λ r, s !! r) now in
  let settled := Complete s root due completed deferred in
  let installed := (updateInstall settled next active).2 in
  (∃ d1, settled !! root = Some d1 ∧ dl_pending d1 = false) ∧
  ∀ d2, installed !! root = Some d2 → dl_pending d2 = true.
Proof.
  intros Hd Hp. pose proof (updateItems_spec entries (λ r, s !! r) now) as [_ Hk]. destruct (updateItems _ _ _) as [next active]. cbn [fst] in Hk.
  cbv zeta. split.
  - unfold Complete. rewrite Hd. eexists. by rewrite lookup_insert_eq.
  - cbn [updateInstall snd]. intros d2 Hd2. destruct (Hk _ _ Hd2) as [_ []]. by rewrite kd_pending0, Hd.
Qed.

Module SampleSchedule.
Definition now : Time := SampleScan.now.
Definition entries : list Entry := Entries SampleScan.generation.
Definition items : deadlines * list string := updateItems entries (λ root, NewScheduler !! root) now.
Definition scheduled : deadlines := (updateInstall NewScheduler items.1 items.2).2.
Lemma reached : schedReach scheduled.
Proof.
  refine (reach_update NewScheduler entries (λ root, NewScheduler !! root) (λ _ _, NewScheduler) now reach_new (λ _ _, reach_new) _ _); [done|].
  intros root p name m Hp. cbn beta in Hp. unfold NewScheduler in Hp. by rewrite lookup_empty in Hp.
Qed.
Lemma names n : n ∈ ["tank/data"; "tank/web"] ↔ is_Some (scheduled !! n).
Proof.
  rewrite <- elem_of_dom. assert (dom scheduled = ({["tank/data"; "tank/web"]} : gset string)) as -> by (apply (bool_decide_unpack _); by vm_compute).
  set_solver.
Qed.
Lemma updated : Update NewScheduler entries now = Ok (["tank/data"; "tank/web"], [], scheduled).
Proof.
  unfold Update. change (IsZero now) with false. cbn [negb]. change (updateItems entries _ now) with items.
  assert (updateInstall NewScheduler items.1 items.2 = (["tank/data"; "tank/web"], [], scheduled)) as E; [|by destruct items; rewrite <- E].
  reflexivity.
Qed.
Definition order : list string := ["tank/data"; "tank/web"].
(** The first root fires with both its members due. *)
Lemma fires : sch_Due <$> (fst <$> Next scheduled order now [] now) = Some ["tank/data"; "tank/data/home"].
Proof. by vm_compute. Qed.
(** With one of them settled before the schedule is made, the other is due. *)
Definition settled : event := Completed "tank/data" ["tank/data"] now ∅.
Lemma fires_settled : sch_Due <$> (fst <$> Next scheduled order now [settled] now) = Some ["tank/data/home"].
Proof. by vm_compute. Qed.
(** What happens to another root, or after an install, is not seen. *)
Definition elsewhere : list event := [Completed "tank/web" ["tank/web"] now ∅; Installed ∅; settled].
Lemma happens_elsewhere : Forall clocked elsewhere.
Proof. repeat constructor; apply map_Forall_empty. Qed.
Lemma untouched : undisturbed "tank/data" elsewhere.
Proof. by split. Qed.
End SampleSchedule.

Lemma Next_fires_witness : ∃ d sch s', SampleSchedule.scheduled !! "tank/data" = Some d ∧ dl_pending d = false ∧
  Next SampleSchedule.scheduled SampleSchedule.order SampleSchedule.now SampleSchedule.elsewhere SampleSchedule.now = Some (sch, s') ∧ sch_Due sch ≠ [].
Proof.
  pose proof (Next_fires SampleSchedule.scheduled SampleSchedule.order SampleSchedule.now SampleSchedule.elsewhere SampleSchedule.now
    SampleSchedule.reached SampleSchedule.names SampleSchedule.happens_elsewhere) as H.
  assert (sch_Dataset <$> (fst <$> Next SampleSchedule.scheduled SampleSchedule.order SampleSchedule.now SampleSchedule.elsewhere SampleSchedule.now)
    = Some "tank/data") as Hs by by vm_compute.
  destruct (Next _ _ _ _ _) as [[sch s']|]; [|discriminate Hs]. injection Hs as En. destruct H as (d & H1 & H2 & _ & _ & _ & _ & _ & H3).
  rewrite En in H1, H3. exact (ex_intro _ d (ex_intro _ sch (ex_intro _ s' (conj H1 (conj H2 (conj eq_refl (proj2 (H3 SampleSchedule.untouched)))))))).
Defined.

Lemma Update_keeps_witness : ∀ root, root ∈ ["tank/data"; "tank/web"] ↔ is_Some (SampleSchedule.scheduled !! root).
Proof.
  destruct (Update_keeps NewScheduler SampleSchedule.entries SampleSchedule.now _ _ _ SampleSchedule.updated) as [H _]. exact H.
Defined.

(** The race on the sample pool: the root fires, its completion settles, and the
    update that read before the completion installs it as running. *)
Module SampleRace.
Definition running : deadlines :=
  match nextSelect SampleSchedule.scheduled SampleSchedule.order SampleSchedule.now with
  | Some (_, s) => s
  | None => ∅
  end.
Definition raced (settle : deadlines → deadlines) : deadlines :=
  let '(next, active) := updateItems SampleSchedule.entries (λ root, running !! root) SampleSchedule.now in
  (updateInstall (settle running) next active).2.
End SampleRace.

Lemma Update_loses_Complete_witness :
  ∃ d, SampleRace.raced (λ s, Complete s "tank/data" ["tank/data"] SampleSchedule.now ∅) !! "tank/data" = Some d ∧ dl_pending d = true.
Proof.
  assert (∃ d, SampleRace.running !! "tank/data" = Some d ∧ dl_pending d = true) as (d & Hd & Hp).
  { assert (dl_pending <$> SampleRace.running !! "tank/data" = Some true) as H by by vm_compute.
    destruct (SampleRace.running !! "tank/data") as [d|]; [|discriminate H]. exists d. split; [reflexivity|]. by injection H. }
  pose proof (Update_loses_Complete SampleRace.running SampleSchedule.entries SampleSchedule.now "tank/data" d ["tank/data"]
    SampleSchedule.now ∅ Hd Hp) as H.
  assert (is_Some (SampleRace.raced (λ s, Complete s "tank/data" ["tank/data"] SampleSchedule.now ∅) !! "tank/data")) as [d2 Hd2].
  { apply (bool_decide_unpack _). by vm_compute. }
  exists d2. split; [exact Hd2|]. unfold SampleRace.raced in Hd2. destruct (updateItems _ _ _) as [next active]. by apply H.
Defined.
