(* ===== verification/Inactive.v ===== *)
(** Inactive source roots: the durable marker, its grace period and the
    transitions of internal/lifecycle/inactive.go. Retirement itself, which runs
    a clean, is in Clean.v. *)

From Stdlib Require Import Ascii.
From S2P Require Import Prelude GoStrings GoTime Rfc3339 Json Names Zfs Ownership Prune Policy Authority Reference Backend Service Proofs.

Definition inactiveMarkerVersion : Z := 1.
Definition InactiveProperty : string := StateNamespace +:+ "inactive".

Record InactiveMarker := mkMarker {
  im_Version : Z;
  im_Since : string;
  im_DatasetGUID : Z;
  im_Lineage : string;
  im_Owner : string
}.

Record InactivePlan := mkInactive {
  ip_Dataset : string;
  ip_Active : bool;
  ip_Marker : option InactiveMarker;
  ip_Action : string;
  ip_Deadline : option Time;
  ip_Due : bool;
  ip_Automatic : bool;
  ip_Applied : bool
}.

#[export] Instance InactiveMarker_eq_dec : EqDecision InactiveMarker.
Proof. solve_decision. Defined.

(** * Reading the marker *)

Definition guidRow (dataset : string) (guid : Z) (o : Object) : result Z :=
  if negb (ob_Name o =? dataset)%string || negb (isDataset o) then Ok guid
  else if negb (guid =? 0) || (ob_GUID o =? 0) then Err (Errorf "inactive source identity is ambiguous or incomplete")
  else Ok (ob_GUID o).
Definition exactDatasetGUID (state : State) (dataset : string) : result Z :=
  guid ← foldM (guidRow dataset) 0 (Objects state);
  if guid =? 0 then Err (Errorf "inactive source dataset is missing") else Ok guid.

Definition markerFields : list (fieldDecoder InactiveMarker) :=
  [field "version" decodeInt (λ v m, mkMarker v (im_Since m) (im_DatasetGUID m) (im_Lineage m) (im_Owner m));
   field "since" decodeString (λ v m, mkMarker (im_Version m) v (im_DatasetGUID m) (im_Lineage m) (im_Owner m));
   field "dataset_guid" decodeUint64 (λ v m, mkMarker (im_Version m) (im_Since m) v (im_Lineage m) (im_Owner m));
   field "lineage" decodeString (λ v m, mkMarker (im_Version m) (im_Since m) (im_DatasetGUID m) v (im_Owner m));
   field "owner" decodeString (λ v m, mkMarker (im_Version m) (im_Since m) (im_DatasetGUID m) (im_Lineage m) v)].

(** Strict decoding of one value with nothing but space after it: the second
    [Decode] must report the end of the input. *)
Definition decodeMarker (value : string) : option InactiveMarker :=
  '(v, rest) ← DecodeValue value;
  m ← decodeStruct markerFields true (mkMarker 0 "" 0 "" "") v;
  match skipSpace rest with "" => Some m | _ => None end.

Definition markerRow (dataset : string) (marker : option InactiveMarker) (p : Property) : result (option InactiveMarker) :=
  if negb (pr_Dataset p =? dataset)%string || negb (pr_Name p =? InactiveProperty)%string || negb (pr_Source p =? SourceLocal)%string
  then Ok marker
  else match marker with
       | Some _ => Err (Errorf "inactive marker must be unambiguous")
       | None =>
         match decodeMarker (pr_Value p) with
         | None => Err (Errorf "invalid inactive marker")
         | Some decoded => Ok (Some decoded)
         end
       end.
Definition decodeInactiveMarker (state : State) (dataset : string) : result (option InactiveMarker) :=
  foldM (markerRow dataset) None (Properties state).

Definition validateInactiveMarker (marker : InactiveMarker) (guid : Z) (lineage installation : string) : result Time :=
  let mismatch := Err (Errorf "inactive marker does not match current source authority") in
  match ParseRFC3339 (im_Since marker) with
  | None => mismatch
  | Some since =>
    if negb (im_Version marker =? inactiveMarkerVersion) || negb (im_DatasetGUID marker =? guid)
       || negb (im_Lineage marker =? lineage)%string || negb (im_Owner marker =? installation)%string
       || negb (im_Since marker =? FormatRFC3339Nano since)%string
    then mismatch else Ok since
  end.

(** [json.Marshal] of a marker. *)
Definition marshalMarker (m : InactiveMarker) : string :=
  objectText [("version", Itoa (im_Version m)); ("since", encodeString (im_Since m)); ("dataset_guid", Itoa (im_DatasetGUID m));
              ("lineage", encodeString (im_Lineage m)); ("owner", encodeString (im_Owner m))].

(** * The plan *)

(** What an error returns beside it. *)
Definition newInactivePlan (dataset : string) (active : bool) (grace : Duration) : InactivePlan :=
  mkInactive dataset active None "" None false (0 <? grace) false.

Definition inactivePlan (state : State) (dataset installation : string) (active : bool) (observedAt : Time) (grace : Duration)
  : result InactivePlan :=
  let plan := newInactivePlan dataset active grace in
  _ ← ValidateDataset dataset;
  if IsZero observedAt || (Year observedAt <? 1) || (9999 <? Year observedAt) || (grace <? 0)
  then Err (Errorf "valid inactive observation time and nonnegative grace period required") else
  found ← decodeInactiveMarker state dataset;
  if bool_decide (found = None) && active then Ok plan else
  lineage ← RootAuthority state dataset installation;
  guid ← exactDatasetGUID state dataset;
  match found with
  | None =>
    let created := mkMarker inactiveMarkerVersion (FormatRFC3339Nano observedAt) guid lineage installation in
    Ok (mkInactive dataset active (Some created) "set-inactive-marker" (if 0 <? grace then Some (observedAt + grace) else None)
          false (0 <? grace) false)
  | Some marker =>
    since ← validateInactiveMarker marker guid lineage installation;
    if active then Ok (mkInactive dataset active (Some marker) "clear-inactive-marker" None false (0 <? grace) false)
    else if 0 <? grace
    then Ok (mkInactive dataset active (Some marker) "" (Some (since + grace)) (negb (observedAt <? since + grace)) true false)
    else Ok (mkInactive dataset active (Some marker) "" None false false false)
  end.

(** The loop of [locallyActive]: the nearest ancestor so far, its value and the
    datasets seen. *)
Definition enabledProperty : string := Namespace +:+ "enabled".
Definition activeRow (dataset : string) (st : string * string * gset string) (p : Property) : result (string * string * gset string) :=
  let '(nearest, value, seen) := st in
  if negb (pr_Name p =? enabledProperty)%string || negb (pr_Source p =? SourceLocal)%string
     || (negb (pr_Dataset p =? dataset)%string && negb (HasPrefix dataset (pr_Dataset p +:+ "/")))
  then Ok st
  else if bool_decide (pr_Dataset p ∈ seen) || (negb (pr_Value p =? "on")%string && negb (pr_Value p =? "off")%string)
  then Err (Errorf "inactive source activation is ambiguous or invalid")
  else
    let '(nearest, value) :=
      if (String.length nearest <? String.length (pr_Dataset p))%nat then (pr_Dataset p, pr_Value p) else (nearest, value) in
    Ok (nearest, value, {[pr_Dataset p]} ∪ seen).
Definition locallyActive (properties : list Property) (dataset : string) : result bool :=
  '(_, value, _) ← foldM (activeRow dataset) ("", "off", ∅) properties; Ok (value =? "on")%string.

(** * ReconcileInactive *)

(** The write of a transition; [clears] says whether the backend implements
    [inactiveBackend]. *)
Definition inactiveWrite (clears : bool) (dataset : string) (plan : InactivePlan) : prog (result unit) :=
  if (ip_Action plan =? "set-inactive-marker")%string then
    match ip_Marker plan with
    | Some marker => call (SetProperties dataset {[InactiveProperty := marshalMarker marker]})
    | None => call (SetProperties dataset {[InactiveProperty := "null"]})
    end
  else if (ip_Action plan =? "clear-inactive-marker")%string then
    if clears then call (InheritProperty dataset InactiveProperty)
    else Ret (Err (Errorf "inactive marker clearing is unavailable"))
  else Ret (Err (Errorf "unknown inactive transition")).

Definition inactiveVerified (s : Service) (state after : State) (dataset : string) (active : bool) (observedAt : Time) (grace : Duration)
  : result unit :=
  match inactivePlan after dataset (sv_installation s) active observedAt grace with
  | Ok verified =>
    if (ip_Action verified =? "")%string && bool_decide (datasetObjects state = datasetObjects after) then Ok tt
    else Err (Errorf "inactive marker transition could not be verified")
  | Err _ => Err (Errorf "inactive marker transition could not be verified")
  end.

Definition inactiveApply (s : Service) (clears : bool) (state : State) (plan : InactivePlan) (dataset : string) (active : bool)
    (observedAt : Time) (grace : Duration) : prog (result unit) :=
  _ ⇐? unchanged dataset false state;
  _ ⇐? inactiveWrite clears dataset plan;
  after ⇐? call (InspectState dataset false);
  Ret (inactiveVerified s state after dataset active observedAt grace).

Definition withApplied (plan : InactivePlan) : InactivePlan :=
  mkInactive (ip_Dataset plan) (ip_Active plan) (ip_Marker plan) (ip_Action plan) (ip_Deadline plan) (ip_Due plan) (ip_Automatic plan) true.

Definition ReconcileInactive (s : Service) (clears : bool) (dataset : string) (active : bool) (observedAt : Time) (grace : Duration) (apply : bool)
  : prog (InactivePlan * option error) :=
  let bare := mkInactive dataset active None "" None false false false in
  locked (λ e, (bare, Some e)) dataset (
    r ⇐ call (InspectState dataset false);
    match r with
    | Err e => Ret (bare, Some e)
    | Ok state =>
      match inactivePlan state dataset (sv_installation s) active observedAt grace with
      | Err e => Ret (newInactivePlan dataset active grace, Some e)
      | Ok plan =>
        if negb apply || (ip_Action plan =? "")%string then Ret (plan, None) else
        done ⇐ inactiveApply s clears state plan dataset active observedAt grace;
        Ret (match done with Ok _ => (withApplied plan, None) | Err e => (plan, Some e) end)
      end
    end).

(** * A marker reads back *)

(** A marker whose text needs no escaping and whose numbers fit their fields. *)
Definition storable (m : InactiveMarker) : Prop :=
  0 ≤ im_Version m < 2 ^ 63 ∧ 0 ≤ im_DatasetGUID m < 2 ^ 64 ∧ plain (im_Since m) ∧ plain (im_Lineage m) ∧ plain (im_Owner m).

Lemma decodeMarker_marshal m : storable m → decodeMarker (marshalMarker m) = Some m.
Proof.
  intros (Hv & Hg & Hs & Hl & Ho). unfold decodeMarker, marshalMarker.
  rewrite (DecodeValue_objectText _ [JNumber (Itoa (im_Version m)); JString (im_Since m) (im_Since m); JNumber (Itoa (im_DatasetGUID m));
    JString (im_Lineage m) (im_Lineage m); JString (im_Owner m) (im_Owner m)]); [|done|].
  2: { repeat constructor; first [apply reads_number; lia | by apply reads_string]. }
  cbn [mbind option_bind]. unfold decodeStruct. cbn [fmap list_fmap fst zip zip_with fold_left].
  erewrite decodeMember_int by (done || reflexivity). erewrite decodeMember_text by reflexivity.
  erewrite decodeMember_uint by (done || reflexivity). do 2 erewrite decodeMember_text by reflexivity. by destruct m.
Qed.

Lemma ValidID_plain id : ValidID id = true → plain id.
Proof.
  intros H%MatchString_Forall2. unfold plain.
  assert (Forall (λ c : ascii → bool, ∀ a, c a = true → plainByte a = true) Identity.uuidPattern) as Hp.
  { unfold Identity.uuidPattern. repeat constructor; intros [[] [] [] [] [] [] [] []]; by vm_compute. }
  induction H as [|c a cs l Hc _ IH]; [constructor|]. apply Forall_cons in Hp as [Hp Hps]. constructor; [by apply Hp|by apply IH].
Qed.

(** The local rows of the marker decide what it decodes to. *)
Definition markerRows (state : State) (dataset : string) : list Property :=
  filter (λ p, pr_Dataset p = dataset ∧ pr_Name p = InactiveProperty ∧ pr_Source p = SourceLocal) (Properties state).

Lemma markerRow_eq dataset found p : markerRow dataset found p =
  if decide (pr_Dataset p = dataset ∧ pr_Name p = InactiveProperty ∧ pr_Source p = SourceLocal) then
    match found with
    | Some _ => Err (Errorf "inactive marker must be unambiguous")
    | None => match decodeMarker (pr_Value p) with None => Err (Errorf "invalid inactive marker") | Some m => Ok (Some m) end
    end
  else Ok found.
Proof.
  unfold markerRow. destruct (String.eqb_spec (pr_Dataset p) dataset), (String.eqb_spec (pr_Name p) InactiveProperty),
    (String.eqb_spec (pr_Source p) SourceLocal); cbn [negb orb]; case_decide; done || tauto.
Qed.

Lemma markerRows_fold dataset props : ∀ found,
  foldM (markerRow dataset) found props
  = foldM (markerRow dataset) found (filter (λ p, pr_Dataset p = dataset ∧ pr_Name p = InactiveProperty ∧ pr_Source p = SourceLocal) props).
Proof.
  apply foldM_filter. intros found p Hp. by rewrite markerRow_eq, decide_False.
Qed.

Lemma decodeInactiveMarker_one state dataset m :
  markerRows state dataset = [localRow dataset InactiveProperty (marshalMarker m)] → storable m →
  decodeInactiveMarker state dataset = Ok (Some m).
Proof.
  intros Hr Hm. unfold decodeInactiveMarker. rewrite markerRows_fold. unfold markerRows in Hr. rewrite Hr. cbn [foldM].
  rewrite markerRow_eq, decide_True by done. cbn [pr_Value localRow]. by rewrite decodeMarker_marshal.
Qed.

Lemma markerRow_some dataset props : ∀ m found, foldM (markerRow dataset) (Some m) props = Ok found → found = Some m.
Proof.
  induction props as [|p props IH]; intros m found; cbn [foldM]; [by intros [= <-]|]. rewrite markerRow_eq.
  case_decide; [done|]. apply IH.
Qed.

Lemma decodeInactiveMarker_none state dataset : decodeInactiveMarker state dataset = Ok None → markerRows state dataset = [].
Proof.
  unfold decodeInactiveMarker. rewrite markerRows_fold. unfold markerRows. set (l := filter _ _). intros H.
  assert (Forall (λ p, pr_Dataset p = dataset ∧ pr_Name p = InactiveProperty ∧ pr_Source p = SourceLocal) l) as Hl.
  { apply Forall_forall. intros p [Hp _]%list_elem_of_filter. done. }
  destruct l as [|p l]; [done|]. apply Forall_cons in Hl as [Hp _]. cbn [foldM] in H. rewrite markerRow_eq, decide_True in H by done.
  destruct (decodeMarker (pr_Value p)) as [m|]; [|done]. cbn [mbind result_bind] in H. apply markerRow_some in H. done.
Qed.

(** * The grace period *)

Definition observable (t : Time) : Prop := t ≠ zeroTime ∧ 1 ≤ Year t ≤ 9999.

Lemma observable_guard t grace : observable t → 0 ≤ grace →
  IsZero t || (Year t <? 1) || (9999 <? Year t) || (grace <? 0) = false.
Proof. intros [Hz Hy] Hg. unfold IsZero. rewrite !orb_false_iff, Z.eqb_neq. lia. Qed.
Lemma guard_observable t grace : IsZero t || (Year t <? 1) || (9999 <? Year t) || (grace <? 0) = false → observable t ∧ 0 ≤ grace.
Proof. unfold IsZero, observable. rewrite !orb_false_iff, Z.eqb_neq. lia. Qed.

(** The marker a root gets when it is first seen inactive. *)
Definition freshMarker (t : Time) (guid : Z) (lineage installation : string) : InactiveMarker :=
  mkMarker inactiveMarkerVersion (FormatRFC3339Nano t) guid lineage installation.

(** Every successful plan, by the marker found and whether the root is active. *)
Lemma inactivePlan_Ok state dataset installation active t grace p :
  inactivePlan state dataset installation active t grace = Ok p →
  observable t ∧ 0 ≤ grace ∧ ip_Automatic p = (0 <? grace) ∧
  ((decodeInactiveMarker state dataset = Ok None ∧ active = true ∧ ip_Action p = "" ∧ ip_Due p = false) ∨
   ∃ lineage guid, authorized state dataset installation lineage ∧ exactDatasetGUID state dataset = Ok guid ∧
     ((decodeInactiveMarker state dataset = Ok None ∧ active = false ∧ ip_Action p = "set-inactive-marker" ∧ ip_Due p = false ∧
       ip_Marker p = Some (freshMarker t guid lineage installation)) ∨
      ∃ m since, decodeInactiveMarker state dataset = Ok (Some m) ∧ validateInactiveMarker m guid lineage installation = Ok since ∧
        ip_Marker p = Some m ∧
        (if active then ip_Action p = "clear-inactive-marker" ∧ ip_Due p = false
         else ip_Action p = "" ∧ (ip_Due p = true ↔ 0 < grace ∧ since + grace ≤ t)))).
Proof.
  unfold inactivePlan. intros H. apply bind_Ok in H as ([] & _ & H). destruct (_ || _ || _ || _) eqn:Eo; [done|].
  apply guard_observable in Eo as [Ho Hg]. apply bind_Ok in H as (found & Hf & H). rewrite Hf. split; [done|]. split; [done|].
  destruct (bool_decide (found = None) && active) eqn:Ea.
  { apply andb_true_iff in Ea as [->%bool_decide_eq_true ->]. injection H as <-. split; [done|]. by left. }
  apply bind_Ok in H as (lineage & Hl & H). apply bind_Ok in H as (guid & Hgu & H). apply RootAuthority_Ok in Hl.
  destruct found as [m|].
  - apply bind_Ok in H as (since & Hs & H). destruct active; [|destruct (Z.ltb_spec 0 grace)]; injection H as <-; cbn [ip_Automatic];
      (split; [done|]); right; exists lineage, guid; split_and!; try done; right; exists m, since; split_and!; try done.
    all: cbn [ip_Due]; rewrite ?negb_true_iff, ?Z.ltb_ge; split; (done || lia).
  - rewrite bool_decide_true in Ea by done. cbn in Ea. subst active. injection H as <-. split; [done|]. right. exists lineage, guid.
    split_and!; try done. by left.
Qed.

Lemma validate_fresh t guid lineage installation :
  observable t → validateInactiveMarker (freshMarker t guid lineage installation) guid lineage installation = Ok t.
Proof.
  intros [_ Hy]. unfold validateInactiveMarker. cbn [im_Since freshMarker im_Version im_DatasetGUID im_Lineage im_Owner].
  rewrite ParseRFC3339_Format by lia. by rewrite !Z.eqb_refl, !eqb_str_refl.
Qed.

Lemma storable_fresh t guid lineage installation :
  observable t → 0 ≤ guid < 2 ^ 64 → ValidID lineage = true → ValidID installation = true → storable (freshMarker t guid lineage installation).
Proof.
  intros [_ Hy] Hg Hl Hi. split_and!; cbn [freshMarker im_Version im_DatasetGUID im_Since im_Lineage im_Owner]; try (unfold inactiveMarkerVersion; lia).
  - apply plain_RFC3339. lia.
  - by apply ValidID_plain.
  - by apply ValidID_plain.
Qed.

Lemma exactDatasetGUID_range state dataset guid :
  Forall (λ o, 0 ≤ ob_GUID o < 2 ^ 64) (Objects state) → exactDatasetGUID state dataset = Ok guid → 0 ≤ guid < 2 ^ 64.
Proof.
  intros HF H. apply bind_Ok in H as (g & Hg & H). destruct (Z.eqb_spec g 0); [done|]. injection H as <-.
  refine (foldM_inv (λ g, 0 ≤ g < 2 ^ 64) _ _ _ _ _ _ Hg); [|lia]. intros g' o g'' Ho Hr Hs. unfold guidRow in Hs.
  rewrite Forall_forall in HF. specialize (HF o Ho). destruct (_ || _); [by injection Hs as <-|]. destruct (_ || _); [done|].
  by injection Hs as <-.
Qed.

(** The plan of a root that has a marker of its own. *)
Definition markedPlan (dataset : string) (active : bool) (t : Time) (grace : Duration) (m : InactiveMarker) (since : Time) : InactivePlan :=
  if active then mkInactive dataset active (Some m) "clear-inactive-marker" None false (0 <? grace) false
  else if 0 <? grace then mkInactive dataset active (Some m) "" (Some (since + grace)) (negb (t <? since + grace)) true false
  else mkInactive dataset active (Some m) "" None false false false.
Lemma inactivePlan_marked state dataset installation active t grace m lineage guid since :
  ValidateDataset dataset = Ok tt → IsZero t || (Year t <? 1) || (9999 <? Year t) || (grace <? 0) = false →
  decodeInactiveMarker state dataset = Ok (Some m) → RootAuthority state dataset installation = Ok lineage →
  exactDatasetGUID state dataset = Ok guid → validateInactiveMarker m guid lineage installation = Ok since →
  inactivePlan state dataset installation active t grace = Ok (markedPlan dataset active t grace m since).
Proof.
  intros E1 E2 E3 E4 E5 E6. unfold inactivePlan. rewrite E1. cbn [mbind result_bind]. rewrite E2, E3. cbn [mbind result_bind].
  rewrite bool_decide_false by done. cbn [andb]. rewrite E4. cbn [mbind result_bind]. rewrite E5. cbn [mbind result_bind]. rewrite E6.
  unfold markedPlan. by destruct active, (0 <? grace).
Qed.

(** C34: the grace period of an inactive root runs from the first observation
    that found it inactive, however often it is observed and whatever grace is
    configured later. Once the marker such an observation plans is the root's
    only local marker, and its authority and identity are as they were, every
    later observation plans no transition while the root stays inactive, says it
    is due exactly when a positive grace has passed since that first observation,
    and plans to clear the marker when the root is active. *)
Theorem inactive_grace state after dataset installation t0 grace0 p m t grace :
  inactivePlan state dataset installation false t0 grace0 = Ok p → ip_Action p = "set-inactive-marker" → ip_Marker p = Some m →
  Forall (λ o, 0 ≤ ob_GUID o < 2 ^ 64) (Objects state) →
  markerRows after dataset = [localRow dataset InactiveProperty (marshalMarker m)] →
  RootAuthority after dataset installation = RootAuthority state dataset installation →
  exactDatasetGUID after dataset = exactDatasetGUID state dataset → observable t → 0 ≤ grace →
  (∃ q, inactivePlan after dataset installation false t grace = Ok q ∧ ip_Action q = "" ∧ ip_Marker q = Some m ∧
     (ip_Due q = true ↔ 0 < grace ∧ t0 + grace ≤ t)) ∧
  (∃ q, inactivePlan after dataset installation true t grace = Ok q ∧ ip_Action q = "clear-inactive-marker").
Proof.
  intros Hp Ha Hm Hg Hrows Hauth Hguid Ho Hgr. apply inactivePlan_Ok in Hp as (Ho0 & _ & _ & [(_ & ? & _)|(lineage & guid & Hl & Hgu & H)]); [done|].
  destruct H as [(_ & _ & _ & _ & Hm')|(? & ? & _ & _ & _ & [Ha' _])]; [|by rewrite Ha' in Ha]. rewrite Hm' in Hm. injection Hm as <-.
  assert (storable (freshMarker t0 guid lineage installation)) as Hst.
  { destruct Hl as (Hi & Hl & _). apply storable_fresh; [done| |done..]. by eapply exactDatasetGUID_range. }
  pose proof (decodeInactiveMarker_one _ _ _ Hrows Hst) as Hd. pose proof (RootAuthority_complete _ _ _ _ Hl) as Hl'.
  rewrite Hl' in Hauth. rewrite Hgu in Hguid. destruct Hl as (_ & _ & Hv & _).
  pose proof (validate_fresh t0 guid lineage installation Ho0) as Hva. split.
  - eexists. split; [by apply (inactivePlan_marked _ _ _ _ _ _ _ _ _ _ Hv (observable_guard _ _ Ho Hgr) Hd Hauth Hguid Hva)|].
    unfold markedPlan. destruct (Z.ltb_spec 0 grace); split_and!; try done; cbn [ip_Due]; rewrite ?negb_true_iff, ?Z.ltb_ge; split; (done || lia).
  - eexists. split; [by apply (inactivePlan_marked _ _ _ _ _ _ _ _ _ _ Hv (observable_guard _ _ Ho Hgr) Hd Hauth Hguid Hva)|done].
Qed.

(** * What a transition's write rests on *)

(** The two writes: the marker of a root first seen inactive, and the removal of
    a marker that is this root's own. *)
Definition inactiveGuard (s : Service) (dataset : string) (active : bool) (t : Time) (pre : list event) (R : Type) (o : op R) : Prop :=
  match o with
  | SetProperties d props => d = dataset ∧ active = false ∧ ∃ state lineage guid, lastRead dataset false state pre ∧
      authorized state dataset (sv_installation s) lineage ∧ exactDatasetGUID state dataset = Ok guid ∧ markerRows state dataset = [] ∧
      props = {[InactiveProperty := marshalMarker (freshMarker t guid lineage (sv_installation s))]}
  | InheritProperty d p => d = dataset ∧ p = InactiveProperty ∧ active = true ∧ ∃ state lineage guid m since, lastRead dataset false state pre ∧
      authorized state dataset (sv_installation s) lineage ∧ exactDatasetGUID state dataset = Ok guid ∧
      decodeInactiveMarker state dataset = Ok (Some m) ∧ validateInactiveMarker m guid lineage (sv_installation s) = Ok since
  | _ => mutates o = false
  end.

Lemma inactiveWrite_always s clears state plan dataset active t grace pre :
  inactivePlan state dataset (sv_installation s) active t grace = Ok plan → lastRead dataset false state pre →
  always (inactiveGuard s dataset active t) pre (inactiveWrite clears dataset plan) (λ _ _, True).
Proof.
  intros Hp Hr. apply inactivePlan_Ok in Hp as (_ & _ & _ & [(_ & _ & Ha & _)|(lineage & guid & Hl & Hg & H)]).
  { unfold inactiveWrite. rewrite Ha. done. }
  destruct H as [(Hn & -> & Ha & _ & Hm)|(m & since & Hd & Hv & Hm & Hact)].
  - unfold inactiveWrite. rewrite Ha, Hm. split; [|done]. split_and!; [done..|]. exists state, lineage, guid.
    split_and!; [done..|by apply decodeInactiveMarker_none|done].
  - destruct active; destruct Hact as [Ha _]; unfold inactiveWrite; rewrite Ha; [|done].
    destruct clears; [|done]. split; [|done]. split_and!; [done..|]. exists state, lineage, guid, m, since. done.
Qed.

(** A reported application has been read back: nothing is left to do. *)
Definition inactiveDone (s : Service) (dataset : string) (active : bool) (t : Time) (grace : Duration) (tr : list event) : Prop :=
  ∃ after q, lastRead dataset false after tr ∧ inactivePlan after dataset (sv_installation s) active t grace = Ok q ∧ ip_Action q = "".

Lemma inactiveApply_always s clears state plan dataset active t grace pre :
  inactivePlan state dataset (sv_installation s) active t grace = Ok plan →
  always (inactiveGuard s dataset active t) pre (inactiveApply s clears state plan dataset active t grace)
    (λ tr r, match r with Ok _ => inactiveDone s dataset active t grace tr | Err _ => True end).
Proof.
  intros Hp. unfold inactiveApply. apply always_bindE. eapply always_mono; [|by apply unchanged_always]. intros tr1 [[]|e]; [|done]. intros Hr.
  apply always_bindE. eapply always_mono; [|by eapply inactiveWrite_always]. intros tr2 [[]|e] _; [|done].
  apply always_bindE, always_call; [done|]. intros [after|e]; [|done]. cbn. unfold inactiveVerified.
  destruct (inactivePlan after _ _ _ _ _) as [q|] eqn:Hq; [|done]. destruct (String.eqb_spec (ip_Action q) "") as [Ha|]; cbn [andb]; [|done].
  destruct (bool_decide _); [|done]. exists after, q. split_and!; [by exists tr2|done|done].
Qed.

Lemma inactivePlan_not_applied state dataset installation active t grace p :
  inactivePlan state dataset installation active t grace = Ok p → ip_Applied p = false.
Proof.
  unfold inactivePlan. intros H. apply bind_Ok in H as ([] & _ & H). destruct (_ || _ || _ || _); [done|].
  apply bind_Ok in H as (found & _ & H). destruct (_ && _); [by injection H as <-|]. apply bind_Ok in H as (lineage & _ & H).
  apply bind_Ok in H as (guid & _ & H). destruct found as [m|]; [|by injection H as <-]. apply bind_Ok in H as (since & _ & H).
  destruct active; [by injection H as <-|]. destruct (0 <? grace); by injection H as <-.
Qed.

Lemma ReconcileInactive_always s clears dataset active t grace (apply_ : bool) pre :
  always (λ pre R o, inactiveGuard s dataset active t pre R o ∧ (mutates o = true → apply_ = true)) pre
    (ReconcileInactive s clears dataset active t grace apply_)
    (λ tr r, ip_Applied r.1 = true → ∃ tr0, tr = tr0 ++ [Event (Unlock dataset) tt] ∧ inactiveDone s dataset active t grace tr0).
Proof.
  apply always_locked; [done..|]. intros tr0. split; [done|]. intros [state|e]; [|done]. cbn [bindP].
  destruct (inactivePlan state _ _ _ _ _) as [plan|] eqn:Hp; [|done]. pose proof (inactivePlan_not_applied _ _ _ _ _ _ _ Hp) as Hna.
  destruct apply_; cbn [negb orb]; [|cbn; congruence]. destruct (ip_Action plan =? "")%string; [cbn; congruence|].
  apply always_bind. eapply always_mono; [|eapply always_weaken; [|by apply inactiveApply_always]; by intros].
  intros tr [[]|e] H; cbn; [|congruence]. intros _. by exists tr.
Qed.

(** Reconciling an inactive root writes at most its marker, under the
    root's lock and only when applying. It sets a marker only when the read just
    made shows this installation's authority and no local marker, for a root that
    is not active, and the marker names that authority, the dataset's GUID and the
    observation. It removes only a valid marker of this authority, for a root that
    is active. A reported application has been read back as complete. *)
Theorem ReconcileInactive_safe s clears dataset active t grace (apply_ : bool) tr res :
  runs (ReconcileInactive s clears dataset active t grace apply_) tr res →
  (∀ t1 e t2, tr = t1 ++ e :: t2 → eventMutates e = true → apply_ = true ∧ justified (inactiveGuard s dataset active t) t1 e ∧
     ∃ body, tr = Event (Acquire dataset) (Ok tt) :: body ++ [Event (Unlock dataset) tt]) ∧
  (ip_Applied res.1 = true → ∃ tr0, tr = tr0 ++ [Event (Unlock dataset) tt] ∧ inactiveDone s dataset active t grace tr0).
Proof.
  intros Hr. destruct (always_runs _ _ _ tr [] _ Hr (ReconcileInactive_always s clears dataset active t grace apply_ [])) as [HQ Hj].
  split; [|exact HQ]. intros t1 e t2 E Hm. specialize (Hj t1 e t2 E). rewrite app_nil_l in Hj.
  assert (justified (inactiveGuard s dataset active t) t1 e ∧ apply_ = true) as [Hg Hap].
  { destruct e as [R o r]. destruct Hj as [Hg Ha]. split; [exact Hg|exact (Ha Hm)]. }
  split_and!; [done|done|]. eapply locked_mutation; [exact Hr| |done]. subst tr. apply elem_of_middle.
Qed.

(** * A root that goes inactive *)

Module SampleInactive.
Definition first : Time := Date 2026 8 2 12 0 0 500.
Definition run : prog (InactivePlan * option error) := ReconcileInactive SamplePool.service true "tank/data" false first hour true.
Definition marker : InactiveMarker := freshMarker first 7 witnessLineage SamplePool.installation.
Definition marked : State := (runWith SimPool.answer run SamplePool.state).2.
Definition plan : InactivePlan :=
  mkInactive "tank/data" false (Some marker) "set-inactive-marker" (Some (first + hour)) false true false.

Lemma inactive_planned : inactivePlan SamplePool.state "tank/data" SamplePool.installation false first hour = Ok plan.
Proof. by vm_compute. Qed.
Lemma inactive_applied : ip_Applied (traceWith SimPool.answer run SamplePool.state).2.1 = true.
Proof. by vm_compute. Qed.
End SampleInactive.

Lemma inactive_grace_witness : ∃ q,
  inactivePlan SampleInactive.marked "tank/data" SamplePool.installation false (SampleInactive.first + 2 * hour) (2 * hour) = Ok q ∧ ip_Due q = true.
Proof.
  destruct (inactive_grace SamplePool.state SampleInactive.marked "tank/data" SamplePool.installation SampleInactive.first hour SampleInactive.plan
    SampleInactive.marker (SampleInactive.first + 2 * hour) (2 * hour)) as [(q & Hq & _ & _ & Hd) _].
  - exact SampleInactive.inactive_planned.
  - reflexivity.
  - reflexivity.
  - apply (bool_decide_unpack _). by vm_compute.
  - by vm_compute.
  - by vm_compute.
  - by vm_compute.
  - split; [by vm_compute|]. apply (bool_decide_unpack _). by vm_compute.
  - by vm_compute.
  - exists q. split; [exact Hq|]. apply Hd. split; [by vm_compute|]. apply Z.le_refl.
Defined.

Lemma ReconcileInactive_safe_witness : ∃ tr, inactiveDone SamplePool.service "tank/data" false SampleInactive.first hour tr.
Proof.
  destruct (ReconcileInactive_safe SamplePool.service true "tank/data" false SampleInactive.first hour true _ _
    (traceWith_runs SimPool.answer SampleInactive.run SamplePool.state)) as [_ H].
  destruct (H SampleInactive.inactive_applied) as (tr & _ & Hd). exact (ex_intro _ tr Hd).
Defined.
