(* ===== verification/Clean.v ===== *)
(** Cleaning, forgetting and retiring: internal/lifecycle/clean.go, forget.go and
    [Retire] of inactive.go, as programs over the backend and [CleanSafety].

    A plan is built by the loops of the code in their order. Where the code
    ranges over a map the order only decides the order of blockers or actions,
    which are sorted afterwards. *)

From Stdlib Require Import Ascii.
From S2P Require Import Prelude GoStrings GoTime Names Zfs Ownership Policy Authority Reference Backend Service Proofs Inactive.

Record CleanOptions := mkOptions { co_Recursive : bool; co_DestroyOwnedSnapshots : bool; co_ForgetTargets : list string }.
Definition optionsSubtree (o : CleanOptions) : bool := co_Recursive o || negb (bool_decide (co_ForgetTargets o = [])).

Record CleanAction := mkAction { ca_Operation : string; ca_Object : string; ca_Property : string; ca_GUID : Z }.

Record CleanPlan := mkPlan {
  cp_Dataset : string;
  cp_Options : CleanOptions;
  cp_Actions : list CleanAction;
  cp_Blockers : list string;
  cp_Warnings : list string;
  cp_Applied : Z
}.

Record cleanMode := mkMode { cm_retirement : bool; cm_now : Time; cm_grace : Duration }.
Definition noMode : cleanMode := mkMode false zeroTime 0.

#[export] Instance CleanOptions_eq_dec : EqDecision CleanOptions.
Proof. solve_decision. Defined.
#[export] Instance CleanAction_eq_dec : EqDecision CleanAction.
Proof. solve_decision. Defined.
#[export] Instance CleanPlan_eq_dec : EqDecision CleanPlan.
Proof. solve_decision. Defined.

(** * The order of a plan *)

Definition cleanRank (a : CleanAction) : Z :=
  if (ca_Operation a =? "destroy-bookmark")%string then 0
  else if (ca_Operation a =? "release")%string then 1
  else if (ca_Operation a =? "destroy-snapshot")%string then 2
  else if Contains (ca_Object a) "@" then 3
  else if (ca_Property a =? LineageProperty)%string then 5
  else 4.
Definition cleanLe (a b : CleanAction) : Prop :=
  cleanRank a < cleanRank b ∨ (cleanRank a = cleanRank b ∧
    ((ca_Object a ≠ ca_Object b ∧ String.le (ca_Object a) (ca_Object b)) ∨
     (ca_Object a = ca_Object b ∧ String.le (ca_Property a) (ca_Property b)))).
#[export] Instance cleanLe_dec : RelDecision cleanLe.
Proof. intros a b. unfold cleanLe. apply _. Defined.
Definition sortCleanActions (actions : list CleanAction) : list CleanAction := merge_sort cleanLe actions.

(** * What proofs account for *)

(** The actions and blockers so far, and the holds and bookmarks that proofs
    account for; a hold's key is its snapshot, a zero byte and its tag. *)
Record gathered := mkGathered {
  ga_Actions : list CleanAction;
  ga_Blockers : list string;
  ga_Holds : gset string;
  ga_Bookmarks : gset string
}.
Definition nothing : gathered := mkGathered [] [] ∅ ∅.
Definition holdKey (object tag : string) : string := object +:+ NUL +:+ tag.
Definition addBlocker (g : gathered) (text : string) : gathered := mkGathered (ga_Actions g) (ga_Blockers g ++ [text]) (ga_Holds g) (ga_Bookmarks g).
Definition act (g : gathered) (a : CleanAction) : gathered := mkGathered (ga_Actions g ++ [a]) (ga_Blockers g) (ga_Holds g) (ga_Bookmarks g).

(** The loop over the sources of a proof, which cleaning and forgetting share. *)
Definition gatherHold (state : State) (lineage : string) (r : Reference) (g : gathered) (source : ReferenceSource) : gathered :=
  let snap := sourceSnapshot r source in
  if negb (heldBy state snap (hold r)) then g
  else if match findOwned state (sr_Dataset source) snap lineage with
          | Ok (owned, metadata) => negb (sn_GUID owned =? sr_GUID source) || negb (bool_decide (metadata = rf_Metadata r))
          | Err _ => true
          end
  then addBlocker g ("held snapshot ownership changed: " +:+ snap)
  else mkGathered (ga_Actions g ++ [mkAction "release" snap (hold r) (sr_GUID source)]) (ga_Blockers g)
         ({[holdKey snap (hold r)]} ∪ ga_Holds g) (ga_Bookmarks g).
Definition gatherMark (state : State) (r : Reference) (g : gathered) (source : ReferenceSource) : gathered :=
  let mark := sourceBookmark r source in
  if negb (hasObject state mark) then g
  else mkGathered (ga_Actions g ++ [mkAction "destroy-bookmark" mark "" (sr_GUID source)]) (ga_Blockers g) (ga_Holds g)
         ({[mark]} ∪ ga_Bookmarks g).
Definition gatherSource (state : State) (lineage : string) (r : Reference) (g : gathered) (source : ReferenceSource) : gathered :=
  gatherMark state r (gatherHold state lineage r g source) source.
Definition gatherReference (state : State) (lineage : string) (r : Reference) (g : gathered) : gathered :=
  match Sources r state with
  | Err e => addBlocker g ("reference proof " +:+ property r +:+ ": " +:+ ErrorText e)
  | Ok sources => fold_left (gatherSource state lineage r) sources g
  end.

(** * cleanPlan *)

(** The text an error adds to the blockers. *)
Definition blocker {A} (r : result A) : list string := match r with Ok _ => [] | Err e => [ErrorText e] end.

Definition retirementBlockers (s : Service) (state : State) (activation : list Property) (dataset : string) (mode : cleanMode) : list string :=
  if negb (cm_retirement mode) then [] else
  let active := match locallyActive activation dataset with Ok active => active | Err _ => false end in
  match locallyActive activation dataset with
  | Err e => [ErrorText e]
  | Ok active => if active then ["retirement requires an inactive source root"] else []
  end
  ++ match inactivePlan state dataset (sv_installation s) active (cm_now mode) (cm_grace mode) with
     | Err e => [ErrorText e]
     | Ok inactive =>
       if negb (ip_Action inactive =? "")%string then ["inactive marker transition must complete before retirement"]
       else if negb (ip_Automatic inactive) then ["automatic retirement is disabled"]
       else if negb (ip_Due inactive) then ["inactive grace period has not elapsed"]
       else []
     end.

(** The nearest activation ancestor of [name] outside the clean scope. *)
Definition nearestActivation (activation : list Property) (selected : gset string) (name : string) : string * string :=
  fold_left (λ st p,
    if (pr_Name p =? enabledProperty)%string && (pr_Source p =? SourceLocal)%string && negb (bool_decide (pr_Dataset p ∈ selected))
       && HasPrefix name (pr_Dataset p +:+ "/") && (String.length st.1 <? String.length (pr_Dataset p))%nat
    then (pr_Dataset p, pr_Value p) else st) activation ("", "").
Definition exposed (activation : list Property) (selected : gset string) (name : string) : list string :=
  let '(nearest, value) := nearestActivation activation selected name in
  if (value =? "on")%string then ["cleaning " +:+ name +:+ " would expose enabled=on from " +:+ nearest] else [].

(** [Quiescent] on the datasets, when there is a [CleanSafety]. *)
Definition quiescence (safety : bool) (datasets : list string) : prog (list string) :=
  if negb safety then Ret ["quiescence has not been established"]
  else r ⇐ call (Quiescent datasets); Ret (blocker r).

Definition checkTarget (safety : bool) (name : string) (r : Reference) (g : gathered) : prog gathered :=
  if negb safety then Ret (addBlocker g ("target not verified: " +:+ rf_TargetID r))
  else
    e ⇐ call (CheckTarget name (rf_TargetID r));
    Ret (match e with Ok _ => g | Err e => addBlocker g ("target " +:+ rf_TargetID r +:+ ": " +:+ ErrorText e) end).
Definition cleanReference (safety : bool) (state : State) (name lineage : string) (g : gathered) (r : Reference) : prog gathered :=
  g ⇐ checkTarget safety name r g; Ret (gatherReference state lineage r g).

Definition candidates (state : State) (name : string) : gset string := list_to_set (snapshotsIn state name ≫= provenLineages).
Definition lineageConflicts (options : CleanOptions) (state : State) (name lineage : string) (g : gathered) : gathered :=
  let cs := candidates state name in
  let g := if (1 <? Z.of_nat (size cs)) || (negb (lineage =? "")%string && (0 <? Z.of_nat (size cs)) && negb (bool_decide (lineage ∈ cs)))
           then addBlocker g ("conflicting snapshot lineages on " +:+ name) else g in
  if co_DestroyOwnedSnapshots options && (lineage =? "")%string && (0 <? Z.of_nat (size cs))
  then addBlocker g ("adopt missing lineage before destroying snapshots on " +:+ name) else g.

(** The body of the loop over the datasets; the map is [lineages]. *)
Definition cleanDataset (options : CleanOptions) (safety : bool) (dataset rootLineage : string) (state : State)
    (st : gathered * gmap string string) (name : string) : prog (gathered * gmap string string) :=
  let '(g, lineages) := st in
  match storedLineage state name with
  | Err e => Ret (addBlocker g (ErrorText e), lineages)
  | Ok stored =>
    let lineage := if (stored =? "")%string && negb (name =? dataset)%string then rootLineage else stored in
    let lineages := <[name := lineage]> lineages in
    let g := lineageConflicts options state name lineage g in
    match referenceRecords state name lineage with
    | Err e => Ret (addBlocker g (ErrorText e), lineages)
    | Ok refs => g ⇐ forP (cleanReference safety state name lineage) g refs; Ret (g, lineages)
    end
  end.

Definition unprovenHolds (state : State) (proved : gset string) : list string :=
  map_to_list (Holds state) ≫= λ kv, (λ tag, "unproven hold: " +:+ kv.1 +:+ " " +:+ tag)
    <$> filter (λ tag, HasPrefix tag SnapshotPrefix = true ∧ holdKey kv.1 tag ∉ proved) kv.2.
Definition isOwnBookmark (o : Object) : bool :=
  (ob_Type o =? "bookmark")%string && HasPrefix (ob_Name o) ((Cut (ob_Name o) "#").1.1 +:+ "#" +:+ SnapshotPrefix).
Definition unprovenBookmarks (state : State) (proved : gset string) : list string :=
  (λ o, "unproven bookmark: " +:+ ob_Name o) <$> filter (λ o, isOwnBookmark o = true ∧ ob_Name o ∉ proved) (Objects state).

(** Which owned snapshots go: their actions, and what retaining one adds. *)
Record destruction := mkDestruction { dx_Actions : list CleanAction; dx_Blockers : list string; dx_Warnings : list string; dx_Names : gset string }.
Definition dependent (proved : gset string) (sn : Snapshot) : bool :=
  negb (bool_decide (sn_Clones sn = [])) || sn_ResumeRequired sn
  || existsb (λ tag, negb (bool_decide (holdKey (sn_Name sn) tag ∈ proved))) (sn_Holds sn).
Definition destroyOne (mode : cleanMode) (proved : gset string) (lineage : string) (x : destruction) (sn : Snapshot) : destruction :=
  if negb (is_ok (Ownership sn lineage)) then x
  else if dependent proved sn then
    if cm_retirement mode
    then mkDestruction (dx_Actions x) (dx_Blockers x ++ ["dependent owned snapshot prevents retirement: " +:+ sn_Name sn]) (dx_Warnings x) (dx_Names x)
    else mkDestruction (dx_Actions x) (dx_Blockers x) (dx_Warnings x ++ ["retaining dependent snapshot: " +:+ sn_Name sn]) (dx_Names x)
  else mkDestruction (dx_Actions x ++ [mkAction "destroy-snapshot" (sn_Name sn) "" (sn_GUID sn)]) (dx_Blockers x) (dx_Warnings x)
         ({[sn_Name sn]} ∪ dx_Names x).
Definition destructions (options : CleanOptions) (mode : cleanMode) (state : State) (proved : gset string) (lineages : gmap string string)
    (datasets : list string) : destruction :=
  if negb (co_DestroyOwnedSnapshots options) then mkDestruction [] [] [] ∅
  else fold_left (λ x name, fold_left (destroyOne mode proved (mget lineages name)) (snapshotsIn state name) x) datasets (mkDestruction [] [] [] ∅).

(** The properties to inherit, as keys of an object, a zero byte and a name. *)
Definition keepsKey (mode : cleanMode) (object name : string) : bool :=
  cm_retirement mode && (IsPublic name || Contains object "@" || Contains object "#").
Definition inheritKey (mode : cleanMode) (destroyed : gset string) (object name : string) : option string :=
  if keepsKey mode object name then None
  else if HasPrefix name Namespace && negb (bool_decide (object ∈ destroyed)) then Some (holdKey object name) else None.
Definition inheritKeys (mode : cleanMode) (destroyed : gset string) (state : State) : gset string :=
  list_to_set (omap (λ p, inheritKey mode destroyed (pr_Dataset p) (pr_Name p)) (Properties state)
    ++ (map_to_list (Received state) ≫= λ kv : string * gmap string string,
          omap (λ nv : string * string, inheritKey mode destroyed kv.1 nv.1) (map_to_list kv.2))).
Definition inheritAction (key : string) : CleanAction := let '(object, name, _) := Cut key "000" in mkAction "inherit" object name 0.

Definition receivedWarning : string := "inherit masks received properties; hidden received values may remain and can be restored externally".
Definition datasetNames (state : State) : list string := SortStrings (ob_Name <$> datasetObjects state).

(** The plan from what was gathered. *)
Definition finishPlan (plan : CleanPlan) (actions : list CleanAction) (blockers warnings : list string) : CleanPlan :=
  mkPlan (cp_Dataset plan) (cp_Options plan) (sortCleanActions actions) (Compact (SortStrings blockers)) (SortStrings warnings) 0.
Definition completePlan (plan : CleanPlan) (mode : cleanMode) (state : State) (early : list string) (g : gathered) (lineages : gmap string string) : CleanPlan :=
  let x := destructions (cp_Options plan) mode state (ga_Holds g) lineages (datasetNames state) in
  let inherits := inheritAction <$> elements (inheritKeys mode (dx_Names x) state) in
  finishPlan plan (ga_Actions g ++ dx_Actions x ++ inherits)
    (early ++ ga_Blockers g ++ unprovenHolds state (ga_Holds g) ++ unprovenBookmarks state (ga_Bookmarks g) ++ dx_Blockers x)
    (cp_Warnings plan ++ dx_Warnings x).

(** * forgetPlan *)

Definition forgetReference (dataset lineage : string) (forget : gset string) (state : State) (st : gathered * gset string) (r : Reference)
  : gathered * gset string :=
  let '(g, found) := st in
  if negb (bool_decide (rf_TargetID r ∈ forget)) then st
  else (gatherReference state lineage r (act g (mkAction "inherit" dataset (property r) 0)), {[rf_TargetID r]} ∪ found).
(** The proofs of the forgotten targets. *)
Definition forgetProofs (dataset : string) (forget : gset string) (state : State) : gathered * gset string :=
  match storedLineage state dataset with
  | Err e => (addBlocker nothing (ErrorText e), ∅)
  | Ok lineage =>
    if (lineage =? "")%string
    then (addBlocker nothing ("forgetting a target needs a source root with a lineage: " +:+ dataset), ∅)
    else match referenceRecords state dataset lineage with
         | Err e => (addBlocker nothing (ErrorText e), ∅)
         | Ok refs => fold_left (forgetReference dataset lineage forget state) refs (nothing, ∅)
         end
  end.
(** A target's binding and suspension marker. *)
Definition targetOf (name : string) : string := (Cut (CutPrefix name TargetStatePrefix).1 ":").1.1.
Definition forgetRow (dataset : string) (forget : gset string) (st : gathered * gset string) (p : Property) : gathered * gset string :=
  let '(g, found) := st in
  if negb (pr_Dataset p =? dataset)%string || negb (CutPrefix (pr_Name p) TargetStatePrefix).2 || negb (pr_Source p =? SourceLocal)%string
     || negb (bool_decide (targetOf (pr_Name p) ∈ forget))
  then st
  else (act g (mkAction "inherit" dataset (pr_Name p) 0), {[targetOf (pr_Name p)]} ∪ found).
Definition forgottenHolds (forget : gset string) (state : State) (proved : gset string) : list string :=
  map_to_list (Holds state) ≫= λ kv, (λ tag, "unproven hold: " +:+ kv.1 +:+ " " +:+ tag)
    <$> filter (λ tag, (CutPrefix tag SnapshotPrefix).2 = true ∧ (CutPrefix tag SnapshotPrefix).1 ∈ forget ∧ holdKey kv.1 tag ∉ proved) kv.2.
Definition forgottenBookmarks (forget : gset string) (state : State) (proved : gset string) : list string :=
  filter (λ o, ob_Type o = "bookmark" ∧ ob_Name o ∉ proved) (Objects state) ≫= λ o,
    (λ _, "unproven bookmark: " +:+ ob_Name o)
      <$> filter (λ id, HasPrefix (Cut (ob_Name o) "#").1.2 (SnapshotPrefix +:+ id +:+ "-") = true) (elements forget).

Definition completeForget (plan : CleanPlan) (state : State) (early : list string) : CleanPlan :=
  let dataset := cp_Dataset plan in
  let targets := co_ForgetTargets (cp_Options plan) in
  let forget : gset string := list_to_set targets in
  let '(g, found) := fold_left (forgetRow dataset forget) (Properties state) (forgetProofs dataset forget state) in
  finishPlan plan (ga_Actions g)
    (early ++ ga_Blockers g ++ forgottenHolds forget state (ga_Holds g) ++ forgottenBookmarks forget state (ga_Bookmarks g)
     ++ ((λ id, dataset +:+ " keeps no state for target " +:+ id) <$> filter (λ id, id ∉ found) targets)) [].

Definition forgetPlan (dataset : string) (options : CleanOptions) (safety : bool) : prog (CleanPlan * State * option error) :=
  let plan := mkPlan dataset options [] [] [] 0 in
  if co_Recursive options || co_DestroyOwnedSnapshots options
  then Ret (plan, emptyState, Some (Errorf "forgetting a target cannot be combined with recursive clean or snapshot destruction")) else
  match List.find (λ id, negb (ValidTargetID id)) (co_ForgetTargets options) with
  | Some id => Ret (plan, emptyState, Some (Errorf ("invalid target ID " +:+ Quote id)))
  | None =>
    match ValidateDataset dataset with
    | Err e => Ret (plan, emptyState, Some e)
    | Ok _ =>
      r ⇐ call (InspectState dataset true);
      match r with
      | Err e => Ret (plan, emptyState, Some e)
      | Ok state =>
        quiet ⇐ quiescence safety (datasetNames state);
        Ret (completeForget plan state (blocker (scopeReady state dataset) ++ blocker (recordsReadable state dataset) ++ quiet), state, None)
      end
    end
  end.

(** A plan, the state it was made from, and an error. The state beside an error
    is not used. *)
Definition cleanPlan (s : Service) (dataset : string) (options : CleanOptions) (safety : bool) (mode : cleanMode)
  : prog (CleanPlan * State * option error) :=
  if negb (bool_decide (co_ForgetTargets options = [])) then
    if cm_retirement mode
    then Ret (mkPlan dataset options [] [] [] 0, emptyState, Some (Errorf "retirement cannot forget targets"))
    else forgetPlan dataset options safety
  else
  let plan := mkPlan dataset options [] [] [receivedWarning] 0 in
  if negb (sv_clean s) then Ret (plan, emptyState, Some (Errorf "clean operations unavailable")) else
  match ValidateDataset dataset with
  | Err e => Ret (plan, emptyState, Some e)
  | Ok _ =>
    r ⇐ call (InspectState dataset (co_Recursive options));
    match r with
    | Err e => Ret (plan, emptyState, Some e)
    | Ok state =>
      let ready := blocker (scopeReady state dataset) ++ blocker (recordsReadable state dataset) in
      a ⇐ call GetActivationProperties;
      match a with
      | Err e => Ret (mkPlan dataset options [] ready [receivedWarning] 0, state, Some e)
      | Ok activation =>
        let datasets := datasetNames state in
        quiet ⇐ quiescence safety datasets;
        let exposure := if cm_retirement mode then [] else datasets ≫= exposed activation (list_to_set datasets) in
        let rootLineage := match storedLineage state dataset with Ok lineage => lineage | Err _ => "" end in
        st ⇐ forP (cleanDataset options safety dataset rootLineage state) (nothing, ∅) datasets;
        Ret (completePlan plan mode state
               (ready ++ retirementBlockers s state activation dataset mode ++ quiet ++ exposure ++ blocker (storedLineage state dataset)) st.1 st.2,
             state, None)
      end
    end
  end.

(** * Applying a plan *)

(** What [before] becomes when exactly the action happens, its received values
    aside. *)
Definition expectedAfter (before : State) (a : CleanAction) : State :=
  let o := ca_Object a in
  if (ca_Operation a =? "destroy-snapshot")%string || (ca_Operation a =? "destroy-bookmark")%string then
    mkState (filter (λ x, ob_Name x ≠ o) (Objects before)) (filter (λ p, pr_Dataset p ≠ o) (Properties before)) ∅
      (delete o (ResumeTokens before)) (delete o (Clones before)) (delete o (Holds before))
  else if (ca_Operation a =? "release")%string then
    mkState (Objects before) (Properties before) ∅ (ResumeTokens before) (Clones before)
      (<[o := filter (λ tag, tag ≠ ca_Property a) (default [] (Holds before !! o))]> (Holds before))
  else if (ca_Operation a =? "inherit")%string then
    mkState (Objects before) (filter (λ p, ¬ (pr_Dataset p = o ∧ pr_Name p = ca_Property a)) (Properties before)) ∅
      (ResumeTokens before) (Clones before) (Holds before)
  else mkState (Objects before) (Properties before) ∅ (ResumeTokens before) (Clones before) (Holds before).

(** [normalize]: empty rows are as good as none. *)
Definition dropEmpty (m : gmap string (list string)) : gmap string (list string) := filter (λ kv, kv.2 ≠ []) m.
Definition normalize (st : State) : State :=
  mkState (Objects st) (Properties st) (Received st) (ResumeTokens st) (dropEmpty (Clones st)) (dropEmpty (Holds st)).
Definition withoutReceived (st : State) : State :=
  mkState (Objects st) (Properties st) ∅ (ResumeTokens st) (Clones st) (Holds st).

(** The received values that appeared or changed; the code reports the first it
    meets. *)
Definition receivedChanges (before after : State) : list string :=
  map_to_list (Received after) ≫= λ kv : string * gmap string string,
    (λ nv : string * string, "received " +:+ nv.1 +:+ " on " +:+ kv.1 +:+ " became " +:+ Quote nv.2 +:+ ", was " +:+ Quote (receivedValue before kv.1 nv.1))
      <$> filter (λ nv : string * string, receivedValue before kv.1 nv.1 ≠ nv.2) (map_to_list kv.2).

(** The verb [%v] on a map of string lists: keys in order. *)
Definition formatLists (m : gmap string (list string)) : string :=
  "map[" +:+ Join ((λ k, k +:+ ":[" +:+ Join (default [] (m !! k)) " " +:+ "]") <$> SortStrings (elements (dom m))) " " +:+ "]".

Definition objectDifferences (expected after : State) : list string :=
  ((λ o, "object " +:+ ob_Name o +:+ " missing") <$> filter (λ o, o ∉ Objects after) (Objects expected))
  ++ ((λ o, "object " +:+ ob_Name o +:+ " appeared") <$> filter (λ o, o ∉ Objects expected) (Objects after))
  ++ ((λ p, "property " +:+ pr_Name p +:+ " on " +:+ pr_Dataset p +:+ " (" +:+ pr_Source p +:+ ") missing")
        <$> filter (λ p, p ∉ Properties after) (Properties expected))
  ++ ((λ p, "property " +:+ pr_Name p +:+ "=" +:+ Quote (pr_Value p) +:+ " on " +:+ pr_Dataset p +:+ " (" +:+ pr_Source p +:+ ") appeared")
        <$> filter (λ p, p ∉ Properties expected) (Properties after)).
Definition report (d : list string) (differs : bool) (text : string) : list string := if differs then d ++ [text] else d.
Definition differences (expected after : State) : list string :=
  let d := objectDifferences expected after in
  let d := report d (bool_decide (d = []) && (negb (bool_decide (Objects expected = Objects after))
                                              || negb (bool_decide (Properties expected = Properties after)))) "objects or properties reordered" in
  let d := report d (negb (bool_decide (Holds expected = Holds after)))
             ("holds " +:+ formatLists (Holds after) +:+ ", expected " +:+ formatLists (Holds expected)) in
  let d := report d (negb (bool_decide (Clones expected = Clones after)))
             ("clones " +:+ formatLists (Clones after) +:+ ", expected " +:+ formatLists (Clones expected)) in
  let d := report d (negb (bool_decide (ResumeTokens expected = ResumeTokens after))) "resume tokens changed" in
  report d (bool_decide (d = [])) "state differs".

Definition cleanTransition (before after : State) (a : CleanAction) : string :=
  match receivedChanges before after with
  | change :: _ => change
  | [] =>
    let expected := normalize (expectedAfter before a) in
    let after := normalize (withoutReceived after) in
    if bool_decide (expected = after) then "" else Join (differences expected after) "; "
  end.

Definition performAction (a : CleanAction) : prog (result unit) :=
  if (ca_Operation a =? "destroy-bookmark")%string then call (DestroyBookmark (ca_Object a))
  else if (ca_Operation a =? "release")%string then call (ReleaseHold (ca_Property a) (ca_Object a))
  else if (ca_Operation a =? "destroy-snapshot")%string then call (DestroySnapshot (ca_Object a))
  else if (ca_Operation a =? "inherit")%string then call (InheritProperty (ca_Object a) (ca_Property a))
  else Ret (Err (Errorf "unknown clean operation")).

(** The rest of the loop body after the action: the state to go on from. *)
Definition settleAction (dataset : string) (subtree : bool) (current : State) (a : CleanAction) : prog (result State) :=
  after ⇐? call (InspectState dataset subtree);
  let difference := cleanTransition current after a in
  Ret (if negb (difference =? "")%string
       then Err (Errorf ("unexpected state change after clean action " +:+ ca_Operation a +:+ " on " +:+ ca_Object a +:+ ": " +:+ difference))
       else if hasTokens after then Err (Errorf "resume state appeared during clean")
       else Ok after).

(** The loop over the actions: how many were applied, and the error that ended
    it. *)
Fixpoint applyActions (dataset : string) (subtree : bool) (current : State) (applied : Z) (actions : list CleanAction) : prog (Z * option error) :=
  match actions with
  | [] => Ret (applied, None)
  | a :: actions =>
    u ⇐ unchanged dataset subtree current;
    match u with
    | Err e => Ret (applied, Some e)
    | Ok _ =>
      r ⇐ performAction a;
      match r with
      | Err e => Ret (applied, Some e)
      | Ok _ =>
        after ⇐ settleAction dataset subtree current a;
        match after with
        | Err e => Ret (applied + 1, Some e)
        | Ok after => applyActions dataset subtree after (applied + 1) actions
        end
      end
    end
  end.

Definition withCount (plan : CleanPlan) (applied : Z) : CleanPlan :=
  mkPlan (cp_Dataset plan) (cp_Options plan) (cp_Actions plan) (cp_Blockers plan) (cp_Warnings plan) applied.

(** The conversion of the backend to [cleanBackend] after the plans panics when
    it fails, which only forgetting can reach; here it is an error. *)
Definition clean (s : Service) (dataset : string) (options : CleanOptions) (apply : bool) (safety : bool) (mode : cleanMode)
  : prog (CleanPlan * option error) :=
  first ⇐ cleanPlan s dataset options safety mode;
  let '(plan, state, err) := first in
  if match err with Some _ => true | None => negb apply end then Ret (plan, err)
  else if negb (bool_decide (cp_Blockers plan = [])) then Ret (plan, Some (Errorf "clean blocked"))
  else
    second ⇐ cleanPlan s dataset options safety mode;
    let '(fresh, current, err) := second in
    match err with
    | Some e => Ret (plan, Some e)
    | None =>
      if negb (bool_decide (plan = fresh)) || negb (bool_decide (state = current))
      then Ret (plan, Some (Errorf "clean state changed; preview again"))
      else if negb (sv_clean s) then Ret (plan, Some (Errorf "interface conversion"))
      else
        done ⇐ applyActions dataset (optionsSubtree options) current 0 (cp_Actions plan);
        let '(applied, err) := done in Ret (withCount plan applied, err)
    end.

Definition Clean (s : Service) (dataset : string) (options : CleanOptions) (apply : bool) (safety : bool) : prog (CleanPlan * option error) :=
  locked (λ e, (mkPlan "" (mkOptions false false []) [] [] [] 0, Some e)) dataset (clean s dataset options apply safety noMode).

(** * Retire *)

Record RetirementPlan := mkRetirement { rp_Inactive : InactivePlan; rp_Eligible : bool; rp_Clean : CleanPlan }.
Definition noInactive : InactivePlan := mkInactive "" false None "" None false false false.
Definition noClean : CleanPlan := mkPlan "" (mkOptions false false []) [] [] [] 0.

Definition Retire (s : Service) (dataset : string) (recursive : bool) (observedAt : Time) (grace : Duration) (apply : bool) (safety : bool)
  : prog (RetirementPlan * option error) :=
  let none e := (mkRetirement noInactive false noClean, Some e) in
  locked none dataset (
    if negb (sv_clean s) then Ret (none (Errorf "retirement operations unavailable")) else
    r ⇐ (state ⇐? call (InspectState dataset recursive);
         activation ⇐? call GetActivationProperties;
         active ⇐! locallyActive activation dataset;
         Ret (Ok (state, active)));
    match r with
    | Err e => Ret (none e)
    | Ok (state, active) =>
      match inactivePlan state dataset (sv_installation s) active observedAt grace with
      | Err e => Ret (mkRetirement (newInactivePlan dataset active grace) false noClean, Some e)
      | Ok inactive =>
        let eligible := negb active && (ip_Action inactive =? "")%string && ip_Automatic inactive && ip_Due inactive in
        if negb eligible then Ret (mkRetirement inactive false noClean, None)
        else
          done ⇐ clean s dataset (mkOptions recursive true []) apply safety (mkMode true observedAt grace);
          Ret (mkRetirement inactive true done.1, done.2)
      end
    end).
