(* ===== verification/CleanSafe.v ===== *)
(** What cleaning, forgetting and retiring may change: the theorems on Clean.v. *)

From Stdlib Require Import Ascii.
From S2P Require Import Prelude GoStrings GoTime Grid Names Zfs Ownership Prune Policy Authority Reference Backend Service Proofs Inactive Clean.

(** * The order of actions *)

#[export] Instance cleanLe_total : Total cleanLe.
Proof.
  intros a b. unfold cleanLe. destruct (Z.lt_trichotomy (cleanRank a) (cleanRank b)) as [?|[?|?]]; [by left; left| |by right; left].
  destruct (decide (ca_Object a = ca_Object b)) as [E|E].
  - destruct (base.total String.le (ca_Property a) (ca_Property b)); [left|right]; right; (split; [done|]); right; done.
  - destruct (base.total String.le (ca_Object a) (ca_Object b)); [left|right]; right; (split; [done|]); left; done.
Qed.
#[export] Instance cleanLe_trans : Transitive cleanLe.
Proof.
  intros a b c [H1|[H1 H1']] [H2|[H2 H2']]; [left; lia|left; lia|left; lia|]. right. split; [lia|].
  destruct H1' as [[N1 L1]|[E1 L1]], H2' as [[N2 L2]|[E2 L2]].
  - left. split; [|by etrans]. intros E. apply N1. apply (anti_symm String.le); [done|]. by rewrite E.
  - left. by rewrite <- E2.
  - left. by rewrite E1.
  - right. split; [congruence|by etrans].
Qed.

Lemma sortCleanActions_perm l : sortCleanActions l ≡ₚ l.
Proof. apply merge_sort_Permutation. Qed.
Lemma elem_of_sortCleanActions l a : a ∈ sortCleanActions l ↔ a ∈ l.
Proof. by rewrite sortCleanActions_perm. Qed.
Lemma sortCleanActions_rank l : StronglySorted (λ a b, cleanRank a ≤ cleanRank b) (sortCleanActions l).
Proof.
  assert (StronglySorted cleanLe (sortCleanActions l)) as H by (apply StronglySorted_merge_sort; apply _).
  induction H as [|a l' _ IH HF]; constructor; [done|]. eapply Forall_impl; [exact HF|]. intros b [?|[? _]]; lia.
Qed.
(** What comes before an action ranks no higher, and whatever ranks lower comes
    before it. *)
Lemma sorted_around {A} (f : A → Z) l l1 a l2 : StronglySorted (λ a b, f a ≤ f b) l → l = l1 ++ a :: l2 →
  (∀ b, b ∈ l1 → f b ≤ f a) ∧ (∀ b, b ∈ l → f b < f a → b ∈ l1).
Proof.
  intros Hs ->. split.
  - intros b Hb. induction l1 as [|x l1 IH]; [by apply elem_of_nil in Hb|]. cbn in Hs. apply StronglySorted_inv in Hs as [Hs HF].
    rewrite Forall_forall in HF. apply elem_of_cons in Hb as [->|Hb]; [apply HF; set_solver|by apply IH].
  - intros b [Hb|[->|Hb]%elem_of_cons]%elem_of_app Hlt; [done|lia|]. exfalso. clear -Hs Hb Hlt.
    induction l1 as [|x l1 IH]; cbn in Hs; apply StronglySorted_inv in Hs as [Hs HF]; [|by apply IH].
    rewrite Forall_forall in HF. specialize (HF b Hb). lia.
Qed.

(** * What a transition leaves *)

Definition listAt (m : gmap string (list string)) (k : string) : list string := default [] (m !! k).

Lemma dropEmpty_at m k : listAt (dropEmpty m) k = listAt m k.
Proof.
  unfold listAt, dropEmpty. destruct (m !! k) as [l|] eqn:E.
  - destruct l as [|x l].
    + rewrite map_lookup_filter_None_2; [done|]. right. intros l' H. rewrite E in H. injection H as <-. naive_solver.
    + by rewrite (map_lookup_filter_Some_2 _ _ _ (x :: l)).
  - rewrite map_lookup_filter_None_2; [done|]. by left.
Qed.

(** A difference is reported as text. *)
Lemma Join_not_empty l sep : l ≠ [] → Forall (λ s, s ≠ "") l → Join l sep ≠ "".
Proof.
  intros Hl HF. destruct l as [|x [|y l]]; [done|by apply Forall_cons in HF as [? _]|]. apply Forall_cons in HF as [Hx _].
  change (Join (x :: y :: l) sep) with (x +:+ sep +:+ Join (y :: l) sep). destruct x; [done|]. by rewrite app_cons_str.
Qed.
Lemma objectDifferences_text e a : Forall (λ s, s ≠ "") (objectDifferences e a).
Proof.
  unfold objectDifferences. rewrite !Forall_app, !Forall_fmap. split_and!; apply Forall_true; intros x; cbn; done.
Qed.
Lemma report_text d b s : s ≠ "" → Forall (λ s, s ≠ "") d → Forall (λ s, s ≠ "") (report d b s).
Proof. intros Hs Hd. destruct b; [|done]. apply Forall_app. by repeat constructor. Qed.
Lemma differences_text e a : Join (differences e a) "; " ≠ "".
Proof.
  apply Join_not_empty.
  - unfold differences. cbv zeta. match goal with |- report ?d _ _ ≠ _ => generalize d end.
    intros d. unfold report. case_bool_decide as E; [by subst|done].
  - unfold differences. cbv zeta. repeat apply report_text; try done. apply objectDifferences_text.
Qed.

Record steps (before : State) (a : CleanAction) (after : State) : Prop := {
  st_objects : Objects after = Objects (expectedAfter before a);
  st_properties : Properties after = Properties (expectedAfter before a);
  st_tokens : ResumeTokens after = ResumeTokens (expectedAfter before a);
  st_clones k : listAt (Clones after) k = listAt (Clones (expectedAfter before a)) k;
  st_holds k : listAt (Holds after) k = listAt (Holds (expectedAfter before a)) k
}.

Lemma cleanTransition_steps before after a : cleanTransition before after a = "" → steps before a after.
Proof.
  unfold cleanTransition. destruct (receivedChanges before after) as [|c l] eqn:Er.
  - case_bool_decide as E; [intros _|].
    + unfold normalize, withoutReceived in E. cbn in E. injection E as E1 E2 _ E3 E4 E5.
      split; [congruence..| |]; intros k.
      * by rewrite <- (dropEmpty_at (Clones after) k), <- (dropEmpty_at (Clones (expectedAfter before a)) k), E4.
      * by rewrite <- (dropEmpty_at (Holds after) k), <- (dropEmpty_at (Holds (expectedAfter before a)) k), E5.
    + intros H. exfalso. revert H. apply differences_text.
  - intros ->. exfalso. assert ("" ∈ receivedChanges before after) as H by (rewrite Er; by left).
    unfold receivedChanges in H. apply list_elem_of_bind in H as (kv & H & _). apply list_elem_of_fmap in H as (nv & H & _). done.
Qed.

(** * The calls of a clean *)

(** The call that carries out an action. *)
Definition performs (a : CleanAction) {R} (o : op R) : Prop :=
  match o with
  | DestroyBookmark mark => ca_Operation a = "destroy-bookmark" ∧ mark = ca_Object a
  | ReleaseHold tag snap => ca_Operation a = "release" ∧ tag = ca_Property a ∧ snap = ca_Object a
  | DestroySnapshot snap => ca_Operation a = "destroy-snapshot" ∧ snap = ca_Object a
  | InheritProperty d name => ca_Operation a = "inherit" ∧ d = ca_Object a ∧ name = ca_Property a
  | _ => False
  end.
(** The changes of a history are exactly the given actions, each successful. *)
Definition did (a : CleanAction) (e : event) : Prop := ∃ o : op (result unit), e = Event o (Ok tt) ∧ performs a o.
Definition carriedOut (acts : list CleanAction) (pre : list event) : Prop := Forall2 did acts (mutations pre).

(** The number of changes that succeeded. *)
Definition succeeded (e : event) : bool :=
  match e with Event o r =>
    match o in op R return R → bool with
    | SetProperties _ _ | TakeSnapshot _ _ _ | DestroySnapshot _ | HoldSnapshot _ _ | ReleaseHold _ _ | CreateBookmark _ _
    | DestroyBookmark _ | InheritProperty _ _ => λ r, is_ok r
    | _ => λ _, false
    end r
  end.
Definition changes (tr : list event) : Z := Z.of_nat (length (filter (λ e, succeeded e = true) tr)).
Lemma changes_app tr1 tr2 : changes (tr1 ++ tr2) = changes tr1 + changes tr2.
Proof. unfold changes. rewrite filter_app, length_app. lia. Qed.
Lemma changes_none tr : mutations tr = [] → changes tr = 0.
Proof.
  intros H. unfold changes. rewrite list_filter_none; [done|]. intros e He Hs.
  assert (e ∈ mutations tr) as Hm; [|by rewrite H in Hm; apply elem_of_nil in Hm].
  apply list_elem_of_filter. split; [|done]. by destruct e as [R [] r].
Qed.

Lemma changes_read tr e : eventMutates e = false → changes (tr ++ [e]) = changes tr.
Proof. intros He. rewrite changes_app, (changes_none [e]); [lia|]. unfold mutations. by rewrite filter_cons, decide_False by congruence. Qed.

(** [current] is [state] after the actions and nothing else. *)
Inductive chain (state : State) : list CleanAction → State → Prop :=
| chain_nil : chain state [] state
| chain_snoc acts a current after :
    chain state acts current → steps current a after → hasTokens after = false → chain state (acts ++ [a]) after.

Section Guard.
Context (s : Service) (dataset : string) (options : CleanOptions) (safety : bool) (mode : cleanMode).

(** The history contains the making of the plan. *)
Definition planned (plan : CleanPlan) (state : State) (pre : list event) : Prop :=
  ∃ p0 p1 p2, pre = p0 ++ p1 ++ p2 ∧ runs (cleanPlan s dataset options safety mode) p1 (plan, state, None).

(** A change is the next action of a plan without blockers, on the state just
    read, which is the planned state after the actions before it. *)
Definition nextAction (pre : list event) (R : Type) (o : op R) : Prop :=
  ∃ plan state acts a rest current, planned plan state pre ∧ cp_Blockers plan = [] ∧ cp_Actions plan = acts ++ a :: rest ∧ performs a o ∧
    carriedOut acts pre ∧ lastRead dataset (optionsSubtree options) current pre ∧ chain state acts current.
Definition cleanGuard (apply : bool) (pre : list event) (R : Type) (o : op R) : Prop :=
  mutates o = true → apply = true ∧ nextAction pre R o.

Lemma planned_snoc plan state pre tr : planned plan state pre → planned plan state (pre ++ tr).
Proof. intros (p0 & p1 & p2 & -> & H). exists p0, p1, (p2 ++ tr). by rewrite <- !app_assoc. Qed.

Lemma carriedOut_read acts pre e : eventMutates e = false → carriedOut acts pre → carriedOut acts (pre ++ [e]).
Proof.
  intros He. unfold carriedOut. rewrite mutations_app. unfold mutations at 3. rewrite filter_cons, decide_False by congruence.
  by rewrite app_nil_r.
Qed.

Lemma always_guarded_read {R} (o : op R) apply_ pre : mutates o = false → cleanGuard apply_ pre R o.
Proof. intros E. unfold cleanGuard. by rewrite E. Qed.

(** An action's call. *)
Lemma performAction_always apply_ plan state acts a rest current pre Q :
  apply_ = true → planned plan state pre → cp_Blockers plan = [] → cp_Actions plan = acts ++ a :: rest → carriedOut acts pre →
  lastRead dataset (optionsSubtree options) current pre → chain state acts current →
  (∀ tr, planned plan state tr → carriedOut (acts ++ [a]) tr → changes tr = changes pre + 1 → Q tr (Ok tt)) →
  (∀ tr e, changes tr = changes pre → Q tr (Err e)) →
  always (cleanGuard apply_) pre (performAction a) Q.
Proof.
  intros Hap Hp Hb Ha Hc Hl Hch Hok Herr.
  assert (∀ o : op (result unit), mutates o = true → performs a o → (∀ r, succeeded (Event o r) = is_ok r) →
    always (cleanGuard apply_) pre (call o) Q) as Hcall.
  { intros o Hm Hpf Hs. split; [intros _; split; [done|]; exists plan, state, acts, a, rest, current; done|].
    intros [[]|e]; [apply Hok; [by apply planned_snoc| |]|apply Herr].
    - unfold carriedOut. rewrite mutations_app. apply Forall2_app; [done|]. unfold mutations. rewrite filter_cons, decide_True by done.
      constructor; [|constructor]. by exists o.
    - rewrite changes_app. unfold changes at 2. by rewrite filter_cons, decide_True by (by rewrite Hs).
    - rewrite changes_app. unfold changes at 2. rewrite filter_cons, decide_False by (by rewrite Hs). cbn. lia. }
  unfold performAction.
  repeat match goal with |- context [(ca_Operation a =? ?x)%string] => destruct (String.eqb_spec (ca_Operation a) x); [by apply Hcall|] end.
  by apply Herr.
Qed.

(** The loop, with [acts] behind it. *)
Lemma applyActions_always apply_ plan state rest : ∀ acts current applied pre,
  apply_ = true → planned plan state pre → cp_Blockers plan = [] → cp_Actions plan = acts ++ rest → carriedOut acts pre →
  chain state acts current → applied = changes pre →
  always (cleanGuard apply_) pre (applyActions dataset (optionsSubtree options) current applied rest)
    (λ tr r, r.1 = changes tr ∧ (r.2 = None → carriedOut (cp_Actions plan) tr)).
Proof.
  induction rest as [|a rest IH]; intros acts current applied pre Hap Hp Hb Ha Hc Hch Happ; cbn [applyActions].
  { rewrite app_nil_r in Ha. rewrite Ha. done. }
  apply always_bind. eapply always_mono; [|eapply (unchanged_run _ dataset (optionsSubtree options) current pre); by intros].
  intros tr1 [[]|e] (tr' & -> & Hm & Hl); rewrite <- (Z.add_0_r (changes pre)), <- (changes_none _ Hm), <- changes_app in Happ; [|done].
  specialize (Hl eq_refl). apply (planned_snoc _ _ _ tr') in Hp. assert (carriedOut acts (pre ++ tr')) as Hc1 by (unfold carriedOut; by rewrite mutations_app, Hm, app_nil_r).
  apply always_bind. eapply (performAction_always apply_ plan state acts a rest current); try done.
  2: { intros tr e He. split; [by rewrite He|done]. }
  intros tr2 Hp2 Hc2 Hn2. unfold settleAction. apply always_bind, always_bindE, always_call; [by apply always_guarded_read|].
  assert (∀ r, applied + 1 = changes (tr2 ++ [Event (InspectState dataset (optionsSubtree options)) r])) as Hn3.
  { intros r. by rewrite changes_read, Hn2, Happ. }
  intros [after|e]; [|done]. cbn. destruct (String.eqb_spec (cleanTransition current after a) "") as [Ht|]; cbn [negb]; [|done].
  destruct (hasTokens after) eqn:Hto; [done|]. apply (IH (acts ++ [a])); try done.
  - by apply planned_snoc.
  - by rewrite <- app_assoc.
  - by apply carriedOut_read.
  - econstructor; [done| |done]. by apply cleanTransition_steps.
Qed.

Lemma quiescence_readonly quiet datasets : readonly (quiescence quiet datasets).
Proof. unfold quiescence. destruct quiet; cbn; [|done]. split; [done|]. done. Qed.
Lemma cleanDataset_readonly rootLineage state st name : readonly (cleanDataset options safety dataset rootLineage state st name).
Proof.
  unfold cleanDataset. destruct st as [g lineages]. destruct (storedLineage state name); [|done]. cbv zeta. destruct (referenceRecords _ _ _); [|done].
  apply readonly_bind; [|done]. apply readonly_forP. intros g' r. unfold cleanReference. apply readonly_bind; [|done].
  unfold checkTarget. destruct safety; cbn; done.
Qed.
Lemma cleanPlan_readonly : readonly (cleanPlan s dataset options safety mode).
Proof.
  unfold cleanPlan. destruct (negb (bool_decide _)).
  - destruct (cm_retirement mode); [done|]. unfold forgetPlan. destruct (_ || _); [done|]. destruct (List.find _ _); [done|].
    destruct (ValidateDataset dataset); [|done]. apply readonly_bind; [done|]. intros [state|e]; [|done].
    apply readonly_bind; [apply quiescence_readonly|done].
  - destruct (negb (sv_clean s)); [done|]. destruct (ValidateDataset dataset); [|done]. apply readonly_bind; [done|]. intros [state|e]; [|done].
    cbv zeta. apply readonly_bind; [done|]. intros [activation|e]; [|done]. apply readonly_bind; [apply quiescence_readonly|]. intros quiet.
    apply readonly_bind; [|done]. apply readonly_forP. apply cleanDataset_readonly.
Qed.

(** A plan counts no action as applied and orders its actions. *)
Definition fresh (plan : CleanPlan) : Prop := cp_Applied plan = 0 ∧ StronglySorted (λ a b, cleanRank a ≤ cleanRank b) (cp_Actions plan).
Lemma fresh_nil d o b w : fresh (mkPlan d o [] b w 0).
Proof. split; [done|constructor]. Qed.
Lemma fresh_finish plan actions b w : fresh (finishPlan plan actions b w).
Proof. split; [done|apply sortCleanActions_rank]. Qed.
Lemma cleanPlan_fresh tr plan state err : runs (cleanPlan s dataset options safety mode) tr (plan, state, err) → fresh plan.
Proof.
  intros Hr. refine (proj1 (always_runs (λ _ _ _, True) _ _ tr [] (λ _ r, fresh r.1.1) Hr _)). clear.
  unfold cleanPlan. destruct (negb (bool_decide _)).
  - destruct (cm_retirement mode); [apply fresh_nil|]. unfold forgetPlan. destruct (_ || _); [apply fresh_nil|]. destruct (List.find _ _); [apply fresh_nil|].
    destruct (ValidateDataset dataset); [|apply fresh_nil]. split; [done|]. intros [state|e]; [|apply fresh_nil]. cbn [bindP].
    apply always_bind. eapply always_mono; [|apply always_readonly; [done|apply quiescence_readonly]]. intros tr quiet _. cbn.
    unfold completeForget. cbn. destruct (fold_left _ _ _). apply fresh_finish.
  - destruct (negb (sv_clean s)); [apply fresh_nil|]. destruct (ValidateDataset dataset); [|apply fresh_nil]. split; [done|]. intros [state|e]; [|apply fresh_nil]. cbn [bindP].
    cbv zeta. split; [done|]. intros [activation|e]; [|apply fresh_nil]. cbn [bindP]. apply always_bind.
    eapply always_mono; [|apply always_readonly; [done|apply quiescence_readonly]]. intros tr quiet _. apply always_bind.
    eapply always_mono; [|apply always_readonly; [done|apply readonly_forP, cleanDataset_readonly]]. intros. apply fresh_finish.
Qed.

Lemma clean_always apply_ pre : mutations pre = [] →
  always (cleanGuard apply_) pre (clean s dataset options apply_ safety mode) (λ tr r,
    cp_Applied r.1 = changes tr ∧ StronglySorted (λ a b, cleanRank a ≤ cleanRank b) (cp_Actions r.1) ∧
    (apply_ = true → r.2 = None → cp_Blockers r.1 = [] ∧ carriedOut (cp_Actions r.1) tr)).
Proof.
  intros Hpre. unfold clean. apply always_bind.
  eapply always_mono; [|apply always_readonly; [intros; by apply always_guarded_read|apply cleanPlan_readonly]].
  intros tr1 [[plan state] err] (tr1' & -> & Hr1). pose proof (readonly_mutations _ _ _ cleanPlan_readonly Hr1) as Hm1.
  assert (fresh plan) as [H0 Hsort] by (by eapply cleanPlan_fresh).
  assert (changes (pre ++ tr1') = 0) as Hn1 by (apply changes_none; by rewrite mutations_app, Hpre, Hm1).
  destruct (match err with Some _ => true | None => negb apply_ end) eqn:Estop.
  { cbn. rewrite H0, Hn1. split_and!; [done..|]. intros -> ->. done. }
  destruct err as [e|]; [done|]. apply negb_false_iff in Estop. subst apply_.
  destruct (bool_decide (cp_Blockers plan = [])) eqn:Eb; cbn [negb]; [apply bool_decide_eq_true in Eb|cbn; by rewrite H0, Hn1].
  apply always_bind. eapply always_mono; [|apply always_readonly; [intros; by apply always_guarded_read|apply cleanPlan_readonly]].
  intros tr2 [[fresh current] err] (tr2' & -> & Hr2). pose proof (readonly_mutations _ _ _ cleanPlan_readonly Hr2) as Hm2.
  assert (mutations ((pre ++ tr1') ++ tr2') = []) as Hm by (by rewrite !mutations_app, Hpre, Hm1, Hm2).
  pose proof (changes_none _ Hm) as Hn2. destruct err as [e|]; [cbn; by rewrite H0, Hn2|].
  case_bool_decide as E1; cbn [negb orb]; [|cbn; by rewrite H0, Hn2]. case_bool_decide as E2; cbn [negb]; [|cbn; by rewrite H0, Hn2].
  destruct (sv_clean s); cbn [negb]; [|cbn; by rewrite H0, Hn2]. apply always_bind. subst fresh current.
  eapply always_mono; [|apply (applyActions_always true plan state (cp_Actions plan) []); try done].
  - intros tr3 [applied err] [H1 H2]. cbn in *. split_and!; [done..|]. intros _ He. by split; [|apply H2].
  - exists (pre ++ tr1'), tr2', []. by rewrite app_nil_r.
  - unfold carriedOut. rewrite Hm. constructor.
  - constructor.
Qed.
End Guard.

(** Every change of a clean, in its place. *)
Lemma clean_guarded s dataset options (apply_ safety : bool) tr res :
  runs (Clean s dataset options apply_ safety) tr res → ∀ t1 e t2, tr = t1 ++ e :: t2 → eventMutates e = true →
  apply_ = true ∧ justified (nextAction s dataset options safety noMode) t1 e.
Proof.
  intros Hr. assert (always (cleanGuard s dataset options safety noMode apply_) [] (Clean s dataset options apply_ safety) (λ _ _, True)) as Ha.
  { apply always_locked_at; [done..|]. eapply always_mono; [|by apply clean_always]. done. }
  destruct (always_runs _ _ _ tr [] _ Hr Ha) as [_ Hj]. intros t1 e t2 E Hm. specialize (Hj t1 e t2 E). rewrite app_nil_l in Hj.
  destruct e. exact (Hj Hm).
Qed.

(** The order a plan promises, of an action [a] before an action [b]. Checkpoint
    bookmarks go first, then holds, then snapshots; then what is left of snapshot
    metadata is cleared, then properties of datasets, their lineage after all the
    others. *)
Definition destroysBookmark (a : CleanAction) : Prop := ca_Operation a = "destroy-bookmark".
Definition dropsReference (a : CleanAction) : Prop := destroysBookmark a ∨ ca_Operation a = "release".
Definition destroysSnapshot (a : CleanAction) : Prop := ca_Operation a = "destroy-snapshot".
Definition clearsProperty (a : CleanAction) : Prop := ¬ dropsReference a ∧ ¬ destroysSnapshot a.
Definition ofSnapshot (a : CleanAction) : Prop := Contains (ca_Object a) "@" = true.
Definition clearsLineage (a : CleanAction) : Prop := clearsProperty a ∧ ¬ ofSnapshot a ∧ ca_Property a = LineageProperty.
Record inOrder (a b : CleanAction) : Prop := {
  io_bookmark : destroysBookmark b → destroysBookmark a;
  io_reference : dropsReference b → dropsReference a;
  io_snapshot : destroysSnapshot b → dropsReference a ∨ destroysSnapshot a;
  io_metadata : clearsProperty a → clearsProperty b ∧ (¬ ofSnapshot a → ¬ ofSnapshot b);
  io_lineage : clearsLineage a → clearsLineage b
}.
Lemma cleanRank_inOrder a b : cleanRank a ≤ cleanRank b → inOrder a b.
Proof.
  unfold cleanRank. intros H. split; unfold clearsLineage, clearsProperty, dropsReference, destroysBookmark, destroysSnapshot, ofSnapshot;
    destruct (String.eqb_spec (ca_Operation a) "destroy-bookmark"), (String.eqb_spec (ca_Operation b) "destroy-bookmark");
    try (intuition (congruence || lia));
    destruct (String.eqb_spec (ca_Operation a) "release"), (String.eqb_spec (ca_Operation b) "release"); try (intuition (congruence || lia));
    destruct (String.eqb_spec (ca_Operation a) "destroy-snapshot"), (String.eqb_spec (ca_Operation b) "destroy-snapshot"); try (intuition (congruence || lia));
    destruct (Contains (ca_Object a) "@"), (Contains (ca_Object b) "@"); try (intuition (congruence || lia));
    destruct (String.eqb_spec (ca_Property a) LineageProperty), (String.eqb_spec (ca_Property b) LineageProperty); intuition (congruence || lia).
Qed.
Lemma StronglySorted_weaken {A} (R R' : A → A → Prop) l : (∀ a b, R a b → R' a b) → StronglySorted R l → StronglySorted R' l.
Proof. intros H. induction 1 as [|a l _ IH HF]; constructor; [done|]. eapply Forall_impl; [exact HF|]. auto. Qed.

(** C24: an applied clean does what its plan says and nothing else, under the
    root's lock. Every change is the next action of a plan without blockers, made
    only when the state just read is the planned one after exactly the actions
    before it, with no resumable receive. The plan drops checkpoints, then holds,
    before it destroys snapshots, clears what is left of snapshot metadata before
    properties of datasets, and the lineage of datasets last. What is reported as
    applied is the number of changes made, and success means all of them were. *)
Theorem Clean_applies s dataset options (apply_ safety : bool) tr plan err :
  runs (Clean s dataset options apply_ safety) tr (plan, err) →
  (∀ t1 e t2, tr = t1 ++ e :: t2 → eventMutates e = true → apply_ = true ∧ justified (nextAction s dataset options safety noMode) t1 e ∧
     ∃ body, tr = Event (Acquire dataset) (Ok tt) :: body ++ [Event (Unlock dataset) tt]) ∧
  cp_Applied plan = changes tr ∧ StronglySorted inOrder (cp_Actions plan) ∧
  (apply_ = true → err = None → cp_Blockers plan = [] ∧ carriedOut (cp_Actions plan) tr).
Proof.
  intros Hr. assert (always (cleanGuard s dataset options safety noMode apply_) [] (Clean s dataset options apply_ safety)
    (λ tr r, cp_Applied r.1 = changes tr ∧ StronglySorted (λ a b, cleanRank a ≤ cleanRank b) (cp_Actions r.1) ∧
      (apply_ = true → r.2 = None → cp_Blockers r.1 = [] ∧ carriedOut (cp_Actions r.1) tr))) as Ha.
  { apply always_locked_at; [done|done|intros; split_and!; [done|constructor|done]..|].
    eapply always_mono; [|by apply clean_always]. intros tr' [p e] (H1 & H2 & H3). cbn [fst snd] in *.
    split_and!; [by rewrite changes_read|done|]. intros Ht He. destruct (H3 Ht He) as [Hb Hc]. split; [done|]. by apply carriedOut_read. }
  destruct (always_runs _ _ _ tr [] _ Hr Ha) as [(Happ & Hsort & Hdone) _].
  split; [|split_and!; [done|by eapply StronglySorted_weaken; [apply cleanRank_inOrder|]|done]]. intros t1 e t2 E Hm.
  destruct (clean_guarded _ _ _ _ _ _ _ Hr t1 e t2 E Hm) as [H1 H2]. split_and!; [done|done|]. eapply locked_mutation; [exact Hr| |done]. subst tr. apply elem_of_middle.
Qed.

(** * Where a plan's actions come from *)

Definition storedProof (state : State) (name lineage : string) (r : Reference) : Prop :=
  ∃ refs, referenceRecords state name lineage = Ok refs ∧ r ∈ refs.

(** The release or destruction of what a proof accounts for. *)
Definition proofAction (from : string → Reference → Prop) (state : State) (a : CleanAction) : Prop :=
  ∃ lineage r sources source, from lineage r ∧ Sources r state = Ok sources ∧ source ∈ sources ∧
    ((a = mkAction "release" (sourceSnapshot r source) (hold r) (sr_GUID source) ∧
      heldBy state (sourceSnapshot r source) (hold r) = true ∧ ∃ sn, sourceOwned state lineage r source sn) ∨
     (a = mkAction "destroy-bookmark" (sourceBookmark r source) "" (sr_GUID source) ∧ hasObject state (sourceBookmark r source) = true)).

Section Gathered.
Context (from : string → Reference → Prop) (extra : CleanAction → Prop) (state : State).

Record gatheredFrom (g : gathered) : Prop := {
  gf_actions a : a ∈ ga_Actions g → extra a ∨ proofAction from state a;
  gf_holds key : key ∈ ga_Holds g → ∃ lineage r source sn, key = holdKey (sourceSnapshot r source) (hold r) ∧
    sourceOwned state lineage r source sn ∧ mkAction "release" (sourceSnapshot r source) (hold r) (sr_GUID source) ∈ ga_Actions g
}.

Lemma gatheredFrom_nothing : gatheredFrom nothing.
Proof. split; cbn; [by intros a ?%elem_of_nil|set_solver]. Qed.
Lemma gatheredFrom_block g text : gatheredFrom g → gatheredFrom (addBlocker g text).
Proof. by intros [H1 H2]. Qed.
(** More actions and as many proven holds. *)
Lemma gatheredFrom_more g a marks :
  gatheredFrom g → extra a ∨ proofAction from state a → gatheredFrom (mkGathered (ga_Actions g ++ [a]) (ga_Blockers g) (ga_Holds g) marks).
Proof.
  intros [H1 H2] Ha. split; cbn.
  - intros b [Hb|Hb%list_elem_of_singleton]%elem_of_app; [by apply H1|by subst].
  - intros key (l & r & source & sn & ? & ? & Hin)%H2. exists l, r, source, sn. split_and!; [done..|]. apply elem_of_app. by left.
Qed.

Lemma gatherSource_from lineage r sources source g :
  from lineage r → Sources r state = Ok sources → source ∈ sources → gatheredFrom g → gatheredFrom (gatherSource state lineage r g source).
Proof.
  intros Hf Hs Hin Hg. unfold gatherSource.
  assert (gatheredFrom (gatherHold state lineage r g source)) as Hh.
  { unfold gatherHold. destruct (heldBy _ _ _) eqn:Eh; cbn [negb]; [|done].
    destruct (findOwned _ _ _ _) as [[sn m]|] eqn:Ef; [|by apply gatheredFrom_block].
    destruct (Z.eqb_spec (sn_GUID sn) (sr_GUID source)) as [Eg|]; cbn [negb orb]; [|by apply gatheredFrom_block].
    case_bool_decide as Em; cbn [negb]; [|by apply gatheredFrom_block]. apply findOwned_Ok in Ef as (F1 & F2 & F3). subst m.
    assert (sourceOwned state lineage r source sn) as Hso by done.
    pose proof (gatheredFrom_more g (mkAction "release" (sourceSnapshot r source) (hold r) (sr_GUID source)) (ga_Bookmarks g) Hg) as [H1 H2].
    { right. exists lineage, r, sources, source. split_and!; [done..|]. left. split_and!; [done..|]. by exists sn. }
    split; cbn in *; [exact H1|]. intros key [->%elem_of_singleton|Hk]%elem_of_union; [|by apply H2].
    exists lineage, r, source, sn. split_and!; [done..|]. apply elem_of_app. right. by left. }
  unfold gatherMark. destruct (hasObject _ _) eqn:Eo; cbn [negb]; [|done]. apply gatheredFrom_more; [done|]. right.
  exists lineage, r, sources, source. split_and!; [done..|]. by right.
Qed.

Lemma gatherReference_from lineage r g : from lineage r → gatheredFrom g → gatheredFrom (gatherReference state lineage r g).
Proof.
  intros Hf Hg. unfold gatherReference. destruct (Sources r state) as [sources|] eqn:Es; [|by apply gatheredFrom_block].
  assert (∀ l, (∀ x, x ∈ l → x ∈ sources) → ∀ g, gatheredFrom g → gatheredFrom (fold_left (gatherSource state lineage r) l g)) as Hl.
  { induction l as [|x l IH]; intros Hl g' Hg'; cbn; [done|]. apply IH; [intros y Hy; apply Hl; by right|].
    eapply gatherSource_from; [done..| |done]. apply Hl. by left. }
  by apply Hl.
Qed.
End Gathered.

(** The lineage a clean uses for a dataset: its own, or its root's. *)
Definition lineageFor (state : State) (dataset name lineage : string) : Prop :=
  storedLineage state name = Ok lineage ∨
  (storedLineage state name = Ok "" ∧ name ≠ dataset ∧ (storedLineage state dataset = Ok lineage ∨ lineage = "")).

(** A proof on one of the datasets of the scope. *)
Definition scopeProof (state : State) (dataset lineage : string) (r : Reference) : Prop :=
  ∃ name, name ∈ datasetNames state ∧ lineageFor state dataset name lineage ∧ storedProof state name lineage r.

Definition lineagesFor (state : State) (dataset : string) (lineages : gmap string string) : Prop :=
  ∀ name lineage, lineages !! name = Some lineage → lineageFor state dataset name lineage.

Lemma cleanDataset_from (P : list event → ∀ R, op R → Prop) options safety dataset state st name pre :
  (∀ pre R (o : op R), mutates o = false → P pre R o) → name ∈ datasetNames state →
  gatheredFrom (scopeProof state dataset) (λ _, False) state st.1 ∧ lineagesFor state dataset st.2 →
  always P pre (cleanDataset options safety dataset (match storedLineage state dataset with Ok lineage => lineage | Err _ => "" end) state st name)
    (λ _ st, gatheredFrom (scopeProof state dataset) (λ _, False) state st.1 ∧ lineagesFor state dataset st.2).
Proof.
  intros HP Hn [Hg Hl]. destruct st as [g lineages]. unfold cleanDataset. cbn [fst snd] in *.
  destruct (storedLineage state name) as [stored|] eqn:Es; [|by split; [apply gatheredFrom_block|]]. cbv zeta.
  set (lineage := if _ && _ then _ else _).
  assert (lineageFor state dataset name lineage) as Hlf.
  { subst lineage. destruct (String.eqb_spec stored "") as [->|]; cbn [andb]; [|by left].
    destruct (String.eqb_spec name dataset) as [->|]; cbn [negb]; [by left|]. right. split_and!; [done..|].
    destruct (storedLineage state dataset); [by left|by right]. }
  assert (lineagesFor state dataset (<[name := lineage]> lineages)) as Hl'.
  { intros n l. rewrite lookup_insert_Some. intros [[<- <-]|[_ H]]; [done|by apply Hl]. }
  assert (gatheredFrom (scopeProof state dataset) (λ _, False) state (lineageConflicts options state name lineage g)) as Hg'.
  { unfold lineageConflicts. cbv zeta. destruct (_ && _ && _), (_ || _); repeat apply gatheredFrom_block; done. }
  destruct (referenceRecords state name lineage) as [refs|] eqn:Er; [|by split; [apply gatheredFrom_block|]].
  apply always_bind. eapply always_mono; [|apply (always_forP P _ (gatheredFrom (scopeProof state dataset) (λ _, False) state)); [|exact Hg']].
  - intros tr g1 H1. by split.
  - intros g1 r pre1 Hr H1. unfold cleanReference, checkTarget. apply always_bind. destruct safety; cbn [negb].
    + split; [by apply HP|]. intros [[]|e]; cbn; apply gatherReference_from; try (by exists name; split_and!; [..|exists refs]); [done|].
      by apply gatheredFrom_block.
    + cbn. apply gatherReference_from; [by exists name; split_and!; [..|exists refs]|by apply gatheredFrom_block].
Qed.

Lemma Compact_nil {A} `{EqDecision A} (l : list A) : Compact l = [] → l = [].
Proof. destruct l as [|x l]; [done|]. intros H. exfalso. assert (x ∈ Compact (x :: l)) as Hx by (apply elem_of_Compact; by left). rewrite H in Hx. by apply elem_of_nil in Hx. Qed.
Lemma finishPlan_blockers plan actions b w : cp_Blockers (finishPlan plan actions b w) = [] → b = [].
Proof.
  cbn. intros H%Compact_nil. pose proof (SortStrings_perm b) as Hp. rewrite H in Hp. symmetry in Hp. by apply Permutation_nil_r in Hp.
Qed.
Lemma blocker_nil {A} (r : result A) : blocker r = [] → is_ok r = true.
Proof. by destruct r. Qed.
Lemma blocker_unit (r : result unit) : blocker r = [] → r = Ok tt.
Proof. by destruct r as [[]|]. Qed.

Definition basePlan (dataset : string) (options : CleanOptions) : CleanPlan := mkPlan dataset options [] [] [receivedWarning] 0.

(** What an error-free planning has read and found. *)
Definition plannedFrom (s : Service) (dataset : string) (options : CleanOptions) (mode : cleanMode) (plan : CleanPlan) (state : State) (tr : list event) : Prop :=
  Event (InspectState dataset (optionsSubtree options)) (Ok state) ∈ tr ∧
  (cp_Blockers plan = [] → scopeReady state dataset = Ok tt) ∧
  if bool_decide (co_ForgetTargets options = []) then
    ∃ early g lineages, plan = completePlan (basePlan dataset options) mode state early g lineages ∧
      gatheredFrom (scopeProof state dataset) (λ _, False) state g ∧ lineagesFor state dataset lineages ∧
      (cp_Blockers plan = [] → ∃ activation, Event GetActivationProperties (Ok activation) ∈ tr ∧
         retirementBlockers s state activation dataset mode = [])
  else
    cm_retirement mode = false ∧ co_Recursive options = false ∧ co_DestroyOwnedSnapshots options = false ∧
    ∃ early, plan = completeForget (mkPlan dataset options [] [] [] 0) state early.

Lemma quiescence_always (P : list event → ∀ R, op R → Prop) safety datasets pre :
  (∀ pre R (o : op R), mutates o = false → P pre R o) → always P pre (quiescence safety datasets) (λ tr _, ∃ tr', tr = pre ++ tr').
Proof. intros HP. eapply always_mono; [|by apply always_readonly, quiescence_readonly]. intros tr q (tr' & -> & _). by exists tr'. Qed.

Lemma completePlan_blockers plan mode state early g lineages : cp_Blockers (completePlan plan mode state early g lineages) = [] → early = [].
Proof. unfold completePlan. cbv zeta. intros H%finishPlan_blockers. by apply app_eq_nil in H as [? _]. Qed.
Lemma completeForget_blockers plan state early : cp_Blockers (completeForget plan state early) = [] → early = [].
Proof. unfold completeForget. destruct (fold_left _ _ _). intros H%finishPlan_blockers. by apply app_eq_nil in H as [? _]. Qed.

Lemma cleanPlan_plannedFrom s dataset options safety mode tr plan state :
  runs (cleanPlan s dataset options safety mode) tr (plan, state, None) → plannedFrom s dataset options mode plan state tr.
Proof.
  intros Hr. refine (proj1 (always_runs (λ _ _ _, True) _ _ tr [] (λ tr r, r.2 = None → plannedFrom s dataset options mode r.1.1 r.1.2 tr) Hr _) eq_refl).
  clear. unfold cleanPlan, plannedFrom, optionsSubtree. case_bool_decide as Ef; cbn [negb].
  - destruct (sv_clean s); cbn [negb]; [|done]. destruct (ValidateDataset dataset); [|done]. split; [done|]. intros [state|e]; [|done]. cbn [bindP].
    cbv zeta. split; [done|]. intros [activation|e]; [|done]. cbn [bindP app]. apply always_bind.
    eapply always_mono; [|by apply quiescence_always]. intros tr quiet (tr1 & ->). apply always_bind.
    eapply always_mono; [|apply always_conj; [by apply always_readonly; [|apply readonly_forP, cleanDataset_readonly]|
      eapply (always_forP _ _ (λ st, gatheredFrom (scopeProof state dataset) (λ _, False) state st.1 ∧ lineagesFor state dataset st.2));
        [|split; [apply gatheredFrom_nothing|intros n l H; cbn in H; by rewrite lookup_empty in H]]]].
    2: { intros st x pre Hx Hst. by apply cleanDataset_from. }
    intros tr [g lineages] [(tr2 & -> & _) [Hg Hl]] _. rewrite orb_false_r. split; [set_solver|]. split.
    + intros H%completePlan_blockers. apply app_eq_nil in H as [H _]. apply app_eq_nil in H as [H _]. by apply blocker_unit.
    + eexists _, g, lineages. split_and!; [done..|]. intros H%completePlan_blockers. exists activation. split; [set_solver|].
      apply app_eq_nil in H as [_ H]. by apply app_eq_nil in H as [? _].
  - destruct (cm_retirement mode); [done|]. unfold forgetPlan. destruct (co_Recursive options), (co_DestroyOwnedSnapshots options); cbn [orb]; try done.
    destruct (List.find _ _); [done|]. destruct (ValidateDataset dataset); [|done]. split; [done|]. intros [state|e]; [|done]. cbn [bindP].
    apply always_bind. eapply always_mono; [|by apply quiescence_always]. intros tr quiet (tr1 & ->) _. cbn [fst snd orb negb]. split; [set_solver|].
    split; [|by eauto]. intros H%completeForget_blockers. apply app_eq_nil in H as [H _]. by apply blocker_unit.
Qed.

(** * Destroying a snapshot *)

(** Names as ZFS gives them: distinct, a snapshot's with one [@] and no [#], and
    none with a zero byte. *)
Record wellNamed (st : State) : Prop := {
  wn_distinct : NoDup (ob_Name <$> Objects st);
  wn_snapshot o : o ∈ Objects st → ob_Type o = "snapshot" →
    ∃ d t, ob_Name o = d +:+ "@" +:+ t ∧ "@"%char ∉ bytes_of d ∧ "@"%char ∉ bytes_of t ∧
      "#"%char ∉ bytes_of (ob_Name o) ∧ "000"%char ∉ bytes_of (ob_Name o);
  wn_rows p : p ∈ Properties st → "000"%char ∉ bytes_of (pr_Dataset p);
  wn_received k m : Received st !! k = Some m → "000"%char ∉ bytes_of k
}.

(** The states a history has read. *)
Definition stateRead (e : event) : option State :=
  match e with Event o r =>
    match o in op R return R → option State with
    | InspectState _ _ => λ r, match r with Ok st => Some st | Err _ => None end
    | _ => λ _, None
    end r
  end.
Definition statesRead (tr : list event) : list State := omap stateRead tr.
Lemma statesRead_spec tr d rec st : Event (InspectState d rec) (Ok st) ∈ tr → st ∈ statesRead tr.
Proof. intros H. apply list_elem_of_omap. by exists (Event (InspectState d rec) (Ok st)). Qed.
Lemma statesRead_app tr1 tr2 : statesRead (tr1 ++ tr2) = statesRead tr1 ++ statesRead tr2.
Proof. apply omap_app. Qed.

Lemma datasetNames_NoDup st : NoDup (ob_Name <$> Objects st) → NoDup (datasetNames st).
Proof. intros H. unfold datasetNames. rewrite SortStrings_perm. by apply NoDup_fmap_filter. Qed.

(** A well named snapshot belongs to one dataset. *)
Lemma snapshotsIn_one st n1 n2 sn : wellNamed st → sn ∈ snapshotsIn st n1 → sn ∈ snapshotsIn st n2 → n1 = n2.
Proof.
  intros Hw (o1 & H1 & S1 & ->)%elem_of_snapshotsIn (o2 & H2 & S2 & E)%elem_of_snapshotsIn. assert (ob_Name o1 = ob_Name o2) as En by (by injection E).
  unfold isSnapshotOf in *. apply andb_true_iff in S1 as [T1%eqb_str_true P1%HasPrefix_spec], S2 as [_ P2%HasPrefix_spec].
  destruct P1 as [t1 P1], P2 as [t2 P2]. destruct (wn_snapshot _ Hw o1 H1 T1) as (d & t & Hn & Hd & Ht & _).
  assert (∀ n t', ob_Name o1 = (n +:+ "@") +:+ t' → n = d) as Hu.
  { intros n t' E'. rewrite Hn, app_assoc_str in E'. apply (f_equal bytes_of) in E'. rewrite !bytes_of_app in E'. cbn in E'.
    apply bytes_of_inj. symmetry in E'. by destruct (cut_unique _ _ _ _ _ Hd Ht E'). }
  rewrite (Hu n1 t1 P1), (Hu n2 t2); [done|congruence].
Qed.

(** The destructions of a plan, as a list. *)
Definition doomedIn (proved : gset string) (state : State) (lineages : gmap string string) (name : string) : list Snapshot :=
  filter (λ sn, is_ok (Ownership sn (mget lineages name)) = true ∧ dependent proved sn = false) (snapshotsIn state name).
Definition destroyAction (sn : Snapshot) : CleanAction := mkAction "destroy-snapshot" (sn_Name sn) "" (sn_GUID sn).

Lemma destroyOne_actions mode proved lineage l : ∀ x,
  dx_Actions (fold_left (destroyOne mode proved lineage) l x)
  = dx_Actions x ++ (destroyAction <$> filter (λ sn, is_ok (Ownership sn lineage) = true ∧ dependent proved sn = false) l).
Proof.
  induction l as [|sn l IH]; intros x; cbn [fold_left]; [by rewrite app_nil_r|]. rewrite IH, filter_cons. unfold destroyOne at 1.
  destruct (is_ok (Ownership sn lineage)) eqn:Eo; cbn [negb]; [|by rewrite decide_False by naive_solver].
  destruct (dependent proved sn) eqn:Ed; [rewrite decide_False by naive_solver; by destruct (cm_retirement mode)|].
  rewrite decide_True by done. cbn [dx_Actions fmap list_fmap]. by rewrite <- app_assoc.
Qed.

Lemma destructions_actions options mode state proved lineages datasets :
  dx_Actions (destructions options mode state proved lineages datasets)
  = if co_DestroyOwnedSnapshots options then datasets ≫= λ name, destroyAction <$> doomedIn proved state lineages name else [].
Proof.
  unfold destructions. destruct (co_DestroyOwnedSnapshots options); cbn [negb]; [|done].
  assert (∀ x, dx_Actions (fold_left (λ x name, fold_left (destroyOne mode proved (mget lineages name)) (snapshotsIn state name) x) datasets x)
    = dx_Actions x ++ (datasets ≫= λ name, destroyAction <$> doomedIn proved state lineages name)) as H; [|by rewrite H].
  induction datasets as [|n datasets IH]; intros x; cbn [fold_left]; [cbn; by rewrite app_nil_r|]. rewrite IH, destroyOne_actions.
  by rewrite <- app_assoc.
Qed.

Lemma doomedIn_spec proved state lineages name sn :
  sn ∈ doomedIn proved state lineages name ↔
  sn ∈ snapshotsIn state name ∧ is_ok (Ownership sn (mget lineages name)) = true ∧ dependent proved sn = false.
Proof. unfold doomedIn. rewrite list_elem_of_filter. tauto. Qed.

Lemma snapshot_by_name st n1 n2 s1 s2 : NoDup (ob_Name <$> Objects st) →
  s1 ∈ snapshotsIn st n1 → s2 ∈ snapshotsIn st n2 → sn_Name s1 = sn_Name s2 → s1 = s2.
Proof.
  intros Hnd (o1 & H1 & _ & ->)%elem_of_snapshotsIn (o2 & H2 & _ & ->)%elem_of_snapshotsIn E.
  by rewrite (NoDup_fmap_inj ob_Name _ o1 o2 Hnd H1 H2 E).
Qed.

Lemma destructions_NoDup options mode state proved lineages : wellNamed state →
  NoDup (ca_Object <$> dx_Actions (destructions options mode state proved lineages (datasetNames state))).
Proof.
  intros Hw. rewrite destructions_actions. destruct (co_DestroyOwnedSnapshots options); [|constructor].
  rewrite fmap_list_bind. apply NoDup_bind.
  - intros n1 n2 y _ _ Hy1 Hy2. rewrite <- list_fmap_compose in Hy1, Hy2.
    apply list_elem_of_fmap in Hy1 as (s1 & -> & [H1 _]%doomedIn_spec), Hy2 as (s2 & E & [H2 _]%doomedIn_spec). cbn in E.
    assert (s1 = s2) as <-; [|by eapply snapshotsIn_one]. eapply snapshot_by_name; [apply Hw|done..].
  - intros n _. rewrite <- list_fmap_compose. unfold doomedIn. apply (NoDup_fmap_filter sn_Name). apply snapshotsIn_NoDup, Hw.
  - apply datasetNames_NoDup, Hw.
Qed.

Definition drops (a : CleanAction) (n : string) : Prop :=
  (ca_Operation a = "destroy-snapshot" ∨ ca_Operation a = "destroy-bookmark") ∧ ca_Object a = n.
Definition releases (a : CleanAction) (n tag : string) : Prop := ca_Operation a = "release" ∧ ca_Object a = n ∧ ca_Property a = tag.

Lemma rank_low a : cleanRank a ≤ 2 → ca_Operation a = "destroy-snapshot" ∨ ca_Operation a = "destroy-bookmark" ∨ ca_Operation a = "release".
Proof.
  unfold cleanRank. intros H. destruct (String.eqb_spec (ca_Operation a) "destroy-bookmark"); [tauto|].
  destruct (String.eqb_spec (ca_Operation a) "release"); [tauto|]. destruct (String.eqb_spec (ca_Operation a) "destroy-snapshot"); [tauto|].
  destruct (Contains _ _); [lia|]. destruct (_ =? _)%string; lia.
Qed.

(** What a snapshot keeps while references are dropped and other snapshots
    destroyed: all but the holds released. *)
Record keeps (n : string) (released : string → Prop) (before after : State) : Prop := {
  kp_object o : ob_Name o = n → o ∈ Objects before → o ∈ Objects after;
  kp_properties : filter (λ p, pr_Dataset p = n) (Properties after) = filter (λ p, pr_Dataset p = n) (Properties before);
  kp_clones : listAt (Clones after) n = listAt (Clones before) n;
  kp_holds tag : tag ∈ listAt (Holds after) n ↔ tag ∈ listAt (Holds before) n ∧ ¬ released tag
}.

Lemma expectedAfter_drop before a : ca_Operation a = "destroy-snapshot" ∨ ca_Operation a = "destroy-bookmark" →
  expectedAfter before a = mkState (filter (λ x, ob_Name x ≠ ca_Object a) (Objects before)) (filter (λ p, pr_Dataset p ≠ ca_Object a) (Properties before)) ∅
    (delete (ca_Object a) (ResumeTokens before)) (delete (ca_Object a) (Clones before)) (delete (ca_Object a) (Holds before)).
Proof. unfold expectedAfter. by intros [-> | ->]. Qed.
Lemma expectedAfter_release before a : ca_Operation a = "release" →
  expectedAfter before a = mkState (Objects before) (Properties before) ∅ (ResumeTokens before) (Clones before)
    (<[ca_Object a := filter (λ tag, tag ≠ ca_Property a) (default [] (Holds before !! ca_Object a))]> (Holds before)).
Proof. unfold expectedAfter. by intros ->. Qed.

Lemma step_keeps n before a after : steps before a after → cleanRank a ≤ 2 → ¬ drops a n → keeps n (releases a n) before after.
Proof.
  intros [So Sp _ Sc Sh] [Hd|[Hd|Hr]]%rank_low Hn.
  1, 2: assert (ca_Object a ≠ n) as Hne by (intros E; apply Hn; split; tauto);
    assert (∀ tag, ¬ releases a n tag) as Hnr by (intros tag [E _]; by rewrite E in Hd);
    rewrite (expectedAfter_drop before a) in * by tauto; cbn [Objects Properties Clones Holds] in *; split;
    [ intros o <- Ho; rewrite So; by apply list_elem_of_filter
    | rewrite Sp, list_filter_filter; apply list_filter_iff; intros p; split; [tauto|]; intros ->; by split
    | rewrite Sc; unfold listAt; by rewrite lookup_delete_ne
    | intros tag; rewrite Sh; unfold listAt; rewrite lookup_delete_ne by done; naive_solver ].
  rewrite (expectedAfter_release before a) in * by done. cbn [Objects Properties Clones Holds] in *. split; [by rewrite So|by rewrite Sp|by rewrite Sc|].
  intros tag. rewrite Sh. unfold listAt, releases. destruct (decide (ca_Object a = n)) as [<-|Hne].
  - rewrite lookup_insert_eq. cbn [default from_option id]. rewrite list_elem_of_filter. naive_solver.
  - rewrite lookup_insert_ne by done. naive_solver.
Qed.

Lemma chain_keeps n state acts current : chain state acts current → (∀ b, b ∈ acts → cleanRank b ≤ 2 ∧ ¬ drops b n) →
  keeps n (λ tag, ∃ b, b ∈ acts ∧ releases b n tag) state current.
Proof.
  induction 1 as [|acts a current after Hc IH Hs _]; intros Ha.
  - split; try done. intros tag. split; [|tauto]. intros Ht. split; [done|]. intros (b & Hb & _). by apply elem_of_nil in Hb.
  - destruct (IH ltac:(intros; apply Ha, elem_of_app; by left)) as [K1 K2 K3 K4].
    destruct (Ha a (elem_of_middle a acts [])) as [Hr Hd]. destruct (step_keeps n _ _ _ Hs Hr Hd) as [S1 S2 S3 S4].
    split; [auto|congruence|congruence|]. intros tag. rewrite S4, K4. split.
    + intros [[Ht Hn] Hr']. split; [done|]. intros (b & [Hb| ->%list_elem_of_singleton]%elem_of_app & Hb'); [|done]. apply Hn. eauto.
    + intros [Ht Hn]. split_and!; [done| |].
      * intros (b & Hb & Hb'). apply Hn. exists b. split; [apply elem_of_app; by left|done].
      * intros Hr'. apply Hn. exists a. split; [apply elem_of_middle|done].
Qed.

Lemma chain_tokens state acts current : chain state acts current → hasTokens state = false → hasTokens current = false.
Proof. by induction 1. Qed.

(** * What a plan may contain *)

(** Removing a forgotten target's record from the root. *)
Definition forgetInherit (forget : gset string) (dataset : string) (state : State) (a : CleanAction) : Prop :=
  ∃ name, a = mkAction "inherit" dataset name 0 ∧
    ((∃ lineage r, name = property r ∧ storedProof state dataset lineage r ∧ rf_TargetID r ∈ forget) ∨
     (∃ p, p ∈ Properties state ∧ pr_Dataset p = dataset ∧ pr_Source p = SourceLocal ∧ pr_Name p = name ∧
        (CutPrefix name TargetStatePrefix).2 = true ∧ targetOf name ∈ forget)).
Definition forgetProof (forget : gset string) (dataset : string) (state : State) (lineage : string) (r : Reference) : Prop :=
  storedLineage state dataset = Ok lineage ∧ storedProof state dataset lineage r ∧ rf_TargetID r ∈ forget.
Abbreviation forgetFrom forget dataset state :=
  (gatheredFrom (forgetProof forget dataset state) (forgetInherit forget dataset state) state) (only parsing).

Lemma forgetProofs_from forget dataset state : forgetFrom forget dataset state (forgetProofs dataset forget state).1.
Proof.
  unfold forgetProofs. destruct (storedLineage state dataset) as [lineage|] eqn:Es; [|apply gatheredFrom_block, gatheredFrom_nothing].
  destruct (_ =? _)%string; [apply gatheredFrom_block, gatheredFrom_nothing|].
  destruct (referenceRecords state dataset lineage) as [refs|] eqn:Er; [|apply gatheredFrom_block, gatheredFrom_nothing].
  assert (∀ l, (∀ r, r ∈ l → r ∈ refs) → ∀ st, forgetFrom forget dataset state st.1 →
    forgetFrom forget dataset state (fold_left (forgetReference dataset lineage forget state) l st).1) as Hl.
  { induction l as [|r l IH]; intros Hl [g found] Hg; [done|]. cbn [fold_left]. apply IH; [intros x Hx; apply Hl; by right|].
    unfold forgetReference. case_bool_decide as Et; cbn [negb]; [|done]. assert (storedProof state dataset lineage r) by (exists refs; split; [done|apply Hl; by left]).
    cbn [fst]. apply gatherReference_from; [done|]. apply gatheredFrom_more; [done|]. left. eexists. split; [done|]. left. by exists lineage, r. }
  apply Hl; [done|apply gatheredFrom_nothing].
Qed.

Lemma completeForget_actions plan state early a :
  a ∈ cp_Actions (completeForget plan state early) →
  let forget : gset string := list_to_set (co_ForgetTargets (cp_Options plan)) in
  forgetInherit forget (cp_Dataset plan) state a ∨ proofAction (forgetProof forget (cp_Dataset plan) state) state a.
Proof.
  unfold completeForget. cbv zeta. set (forget := list_to_set _). set (dataset := cp_Dataset plan).
  pose proof (forgetProofs_from forget dataset state) as Hg0. destruct (forgetProofs dataset forget state) as [g0 found0].
  assert (∀ l, (∀ p, p ∈ l → p ∈ Properties state) → ∀ st, forgetFrom forget dataset state st.1 →
    forgetFrom forget dataset state (fold_left (forgetRow dataset forget) l st).1) as Hl.
  { induction l as [|p l IH]; intros Hl [g found] Hg; [done|]. cbn [fold_left]. apply IH; [intros x Hx; apply Hl; by right|].
    unfold forgetRow. destruct (String.eqb_spec (pr_Dataset p) dataset); cbn [negb orb]; [|done].
    destruct (CutPrefix (pr_Name p) TargetStatePrefix).2 eqn:Ec; cbn [negb orb]; [|done].
    destruct (String.eqb_spec (pr_Source p) SourceLocal); cbn [negb orb]; [|done]. case_bool_decide; cbn [negb]; [|done].
    cbn [fst]. apply gatheredFrom_more; [done|]. left. eexists. split; [done|]. right. exists p. split_and!; try done. apply Hl. by left. }
  specialize (Hl (Properties state) ltac:(done) (g0, found0) Hg0). destruct (fold_left _ _ _) as [g found]. cbn [cp_Actions finishPlan].
  rewrite elem_of_sortCleanActions. by apply Hl.
Qed.

(** Clearing a property of the namespace, on an object that has it. *)
Definition hasProperty (state : State) (object name : string) : Prop :=
  (∃ p, p ∈ Properties state ∧ pr_Dataset p = object ∧ pr_Name p = name) ∨
  (∃ values, Received state !! object = Some values ∧ is_Some (values !! name)).
Definition cleanInherit (mode : cleanMode) (state : State) (a : CleanAction) : Prop :=
  ∃ object name, a = inheritAction (holdKey object name) ∧ hasProperty state object name ∧ HasPrefix name Namespace = true ∧ keepsKey mode object name = false.

Lemma inheritKeys_spec mode destroyed state key : key ∈ inheritKeys mode destroyed state → cleanInherit mode state (inheritAction key).
Proof.
  unfold inheritKeys. rewrite elem_of_list_to_set, elem_of_app.
  assert (∀ object name, hasProperty state object name → inheritKey mode destroyed object name = Some key → cleanInherit mode state (inheritAction key)) as Hk.
  { intros object name Hhas. unfold inheritKey. destruct (keepsKey mode object name) eqn:Ek; [done|]. destruct (HasPrefix name Namespace) eqn:Ep; cbn [andb]; [|done].
    case_match; [|done]. intros [= <-]. by exists object, name. }
  intros [(p & Hin & Hp)%list_elem_of_omap|([k values] & Hkv & Hin)%list_elem_of_bind].
  - eapply Hk; [|exact Hp]. left. by exists p.
  - apply list_elem_of_omap in Hkv as ([n v] & Hnv & Hkey). eapply Hk; [|exact Hkey]. right. exists values.
    apply elem_of_map_to_list in Hin, Hnv. split; [done|]. by exists v.
Qed.

(** The actions of a clean, by where they come from. *)
Lemma completePlan_actions plan mode state early g lineages a :
  gatheredFrom (scopeProof state (cp_Dataset plan)) (λ _, False) state g →
  a ∈ cp_Actions (completePlan plan mode state early g lineages) →
  proofAction (scopeProof state (cp_Dataset plan)) state a ∨
  a ∈ dx_Actions (destructions (cp_Options plan) mode state (ga_Holds g) lineages (datasetNames state)) ∨ cleanInherit mode state a.
Proof.
  intros Hg. unfold completePlan. cbv zeta. cbn [cp_Actions finishPlan]. rewrite elem_of_sortCleanActions, !elem_of_app.
  intros [Ha|[Ha|Ha]]; [|tauto|].
  - destruct (gf_actions _ _ _ _ Hg a Ha); [done|tauto].
  - right; right. apply list_elem_of_fmap in Ha as (key & -> & Hk%elem_of_elements). by eapply inheritKeys_spec.
Qed.

Lemma proofAction_op from state a : proofAction from state a → ca_Operation a = "release" ∨ ca_Operation a = "destroy-bookmark".
Proof. intros (l & r & ss & source & _ & _ & _ & [(-> & _)|(-> & _)]); [by left|by right]. Qed.
Lemma inheritAction_op key : ca_Operation (inheritAction key) = "inherit".
Proof. unfold inheritAction. by destruct (Cut key "000") as [[??]?]. Qed.

(** The bookmarks a plan destroys are named with a [#]. *)
Lemma proofAction_mark from state a : proofAction from state a → ca_Operation a = "destroy-bookmark" → "#"%char ∈ bytes_of (ca_Object a).
Proof.
  intros (l & r & ss & source & _ & _ & _ & [(-> & _)|(-> & _)]) H; [done|]. cbn [ca_Object]. unfold sourceBookmark.
  rewrite !bytes_of_app. cbn. set_solver.
Qed.

(** A hold in the proven set has a release in the plan. *)
Lemma holdKey_inj o1 t1 o2 t2 : "000"%char ∉ bytes_of o1 → "000"%char ∉ bytes_of o2 → holdKey o1 t1 = holdKey o2 t2 → o1 = o2 ∧ t1 = t2.
Proof.
  unfold holdKey, NUL. intros H1 H2 E. apply (f_equal (λ s, Cut s "000")) in E. rewrite !app_cons_str, !app_nil_str in E.
  rewrite !Cut_app in E by done. by injection E.
Qed.

Section Destroy.
Context (plan0 : CleanPlan) (mode : cleanMode) (state : State) (early : list string) (g : gathered) (lineages : gmap string string).
Abbreviation plan := (completePlan plan0 mode state early g lineages) (only parsing).
Abbreviation x := (destructions (cp_Options plan0) mode state (ga_Holds g) lineages (datasetNames state)) (only parsing).
Hypothesis Hw : wellNamed state.
Hypothesis Hg : gatheredFrom (scopeProof state (cp_Dataset plan0)) (λ _, False) state g.

Lemma plan_split acts a rest : cp_Actions plan = acts ++ a :: rest → ca_Operation a = "destroy-snapshot" →
  a ∈ dx_Actions x ∧ (∀ b, b ∈ acts → ca_Operation b = "destroy-snapshot" → ca_Object b ≠ ca_Object a).
Proof using Hw Hg.
  intros E Ha. split.
  - assert (a ∈ cp_Actions plan) as Hin by (rewrite E; apply elem_of_middle).
    destruct (completePlan_actions _ _ _ _ _ _ _ Hg Hin) as [[H|H]%proofAction_op|[H|(o & n & -> & _)]]; [congruence|congruence|done|].
    by rewrite inheritAction_op in Ha.
  - intros b Hb Hop Eo.
    assert (filter (λ a, ca_Operation a = "destroy-snapshot") (cp_Actions plan) ≡ₚ dx_Actions x) as Hp.
    { unfold completePlan. cbv zeta. cbn [cp_Actions finishPlan]. rewrite sortCleanActions_perm, !filter_app.
      rewrite list_filter_none, app_nil_l; [rewrite list_filter_all, list_filter_none, app_nil_r; [done| |]|].
      - intros c (key & -> & _)%list_elem_of_fmap Hc. by rewrite inheritAction_op in Hc.
      - rewrite destructions_actions. apply Forall_forall. intros c Hc. destruct (co_DestroyOwnedSnapshots _); [|by apply elem_of_nil in Hc].
        apply list_elem_of_bind in Hc as (n & (sn & -> & _)%list_elem_of_fmap & _). done.
      - intros c Hc Hco. destruct (gf_actions _ _ _ _ Hg c Hc) as [[]|[H|H]%proofAction_op]; congruence. }
    pose proof (destructions_NoDup (cp_Options plan0) mode state (ga_Holds g) lineages Hw) as Hnd. rewrite <- Hp, E, filter_app, filter_cons, decide_True in Hnd by done.
    rewrite fmap_app in Hnd. apply NoDup_app in Hnd as (_ & Hdis & _). apply (Hdis (ca_Object b)).
    + apply list_elem_of_fmap. exists b. split; [done|]. by apply list_elem_of_filter.
    + rewrite Eo. apply list_elem_of_fmap. exists a. split; [done|by left].
Qed.

(** The snapshot of a destruction, as planned. *)
Lemma destruction_snapshot a : a ∈ dx_Actions x → ∃ name sn m, co_DestroyOwnedSnapshots (cp_Options plan0) = true ∧ a = destroyAction sn ∧
  name ∈ datasetNames state ∧ sn ∈ snapshotsIn state name ∧ lineages !! name = Some (mget lineages name) ∧ Owned sn (mget lineages name) m ∧
  sn_Clones sn = [] ∧ ∀ tag, tag ∈ sn_Holds sn → ∃ b, b ∈ cp_Actions plan ∧ releases b (sn_Name sn) tag.
Proof using Hw Hg.
  rewrite destructions_actions. destruct (co_DestroyOwnedSnapshots _); [|by intros ?%elem_of_nil].
  intros (name & (sn & -> & (Hin & Ho & Hd)%doomedIn_spec)%list_elem_of_fmap & Hn)%list_elem_of_bind.
  destruct (Ownership sn (mget lineages name)) as [m|] eqn:Em; [|done]. apply Ownership_Ok in Em. unfold dependent in Hd.
  rewrite !orb_false_iff, negb_false_iff, bool_decide_eq_true in Hd. destruct Hd as [[Hc _] Hh].
  exists name, sn, m. split_and!; try done.
  - apply mget_not_empty; [done|]. apply ValidID_not_empty, (owned_valid _ _ _ Em).
  - intros tag Ht. assert (holdKey (sn_Name sn) tag ∈ ga_Holds g) as Hk.
    { apply dec_stable. intros Hk. assert (existsb (λ tag, negb (bool_decide (holdKey (sn_Name sn) tag ∈ ga_Holds g))) (sn_Holds sn) = true) as Hx; [|congruence].
      apply existsb_exists. exists tag. split; [by apply list_elem_of_In|]. by rewrite bool_decide_false. }
    apply (gf_holds _ _ _ _ Hg) in Hk as (l & r & source & sn' & Ek & (Hin' & Hn' & _) & Hact).
    assert (∀ y d, y ∈ snapshotsIn state d → "000"%char ∉ bytes_of (sn_Name y)) as Hnul.
    { intros y d (o & Ho' & Hs & ->)%elem_of_snapshotsIn. unfold isSnapshotOf in Hs. apply andb_true_iff in Hs as [Ht'%eqb_str_true _].
      by destruct (wn_snapshot _ Hw o Ho' Ht') as (? & ? & _ & _ & _ & _ & ?). }
    apply holdKey_inj in Ek as [E1 E2]; [|by eapply Hnul|rewrite <- Hn'; by eapply Hnul]. exists (mkAction "release" (sourceSnapshot r source) (hold r) (sr_GUID source)). split; [|by split_and!].
    unfold completePlan. cbv zeta. cbn [cp_Actions finishPlan]. apply elem_of_sortCleanActions, elem_of_app. left. exact Hact.
Qed.
End Destroy.

Lemma Owned_same s1 s2 lineage m :
  sn_Name s1 = sn_Name s2 → sn_GUID s1 = sn_GUID s2 → sn_Properties s1 = sn_Properties s2 → Owned s1 lineage m → Owned s2 lineage m.
Proof. intros En Eg Ep []. split; rewrite <- ?En, <- ?Eg, <- ?Ep; done. Qed.

(** The state just read before a snapshot is destroyed shows that nothing needs
    it. *)
Lemma destroy_ready s dataset options mode plan state tr acts a rest current :
  plannedFrom s dataset options mode plan state tr → wellNamed state → cp_Blockers plan = [] →
  cp_Actions plan = acts ++ a :: rest → StronglySorted (λ a b, cleanRank a ≤ cleanRank b) (cp_Actions plan) →
  chain state acts current → ca_Operation a = "destroy-snapshot" →
  co_DestroyOwnedSnapshots options = true ∧ ∃ name lineage sn m, name ∈ datasetNames state ∧ lineageFor state dataset name lineage ∧
    sn ∈ snapshotsIn current name ∧ a = destroyAction sn ∧ Owned sn lineage m ∧ unprotected sn.
Proof.
  intros (_ & Hready & Hp) Hw Hb Ha Hs Hch Hop. case_bool_decide as Ef.
  2: { exfalso. destruct Hp as (_ & _ & _ & early & ->).
       assert (a ∈ cp_Actions (completeForget (mkPlan dataset options [] [] [] 0) state early)) as Hin by (rewrite Ha; apply elem_of_middle).
       apply completeForget_actions in Hin as [(n & -> & _)|[H|H]%proofAction_op]; [done|congruence..]. }
  destruct Hp as (early & g & lineages & -> & Hg & Hl & _).
  destruct (plan_split (basePlan dataset options) mode state early g lineages Hw Hg acts a rest Ha Hop) as [Hin Hnd].
  destruct (destruction_snapshot (basePlan dataset options) mode state early g lineages Hw Hg a Hin)
    as (name & sn & m & Hopt & -> & Hname & Hsn & Hlin & Hown & Hcl & Hrel).
  split; [done|]. cbn [ca_Object destroyAction] in Hnd. destruct (sorted_around cleanRank _ _ _ _ Hs Ha) as [Hbefore Hless].
  assert (cleanRank (destroyAction sn) = 2) as Hrank by done.
  apply elem_of_snapshotsIn in Hsn as (o & Ho & Hso & ->). cbn [sn_Name snapshotOf] in *.
  assert ("#"%char ∉ bytes_of (ob_Name o)) as Hhash.
  { unfold isSnapshotOf in Hso. apply andb_true_iff in Hso as [Ht%eqb_str_true _]. by destruct (wn_snapshot _ Hw o Ho Ht) as (? & ? & _ & _ & _ & ? & _). }
  destruct (chain_keeps (ob_Name o) _ _ _ Hch) as [K1 K2 K3 K4].
  { intros b Hbin. split; [rewrite <- Hrank; by apply Hbefore|]. intros [[Hd|Hd] Eo]; [by eapply Hnd|].
    assert (b ∈ cp_Actions (completePlan (basePlan dataset options) mode state early g lineages)) as Hbp
      by (rewrite Ha; apply elem_of_app; by left).
    destruct (completePlan_actions (basePlan dataset options) _ _ _ _ _ _ Hg Hbp) as [H|[H|(o' & n' & -> & _)]]; [|..|by rewrite inheritAction_op in Hd].
    - apply Hhash. rewrite <- Eo. by eapply proofAction_mark.
    - destruct (destruction_snapshot (basePlan dataset options) mode state early g lineages Hw Hg b H) as (? & ? & ? & _ & -> & _). done. }
  exists name, (mget lineages name), (snapshotOf current o), m. split_and!.
  - done.
  - by apply Hl.
  - apply elem_of_snapshotsIn. exists o. split_and!; [by apply K1|done|done].
  - done.
  - eapply Owned_same; [..|exact Hown]; [done|done|]. cbn. by rewrite K2.
  - unfold unprotected. cbn. fold (listAt (Holds current) (ob_Name o)) (listAt (Clones current) (ob_Name o)). rewrite K3. split_and!; [|done|].
    + destruct (listAt (Holds current) (ob_Name o)) as [|tag tags] eqn:Et; [done|]. exfalso.
      destruct (K4 tag) as [K _]. destruct K as [Kin Kno]; [by left|]. apply Kno. destruct (Hrel tag Kin) as (b & Hbp & Hbr).
      exists b. split; [|done]. apply Hless; [done|]. rewrite Hrank. destruct Hbr as [Hbo _]. unfold cleanRank. by rewrite Hbo.
    + eapply chain_tokens; [done|]. by eapply scopeReady_tokens, Hready.
Qed.

(** A snapshot [n] that the history justifies destroying. *)
Definition destroyable (dataset : string) (options : CleanOptions) (n : string) (pre : list event) : Prop :=
  co_DestroyOwnedSnapshots options = true ∧
  ∃ state current name lineage sn m, Event (InspectState dataset (optionsSubtree options)) (Ok state) ∈ pre ∧
    lineageFor state dataset name lineage ∧ lastRead dataset (optionsSubtree options) current pre ∧
    sn ∈ snapshotsIn current name ∧ sn_Name sn = n ∧ Owned sn lineage m ∧ unprotected sn.

(** The plan of the next action, with what it was made from. *)
Lemma nextAction_planned s dataset options safety mode pre R (o : op R) :
  nextAction s dataset options safety mode pre R o →
  Forall wellNamed (statesRead pre) →
  ∃ plan state acts a rest current p1, plannedFrom s dataset options mode plan state p1 ∧ (∀ e, e ∈ p1 → e ∈ pre) ∧ wellNamed state ∧
    cp_Blockers plan = [] ∧ cp_Actions plan = acts ++ a :: rest ∧ StronglySorted (λ a b, cleanRank a ≤ cleanRank b) (cp_Actions plan) ∧
    performs a o ∧ lastRead dataset (optionsSubtree options) current pre ∧ chain state acts current.
Proof.
  intros (plan & state & acts & a & rest & current & (p0 & p1 & p2 & -> & Hplan) & Hb & Hacts & Hop & _ & Hlast & Hch) Hwn.
  pose proof (cleanPlan_plannedFrom _ _ _ _ _ _ _ _ Hplan) as Hpf. pose proof (cleanPlan_fresh _ _ _ _ _ _ _ _ _ Hplan) as [_ Hsort].
  exists plan, state, acts, a, rest, current, p1. assert (∀ e, e ∈ p1 → e ∈ p0 ++ p1 ++ p2) as Hsub by (intros e He; rewrite !elem_of_app; tauto).
  split_and!; try done. rewrite Forall_forall in Hwn. eapply Hwn, statesRead_spec, Hsub, Hpf.
Qed.

Lemma nextAction_destroys s dataset options safety mode pre n :
  nextAction s dataset options safety mode pre _ (DestroySnapshot n) →
  Forall wellNamed (statesRead pre) → destroyable dataset options n pre.
Proof.
  intros Hn Hwn. destruct (nextAction_planned _ _ _ _ _ _ _ _ Hn Hwn)
    as (plan & state & acts & a & rest & current & p1 & Hpf & Hsub & Hw & Hb & Hacts & Hsort & [Hop ->] & Hlast & Hch).
  destruct (destroy_ready _ _ _ _ _ _ _ _ _ _ _ Hpf Hw Hb Hacts Hsort Hch Hop) as (Hopt & name & lineage & sn & m & _ & Hl & Hsn & Ea & Hown & Hu).
  split; [done|]. exists state, current, name, lineage, sn, m. split_and!; try done; [apply Hsub, Hpf|by rewrite Ea].
Qed.

(** C7: a clean destroys a snapshot only when applying, only when asked to
    destroy owned snapshots, and only right after reading a state in which that
    snapshot is owned by its dataset's lineage or its root's, has no hold and no
    clone, and no receive is resumable; the holds a proof accounted for were
    released first. ZFS names are taken to be distinct and well formed in what is
    read. *)
Theorem Clean_destroys_safely s dataset options (apply_ safety : bool) tr res t1 n r t2 :
  runs (Clean s dataset options apply_ safety) tr res → tr = t1 ++ Event (DestroySnapshot n) r :: t2 →
  Forall wellNamed (statesRead tr) → apply_ = true ∧ destroyable dataset options n t1.
Proof.
  intros Hr E Hwn. destruct (clean_guarded s dataset options apply_ safety tr _ Hr t1 _ t2 E eq_refl) as [Hap Hnext]. split; [done|].
  eapply nextAction_destroys; [exact Hnext|]. rewrite E, statesRead_app in Hwn. by apply Forall_app in Hwn as [? _].
Qed.

(** * Forgetting *)

(** A change that concerns one target of one root and nothing else, given what
    the root's state was. *)
Definition concerns (state : State) (dataset id : string) (e : event) : Prop :=
  match e with Event o _ =>
    match o with
    | InheritProperty d name => d = dataset ∧
        ((∃ r, name = property r ∧ rf_TargetID r = id) ∨ ((CutPrefix name TargetStatePrefix).2 = true ∧ targetOf name = id))
    | ReleaseHold tag snap => tag = SnapshotPrefix +:+ id ∧ ∃ lineage r source sn, rf_TargetID r = id ∧ storedProof state dataset lineage r ∧
        snap = sourceSnapshot r source ∧ sourceOwned state lineage r source sn
    | DestroyBookmark mark => ∃ lineage r source, rf_TargetID r = id ∧ storedProof state dataset lineage r ∧ mark = sourceBookmark r source
    | _ => False
    end
  end.

(** C21: forgetting targets changes only what a root keeps for those targets: it
    clears their proofs, bindings and suspension markers on the root, releases
    only holds tagged for them, on snapshots that a stored proof of theirs covers,
    and destroys only their checkpoint bookmarks. It destroys no snapshot and
    touches no other property. *)
Theorem Forget_only s dataset options (apply_ safety : bool) tr res t1 e t2 :
  runs (Clean s dataset options apply_ safety) tr res → co_ForgetTargets options ≠ [] → tr = t1 ++ e :: t2 → eventMutates e = true →
  ∃ id state, id ∈ co_ForgetTargets options ∧ Event (InspectState dataset true) (Ok state) ∈ t1 ∧ concerns state dataset id e.
Proof.
  intros Hr Hf E Hm. destruct (clean_guarded s dataset options apply_ safety tr _ Hr t1 _ t2 E Hm) as [_ Hnext]. destruct e as [R o ans].
  destruct Hnext as (plan & state & acts & a & rest & current & (p0 & p1 & p2 & -> & Hplan) & _ & Hacts & Hop & _).
  pose proof (cleanPlan_plannedFrom _ _ _ _ _ _ _ _ Hplan) as (Hread & _ & Hpf). unfold optionsSubtree in Hread.
  rewrite bool_decide_false in Hpf, Hread by done. rewrite orb_true_r in Hread.
  assert (Event (InspectState dataset true) (Ok state) ∈ p0 ++ p1 ++ p2) as Hread' by (rewrite !elem_of_app; tauto).
  destruct Hpf as (_ & _ & _ & early & ->).
  assert (a ∈ cp_Actions (completeForget (mkPlan dataset options [] [] [] 0) state early)) as Hin by (rewrite Hacts; apply elem_of_middle).
  apply completeForget_actions in Hin. cbn [cp_Options cp_Dataset] in Hin.
  destruct Hin as [(name & -> & Hname)|(lineage & r & sources & source & (Hl & Hst & Ht) & _ & _ & Hcase)].
  - destruct o; try (by destruct Hop). destruct Hop as (_ & -> & ->). cbn [ca_Object ca_Property].
    destruct Hname as [(lineage & r & -> & _ & Ht)|(p & _ & _ & _ & _ & Hc & Ht)]; apply elem_of_list_to_set in Ht; eexists _, state; (split; [exact Ht|]); (split; [done|]); cbn; split; try done.
    + left. by exists r.
    + by right.
  - apply elem_of_list_to_set in Ht. exists (rf_TargetID r), state. split; [done|]. split; [done|].
    destruct Hcase as [(-> & _ & sn & Hso)|(-> & _)]; destruct o; try (by destruct Hop).
    + destruct Hop as (_ & -> & ->). cbn. split; [done|]. by exists lineage, r, source, sn.
    + destruct Hop as (_ & ->). cbn. by exists lineage, r, source.
Qed.

(** * Retiring *)

(** The root has been inactive, under this installation's authority, for the
    grace period. *)
Definition retirable (s : Service) (dataset : string) (t : Time) (grace : Duration) (state : State) (activation : list Property) : Prop :=
  locallyActive activation dataset = Ok false ∧ ∃ lineage guid m since,
    authorized state dataset (sv_installation s) lineage ∧ exactDatasetGUID state dataset = Ok guid ∧
    decodeInactiveMarker state dataset = Ok (Some m) ∧ validateInactiveMarker m guid lineage (sv_installation s) = Ok since ∧
    0 < grace ∧ since + grace ≤ t.

Lemma retirementBlockers_nil s state activation dataset t grace :
  retirementBlockers s state activation dataset (mkMode true t grace) = [] → retirable s dataset t grace state activation.
Proof.
  unfold retirementBlockers, retirable. cbn [cm_retirement cm_now cm_grace negb]. intros H. apply app_eq_nil in H as [H1 H2].
  destruct (locallyActive activation dataset) as [[]|]; try done. split; [done|].
  destruct (inactivePlan state dataset (sv_installation s) false t grace) as [p|] eqn:Hp; [|done].
  destruct (String.eqb_spec (ip_Action p) "") as [Ha|]; cbn [negb] in H2; [|done]. destruct (ip_Automatic p); cbn [negb] in H2; [|done].
  destruct (ip_Due p) eqn:Hd; cbn [negb] in H2; [|done]. apply inactivePlan_Ok in Hp as (_ & _ & _ & [(_ & ? & _)|(lineage & guid & Hl & Hg & H)]); [done|].
  destruct H as [(_ & _ & Ha' & _)|(m & since & Hm & Hv & _ & [_ Hdue])]; [by rewrite Ha in Ha'|].
  apply Hdue in Hd. exists lineage, guid, m, since. tauto.
Qed.

(** What an inherit of a retirement leaves alone. *)
Lemma retireInherit a t grace state : wellNamed state → cleanInherit (mkMode true t grace) state a →
  IsPublic (ca_Property a) = false ∧ Contains (ca_Object a) "@" = false ∧ Contains (ca_Object a) "#" = false.
Proof.
  intros Hw (object & name & -> & Hhas & _ & Hk). assert ("000"%char ∉ bytes_of object) as Hnul.
  { destruct Hhas as [(p & Hp & <- & _)|(values & Hv & _)]; [by apply Hw|by eapply Hw]. }
  unfold inheritAction, holdKey, NUL. rewrite app_cons_str, app_nil_str, Cut_app by done. cbn [ca_Object ca_Property].
  unfold keepsKey in Hk. cbn [cm_retirement andb] in Hk. rewrite !orb_false_iff in Hk. tauto.
Qed.

Lemma nextAction_retires s dataset options safety t grace pre R (o : op R) :
  co_ForgetTargets options = [] → nextAction s dataset options safety (mkMode true t grace) pre R o →
  Forall wellNamed (statesRead pre) →
  (∃ state activation, Event (InspectState dataset (optionsSubtree options)) (Ok state) ∈ pre ∧ Event GetActivationProperties (Ok activation) ∈ pre ∧
     retirable s dataset t grace state activation) ∧
  match o with
  | DestroySnapshot n => destroyable dataset options n pre
  | InheritProperty d name => IsPublic name = false ∧ Contains d "@" = false ∧ Contains d "#" = false
  | _ => True
  end.
Proof.
  intros Hf Hn Hwn. destruct (nextAction_planned _ _ _ _ _ _ _ _ Hn Hwn)
    as (plan & state & acts & a & rest & current & p1 & Hpf & Hsub & Hw & Hb & Hacts & _ & Hop & _).
  split.
  - destruct Hpf as (Hread & _ & Hpf). rewrite bool_decide_true in Hpf by done. destruct Hpf as (early & g & lineages & _ & _ & _ & Hret).
    destruct (Hret Hb) as (activation & Hact & Hnil). exists state, activation. split_and!; [by apply Hsub..|by apply retirementBlockers_nil].
  - destruct o; try done; [by eapply nextAction_destroys|]. destruct Hop as (Hop & -> & ->).
    destruct Hpf as (_ & _ & Hpf). rewrite bool_decide_true in Hpf by done. destruct Hpf as (early & g & lineages & -> & Hg & _ & _).
    assert (a ∈ cp_Actions (completePlan (basePlan dataset options) (mkMode true t grace) state early g lineages)) as Hin
      by (rewrite Hacts; apply elem_of_middle).
    destruct (completePlan_actions (basePlan dataset options) _ _ _ _ _ _ Hg Hin) as [[H|H]%proofAction_op|[H|H]]; [congruence..| |by eapply retireInherit].
    rewrite destructions_actions in H. destruct (co_DestroyOwnedSnapshots _); [|by apply elem_of_nil in H].
    apply list_elem_of_bind in H as (? & (sn & -> & _)%list_elem_of_fmap & _). done.
Qed.

(** C20: retirement changes a pool only when applying and only when what it just
    read shows the root inactive, under this installation's authority, with a
    valid marker whose positive grace period has passed. Each change is the next
    action of its plan. It destroys only snapshots that are owned and that nothing
    needs, and clears no public policy and no property of a snapshot or bookmark. *)
Theorem Retire_safe s dataset recursive t grace (apply_ safety : bool) tr res t1 R (o : op R) ans t2 :
  runs (Retire s dataset recursive t grace apply_ safety) tr res → tr = t1 ++ Event o ans :: t2 → mutates o = true →
  Forall wellNamed (statesRead tr) → apply_ = true ∧
  (∃ state activation, Event (InspectState dataset recursive) (Ok state) ∈ t1 ∧ Event GetActivationProperties (Ok activation) ∈ t1 ∧
     retirable s dataset t grace state activation) ∧
  nextAction s dataset (mkOptions recursive true []) safety (mkMode true t grace) t1 R o ∧
  match o with
  | DestroySnapshot n => destroyable dataset (mkOptions recursive true []) n t1
  | InheritProperty d name => IsPublic name = false ∧ Contains d "@" = false ∧ Contains d "#" = false
  | _ => True
  end.
Proof.
  intros Hr E Hm Hwn.
  assert (always (cleanGuard s dataset (mkOptions recursive true []) safety (mkMode true t grace) apply_) []
    (Retire s dataset recursive t grace apply_ safety) (λ _ _, True)) as Ha.
  { apply always_locked_at; [done..|]. destruct (negb (sv_clean s)); [done|]. apply always_bind, always_bindE, always_call; [done|].
    intros [state|e]; [|done]. apply always_bindE, always_call; [done|]. intros [activation|e]; [|done]. apply always_bindR.
    destruct (locallyActive _ _) as [active|]; [|done]. cbn. destruct (inactivePlan _ _ _ _ _ _) as [p|]; [|done].
    destruct (negb _); [done|]. apply always_bind. eapply always_mono; [|by apply clean_always]. done. }
  destruct (always_runs _ _ _ tr [] _ Hr Ha) as [_ Hj]. destruct (Hj t1 _ t2 E Hm) as [Hap Hn]. rewrite app_nil_l in Hn.
  destruct (nextAction_retires _ _ (mkOptions recursive true []) _ _ _ _ _ _ eq_refl Hn) as [Hret Hop].
  { rewrite E, statesRead_app in Hwn. by apply Forall_app in Hwn as [? _]. }
  split_and!; try done. destruct Hret as (state & activation & H1 & H2 & H3). exists state, activation. split_and!; try done.
  unfold optionsSubtree in H1. cbn in H1. by rewrite orb_false_r in H1.
Qed.

(** * A root cleaned, a target forgotten and a root retired *)

Definition wellNamedb (st : State) : bool :=
  bool_decide (NoDup (ob_Name <$> Objects st))
  && forallb (λ o, negb (ob_Type o =? "snapshot")%string ||
       (let '(_, t, found) := Cut (ob_Name o) "@" in
        found && negb (ContainsByte t "@") && negb (ContainsByte (ob_Name o) "#") && negb (ContainsByte (ob_Name o) "000"))) (Objects st)
  && forallb (λ p, negb (ContainsByte (pr_Dataset p) "000")) (Properties st)
  && forallb (λ kv : string * gmap string string, negb (ContainsByte kv.1 "000")) (map_to_list (Received st)).
Lemma wellNamedb_spec st : wellNamedb st = true → wellNamed st.
Proof.
  unfold wellNamedb. rewrite !andb_true_iff, bool_decide_eq_true, !forallb_forall. intros [[[H1 H2] H3] H4]. split.
  - done.
  - intros o Ho%list_elem_of_In Ht. specialize (H2 o Ho). rewrite Ht, eqb_str_refl in H2. cbn [negb orb] in H2.
    destruct (Cut (ob_Name o) "@") as [[d t] []] eqn:Ec; [|done]. apply Cut_found in Ec as [En Hd].
    rewrite !andb_true_iff, !negb_true_iff, !ContainsByte_false in H2. exists d, t. split_and!; tauto.
  - intros p Hp%list_elem_of_In. specialize (H3 p Hp). by rewrite negb_true_iff, ContainsByte_false in H3.
  - intros k m Hk. specialize (H4 (k, m)). rewrite negb_true_iff, ContainsByte_false in H4. apply H4, list_elem_of_In. by apply elem_of_map_to_list.
Qed.
Lemma wellNamed_all l : forallb wellNamedb l = true → Forall wellNamed l.
Proof. rewrite forallb_forall, Forall_forall. intros H st Hst%list_elem_of_In. by apply wellNamedb_spec, H. Qed.

Module SampleClean.
Definition start : State := SimPool.checkpointed.
Definition everything : prog (CleanPlan * option error) := Clean SamplePool.service "tank/data" (mkOptions true true []) true true.
Definition backup : string := TargetID "local:backup".
Definition forget : prog (CleanPlan * option error) := Clean SamplePool.service "tank/data" (mkOptions false false [backup]) true true.
Definition retire : prog (RetirementPlan * option error) :=
  Retire SamplePool.service "tank/data" true (SampleInactive.first + 2 * hour) hour true true.

(** The trace around the first destruction of a snapshot. *)
Fixpoint splitDestroy (tr : list event) : option (list event * string * result unit * list event) :=
  match tr with
  | [] => None
  | Event o r as e :: tr =>
    match (match o in op R return R → option (string * result unit) with DestroySnapshot n => λ r, Some (n, r) | _ => λ _, None end) r with
    | Some (n, r) => Some ([], n, r, tr)
    | None => match splitDestroy tr with Some (t1, n, r, t2) => Some (e :: t1, n, r, t2) | None => None end
    end
  end.
Lemma splitDestroy_Some tr : ∀ t1 n r t2, splitDestroy tr = Some (t1, n, r, t2) → tr = t1 ++ Event (DestroySnapshot n) r :: t2.
Proof.
  induction tr as [|[R o r0] tr IH]; intros t1 n r t2; cbn [splitDestroy]; [done|].
  destruct o; try (intros [= <- <- <- <-]; reflexivity);
    (destruct (splitDestroy tr) as [[[[? ?] ?] ?]|]; [|done]; intros [= <- <- <- <-]; cbn; by rewrite <- IH).
Qed.
Definition destroyOf (tr : list event) : list event * string * result unit * list event := default ([], "", Ok tt, []) (splitDestroy tr).
Definition hasDestroy (tr : list event) : bool := match splitDestroy tr with Some _ => true | None => false end.
Lemma destroyOf_split tr : hasDestroy tr = true →
  tr = (destroyOf tr).1.1.1 ++ Event (DestroySnapshot (destroyOf tr).1.1.2) (destroyOf tr).1.2 :: (destroyOf tr).2.
Proof.
  unfold destroyOf, hasDestroy. destruct (splitDestroy tr) as [[[[t1 n] r] t2]|] eqn:E; [|done]. intros _. by apply splitDestroy_Some.
Qed.
Lemma traceWith_runs_pair {A B W} (h : ∀ R, op R → W → R * W) (p : prog (A * B)) w :
  runs p (traceWith h p w).1 ((traceWith h p w).2.1, (traceWith h p w).2.2).
Proof. rewrite <- surjective_pairing. apply traceWith_runs. Qed.

Definition cleanRun : list event * (CleanPlan * option error) := traceWith SimPool.answer everything start.
Definition retireRun : list event * (RetirementPlan * option error) := traceWith SimPool.answer retire SampleInactive.marked.
Lemma clean_runs : runs (Clean SamplePool.service "tank/data" (mkOptions true true []) true true) cleanRun.1 cleanRun.2.
Proof. exact (traceWith_runs SimPool.answer everything start). Qed.
Lemma retire_runs : runs (Retire SamplePool.service "tank/data" true (SampleInactive.first + 2 * hour) hour true true) retireRun.1 retireRun.2.
Proof. exact (traceWith_runs SimPool.answer retire SampleInactive.marked). Qed.
Lemma clean_none : cleanRun.2.2 = None.
Proof. by vm_compute. Qed.
Lemma clean_split : hasDestroy cleanRun.1 = true.
Proof. by vm_compute. Qed.
Lemma clean_named : Forall wellNamed (statesRead cleanRun.1).
Proof. apply wellNamed_all. by vm_compute. Qed.
Lemma retire_split : hasDestroy retireRun.1 = true.
Proof. by vm_compute. Qed.
Lemma retire_named : Forall wellNamed (statesRead retireRun.1).
Proof. apply wellNamed_all. by vm_compute. Qed.
End SampleClean.

Lemma Clean_applies_witness : carriedOut (cp_Actions SampleClean.cleanRun.2.1) SampleClean.cleanRun.1.
Proof.
  destruct (Clean_applies SamplePool.service "tank/data" (mkOptions true true []) true true SampleClean.cleanRun.1 SampleClean.cleanRun.2.1
    SampleClean.cleanRun.2.2 (SampleClean.traceWith_runs_pair _ _ _)) as (_ & _ & _ & Hc).
  exact (proj2 (Hc eq_refl SampleClean.clean_none)).
Defined.

Lemma Clean_destroys_safely_witness : ∃ n t1, destroyable "tank/data" (mkOptions true true []) n t1.
Proof.
  pose proof (SampleClean.destroyOf_split SampleClean.cleanRun.1 SampleClean.clean_split) as E.
  destruct (Clean_destroys_safely _ _ _ _ _ _ _ _ _ _ _ SampleClean.clean_runs E SampleClean.clean_named) as [_ H].
  exact (ex_intro _ _ (ex_intro _ _ H)).
Defined.

Lemma Forget_only_witness : ∃ id state e, id ∈ [SampleClean.backup] ∧ concerns state "tank/data" id e.
Proof.
  destruct (SimPool.mutationOf_split SampleClean.forget SampleClean.start ltac:(by vm_compute)) as [Hs Hm].
  destruct (Forget_only SamplePool.service "tank/data" (mkOptions false false [SampleClean.backup]) true true _ _ _ _ _
    (traceWith_runs SimPool.answer SampleClean.forget SampleClean.start) ltac:(done) Hs Hm) as (id & state & Hid & _ & H).
  exact (ex_intro _ id (ex_intro _ state (ex_intro _ _ (conj Hid H)))).
Defined.

Lemma Retire_safe_witness : ∃ state activation, retirable SamplePool.service "tank/data" (SampleInactive.first + 2 * hour) hour state activation.
Proof.
  pose proof (SampleClean.destroyOf_split SampleClean.retireRun.1 SampleClean.retire_split) as E.
  destruct (Retire_safe _ _ _ _ _ _ _ _ _ _ _ _ _ _ SampleClean.retire_runs E eq_refl SampleClean.retire_named)
    as (_ & (state & activation & _ & _ & H) & _).
  exact (ex_intro _ state (ex_intro _ activation H)).
Defined.
