(* ===== verification/Binding.v ===== *)
(** Transfer requests and target bindings: the requests and receive mapping of
    internal/transfer/plan.go, and internal/transfer/binding.go and hostlocal.go.

    A binding is the durable identity of a target, stored on the source root. The
    identity reader of the code is the destination's executor; what reads through
    it is a program of [Backend]. [inside] is the function of the same name and
    body in reference.go. *)

From Stdlib Require Import Ascii.
From S2P Require Import Prelude GoStrings GoTime Json Names Zfs Ownership Policy Stream Authority Reference Backend Service Discovery.

(** * Requests *)

Record Member := mkMember { mb_Dataset : string; mb_Policy : Effective; mb_Snapshot : string }.

Record Request := mkRequest {
  rq_Source : string;
  rq_DestinationRoot : string;
  rq_Snapshot : string;
  rq_Policy : Effective;
  rq_Members : list Member;
  rq_Transport : string;
  rq_RemoteName : string;
  rq_CanonicalTarget : string;
  rq_HostLocal : bool
}.

#[export] Instance Member_eq_dec : EqDecision Member.
Proof. solve_decision. Defined.

Definition memberLe (a b : Member) : Prop := String.le (mb_Dataset a) (mb_Dataset b).
#[export] Instance memberLe_dec a b : Decision (memberLe a b) := _.

(** The loop of [Streams]: [previous] is the member before, if any. *)
Fixpoint checkStreams (source : string) (previous : option string) (members : list Member) : result unit :=
  match members with
  | [] => Ok tt
  | m :: members =>
    _ ← ValidateDataset (mb_Dataset m);
    if negb (inside (mb_Dataset m) source) then Err (Errorf ("member " +:+ mb_Dataset m +:+ " is outside root " +:+ source))
    else if bool_decide (previous = Some (mb_Dataset m)) then Err (Errorf ("member " +:+ mb_Dataset m +:+ " is repeated"))
    else checkStreams source (Some (mb_Dataset m)) members
  end.
Definition Streams (r : Request) : result (list Member) :=
  if (length (rq_Members r) =? 0)%nat then Ok [mkMember (rq_Source r) (rq_Policy r) (rq_Snapshot r)]
  else if Replicate (ef_Send (rq_Policy r)) then Err (Errorf "a replication root sends one stream, not one per member")
  else
    let members := merge_sort memberLe (rq_Members r) in
    _ ← checkStreams (rq_Source r) None members; Ok members.

(** [Request.stream]. *)
Definition stream (r : Request) (dataset : string) : result Member :=
  streams ← Streams r;
  match list_find (λ m, mb_Dataset m = dataset) streams with
  | Some (_, m) => Ok m
  | None => Err (Errorf (dataset +:+ " is not a stream of this request"))
  end.

(** [Request.mapped]: the root's mapped destination and the stream's. *)
Definition mapped (r : Request) (stream : string) : result (string * string) :=
  root ← MapReceiveDataset (rq_Source r) (rq_DestinationRoot r) (ef_Discard (rq_Policy r));
  if negb (inside stream (rq_Source r)) then Err (Errorf ("stream " +:+ stream +:+ " is outside root " +:+ rq_Source r))
  else Ok (root, root +:+ TrimPrefix stream (rq_Source r)).

Definition requestTransport (request : Request) : string :=
  if (rq_Transport request =? "")%string then "local" else rq_Transport request.

Definition canonicalLocalTarget (root : string) : string := "local:" +:+ root.
Definition canonicalTarget (request : Request) : string :=
  if (requestTransport request =? "local")%string && (rq_CanonicalTarget request =? "")%string
  then canonicalLocalTarget (rq_DestinationRoot request)
  else rq_CanonicalTarget request.

Definition datasetOf (name : string) : string :=
  let '(base, _, _) := Cut name "@" in
  let '(base, _, _) := Cut base "#" in base.

(** * Bindings *)

Definition targetBindingPrefix : string := TargetStatePrefix.

Record TargetBinding := mkTargetBinding {
  tb_Transport : string;
  tb_CanonicalTarget : string;
  tb_DestinationRoot : string;
  tb_MappedDataset : string;
  tb_Pool : string;
  tb_PoolGUID : Z;
  tb_Anchor : string;
  tb_AnchorGUID : Z;
  tb_RelativePath : string
}.

#[export] Instance TargetBinding_eq_dec : EqDecision TargetBinding.
Proof. solve_decision. Defined.

Record bindingRecord := mkBindingRecord { br_PoolGUID : Z; br_Mapped : string; br_AnchorGUID : Z; br_Anchor : string }.

Definition targetBindingProperty (canonical : string) : string := targetBindingPrefix +:+ TargetID canonical.
Definition targetSuspendedProperty (canonical : string) : string := targetBindingProperty canonical +:+ ":suspended".

(** The loop of [TargetSuspended]. *)
Definition suspendedRow (root property : string) (found : bool) (row : Property) : result bool :=
  if negb (pr_Dataset row =? root)%string || negb (pr_Name row =? property)%string || negb (pr_Source row =? SourceLocal)%string
  then Ok found
  else if found || negb (pr_Value row =? "unverified")%string then Err (Errorf "target suspension marker is invalid")
  else Ok true.
Definition TargetSuspended (state : State) (root canonical : string) : result bool :=
  foldM (suspendedRow root (targetSuspendedProperty canonical)) false (Properties state).

Definition SetTargetSuspended (source canonical : string) (suspended : bool) : prog (result unit) :=
  if (canonical =? "")%string || ContainsAny canonical (String "000" (String "013" (String "010" "")))
  then Ret (Err (Errorf "valid target suspension request required"))
  else
    let property := targetSuspendedProperty canonical in
    if suspended then call (SetProperties source {[property := "unverified"]}) else call (InheritProperty source property).

Definition bindingTemplate (request : Request) (mapped transport canonical : string) : TargetBinding :=
  mkTargetBinding transport canonical (rq_DestinationRoot request) mapped "" 0 "" 0 "".

Definition bindingTarget (request : Request) : result TargetBinding :=
  '(root, _) ← mapped request (rq_Source request);
  Ok (bindingTemplate request root (requestTransport request) (canonicalTarget request)).

(** [TargetBinding.anchored]. *)
Definition anchored (b : TargetBinding) (anchor : string) (poolGUID anchorGUID : Z) : result TargetBinding :=
  let '(pool, _, _) := Cut anchor "/" in
  let complete := mkTargetBinding (tb_Transport b) (tb_CanonicalTarget b) (tb_DestinationRoot b) (tb_MappedDataset b) pool poolGUID anchor anchorGUID in
  if (anchor =? tb_MappedDataset b)%string then Ok (complete "")
  else if negb (inside (tb_MappedDataset b) anchor) then Err (Errorf "destination anchor does not contain mapped dataset")
  else
    let relative := TrimPrefix (tb_MappedDataset b) (anchor +:+ "/") in
    if (relative =? "")%string || negb (pathClean relative =? relative)%string then Err (Errorf "invalid destination path relative to anchor")
    else Ok (complete relative).

Definition bindingForTarget (request : Request) (mapped : string) (identity : DatasetIdentity) (transport canonical : string) : result TargetBinding :=
  anchored (bindingTemplate request mapped transport canonical) (di_Name identity) (di_PoolGUID identity) (di_GUID identity).

Definition bindingRecordFields : list (fieldDecoder bindingRecord) :=
  [field "pool_guid" decodeUint64 (λ v r, mkBindingRecord v (br_Mapped r) (br_AnchorGUID r) (br_Anchor r));
   field "mapped" decodeString (λ v r, mkBindingRecord (br_PoolGUID r) v (br_AnchorGUID r) (br_Anchor r));
   field "anchor_guid" decodeUint64 (λ v r, mkBindingRecord (br_PoolGUID r) (br_Mapped r) v (br_Anchor r));
   field "anchor" decodeString (λ v r, mkBindingRecord (br_PoolGUID r) (br_Mapped r) (br_AnchorGUID r) v)].
Definition decodeBinding (value : string) : option bindingRecord :=
  '(v, rest) ← DecodeValue value;
  record ← decodeStruct bindingRecordFields true (mkBindingRecord 0 "" 0 "") v;
  if More rest then None else Some record.

(** The loop of [storedTargetBinding]. *)
Definition storedBindingRow (state : State) (root : string) (target : TargetBinding) (binding : option TargetBinding) (row : Property)
  : result (option TargetBinding) :=
  if negb (pr_Dataset row =? root)%string || negb (pr_Name row =? targetBindingProperty (tb_CanonicalTarget target))%string
     || negb (pr_Source row =? SourceLocal)%string
  then Ok binding
  else if bool_decide (is_Some binding) then Err (Errorf "target binding must be unambiguous")
  else
    _ ← CurrentState state root;
    match decodeBinding (pr_Value row) with
    | None => Err (Errorf "invalid target binding")
    | Some record =>
      if negb (is_ok (ValidateDataset (br_Mapped record))) then Err (Errorf "invalid target binding mapping")
      else if negb (br_Mapped record =? tb_MappedDataset target)%string then Err (ErrMappingChanged (br_Mapped record) (tb_MappedDataset target))
      else
        anchor ← (if (br_Anchor record =? "")%string then Ok (br_Mapped record)
                  else if (br_Anchor record =? br_Mapped record)%string || negb (is_ok (ValidateDataset (br_Anchor record)))
                  then Err (Errorf "invalid target binding anchor") else Ok (br_Anchor record));
        match anchored target anchor (br_PoolGUID record) (br_AnchorGUID record) with
        | Err e => Err (Wrapf "invalid target binding" e)
        | Ok decoded => Ok (Some decoded)
        end
    end.
Definition storedTargetBinding (state : State) (root : string) (target : TargetBinding) : result (option TargetBinding) :=
  foldM (storedBindingRow state root target) None (Properties state).

Definition knownTransport (transport : string) : bool :=
  (transport =? "local")%string || (transport =? "ssh")%string || (transport =? "native")%string.
Definition validateBinding (b : TargetBinding) : result unit :=
  if negb (knownTransport (tb_Transport b)) || (tb_CanonicalTarget b =? "")%string || (tb_DestinationRoot b =? "")%string
     || (tb_MappedDataset b =? "")%string || (tb_Pool b =? "")%string || (tb_PoolGUID b =? 0) || (tb_Anchor b =? "")%string || (tb_AnchorGUID b =? 0)
  then Err (Errorf "target binding is incomplete or unsupported")
  else if (targetBindingProperty (tb_CanonicalTarget b) =? targetBindingPrefix)%string then Err (Errorf "target binding identity is invalid")
  else Ok tt.

(** [json.Marshal] of the record omits an empty anchor. *)
Definition encodeBinding (b : TargetBinding) : result string :=
  _ ← validateBinding b;
  let anchor := if (tb_Anchor b =? tb_MappedDataset b)%string then "" else tb_Anchor b in
  Ok (objectText ([("pool_guid", Itoa (tb_PoolGUID b)); ("mapped", encodeString (tb_MappedDataset b)); ("anchor_guid", Itoa (tb_AnchorGUID b))]
                  ++ if (anchor =? "")%string then [] else [("anchor", encodeString anchor)])).

(** * Placeholders *)

Definition isPlaceholder (state : State) (dataset : string) : bool :=
  let marked := existsb (λ p, (pr_Dataset p =? dataset)%string && (pr_Name p =? PlaceholderProperty)%string
                              && (pr_Source p =? SourceLocal)%string && (pr_Value p =? "on")%string) (Properties state) in
  if negb marked || negb (default "" (ResumeTokens state !! dataset) =? "")%string then false
  else negb (existsb (λ o, ((ob_Type o =? "snapshot")%string || (ob_Type o =? "bookmark")%string)
                           && (datasetOf (ob_Name o) =? dataset)%string) (Objects state)).

(** What makes a dataset an empty placeholder: it is locally marked as one and has
    no receive of its own and no snapshot or bookmark. *)
Definition emptyPlaceholder (state : State) (dataset : string) : Prop :=
  (∃ p, p ∈ Properties state ∧ pr_Dataset p = dataset ∧ pr_Name p = PlaceholderProperty ∧ pr_Source p = SourceLocal ∧ pr_Value p = "on") ∧
  default "" (ResumeTokens state !! dataset) = "" ∧
  ∀ o, o ∈ Objects state → datasetOf (ob_Name o) = dataset → ob_Type o ≠ "snapshot" ∧ ob_Type o ≠ "bookmark".
Lemma isPlaceholder_empty state dataset : isPlaceholder state dataset = true → emptyPlaceholder state dataset.
Proof.
  unfold isPlaceholder. destruct (existsb _ (Properties state)) eqn:Em; cbn [negb orb]; [|done]. destruct (String.eqb_spec (default "" (ResumeTokens state !! dataset)) ""); [|done].
  cbn [negb]. intros Ho%negb_true_iff. apply existsb_exists in Em as (p & Hp & Hb). rewrite !andb_true_iff, !String.eqb_eq in Hb. destruct Hb as (((? & ?) & ?) & ?).
  split_and!; [exists p; rewrite list_elem_of_In; done|done|]. intros o Hin%list_elem_of_In Hd.
  apply not_true_iff_false in Ho. split; intros Ety; apply Ho, existsb_exists; exists o; by rewrite Ety, Hd, !String.eqb_refl.
Qed.

Definition placeholderAt (dataset : string) : prog (result (DatasetIdentity * bool)) :=
  identity ⇐? call (InspectDatasetIdentity dataset);
  if negb (di_Placeholder identity) then Ret (Ok (identity, false))
  else state ⇐? call (InspectState dataset false); Ret (Ok (identity, isPlaceholder state dataset)).

Definition nearestExisting (name : string) (inventory : list Dataset) : string :=
  fold_left (λ nearest d, if inside name (ds_Name d) && (String.length nearest <? String.length (ds_Name d))%nat then ds_Name d else nearest)
    inventory "".

Definition noIdentity : DatasetIdentity := mkDatasetIdentity "" "" 0 "" 0 false.

(** Each round looks at a shorter name, so the length of the name is fuel enough
    ([nearestRealFrom_fuel]). *)
Fixpoint nearestRealFrom (fuel : nat) (candidate configuredRoot : string) (inventory : list Dataset) : prog (result DatasetIdentity) :=
  match fuel with
  | O => Ret (Ok noIdentity)
  | S fuel =>
    if (candidate =? "")%string then Ret (Ok noIdentity)
    else if negb (inside candidate configuredRoot) then call (InspectDatasetIdentity candidate)
    else
      '(identity, placeholder) ⇐? placeholderAt candidate;
      if negb placeholder then Ret (Ok identity)
      else match BeforeLast candidate "/" with
           | None => Ret (Ok noIdentity)
           | Some parent => nearestRealFrom fuel (nearestExisting parent inventory) configuredRoot inventory
           end
  end.
Definition nearestReal (name configuredRoot : string) (inventory : list Dataset) : prog (result DatasetIdentity) :=
  nearestRealFrom (S (String.length name)) (nearestExisting name inventory) configuredRoot inventory.

(** * Inspection of a target *)

Record LocalTargetInspection := mkInspection {
  in_ConfiguredName : string;
  in_Transport : string;
  in_CanonicalEndpoint : string;
  in_DestinationRoot : string;
  in_MappedDataset : string;
  in_Stored : option TargetBinding;
  in_Resolved : option TargetBinding;
  in_Status : string
}.

(** [errors.As] for a [MappingChangedError]. *)
Definition mappingChanged (e : error) : bool := existsb (λ e, match e with ErrMappingChanged _ _ => true | _ => false end) (errorChain e).

(** The statuses of the inspection beside its errors. *)
Definition storedStatus (source : State) (request : Request) (target : TargetBinding) : string * result (option TargetBinding) :=
  match storedTargetBinding source (rq_Source request) target with
  | Err e => (if mappingChanged e then "mismatch" else "invalid-binding", Err e)
  | Ok None => ("", Ok None)
  | Ok (Some stored) => match validateBinding stored with Err e => ("invalid-binding", Err e) | Ok _ => ("", Ok (Some stored)) end
  end.

Definition resolvedStatus (request : Request) (mapped transport canonical : string) (stored : option TargetBinding) (identity : DatasetIdentity)
  : string * option TargetBinding * option error :=
  match bindingForTarget request mapped identity transport canonical with
  | Err e => ("invalid-mapping", None, Some e)
  | Ok resolved =>
    match stored with
    | None => ("unbound", Some resolved, None)
    | Some stored =>
      if negb (bool_decide (stored = resolved))
      then ("mismatch", Some resolved, Some (Errorf "target identity or mapping differs from persistent binding"))
      else ("verified", Some resolved, None)
    end
  end.

(** A stored binding that does not validate is already in the inspection when
    the error is returned. *)
Definition InspectTarget (request : Request) (source : State) : prog (LocalTargetInspection * option error) :=
  let transport := requestTransport request in
  let canonical := canonicalTarget request in
  let configured := if (transport =? "ssh")%string || (transport =? "native")%string then rq_RemoteName request else rq_DestinationRoot request in
  let inspection := mkInspection configured transport canonical (rq_DestinationRoot request) in
  if negb (knownTransport transport) || (canonical =? "")%string
  then Ret (inspection "" None None "invalid-mapping", Some (Errorf "unsupported or incomplete target transport")) else
  match mapped request (rq_Source request) with
  | Err e => Ret (inspection "" None None "invalid-mapping", Some e)
  | Ok (mapped, _) =>
    inventory ⇐ call ListDatasets;
    match inventory with
    | Err e => Ret (inspection mapped None None "unavailable", Some e)
    | Ok inventory =>
      nearest ⇐ nearestReal mapped (rq_DestinationRoot request) inventory;
      match nearest with
      | Err e => Ret (inspection mapped None None "unavailable", Some e)
      | Ok nearest =>
        if (di_Name nearest =? "")%string
        then Ret (inspection mapped None None "unavailable", Some (Errorf "destination has no existing ancestor")) else
        let target := bindingTemplate request mapped transport canonical in
        match storedStatus source request target with
        | (status, Err e) =>
          Ret (inspection mapped (match storedTargetBinding source (rq_Source request) target with Ok stored => stored | Err _ => None end) None status, Some e)
        | (_, Ok stored) =>
          let anchor := match stored with
                        | Some b => if negb (di_Name nearest =? mapped)%string then tb_Anchor b else di_Name nearest
                        | None => di_Name nearest
                        end in
          identity ⇐ call (InspectDatasetIdentity anchor);
          match identity with
          | Err e => Ret (inspection mapped stored None "unavailable", Some e)
          | Ok identity =>
            let '(status, resolved, err) := resolvedStatus request mapped transport canonical stored identity in
            Ret (inspection mapped stored resolved status, err)
          end
        end
      end
    end
  end.

Definition VerifyTargetBinding (source : State) (request : Request) : prog (result TargetBinding) :=
  target ⇐! bindingTarget request;
  stored ⇐! storedTargetBinding source (rq_Source request) target;
  match stored with
  | None => Ret (Err (Errorf "target has no persistent binding"))
  | Some stored =>
    _ ⇐! validateBinding stored;
    identity ⇐? call (InspectDatasetIdentity (tb_Anchor stored));
    resolved ⇐! anchored target (di_Name identity) (di_PoolGUID identity) (di_GUID identity);
    if negb (bool_decide (resolved = stored)) then Ret (Err (Errorf "target identity differs from persistent binding"))
    else Ret (Ok stored)
  end.

(** [checkHostLocal], whose reader is this host's executor. *)
Definition checkHostLocal (request : Request) (destination : DatasetIdentity) : prog (result unit) :=
  if (requestTransport request =? "local")%string || rq_HostLocal request then Ret (Ok tt) else
  inventory ⇐? call ListDatasets;
  if negb (existsb (λ d, (ds_Name d =? di_Pool destination)%string) inventory) then Ret (Ok tt) else
  pool ⇐? call (InspectDatasetIdentity (di_Pool destination));
  if negb (di_PoolGUID pool =? di_PoolGUID destination) then Ret (Ok tt)
  else Ret (Err (ErrHostLocal (rq_RemoteName request) (di_Pool destination))).

(** * Anchoring *)

Lemma inside_within name root : inside name root = within name root.
Proof. done. Qed.

(** A proper name beneath an anchor has a clean relative path, so configuration
    never fails to anchor on an ancestor of the mapped dataset. *)
Lemma anchored_ancestor b anchor pool guid :
  ValidateDataset (tb_MappedDataset b) = Ok tt → inside (tb_MappedDataset b) anchor = true →
  ∃ relative, anchored b anchor pool guid =
    Ok (mkTargetBinding (tb_Transport b) (tb_CanonicalTarget b) (tb_DestinationRoot b) (tb_MappedDataset b) (Cut anchor "/").1.1 pool anchor guid relative) ∧
    (if decide (anchor = tb_MappedDataset b) then relative = "" else tb_MappedDataset b = anchor +:+ "/" +:+ relative).
Proof.
  intros Hv Hi. unfold anchored. destruct (Cut anchor "/") as [[p q] f]. cbn [fst]. destruct (String.eqb_spec anchor (tb_MappedDataset b)) as [E|E].
  { exists "". split; [done|]. by rewrite decide_True by done. }
  rewrite Hi. cbn [negb]. unfold inside in Hi. rewrite (proj2 (String.eqb_neq _ _)) in Hi by congruence. cbn [orb] in Hi.
  apply HasPrefix_spec in Hi as [t Ht]. rewrite Ht, TrimPrefix_app, app_assoc_str in *.
  assert (Forall (λ part, part ≠ "" ∧ part ≠ "." ∧ part ≠ "..") (Split t "/")) as HF.
  { apply validateDataset_ok in Hv as (_ & _ & _ & _ & _ & Hv & _). change (anchor +:+ "/" +:+ t) with (anchor +:+ String "/" t) in Hv. rewrite Split_append in Hv.
    by apply Forall_app in Hv as [_ Hv]. }
  rewrite (pathClean_id t HF), String.eqb_refl, (proj2 (String.eqb_neq t "")).
  - cbn [negb orb]. exists t. split; [done|]. by rewrite decide_False by done.
  - intros ->. by apply Forall_cons in HF as [(? & _) _].
Qed.

(** * A binding reads back *)

Definition uint64 (z : Z) : Prop := 0 ≤ z < 2 ^ 64.

Definition recordOf (b : TargetBinding) : bindingRecord :=
  mkBindingRecord (tb_PoolGUID b) (tb_MappedDataset b) (tb_AnchorGUID b) (if (tb_Anchor b =? tb_MappedDataset b)%string then "" else tb_Anchor b).

Lemma decodeBinding_encode b text :
  encodeBinding b = Ok text → plain (tb_MappedDataset b) → plain (tb_Anchor b) → uint64 (tb_PoolGUID b) → uint64 (tb_AnchorGUID b) →
  decodeBinding text = Some (recordOf b).
Proof.
  unfold encodeBinding. intros H Hm Ha Hp Hg. apply bind_Ok in H as ([] & _ & [= <-]). unfold decodeBinding, recordOf, uint64 in *.
  set (anchor := if (tb_Anchor b =? tb_MappedDataset b)%string then "" else tb_Anchor b).
  assert (plain anchor) as Hanchor by (unfold anchor; destruct (_ =? _)%string; [constructor|done]).
  destruct (String.eqb_spec anchor "") as [->|Hne]; cbn [app].
  - rewrite (DecodeValue_objectText _ [JNumber (Itoa (tb_PoolGUID b)); JString (tb_MappedDataset b) (tb_MappedDataset b); JNumber (Itoa (tb_AnchorGUID b))]);
      [|done|repeat constructor; first [apply reads_number; lia | by apply reads_string]].
    cbn [mbind option_bind]. unfold decodeStruct. cbn [fmap list_fmap fst zip zip_with fold_left].
    erewrite decodeMember_uint by (done || reflexivity). erewrite decodeMember_text by reflexivity.
    by erewrite decodeMember_uint by (done || reflexivity).
  - rewrite (DecodeValue_objectText _ [JNumber (Itoa (tb_PoolGUID b)); JString (tb_MappedDataset b) (tb_MappedDataset b);
      JNumber (Itoa (tb_AnchorGUID b)); JString anchor anchor]);
      [|done|repeat constructor; first [apply reads_number; lia | by apply reads_string]].
    cbn [mbind option_bind]. unfold decodeStruct. cbn [fmap list_fmap fst zip zip_with fold_left].
    erewrite decodeMember_uint by (done || reflexivity). erewrite decodeMember_text by reflexivity.
    erewrite decodeMember_uint by (done || reflexivity). by erewrite decodeMember_text by reflexivity.
Qed.

Lemma anchored_fields t anchor pool guid b : anchored t anchor pool guid = Ok b →
  tb_CanonicalTarget b = tb_CanonicalTarget t ∧ tb_MappedDataset b = tb_MappedDataset t ∧ tb_Anchor b = anchor ∧ tb_PoolGUID b = pool ∧
  tb_AnchorGUID b = guid ∧ tb_Transport b = tb_Transport t ∧ tb_DestinationRoot b = tb_DestinationRoot t ∧ inside (tb_MappedDataset t) anchor = true.
Proof.
  unfold anchored. destruct (Cut anchor "/") as [[p q] f]. destruct (String.eqb_spec anchor (tb_MappedDataset t)) as [E|E].
  - intros [= <-]. cbn. split_and!; try done. rewrite E, inside_within. apply within_refl.
  - destruct (inside _ _) eqn:Hi; cbn [negb]; [|done]. destruct (_ || _); [done|]. by intros [= <-].
Qed.

Lemma storedBindingRow_eq state root target binding row : storedBindingRow state root target binding row =
  if decide (pr_Dataset row = root ∧ pr_Name row = targetBindingProperty (tb_CanonicalTarget target) ∧ pr_Source row = SourceLocal)
  then storedBindingRow state root target binding (localRow root (targetBindingProperty (tb_CanonicalTarget target)) (pr_Value row))
  else Ok binding.
Proof.
  destruct row as [d n v s]. unfold storedBindingRow, localRow. cbn [pr_Dataset pr_Name pr_Value pr_Source]. rewrite !String.eqb_refl. cbn [negb orb].
  case_decide as H; [by destruct H as (-> & -> & ->); rewrite !String.eqb_refl|].
  destruct (String.eqb_spec d root); cbn [negb orb]; [|done]. destruct (String.eqb_spec n (targetBindingProperty (tb_CanonicalTarget target))); cbn [negb orb]; [|done].
  destruct (String.eqb_spec s SourceLocal); [|done]. destruct H. done.
Qed.

(** The local rows of the key decide what is read. *)
Lemma storedTargetBinding_rows state root target :
  storedTargetBinding state root target
  = foldM (storedBindingRow state root target) None (localRowsOf root (targetBindingProperty (tb_CanonicalTarget target)) (Properties state)).
Proof. apply foldM_filter. intros s x Hx. by rewrite storedBindingRow_eq, decide_False. Qed.

Lemma storedBindingRow_record state root target text b : CurrentState state root = Ok tt →
  decodeBinding text = Some (recordOf b) → ValidateDataset (tb_MappedDataset b) = Ok tt → ValidateDataset (tb_Anchor b) = Ok tt →
  tb_MappedDataset b = tb_MappedDataset target → anchored target (tb_Anchor b) (tb_PoolGUID b) (tb_AnchorGUID b) = Ok b →
  storedBindingRow state root target None (localRow root (targetBindingProperty (tb_CanonicalTarget target)) text) = Ok (Some b).
Proof.
  intros Hc Hd Hm Ha Em Hb. unfold storedBindingRow. cbn [localRow pr_Dataset pr_Name pr_Source pr_Value]. rewrite !String.eqb_refl. cbn [negb orb].
  rewrite bool_decide_false by by intros [? ?]. rewrite Hc. cbn [mbind result_bind]. rewrite Hd. unfold recordOf. cbn [br_Mapped br_Anchor br_PoolGUID br_AnchorGUID].
  rewrite Hm. cbn [is_ok negb]. rewrite Em at 1. rewrite String.eqb_refl. cbn [negb].
  destruct (String.eqb_spec (tb_Anchor b) (tb_MappedDataset b)) as [E|E].
  - rewrite String.eqb_refl. cbn [mbind result_bind]. by rewrite <- E, Hb.
  - rewrite (proj2 (String.eqb_neq (tb_Anchor b) "")) by (intros E0; by rewrite E0 in Ha). rewrite (proj2 (String.eqb_neq _ _) E), Ha.
    cbn [is_ok negb orb mbind result_bind]. by rewrite Hb.
Qed.

(** A binding that configuration and a live identity give reads back from the
    value stored for it: the record and the configured target determine it. *)
Theorem binding_roundtrip state root target anchor pool guid b text :
  anchored target anchor pool guid = Ok b → encodeBinding b = Ok text →
  ValidateDataset (tb_MappedDataset target) = Ok tt → ValidateDataset anchor = Ok tt →
  plain (tb_MappedDataset target) → plain anchor → uint64 pool → uint64 guid →
  CurrentState state root = Ok tt →
  localRowsOf root (targetBindingProperty (tb_CanonicalTarget target)) (Properties state)
    = [localRow root (targetBindingProperty (tb_CanonicalTarget target)) text] →
  storedTargetBinding state root target = Ok (Some b).
Proof.
  intros Hb Ht Hm Ha Pm Pa Up Ug Hc Hr. pose proof (anchored_fields _ _ _ _ _ Hb) as (_ & Em & Ea & Ep & Eg & _).
  rewrite storedTargetBinding_rows, Hr. cbn [foldM].
  by rewrite (storedBindingRow_record state root target text b Hc); [| |rewrite Em|rewrite Ea| |rewrite Ea, Ep, Eg];
    [|apply (decodeBinding_encode b text Ht); [rewrite Em|rewrite Ea|rewrite Ep|rewrite Eg]|..].
Qed.

(** A stored binding is the target's, anchored. *)
Lemma storedBindingRow_some state root target : ∀ l binding b,
  (∀ b0, binding = Some b0 → CurrentState state root = Ok tt ∧ anchored target (tb_Anchor b0) (tb_PoolGUID b0) (tb_AnchorGUID b0) = Ok b0) →
  foldM (storedBindingRow state root target) binding l = Ok (Some b) →
  CurrentState state root = Ok tt ∧ anchored target (tb_Anchor b) (tb_PoolGUID b) (tb_AnchorGUID b) = Ok b.
Proof.
  intros l binding b H0 H.
  refine (foldM_inv (λ binding : option TargetBinding, ∀ b0, binding = Some b0 →
    CurrentState state root = Ok tt ∧ anchored target (tb_Anchor b0) (tb_PoolGUID b0) (tb_AnchorGUID b0) = Ok b0) _ _ _ _ _ H0 H b eq_refl).
  clear. intros s row s' _ Hs. unfold storedBindingRow. destruct (_ || _); [by intros [= <-]|]. destruct (bool_decide _); [done|].
  intros H. apply bind_Ok in H as ([] & Hc & H). destruct (decodeBinding (pr_Value row)) as [record|]; [|done].
  destruct (negb (is_ok _)); [done|]. destruct (negb (_ =? _)%string); [done|]. apply bind_Ok in H as (anchor & _ & H).
  destruct (anchored target anchor _ _) as [d|] eqn:Ed; [|done]. injection H as <-. intros b0 [= <-]. split; [done|].
  pose proof (anchored_fields _ _ _ _ _ Ed) as (_ & _ & -> & -> & -> & _). done.
Qed.

Lemma storedTargetBinding_some state root target b : storedTargetBinding state root target = Ok (Some b) →
  CurrentState state root = Ok tt ∧ anchored target (tb_Anchor b) (tb_PoolGUID b) (tb_AnchorGUID b) = Ok b.
Proof. apply storedBindingRow_some. done. Qed.

(** A binding that verifies is the one stored for the target, and the dataset
    it is anchored on answers now with the recorded name, GUID and pool. *)
Theorem VerifyTargetBinding_sound source request tr b :
  runs (VerifyTargetBinding source request) tr (Ok b) →
  ∃ target identity, bindingTarget request = Ok target ∧ storedTargetBinding source (rq_Source request) target = Ok (Some b) ∧
    tr = [Event (InspectDatasetIdentity (tb_Anchor b)) (Ok identity)] ∧
    di_Name identity = tb_Anchor b ∧ di_GUID identity = tb_AnchorGUID b ∧ di_PoolGUID identity = tb_PoolGUID b ∧
    tb_PoolGUID b ≠ 0 ∧ tb_AnchorGUID b ≠ 0 ∧ inside (tb_MappedDataset b) (tb_Anchor b) = true.
Proof.
  unfold VerifyTargetBinding. destruct (bindingTarget request) as [target|e] eqn:Et; cbn [bindR]; [|by intros [_ [=]]].
  destruct (storedTargetBinding _ _ _) as [[stored|]|e] eqn:Es; cbn [bindR]; [|by intros [_ [=]]..].
  destruct (validateBinding stored) as [[]|e] eqn:Ev; cbn [bindR]; [|by intros [_ [=]]].
  intros (r & tr' & -> & H). cbn [bindP call] in H. destruct r as [identity|e]; [|by destruct H as [_ [=]]].
  destruct (anchored target _ _ _) as [resolved|e] eqn:Ea; cbn [bindR] in H; [|by destruct H as [_ [=]]].
  destruct (bool_decide_reflect (resolved = stored)) as [->|]; cbn [negb runs] in H; [|by destruct H as [_ [=]]].
  destruct H as [-> [= <-]]. exists target, identity. pose proof (anchored_fields _ _ _ _ _ Ea) as (_ & Em & E1 & E2 & E3 & _ & _ & Hin).
  unfold validateBinding in Ev. destruct (_ || _) eqn:Eor in Ev; [done|]. rewrite !orb_false_iff, !Z.eqb_neq in Eor.
  split_and!; try done; try tauto. by rewrite Em, E1.
Qed.

(** * The nearest real ancestor *)

Lemma nearestStep_spec name names : ∀ start,
  let step := λ nearest d, if inside name d && (String.length nearest <? String.length d)%nat then d else nearest in
  let r := fold_left step names start in
  (r = start ∨ (r ∈ names ∧ inside name r = true ∧ r ≠ "")) ∧ (String.length start ≤ String.length r)%nat ∧
  ∀ d, d ∈ names → inside name d = true → (String.length d ≤ String.length r)%nat.
Proof.
  induction names as [|x names IH]; intros start; cbn [fold_left]; [split_and!; [by left|done|]; by intros d ?%not_elem_of_nil|].
  specialize (IH (if inside name x && (String.length start <? String.length x)%nat then x else start)). cbv zeta in *.
  destruct IH as (H1 & H2 & H3). destruct (inside name x) eqn:Ex; cbn [andb] in *;
    [destruct (Nat.ltb_spec (String.length start) (String.length x))|]; split_and!.
  - right. destruct H1 as [-> |(? & ? & ?)]; [|split_and!; [by right|done..]]. split_and!; [by left|done|]. intros ->. cbn in *. lia.
  - lia.
  - intros d [->|Hd]%elem_of_cons Hin; [done|]. by apply H3.
  - destruct H1 as [->|(? & ? & ?)]; [by left|right; split_and!; [by right|done..]].
  - lia.
  - intros d [->|Hd]%elem_of_cons Hin; [lia|]. by apply H3.
  - destruct H1 as [->|(? & ? & ?)]; [by left|right; split_and!; [by right|done..]].
  - lia.
  - intros d [->|Hd]%elem_of_cons Hin; [congruence|]. by apply H3.
Qed.

Lemma nearestExisting_spec name inventory :
  (nearestExisting name inventory = "" ∨ (nearestExisting name inventory ∈ ds_Name <$> inventory ∧ inside name (nearestExisting name inventory) = true)) ∧
  ∀ d, d ∈ ds_Name <$> inventory → inside name d = true → (String.length d ≤ String.length (nearestExisting name inventory))%nat.
Proof.
  assert (nearestExisting name inventory = fold_left (λ nearest d, if inside name d && (String.length nearest <? String.length d)%nat then d else nearest)
    (ds_Name <$> inventory) "") as ->.
  { unfold nearestExisting. generalize "". induction inventory as [|d inventory IH]; intros s; cbn; [done|]. apply IH. }
  destruct (nearestStep_spec name (ds_Name <$> inventory) "") as (H1 & _ & H3). cbv zeta in *. split; [tauto|done].
Qed.

(** The reader found [c] to be a placeholder. *)
Definition placeholderSeen (tr : list event) (c : string) : Prop :=
  ∃ identity state, Event (InspectDatasetIdentity c) (Ok identity) ∈ tr ∧ Event (InspectState c false) (Ok state) ∈ tr ∧
    di_Placeholder identity = true ∧ isPlaceholder state c = true.
(** The reader found [c], at or above [name], to be real: outside the configured
    root, not marked, or no placeholder on inspection. *)
Definition realSeen (tr : list event) (configuredRoot c : string) (identity : DatasetIdentity) : Prop :=
  Event (InspectDatasetIdentity c) (Ok identity) ∈ tr ∧
  (inside c configuredRoot = false ∨ di_Placeholder identity = false ∨
   ∃ state, Event (InspectState c false) (Ok state) ∈ tr ∧ isPlaceholder state c = false).

Lemma placeholderSeen_mono tr1 tr2 c : tr1 ⊆ tr2 → placeholderSeen tr1 c → placeholderSeen tr2 c.
Proof. intros Hs (i & s & H1 & H2 & H). exists i, s. split_and!; [by apply Hs..|tauto|tauto]. Qed.
Lemma realSeen_mono tr1 tr2 root c i : tr1 ⊆ tr2 → realSeen tr1 root c i → realSeen tr2 root c i.
Proof. intros Hs [H1 [H|[H|(s & H2 & H)]]]; (split; [by apply Hs|]); [auto..|]. right. right. exists s. split; [by apply Hs|done]. Qed.

Lemma placeholderAt_runs c tr identity placeholder : runs (placeholderAt c) tr (Ok (identity, placeholder)) →
  (placeholder = true → placeholderSeen tr c) ∧ (placeholder = false → ∀ root, realSeen tr root c identity).
Proof.
  unfold placeholderAt. intros (r & tr1 & -> & H). cbn [bindP call] in H. destruct r as [i|e]; [|by destruct H as [_ [=]]].
  destruct (di_Placeholder i) eqn:Ei; cbn [negb] in H.
  - destruct H as (r & tr2 & -> & H). cbn [bindP] in H. destruct r as [state|e]; [|by destruct H as [_ [=]]]. destruct H as [-> [= -> ->]].
    split; intros E; [exists i, state; split_and!; [by left|by right; left|done..]|]. intros root. split; [by left|]. right. right. exists state.
    split; [by right; left|done].
  - destruct H as [-> [= -> ->]]. split; [done|]. intros _ root. split; [by left|]. auto.
Qed.

(** Two datasets at or above a name: the shorter contains the longer. *)
Lemma inside_shorter name c d : inside name c = true → inside name d = true → (String.length d ≤ String.length c)%nat → inside c d = true.
Proof.
  rewrite !inside_within. intros Hc Hd Hl. destruct (within_chain _ _ _ Hc Hd) as [H|H]; [done|]. unfold within in H.
  apply orb_true_iff in H as [->%String.eqb_eq|H]; [apply within_refl|]. apply below_length in H. lia.
Qed.

Definition nearestFound (name configuredRoot : string) (inventory : list Dataset) (tr : list event) (identity : DatasetIdentity) : Prop :=
  (∃ c, c ∈ ds_Name <$> inventory ∧ inside name c = true ∧ realSeen tr configuredRoot c identity ∧
     ∀ d, d ∈ ds_Name <$> inventory → inside name d = true → (String.length c < String.length d)%nat → placeholderSeen tr d) ∨
  (identity = noIdentity ∧ ∀ d, d ∈ ds_Name <$> inventory → inside name d = true → d ≠ "" → placeholderSeen tr d).

Lemma length_pos_ne d : (0 < String.length d)%nat → d ≠ "".
Proof. intros H ->. cbn in H. lia. Qed.

(** The step from a placeholder to the nearest ancestor above it skips nothing. *)
Lemma nearest_above name candidate inventory tr parent :
  inside name candidate = true → candidate ∈ ds_Name <$> inventory → placeholderSeen tr candidate →
  (∀ d, d ∈ ds_Name <$> inventory → inside name d = true → (String.length candidate < String.length d)%nat → placeholderSeen tr d) →
  BeforeLast candidate "/" = Some parent →
  let next := nearestExisting parent inventory in
  (next = "" ∨ (next ∈ ds_Name <$> inventory ∧ inside name next = true)) ∧ (String.length next < String.length candidate)%nat ∧
  ∀ d, d ∈ ds_Name <$> inventory → inside name d = true → (String.length next < String.length d)%nat → placeholderSeen tr d.
Proof.
  intros Hin Hc Hseen Hskip Hp. cbv zeta. destruct (nearestExisting_spec parent inventory) as [Hn Hmax].
  assert (below candidate parent = true) as Hb.
  { apply BeforeLast_Some in Hp as (l & -> & _). apply HasPrefix_spec. exists l. by rewrite app_assoc_str. }
  assert (nearestExisting parent inventory = "" ∨ nearestExisting parent inventory ∈ ds_Name <$> inventory ∧
    below candidate (nearestExisting parent inventory) = true) as Hn'.
  { destruct Hn as [?|[? Hw]]; [by left|right]. split; [done|]. by apply (below_within_trans _ parent). }
  split_and!.
  - destruct Hn' as [?|[? Hw]]; [by left|right]. split; [done|]. rewrite inside_within in *. apply (within_trans _ candidate); [done|by apply below_within].
  - destruct Hn' as [->|[_ Hw]]; [|by apply below_length]. apply below_length in Hb. cbn. lia.
  - intros d Hd Hdn Hl. destruct (decide (String.length candidate < String.length d)%nat) as [|Hge]; [by apply Hskip|].
    assert (inside candidate d = true) as Hcd by (apply (inside_shorter name); [done..|lia]).
    unfold inside in Hcd. apply orb_true_iff in Hcd as [->%String.eqb_eq|Hcd]; [done|].
    apply below_parentName in Hcd. unfold parentName in Hcd. rewrite Hp in Hcd. cbn [default from_option] in Hcd. specialize (Hmax d Hd Hcd). lia.
Qed.

Lemma nearestRealFrom_spec name configuredRoot inventory fuel : ∀ candidate pre tr identity,
  (String.length candidate < fuel)%nat →
  (candidate = "" ∨ (candidate ∈ ds_Name <$> inventory ∧ inside name candidate = true)) →
  (∀ d, d ∈ ds_Name <$> inventory → inside name d = true → (String.length candidate < String.length d)%nat → placeholderSeen pre d) →
  runs (nearestRealFrom fuel candidate configuredRoot inventory) tr (Ok identity) →
  nearestFound name configuredRoot inventory (pre ++ tr) identity.
Proof.
  induction fuel as [|fuel IH]; intros candidate pre tr identity Hl Hc Hskip; [lia|]. cbn [nearestRealFrom].
  destruct (String.eqb_spec candidate "") as [->|Hne].
  { intros [-> [= ->]]. right. split; [done|]. rewrite app_nil_r. intros d Hd Hi Hd0. apply Hskip; [done..|]. destruct d; [done|cbn; lia]. }
  destruct Hc as [?|[Hc Hin]]; [done|]. destruct (inside candidate configuredRoot) eqn:Er; cbn [negb].
  - intros (tr1 & r & tr2 & -> & H1 & H2)%runs_bind. destruct r as [[i placeholder]|e]; [|by destruct H2 as [_ [=]]].
    apply placeholderAt_runs in H1 as [Hp Hr]. destruct placeholder; cbn [negb] in H2.
    + assert (placeholderSeen (pre ++ tr1) candidate) as Hs by (eapply placeholderSeen_mono, Hp; [set_solver|done]).
      assert (∀ d, d ∈ ds_Name <$> inventory → inside name d = true → (String.length candidate < String.length d)%nat → placeholderSeen (pre ++ tr1) d) as Hskip'.
      { intros d ???. eapply placeholderSeen_mono, Hskip; [set_solver|done..]. }
      destruct (BeforeLast candidate "/") as [parent|] eqn:Ep.
      * destruct (nearest_above name candidate inventory (pre ++ tr1) parent) as (Hn & Hlen & Hsk); [done..|].
        rewrite app_assoc. apply (IH (nearestExisting parent inventory)); [lia|done..].
      * destruct H2 as [-> [= ->]]. right. split; [done|]. intros d Hd Hi Hd0. rewrite app_nil_r.
        destruct (decide (String.length candidate < String.length d)%nat); [by apply Hskip'|].
        assert (inside candidate d = true) as Hcd by (apply (inside_shorter name); [done..|lia]).
        unfold inside in Hcd. apply orb_true_iff in Hcd as [->%String.eqb_eq|Hcd]; [done|].
        apply BeforeLast_None in Ep. apply HasPrefix_spec in Hcd as [t ->]. destruct Ep. rewrite !bytes_of_app, !elem_of_app. left. right. by left.
    + destruct H2 as [-> [= ->]]. left. exists candidate. split_and!; [done..| |].
      * eapply realSeen_mono, Hr; [set_solver|done].
      * intros d ???. eapply placeholderSeen_mono, Hskip; [set_solver|done..].
  - intros (r & tr' & -> & [-> <-]). left. exists candidate. split_and!; [done..| |].
    + split; [set_solver|by left].
    + intros d ???. eapply placeholderSeen_mono, Hskip; [set_solver|done..].
Qed.

(** The dataset a target is resolved through is the nearest existing ancestor
    of the mapped name that is not a placeholder: everything nearer was seen to be
    one, and when there is no answer everything was. *)
Theorem nearestReal_exact name configuredRoot inventory tr identity :
  runs (nearestReal name configuredRoot inventory) tr (Ok identity) → nearestFound name configuredRoot inventory tr identity.
Proof.
  intros H. destruct (nearestExisting_spec name inventory) as [H1 H2].
  apply (nearestRealFrom_spec _ _ _ (S (String.length name)) (nearestExisting name inventory) []); [|done| |done].
  - destruct H1 as [->|[_ Hi]]; [cbn; lia|]. unfold inside in Hi. apply orb_true_iff in Hi as [E%String.eqb_eq|Hi%below_length]; [rewrite <- E|]; lia.
  - intros d Hd Hi Hl. specialize (H2 d Hd Hi). lia.
Qed.

(** * A target *)

Module SampleTarget.
Definition on (name value : string) : Property := mkProperty "tank/data" (Namespace +:+ name) value SourceLocal.
Definition effective : Effective :=
  Resolve (mkDataset "tank/data" Filesystem "-") None [on "enabled" "on"; on "local" "backup"; on "discard" "first"] ∅.
Definition request : Request := mkRequest "tank/data" "backup" "" effective [] "" "" "" false.
Definition anchor : DatasetIdentity := mkDatasetIdentity "backup" Filesystem 5 "backup" 9 false.
Definition target : TargetBinding := bindingTemplate request "backup/data" "local" "local:backup".
Definition binding : TargetBinding := mkTargetBinding "local" "local:backup" "backup" "backup/data" "backup" 9 "backup" 5 "data".
Definition text : string := match encodeBinding binding with Ok text => text | Err _ => "" end.
(** The source with the binding stored on it. *)
Definition source : State :=
  mkState (Objects SamplePool.state) (Properties SamplePool.state ++ [localRow "tank/data" (targetBindingProperty "local:backup") text]) ∅ ∅ ∅ ∅.
(** A destination with a placeholder between its root and the replica. *)
Definition inventory : list Dataset := [mkDataset "backup" Filesystem "-"; mkDataset "backup/data" Filesystem "-"].
Definition placeholder : State :=
  mkState [mkObject "backup/data" "filesystem" 6 0 1] [localRow "backup/data" PlaceholderProperty "on"] ∅ ∅ ∅ ∅.
Fixpoint answer (R : Type) (o : op R) (w : unit) : R * unit :=
  match o in op R return R * unit with
  | InspectState _ _ => (Ok placeholder, w)
  | InspectDatasetIdentity d =>
    (Ok (if (d =? "backup")%string then anchor else mkDatasetIdentity d Filesystem 6 "backup" 9 true), w)
  | ListDatasets => (Ok inventory, w)
  | Unlock _ => (tt, w)
  | RandRead => (Ok [], w)
  | GetActivationProperties | GetStoredProperties _ => (Ok [], w)
  | CheckPermissions _ _ | CreateReceiveParent _ | RenameDataset _ _ | DestroyDataset _ _ | AbortReceive _ => (Ok tt, w)
  | EstimateStream _ => (Ok (mkEstimate false 0 ""), w)
  | RunStream _ _ _ => (Ok (mkProgress 0 (mkEstimate false 0 "") true), w)
  | ContextDone => (false, w)
  | OnTarget o => answer _ o w
  | Acquire _ | SetProperties _ _ | TakeSnapshot _ _ _ | DestroySnapshot _ | HoldSnapshot _ _ | ReleaseHold _ _ | CreateBookmark _ _
  | DestroyBookmark _ | InheritProperty _ _ | Quiescent _ | CheckTarget _ _ => (Ok tt, w)
  end.
Definition nearest : list event * result DatasetIdentity := traceWith answer (nearestReal "backup/data/home" "backup" inventory) tt.
Definition verify : list event * result TargetBinding := traceWith answer (VerifyTargetBinding source request) tt.
(** The binding is verified although the placeholder is nearer. *)
Lemma inspected : (runWith answer (InspectTarget request source) tt).1 =
  (mkInspection "backup" "local" "local:backup" "backup" "backup/data" (Some binding) (Some binding) "verified", None).
Proof. by vm_compute. Qed.
End SampleTarget.

Lemma binding_roundtrip_witness : storedTargetBinding SampleTarget.source "tank/data" SampleTarget.target = Ok (Some SampleTarget.binding).
Proof.
  apply (binding_roundtrip SampleTarget.source "tank/data" SampleTarget.target "backup" 9 5 SampleTarget.binding SampleTarget.text);
    try (by vm_compute); try (split; by vm_compute); unfold plain; repeat constructor.
Defined.

Lemma VerifyTargetBinding_sound_witness : ∃ identity : DatasetIdentity, di_Name identity = "backup" ∧ di_GUID identity = 5.
Proof.
  destruct (VerifyTargetBinding_sound SampleTarget.source SampleTarget.request SampleTarget.verify.1 SampleTarget.binding)
    as (_ & identity & _ & _ & _ & H1 & H2 & _).
  - assert (SampleTarget.verify.2 = Ok SampleTarget.binding) as <- by by vm_compute. apply traceWith_runs.
  - exact (ex_intro _ identity (conj H1 H2)).
Defined.

Lemma nearestReal_exact_witness : nearestFound "backup/data/home" "backup" SampleTarget.inventory SampleTarget.nearest.1 SampleTarget.anchor.
Proof.
  apply nearestReal_exact. assert (SampleTarget.nearest.2 = Ok SampleTarget.anchor) as <- by by vm_compute. apply traceWith_runs.
Defined.
