(* ===== verification/Transfer.v ===== *)
(** Planning a transfer: [Build] of internal/transfer/plan.go.

    [Build] only reads: it decides from a [View] what one stream sends and where
    it is received. Each definition is a stretch of the function, in its order;
    [Build] is their composition. The partial plan that an error returns beside it
    is reported to the user and not modelled. Sorting by [Source] is stable here
    and not in Go, which differs only for objects of the same name. *)

From Stdlib Require Import Ascii.
From S2P Require Import Prelude GoStrings GoTime Grid Names Zfs Ownership Policy Stream Authority Reference Binding.

(** * Data *)

Record View := mkView {
  vw_Stream : string;
  vw_Inventory : list Dataset;
  vw_DestinationInventory : option (list Dataset);
  vw_Source : State;
  vw_Destination : State;
  vw_DestinationExists : bool;
  vw_DestinationIdentity : DatasetIdentity;
  vw_RootDestinationExists : bool;
  vw_RootDestinationIdentity : DatasetIdentity;
  vw_BindingIdentity : DatasetIdentity
}.

Record Expected := mkExpected { ex_Source : string; ex_Destination : string; ex_GUID : Z; ex_Metadata : option Metadata }.

Record Plan := mkPlan {
  pl_Source : string;
  pl_Destination : string;
  pl_Snapshot : string;
  pl_Base : string;
  pl_Lineage : string;
  pl_Mode : string;
  pl_Send : SendOptions;
  pl_Receive : ReceiveOptions;
  pl_Expected : list Expected;
  pl_Endpoints : list Expected;
  pl_Warnings : list string;
  pl_TargetBinding : TargetBinding;
  pl_BindingNew : bool
}.

#[export] Instance Expected_eq_dec : EqDecision Expected.
Proof. solve_decision. Defined.

Definition expectedLe (a b : Expected) : Prop := String.le (ex_Source a) (ex_Source b).
#[export] Instance expectedLe_dec a b : Decision (expectedLe a b) := _.

Definition destinationInventory (request : Request) (view : View) : list Dataset :=
  if (requestTransport request =? "local")%string then vw_Inventory view
  else default (vw_Inventory view) (vw_DestinationInventory view).

Definition canResumeFromBookmark (p : Effective) : bool :=
  (ef_Incremental p =? "latest")%string && negb (Replicate (ef_Send p)).

Definition objectMap (state : State) : gmap string Object := objectsByName (Objects state).

Definition ownership (state : State) (object : Object) (lineage : string) : result Metadata :=
  Ownership (mkSnapshot (ob_Name object) (ob_GUID object)
    (filter (λ p, pr_Dataset p = ob_Name object) (Properties state)) [] [] false) lineage.

(** * The stream and its policy *)

Definition contains (l : list string) (x : string) : bool := existsb (λ y, (y =? x)%string) l.

Definition streamPolicy (request : Request) (stream : Member) : result Effective :=
  if (mb_Dataset stream =? rq_Source request)%string then Ok (rq_Policy request) else
  let p := mb_Policy stream in
  if negb (ef_Enabled p) || negb (validPolicy p) then Err (Errorf ("member " +:+ mb_Dataset stream +:+ " policy must be enabled and valid"))
  else if Replicate (ef_Send p) then Err (Errorf ("member " +:+ mb_Dataset stream +:+ " cannot send recursively"))
  else if negb (ef_Discard p =? ef_Discard (rq_Policy request))%string
  then Err (Errorf ("member " +:+ mb_Dataset stream +:+ " does not share the root's receive mapping"))
  else
    let configured := if negb (requestTransport request =? "local")%string then contains (ef_Remote p) (rq_RemoteName request)
                      else contains (ef_Local p) (rq_DestinationRoot request) in
    if negb configured then Err (Errorf ("member " +:+ mb_Dataset stream +:+ " does not send to this target")) else Ok p.

Definition selectStream (request : Request) (view : View) : result (Member * Effective) :=
  _ ← ValidateDataset (rq_Source request);
  if negb (ef_Enabled (rq_Policy request)) || negb (validPolicy (rq_Policy request))
  then Err (Errorf "source policy must be enabled and valid") else
  _ ← ActiveRoot (rq_Policy request) (rq_Source request);
  stream ← stream request (if (vw_Stream view =? "")%string then rq_Source request else vw_Stream view);
  p ← streamPolicy request stream;
  Ok (stream, p).

(** The transport switch: the canonical target. *)
Definition checkTransport (request : Request) (stream : Member) : result string :=
  let transport := requestTransport request in
  let own := (mb_Dataset stream =? rq_Source request)%string in
  let canonical := rq_CanonicalTarget request in
  if (transport =? "local")%string then
    if negb (contains (ef_Local (rq_Policy request)) (rq_DestinationRoot request)) && own
    then Err (Errorf "destination is not configured by the source local property")
    else
      let canonical := if (canonical =? "")%string then canonicalLocalTarget (rq_DestinationRoot request) else canonical in
      if negb (canonical =? canonicalLocalTarget (rq_DestinationRoot request))%string
      then Err (Errorf "local canonical target does not match destination") else Ok canonical
  else if (transport =? "ssh")%string || (transport =? "native")%string then
    if (rq_RemoteName request =? "")%string || (own && negb (contains (ef_Remote (rq_Policy request)) (rq_RemoteName request)))
    then Err (Errorf "remote is not configured by the source remote property")
    else if (canonical =? "")%string || ContainsAny canonical (String "000" (String "013" (String "010" "")))
    then Err (Errorf "canonical remote target is required") else Ok canonical
  else Err (Errorf ("unsupported transfer transport " +:+ Quote transport)).

(** * Scopes and inventories *)

(** [object], if it is there, is a dataset with an identity. *)
Definition realDataset (object : option Object) : bool :=
  match object with Some o => negb (ob_GUID o =? 0) && isDataset o | None => false end.

Definition checkScopes (request : Request) (view : View) (stream : Member) : result (string * string) :=
  '(mappedRoot, target) ← mapped request (mb_Dataset stream);
  let source := objectMap (vw_Source view) in
  if (requestTransport request =? "local")%string && (inside mappedRoot (rq_Source request) || inside (rq_Source request) mappedRoot)
  then Err (Errorf "source and destination scopes overlap")
  else if negb (realDataset (source !! rq_Source request)) then Err (Errorf "source dataset is missing")
  else if negb (realDataset (source !! mb_Dataset stream)) then Err (Errorf ("member dataset is missing: " +:+ mb_Dataset stream))
  else if existsb (λ o, negb (inside (datasetOf (ob_Name o)) (rq_Source request))) (Objects (vw_Source view))
  then Err (Errorf "source inventory escapes selected scope")
  else if existsb (λ o, negb (inside (datasetOf (ob_Name o)) target)) (Objects (vw_Destination view))
  then Err (Errorf "destination inventory escapes selected scope")
  else if hasTokens (vw_Source view) || hasTokens (vw_Destination view)
  then Err (Errorf "resumable receive state requires recovery before a new stream")
  else Ok (mappedRoot, target).

Definition inventoryRow (message : string) (inventory : gmap string Dataset) (d : Dataset) : result (gmap string Dataset) :=
  if bool_decide (is_Some (inventory !! ds_Name d)) then Err (Errorf (message +:+ ds_Name d)) else Ok (<[ds_Name d := d]> inventory).

Definition sourceListed (inventory : gmap string Dataset) (_ : unit) (o : Object) : result unit :=
  if negb (isDataset o) then Ok tt
  else match inventory !! ob_Name o with
       | Some d => if negb (ds_Type d =? ob_Type o)%string || (ds_EncryptionRoot d =? "")%string
                   then Err (Errorf ("source dataset lacks complete matching inventory: " +:+ ob_Name o)) else Ok tt
       | None => Err (Errorf ("source dataset lacks complete matching inventory: " +:+ ob_Name o))
       end.

(** The identity names a dataset of the inventory, of its type. *)
Definition identityListed (datasets : gmap string Dataset) (identity : DatasetIdentity) : bool :=
  let d := default (mkDataset "" "" "") (datasets !! di_Name identity) in
  negb (di_Name identity =? "")%string && negb (ds_Name d =? "")%string && (ds_Type d =? di_Type identity)%string.

Definition nearestOf (target : string) (datasets : gmap string Dataset) : string :=
  fold_left (λ nearest name, if inside target name && (String.length nearest <? String.length name)%nat then name else nearest)
    (map_to_list datasets).*1 "".

Definition exactDestination (view : View) (target : string) (destinationDatasets : gmap string Dataset) : result unit :=
  let identity := vw_DestinationIdentity view in
  if vw_DestinationExists view then
    match objectMap (vw_Destination view) !! target with
    | Some o => if negb (di_Name identity =? target)%string || negb (ob_GUID o =? di_GUID identity) || negb (ob_Type o =? di_Type identity)%string
                then Err (Errorf "destination identity does not match exact destination root") else Ok tt
    | None => Err (Errorf "destination identity does not match exact destination root")
    end
  else if negb (nearestOf target destinationDatasets =? di_Name identity)%string
  then Err (Errorf "destination identity is not the nearest existing ancestor") else Ok tt.

(** The inventories by name, source first. *)
Definition checkInventory (request : Request) (view : View) (mappedRoot target : string) : result (gmap string Dataset * gmap string Dataset) :=
  inventory ← foldM (inventoryRow "duplicate dataset in transfer inventory: ") ∅ (vw_Inventory view);
  _ ← foldM (sourceListed inventory) tt (Objects (vw_Source view));
  destinationDatasets ← foldM (inventoryRow "duplicate dataset in destination transfer inventory: ") ∅ (destinationInventory request view);
  if negb (identityListed destinationDatasets (vw_DestinationIdentity view))
  then Err (Errorf "destination identity does not match sparse inventory") else
  let rootIdentity := vw_RootDestinationIdentity view in
  let rootExists := vw_RootDestinationExists view in
  if negb (identityListed destinationDatasets rootIdentity) || (rootExists && negb (di_Name rootIdentity =? mappedRoot)%string)
     || (negb rootExists && negb (inside mappedRoot (di_Name rootIdentity)))
  then Err (Errorf "root destination identity does not match sparse inventory") else
  _ ← exactDestination view target destinationDatasets;
  Ok (inventory, destinationDatasets).

(** * Encryption *)

Definition isEncrypted (d : Dataset) : bool := negb (ds_EncryptionRoot d =? "")%string && negb (ds_EncryptionRoot d =? "-")%string.
Definition encryptedDescendant (request : Request) (inventory : list Dataset) : string :=
  match list_find (λ d, negb (ds_Name d =? rq_Source request)%string && inside (ds_Name d) (rq_Source request) && isEncrypted d = true) inventory with
  | Some (_, d) => ds_Name d
  | None => ""
  end.

Definition scopePolicy (request : Request) (view : View) (stream : Member) (inventory : gmap string Dataset) (p : Effective) : result Effective :=
  let encrypted := isEncrypted (default (mkDataset "" "" "") (inventory !! mb_Dataset stream)) in
  let p := if Replicate (ef_Send p) then ForReplicationScope p encrypted (encryptedDescendant request (vw_Inventory view)) else p in
  if negb (validPolicy p) then Err (Errorf ("replication-scope policy is invalid: " +:+ Join (ef_Errors p) "; "))
  else if encrypted && Props (ef_Send p) && negb (Raw (ef_Send p)) then Err (Errorf "encrypted property streams require raw mode")
  else Ok p.

(** * Authority and binding *)

(** The lineage, the binding and whether it is new. *)
Definition checkBinding (request : Request) (view : View) (installation mappedRoot canonical : string) : result (string * TargetBinding * bool) :=
  lineage ← RootAuthority (vw_Source view) (rq_Source request) installation;
  suspended ← TargetSuspended (vw_Source view) (rq_Source request) canonical;
  if (suspended : bool) then Err (Errorf "target is suspended pending explicit remote revalidation") else
  let transport := requestTransport request in
  if (di_Name (vw_RootDestinationIdentity view) =? "")%string then Err (Errorf "destination identity is missing") else
  wantedBinding ← bindingForTarget request mappedRoot (vw_RootDestinationIdentity view) transport canonical;
  storedBinding ← storedTargetBinding (vw_Source view) (rq_Source request) wantedBinding;
  match storedBinding with
  | None => Ok (lineage, wantedBinding, true)
  | Some stored =>
    _ ← validateBinding stored;
    verifiedBinding ← (if vw_RootDestinationExists view then Ok wantedBinding
                       else if (di_Name (vw_BindingIdentity view) =? "")%string then Err (Errorf "bound destination identity is missing")
                       else bindingForTarget request mappedRoot (vw_BindingIdentity view) transport canonical);
    if negb (bool_decide (stored = verifiedBinding))
    then Err (Errorf "target identity or mapping differs from persistent binding; run boomerangz dataset reseed for this source and target")
    else Ok (lineage, stored, false)
  end.

(** A recursive stream needs a replica of the whole subtree. *)
Definition checkRecursive (request : Request) (view : View) (p : Effective) (lineage : string) (binding : TargetBinding) : result unit :=
  if negb (Replicate (ef_Send p)) then Ok tt else
  refs ← References (vw_Source view) (rq_Source request) lineage;
  if existsb (λ r, (rf_TargetID r =? TargetID (tb_CanonicalTarget binding))%string && negb (rf_Dataset r =? rq_Source request)%string) refs
  then Err (Errorf "target was last replicated one stream per member, and replicate=on needs a replica of the whole subtree; run boomerangz dataset reseed for this source and target")
  else Ok tt.

(** * Endpoints *)

Definition noObject : Object := mkObject "" "" 0 0 0.
Definition endpointRow (state : State) (stream : Member) (lineage : string) (endpoint o : Object) : result Object :=
  if negb (ob_Type o =? "snapshot")%string || negb (datasetOf (ob_Name o) =? mb_Dataset stream)%string then Ok endpoint
  else if negb (mb_Snapshot stream =? "")%string && negb (ob_Name o =? mb_Snapshot stream)%string then Ok endpoint
  else if negb (is_ok (ownership state o lineage)) then Ok endpoint
  else if ob_CreateTXG o =? 0 then Err (Errorf "snapshot creation transaction is missing")
  else Ok (if ob_CreateTXG endpoint <? ob_CreateTXG o then o else endpoint).
Definition selectEndpoint (state : State) (stream : Member) (lineage : string) : result Object :=
  endpoint ← foldM (endpointRow state stream lineage) noObject (Objects state);
  if (ob_Name endpoint =? "")%string then Err (Errorf "no selected owned snapshot exists") else Ok endpoint.

(** The replica of a dataset must be of its type and not of another lineage. *)
Definition checkReplica (destination : State) (o : Object) (mapped lineage : string) : result unit :=
  match objectMap destination !! mapped with
  | None => Ok tt
  | Some existing =>
    if negb (ob_Type existing =? ob_Type o)%string then Err (Errorf "source/destination dataset types differ") else
    localLineage ← DatasetLineage destination mapped;
    if negb (localLineage =? "")%string && negb (localLineage =? lineage)%string
    then Err (Errorf "destination has a conflicting lineage") else Ok tt
  end.

(** Where an object of the source is received. *)
Definition replicaName (request : Request) (mappedRoot name : string) : string := mappedRoot +:+ TrimPrefix name (rq_Source request).

Definition endpointOf (request : Request) (view : View) (stream : Member) (p : Effective) (mappedRoot lineage component : string)
    (endpoints : list Expected) (o : Object) : result (list Expected) :=
  if negb (isDataset o) then Ok endpoints
  else if negb (Replicate (ef_Send p)) && negb (ob_Name o =? mb_Dataset stream)%string then Ok endpoints
  else
    childLineage ← DatasetLineage (vw_Source view) (ob_Name o);
    if negb (childLineage =? "")%string && negb (childLineage =? lineage)%string
    then Err (Errorf ("conflicting source lineage on " +:+ ob_Name o))
    else match objectMap (vw_Source view) !! (ob_Name o +:+ "@" +:+ component) with
         | None => Err (Errorf ("replication endpoint missing on " +:+ ob_Name o))
         | Some snap =>
           metadata ← ownership (vw_Source view) snap lineage;
           let mapped := replicaName request mappedRoot (ob_Name o) in
           _ ← checkReplica (vw_Destination view) o mapped lineage;
           Ok (endpoints ++ [mkExpected (ob_Name snap) (mapped +:+ "@" +:+ component) (ob_GUID snap) (Some metadata)])
         end.

(** Whether every endpoint is already at the destination. *)
Definition alreadyRow (dest : gmap string Object) (already : bool) (expected : Expected) : result bool :=
  match dest !! ex_Destination expected with
  | Some o => if negb (ob_GUID o =? ex_GUID expected) then Err (Errorf "destination snapshot name has a different GUID") else Ok already
  | None => Ok false
  end.

(** * Mode and base *)

Definition latestOf (destination : State) (target : string) : Object :=
  fold_left (λ latest o, if (ob_Type o =? "snapshot")%string && (datasetOf (ob_Name o) =? target)%string && (ob_CreateTXG latest <? ob_CreateTXG o)
                         then o else latest) (Objects destination) noObject.

Definition snapshotBase (state : State) (stream lineage : string) (latest endpoint : Object) : option Object :=
  snd <$> list_find (λ o, (datasetOf (ob_Name o) =? stream)%string && (ob_GUID o =? ob_GUID latest) && (ob_CreateTXG o <? ob_CreateTXG endpoint)
                          && (ob_Type o =? "snapshot")%string && is_ok (ownership state o lineage) = true) (Objects state).

Definition bookmarkOf (source : gmap string Object) (latest endpoint : Object) (r : Reference) : option Object :=
  match source !! BookmarkName r with
  | Some o => if (ob_Type o =? "bookmark")%string && (ob_GUID o =? ob_GUID latest) && (0 <? ob_CreateTXG o) && (ob_CreateTXG o <? ob_CreateTXG endpoint)
              then Some o else None
  | None => None
  end.
Definition bookmarkBase (source : gmap string Object) (refs : list Reference) (stream canonical : string) (latest endpoint : Object) : option Object :=
  head (omap (bookmarkOf source latest endpoint)
             (filter (λ r, rf_TargetID r = TargetID canonical ∧ rf_Dataset r = stream) refs)).

Definition noBase : error :=
  Errorf "destination latest snapshot has no eligible common source base; run boomerangz dataset reseed for this source and target".
Definition selectBase (request : Request) (view : View) (stream : Member) (p : Effective) (target lineage canonical : string) (endpoint : Object)
  : result Object :=
  let latest := latestOf (vw_Destination view) target in
  if (ob_Name latest =? "")%string
  then Err (Errorf "existing destination has no common base; run boomerangz dataset reseed for this source and target") else
  base ← match snapshotBase (vw_Source view) (mb_Dataset stream) lineage latest endpoint with
         | Some o => Ok (Some o)
         | None =>
           if negb (canResumeFromBookmark p) then Ok None else
           refs ← References (vw_Source view) (rq_Source request) lineage;
           Ok (bookmarkBase (objectMap (vw_Source view)) refs (mb_Dataset stream) canonical latest endpoint)
         end;
  match base with Some o => Ok o | None => Err noBase end.

(** Where the missing receive parents of a full stream are created from. *)
Definition checkParent (request : Request) (stream : Member) (p : Effective) (destinationDatasets : gmap string Dataset) : result unit :=
  let root := rq_DestinationRoot request in
  let remoteMember := negb (requestTransport request =? "local")%string && negb (mb_Dataset stream =? rq_Source request)%string in
  parent ← (if (ef_Discard p =? DiscardOff)%string && negb remoteMember then
              match BeforeLast root "/" with
              | None => Err (Errorf "cannot bootstrap into an absent pool root")
              | Some parent => Ok parent
              end
            else Ok root);
  if bool_decide (is_Some (destinationDatasets !! parent)) then Ok tt
  else if (ef_Discard p =? DiscardOff)%string && remoteMember
  then Err (Errorf ("remote " +:+ rq_RemoteName request +:+ " has no configured root " +:+ parent +:+ ", which " +:+ mb_Dataset stream
                    +:+ "'s stream receives beneath and only " +:+ rq_Source request +:+ "'s own stream would create; create it on the remote, or send "
                    +:+ rq_Source request +:+ " to this remote too"))
  else Err (Errorf ("receive parent " +:+ parent +:+ " does not exist")).

(** The mode and, for an incremental stream, its base. *)
Definition selectMode (request : Request) (view : View) (stream : Member) (p : Effective) (destinationDatasets : gmap string Dataset)
    (target lineage canonical : string) (endpoint : Object) (already : bool) : result (string * option Object) :=
  if already then Ok ("up-to-date", None)
  else if negb (vw_DestinationExists view) then _ ← checkParent request stream p destinationDatasets; Ok ("full", None)
  else
    base ← selectBase request view stream p target lineage canonical endpoint;
    Ok (if (ef_Incremental p =? "all")%string then "incremental-all" else "incremental-latest", Some base).

(** * What the stream carries *)

(** [include]. *)
Definition included (recursive intermediates : bool) (mode component : string) (baseTXG : Z) (endpoint o : Object) : bool :=
  let include := (ob_Name o =? ob_Name endpoint)%string in
  let include := if recursive then (mode =? "full")%string || ((baseTXG <? ob_CreateTXG o) && HasSuffix (ob_Name o) ("@" +:+ component)) else include in
  let include := if intermediates then baseTXG <? ob_CreateTXG o else include in
  if (mode =? "up-to-date")%string then false else include.

Definition expectedRow (request : Request) (state : State) (stream mappedRoot lineage component mode : string) (recursive intermediates : bool)
    (baseTXG : Z) (endpoint : Object) (st : list Expected * list string) (o : Object) : list Expected * list string :=
  if negb (ob_Type o =? "snapshot")%string || (ob_CreateTXG o =? 0) || (ob_CreateTXG endpoint <? ob_CreateTXG o) then st
  else if negb recursive && negb (datasetOf (ob_Name o) =? stream)%string then st
  else if negb (included recursive intermediates mode component baseTXG endpoint o) then st
  else
    let expected := mkExpected (ob_Name o) (replicaName request mappedRoot (ob_Name o)) (ob_GUID o) in
    match ownership state o lineage with
    | Ok metadata => (st.1 ++ [expected (Some metadata)], st.2)
    | Err _ => (st.1 ++ [expected None], st.2 ++ ["stream includes foreign snapshot: " +:+ ob_Name o])
    end.

(** The properties a receive sets. *)
Definition receiveSet (p : Effective) (sent : Object) : gmap string string :=
  if (ob_Type sent =? "filesystem")%string && bool_decide (ef_SetProperties p !! "canmount" = None)
  then <["canmount" := "noauto"]> (ef_SetProperties p) else ef_SetProperties p.

Definition excludedKey (name : string) : bool :=
  IsPublic name || HasPrefix name ReferencePrefix || HasPrefix name targetBindingPrefix.
Definition completeReceiveExclusions (exclude : list string) (p : Effective) (source : State) : list string :=
  Compact (SortStrings (exclude ++ filter (λ key, IsPublic key = true) (map_to_list (ef_Values p)).*1
                                ++ filter (λ name, excludedKey name = true) (pr_Name <$> Properties source))).

(** * The plan *)

Definition recursiveWarning : string := "recursive replication uses native package semantics and may affect foreign destination snapshots".

Definition finishPlan (request : Request) (view : View) (stream : Member) (p : Effective) (mappedRoot target lineage : string)
    (binding : TargetBinding) (bindingNew : bool) (endpoint : Object) (component : string) (endpoints : list Expected) (mode : string) (base : option Object) : Plan :=
  let sent := default noObject (objectMap (vw_Source view) !! mb_Dataset stream) in
  let recursive := Replicate (ef_Send p) in
  let intermediates := (mode =? "incremental-all")%string in
  let baseName := match base with Some o => ob_Name o | None => "" end in
  let baseTXG := match base with Some o => ob_CreateTXG o | None => 0 end in
  let send := mkSendOptions (mb_Dataset stream) (ob_Name endpoint) "" baseName intermediates recursive (LargeBlocks (ef_Send p))
                (Compressed (ef_Send p)) (EmbeddedData (ef_Send p)) (Raw (ef_Send p)) (Props (ef_Send p)) in
  let receive := mkReceiveOptions target ReceiveExact (receiveSet p sent) (completeReceiveExclusions (ef_IgnoreProperties p) p (vw_Source view)) in
  let warnings := ef_Warnings p ++ if recursive then [recursiveWarning] else [] in
  let '(expected, warnings) :=
    fold_left (expectedRow request (vw_Source view) (mb_Dataset stream) mappedRoot lineage component mode recursive intermediates baseTXG endpoint)
      (Objects (vw_Source view)) ([], warnings) in
  let expected := if (mode =? "up-to-date")%string then endpoints else expected in
  mkPlan (mb_Dataset stream) target (ob_Name endpoint) baseName lineage mode send receive (merge_sort expectedLe expected)
    (merge_sort expectedLe endpoints) (Compact (SortStrings warnings)) binding bindingNew.

Definition Build (request : Request) (view : View) (installation : string) : result Plan :=
  '(stream, p) ← selectStream request view;
  canonical ← checkTransport request stream;
  '(mappedRoot, target) ← checkScopes request view stream;
  '(inventory, destinationDatasets) ← checkInventory request view mappedRoot target;
  p ← scopePolicy request view stream inventory p;
  '(lineage, binding, bindingNew) ← checkBinding request view installation mappedRoot canonical;
  _ ← checkRecursive request view p lineage binding;
  endpoint ← selectEndpoint (vw_Source view) stream lineage;
  let component := TrimPrefix (ob_Name endpoint) (mb_Dataset stream +:+ "@") in
  endpoints ← foldM (endpointOf request view stream p mappedRoot lineage component) [] (Objects (vw_Source view));
  already ← foldM (alreadyRow (objectMap (vw_Destination view))) (vw_DestinationExists view) endpoints;
  '(mode, base) ← selectMode request view stream p destinationDatasets target lineage (tb_CanonicalTarget binding) endpoint already;
  Ok (finishPlan request view stream p mappedRoot target lineage binding bindingNew endpoint component endpoints mode base).
