(* ===== verification/TransferSafe.v ===== *)
(** What a transfer plan guarantees: the theorems on Transfer.v. *)

From Stdlib Require Import Ascii.
From S2P Require Import Prelude GoStrings GoTime Grid Names Zfs Ownership Prune Policy Stream Authority Reference Backend Service Binding Transfer.

(** * The stages of a plan *)

Record stages (request : Request) (view : View) (installation : string) : Type := mkStages {
  st_stream : Member;
  st_own : Effective;
  st_canonical : string;
  st_mappedRoot : string;
  st_target : string;
  st_inventory : gmap string Dataset;
  st_destination : gmap string Dataset;
  st_policy : Effective;
  st_lineage : string;
  st_binding : TargetBinding;
  st_new : bool;
  st_endpoint : Object;
  st_endpoints : list Expected;
  st_already : bool;
  st_mode : string;
  st_base : option Object;
  st_component := TrimPrefix (ob_Name st_endpoint) (mb_Dataset st_stream +:+ "@");
  st_selected : selectStream request view = Ok (st_stream, st_own);
  st_transport : checkTransport request st_stream = Ok st_canonical;
  st_scopes : checkScopes request view st_stream = Ok (st_mappedRoot, st_target);
  st_listed : checkInventory request view st_mappedRoot st_target = Ok (st_inventory, st_destination);
  st_scoped : scopePolicy request view st_stream st_inventory st_own = Ok st_policy;
  st_bound : checkBinding request view installation st_mappedRoot st_canonical = Ok (st_lineage, st_binding, st_new);
  st_recursive : checkRecursive request view st_policy st_lineage st_binding = Ok tt;
  st_ended : selectEndpoint (vw_Source view) st_stream st_lineage = Ok st_endpoint;
  st_mapped : foldM (endpointOf request view st_stream st_policy st_mappedRoot st_lineage st_component) [] (Objects (vw_Source view)) = Ok st_endpoints;
  st_arrived : foldM (alreadyRow (objectMap (vw_Destination view))) (vw_DestinationExists view) st_endpoints = Ok st_already;
  st_moded : selectMode request view st_stream st_policy st_destination st_target st_lineage (tb_CanonicalTarget st_binding) st_endpoint st_already = Ok (st_mode, st_base)
}.
Arguments st_stream {_ _ _} _.
Arguments st_own {_ _ _} _.
Arguments st_canonical {_ _ _} _.
Arguments st_mappedRoot {_ _ _} _.
Arguments st_target {_ _ _} _.
Arguments st_inventory {_ _ _} _.
Arguments st_destination {_ _ _} _.
Arguments st_policy {_ _ _} _.
Arguments st_lineage {_ _ _} _.
Arguments st_binding {_ _ _} _.
Arguments st_new {_ _ _} _.
Arguments st_endpoint {_ _ _} _.
Arguments st_endpoints {_ _ _} _.
Arguments st_already {_ _ _} _.
Arguments st_mode {_ _ _} _.
Arguments st_base {_ _ _} _.
Arguments st_component {_ _ _} _.

Definition planOf {request view installation} (st : stages request view installation) : Plan :=
  finishPlan request view (st_stream st) (st_policy st) (st_mappedRoot st) (st_target st) (st_lineage st) (st_binding st) (st_new st) (st_endpoint st)
    (st_component st) (st_endpoints st) (st_mode st) (st_base st).

Lemma Build_stages request view installation plan : Build request view installation = Ok plan → ∃ st : stages request view installation, plan = planOf st.
Proof.
  unfold Build. intros H. apply bind_Ok in H as ([stream own] & H1 & H). apply bind_Ok in H as (canonical & H2 & H).
  apply bind_Ok in H as ([mappedRoot target] & H3 & H). apply bind_Ok in H as ([inventory destination] & H4 & H).
  apply bind_Ok in H as (p & H5 & H). apply bind_Ok in H as ([[lineage binding] new] & H6 & H). apply bind_Ok in H as ([] & H7 & H).
  apply bind_Ok in H as (endpoint & H8 & H). apply bind_Ok in H as (endpoints & H9 & H). apply bind_Ok in H as (already & H10 & H).
  apply bind_Ok in H as ([mode base] & H11 & H). injection H as <-.
  by exists (mkStages _ _ _ stream own canonical mappedRoot target inventory destination p lineage binding new endpoint endpoints already mode base
    H1 H2 H3 H4 H5 H6 H7 H8 H9 H10 H11).
Qed.

(** * Names *)

Lemma datasetOf_prefix name : ∃ rest, name = datasetOf name +:+ rest.
Proof.
  unfold datasetOf. destruct (Cut name "@") as [[b r] f] eqn:E1. destruct (Cut b "#") as [[c r'] f'] eqn:E2.
  assert (∀ s sep x y g, Cut s sep = (x, y, g) → ∃ t, s = x +:+ t) as Hcut.
  { intros s sep x y [] H; [apply Cut_found in H as [-> _]; eauto|]. apply Cut_notfound in H as (-> & _). exists "". by rewrite app_str_nil. }
  apply Hcut in E1 as [t1 ->]. apply Hcut in E2 as [t2 ->]. exists (t2 +:+ t1). by rewrite app_assoc_str.
Qed.

Lemma Cut_prefix d rest sep : sep ∉ bytes_of d → Cut (d +:+ rest) sep = (d +:+ (Cut rest sep).1.1, (Cut rest sep).1.2, (Cut rest sep).2).
Proof.
  induction d as [|x d IH]; intros H.
  - rewrite !app_nil_str. by destruct (Cut rest sep) as [[a b] f].
  - cbn [bytes_of] in H. apply not_elem_of_cons in H as [Hx H]. rewrite !app_cons_str. cbn [Cut]. rewrite IH by done.
    destruct (Ascii.eqb_spec x sep); [congruence|done].
Qed.

Lemma datasetOf_app d rest : "@"%char ∉ bytes_of d → "#"%char ∉ bytes_of d → datasetOf (d +:+ rest) = d +:+ datasetOf rest.
Proof.
  intros Ha Hh. unfold datasetOf. rewrite Cut_prefix by done. destruct (Cut rest "@") as [[b r] f]. cbn [fst snd].
  rewrite Cut_prefix by done. by destruct (Cut b "#") as [[c r'] f'].
Qed.

Lemma inside_app d s : inside (d +:+ s) d = true ↔ s = "" ∨ HasPrefix s "/" = true.
Proof.
  unfold inside. rewrite orb_true_iff, String.eqb_eq, !HasPrefix_spec. split.
  - intros [E|[t E]]; [left|right].
    + apply (app_inj_str d). by rewrite app_str_nil.
    + exists t. apply (app_inj_str d). by rewrite E, app_assoc_str.
  - intros [->|[t ->]]; [left|right]; [by rewrite app_str_nil|]. exists t. by rewrite app_assoc_str.
Qed.

Lemma inside_split n d : inside n d = true → ∃ s, n = d +:+ s ∧ (s = "" ∨ HasPrefix s "/" = true).
Proof.
  intros H. pose proof H as H'. unfold inside in H'. apply orb_true_iff in H' as [->%String.eqb_eq|[t ->]%HasPrefix_spec].
  - exists "". rewrite app_str_nil. auto.
  - exists ("/" +:+ t). rewrite app_assoc_str. split; [done|]. right. apply HasPrefix_app.
Qed.

Lemma valid_no_marks d : ValidateDataset d = Ok tt → "@"%char ∉ bytes_of d ∧ "#"%char ∉ bytes_of d.
Proof. intros (_ & ? & ? & _)%validateDataset_ok. done. Qed.

(** The replica of a name below the stream is below the stream's replica. *)
Definition placed (stream target name destination : string) : Prop :=
  ∃ rest, name = stream +:+ rest ∧ destination = target +:+ rest ∧ inside (datasetOf destination) target = true.

Lemma replicaName_placed request mappedRoot stream target name :
  ValidateDataset stream = Ok tt → inside stream (rq_Source request) = true → ValidateDataset mappedRoot = Ok tt →
  target = mappedRoot +:+ TrimPrefix stream (rq_Source request) → inside (datasetOf name) stream = true →
  placed stream target name (replicaName request mappedRoot name).
Proof.
  intros Hs Hin Hm -> Hn. apply inside_split in Hin as (t & Et & _). destruct (datasetOf_prefix name) as [u Eu].
  apply inside_split in Hn as (v & Ev & Hv). pose proof (valid_no_marks _ Hs) as [Ha Hh]. pose proof (valid_no_marks _ Hm) as [Ma Mh].
  assert (name = stream +:+ v +:+ u) as En by (rewrite Eu at 1; by rewrite Ev, app_assoc_str).
  assert (replicaName request mappedRoot name = (mappedRoot +:+ t) +:+ v +:+ u) as Er.
  { unfold replicaName. by rewrite En, Et, !app_assoc_str, TrimPrefix_app. }
  rewrite Er, Et, TrimPrefix_app. exists (v +:+ u). split_and!; [by rewrite En, Et|done|].
  rewrite En, datasetOf_app in Ev by done. apply app_inj_str in Ev. rewrite Et, bytes_of_app, not_elem_of_app in Ha, Hh.
  rewrite datasetOf_app, Ev by (rewrite bytes_of_app, not_elem_of_app; tauto). by apply inside_app.
Qed.

Lemma replicaName_app request mappedRoot n rest : inside n (rq_Source request) = true →
  replicaName request mappedRoot (n +:+ rest) = replicaName request mappedRoot n +:+ rest.
Proof. intros (s & -> & _)%inside_split. unfold replicaName. by rewrite app_assoc_str, !TrimPrefix_app, app_assoc_str. Qed.

(** A snapshot of a dataset lies where its dataset does. *)
Lemma inside_snapshot n d c : ValidateDataset d = Ok tt → inside n d = true → inside (datasetOf (n +:+ "@" +:+ c)) d = true.
Proof.
  intros [Ha Hh]%valid_no_marks (s & -> & Hs)%inside_split. rewrite app_assoc_str, datasetOf_app by done. apply inside_app.
  destruct Hs as [->|[t ->]%HasPrefix_spec]; [by left|right]. rewrite app_assoc_str.
  rewrite (datasetOf_app "/") by (cbn; by intros [?|?%not_elem_of_nil]%elem_of_cons). apply HasPrefix_app.
Qed.

(** * The stream and the scopes *)

Lemma checkStreams_Ok source members : ∀ previous, checkStreams source previous members = Ok tt →
  ∀ m, m ∈ members → ValidateDataset (mb_Dataset m) = Ok tt ∧ inside (mb_Dataset m) source = true.
Proof.
  induction members as [|x members IH]; intros previous; cbn [checkStreams]; [by intros _ m ?%not_elem_of_nil|].
  intros H. apply bind_Ok in H as ([] & Hv & H). destruct (inside _ _) eqn:Hi; cbn [negb] in H; [|done]. destruct (bool_decide _); [done|].
  intros m [->|Hm]%elem_of_cons; [done|]. by apply (IH _ H).
Qed.

Lemma stream_Ok request name m : ValidateDataset (rq_Source request) = Ok tt → stream request name = Ok m →
  ValidateDataset (mb_Dataset m) = Ok tt ∧ inside (mb_Dataset m) (rq_Source request) = true ∧ mb_Dataset m = name ∧
  (Replicate (ef_Send (rq_Policy request)) = true → mb_Dataset m = rq_Source request).
Proof.
  intros Hv H. apply bind_Ok in H as (streams & Hs & H). destruct (list_find _ streams) as [[i m']|] eqn:E; [|done]. injection H as ->.
  apply list_find_Some in E as (Hm%list_elem_of_lookup_2 & En & _). unfold Streams in Hs. destruct (_ =? 0)%nat.
  - injection Hs as <-. apply list_elem_of_singleton in Hm as ->. cbn [mb_Dataset] in *. split_and!; [done|rewrite inside_within; apply within_refl|done|done].
  - destruct (Replicate _) eqn:Er; [done|]. apply bind_Ok in Hs as ([] & Hc & [= <-]).
    destruct (checkStreams_Ok _ _ _ Hc m Hm) as [? ?]. split_and!; done.
Qed.

Lemma streamPolicy_Ok request m p : streamPolicy request m = Ok p →
  (Replicate (ef_Send p) = true → mb_Dataset m = rq_Source request ∧ p = rq_Policy request) ∧
  (p = rq_Policy request ∨ ef_Enabled p = true ∧ validPolicy p = true).
Proof.
  unfold streamPolicy. destruct (String.eqb_spec (mb_Dataset m) (rq_Source request)); [intros [= <-]; auto|].
  destruct (ef_Enabled (mb_Policy m)) eqn:E1, (validPolicy (mb_Policy m)) eqn:E2; cbn [negb orb]; try done.
  destruct (Replicate (ef_Send (mb_Policy m))) eqn:E3; [done|]. destruct (negb _); [done|]. destruct (negb _); [done|]. intros [= <-].
  rewrite E3. split; [done|by right].
Qed.

Lemma selectStream_Ok request view m p : selectStream request view = Ok (m, p) →
  ValidateDataset (rq_Source request) = Ok tt ∧ ActiveRoot (rq_Policy request) (rq_Source request) = Ok tt ∧
  ValidateDataset (mb_Dataset m) = Ok tt ∧ inside (mb_Dataset m) (rq_Source request) = true ∧
  (Replicate (ef_Send p) = true → mb_Dataset m = rq_Source request) ∧ ef_Enabled p = true ∧ validPolicy p = true ∧
  mb_Dataset m = (if (vw_Stream view =? "")%string then rq_Source request else vw_Stream view).
Proof.
  unfold selectStream. intros H. apply bind_Ok in H as ([] & Hv & H).
  destruct (ef_Enabled (rq_Policy request)) eqn:E1, (validPolicy (rq_Policy request)) eqn:E2; cbn [negb orb] in H; try done.
  apply bind_Ok in H as ([] & Ha & H). apply bind_Ok in H as (m' & Hm & H). apply bind_Ok in H as (p' & Hp & [= -> ->]).
  apply stream_Ok in Hm as (? & ? & ? & ?); [|done]. apply streamPolicy_Ok in Hp as [Hr Hp].
  split_and!; try done; [intros Hrep; by apply Hr|destruct Hp as [->|[? ?]]; done..].
Qed.

Lemma mapped_Ok request name root target : mapped request name = Ok (root, target) →
  ValidateDataset root = Ok tt ∧ inside root (rq_DestinationRoot request) = true ∧ inside name (rq_Source request) = true ∧
  target = root +:+ TrimPrefix name (rq_Source request) ∧ inside target root = true.
Proof.
  unfold mapped. intros H. apply bind_Ok in H as (r & Hr & H). destruct (inside name _) eqn:Hi; cbn [negb] in H; [|done]. injection H as -> <-.
  apply MapReceiveDataset_within in Hr as (? & ? & _). split_and!; try done. apply inside_split in Hi as (s & -> & Hs). rewrite TrimPrefix_app. by apply inside_app.
Qed.

Lemma existsb_false_elem {A} (f : A → bool) l : existsb f l = false → ∀ x, x ∈ l → f x = false.
Proof. intros H x Hx. apply not_true_is_false. intros Hf. apply not_true_iff_false in H. apply H, existsb_exists. exists x. by rewrite <- list_elem_of_In. Qed.

Lemma checkScopes_Ok request view m root target : checkScopes request view m = Ok (root, target) →
  mapped request (mb_Dataset m) = Ok (root, target) ∧
  (requestTransport request = "local" → overlapping root (rq_Source request) = false) ∧
  (∀ o, o ∈ Objects (vw_Source view) → inside (datasetOf (ob_Name o)) (rq_Source request) = true) ∧
  (∀ o, o ∈ Objects (vw_Destination view) → inside (datasetOf (ob_Name o)) target = true) ∧
  ResumeTokens (vw_Source view) = ∅ ∧ ResumeTokens (vw_Destination view) = ∅ ∧
  realDataset (objectMap (vw_Source view) !! mb_Dataset m) = true.
Proof.
  unfold checkScopes. intros H. apply bind_Ok in H as ([r t] & Hm & H). destruct (_ && _) eqn:E1; [done|].
  destruct (realDataset (_ !! rq_Source request)); cbn [negb] in H; [|done]. destruct (realDataset (_ !! mb_Dataset m)) eqn:E2; cbn [negb] in H; [|done].
  destruct (existsb _ (Objects (vw_Source view))) eqn:E3; [done|]. destruct (existsb _ (Objects (vw_Destination view))) eqn:E4; [done|].
  destruct (hasTokens (vw_Source view)) eqn:E5, (hasTokens (vw_Destination view)) eqn:E6; try done. injection H as -> ->.
  unfold hasTokens in *. rewrite negb_false_iff, bool_decide_eq_true in E5, E6. split_and!; try done.
  - intros E. rewrite E, String.eqb_refl in E1. cbn [andb] in E1. apply orb_false_iff in E1 as [Ha Hb]. apply not_true_is_false.
    rewrite overlapping_within, <- (inside_within root), <- (inside_within (rq_Source request)). intros [?|?]; congruence.
  - intros o Ho. apply (existsb_false_elem _ _ E3), negb_false_iff in Ho. done.
  - intros o Ho. apply (existsb_false_elem _ _ E4), negb_false_iff in Ho. done.
Qed.

(** * The policy of the stream *)

Lemma ForReplicationScope_kept p e d :
  Replicate (ef_Send (ForReplicationScope p e d)) = Replicate (ef_Send p) ∧ ef_Incremental (ForReplicationScope p e d) = ef_Incremental p ∧
  ef_IgnoreProperties (ForReplicationScope p e d) = ef_IgnoreProperties p ∧ ef_Values (ForReplicationScope p e d) = ef_Values p ∧
  Props (ef_Send (ForReplicationScope p e d)) = Props (ef_Send p).
Proof. unfold ForReplicationScope. by repeat case_match. Qed.

Lemma scopePolicy_Ok request view m inventory own p : scopePolicy request view m inventory own = Ok p →
  Replicate (ef_Send p) = Replicate (ef_Send own) ∧ ef_Incremental p = ef_Incremental own ∧ ef_IgnoreProperties p = ef_IgnoreProperties own ∧
  ef_Values p = ef_Values own ∧ validPolicy p = true ∧
  (Replicate (ef_Send own) = true → encryptedDescendant request (vw_Inventory view) ≠ "" → Raw (ef_Send p) = true) ∧
  (Props (ef_Send p) = true → isEncrypted (default (mkDataset "" "" "") (inventory !! mb_Dataset m)) = true → Raw (ef_Send p) = true).
Proof.
  unfold scopePolicy. set (encrypted := isEncrypted _). set (d := encryptedDescendant _ _).
  set (q := if Replicate (ef_Send own) then ForReplicationScope own encrypted d else own).
  assert (Replicate (ef_Send q) = Replicate (ef_Send own) ∧ ef_Incremental q = ef_Incremental own ∧ ef_IgnoreProperties q = ef_IgnoreProperties own ∧
    ef_Values q = ef_Values own) as (H1 & H2 & H3 & H4).
  { unfold q. destruct (Replicate (ef_Send own)) eqn:E; [|done]. destruct (ForReplicationScope_kept own encrypted d) as (-> & -> & -> & -> & _). done. }
  destruct (validPolicy q) eqn:Ev; cbn [negb]; [|done]. destruct (encrypted && _ && _) eqn:Er; [done|]. intros [= <-]. split_and!; try done.
  - intros Hrep Hd. unfold q in Ev |- *. rewrite Hrep in Ev |- *. by apply (ForReplicationScope_raw own encrypted d Hrep Hd).
  - intros Hp He. rewrite He, Hp in Er. by destruct (Raw (ef_Send q)).
Qed.

(** * Endpoints and expectations *)

Lemma objectMap_Some state n o : objectMap state !! n = Some o → o ∈ Objects state ∧ ob_Name o = n.
Proof.
  unfold objectMap, objectsByName. assert (∀ l (m : gmap string Object), (∀ o, m !! n = Some o → o ∈ Objects state ∧ ob_Name o = n) → l ⊆ Objects state →
    fold_left (λ m o, <[ob_Name o := o]> m) l m !! n = Some o → o ∈ Objects state ∧ ob_Name o = n) as H.
  { induction l as [|x l IH]; intros m Hm Hl; cbn [fold_left]; [apply Hm|]. apply IH; [|set_solver]. intros o'.
    destruct (decide (ob_Name x = n)) as [<-|Hne]; [rewrite lookup_insert_eq; intros [= <-]; split; [apply Hl; by left|done]|].
    rewrite lookup_insert_ne by done. apply Hm. }
  apply H; [by intros o' ?%lookup_empty_Some|done].
Qed.

(** The endpoint of one source dataset. *)
Definition endpointFor (request : Request) (view : View) (p : Effective) (mappedRoot lineage component : string) (o : Object) (e : Expected) : Prop :=
  ∃ snap metadata, objectMap (vw_Source view) !! (ob_Name o +:+ "@" +:+ component) = Some snap ∧ ownership (vw_Source view) snap lineage = Ok metadata ∧
    e = mkExpected (ob_Name snap) (replicaName request mappedRoot (ob_Name o) +:+ "@" +:+ component) (ob_GUID snap) (Some metadata).
(** The datasets a stream has an endpoint on. *)
Definition streamed (p : Effective) (m : Member) (o : Object) : Prop :=
  isDataset o = true ∧ (Replicate (ef_Send p) = true ∨ ob_Name o = mb_Dataset m).

Lemma endpointOf_Ok request view m p mappedRoot lineage component : ∀ l acc endpoints,
  foldM (endpointOf request view m p mappedRoot lineage component) acc l = Ok endpoints →
  (∀ e, e ∈ endpoints → e ∈ acc ∨ ∃ o, o ∈ l ∧ streamed p m o ∧ endpointFor request view p mappedRoot lineage component o e) ∧
  (∀ o, o ∈ l → streamed p m o → ∃ e, e ∈ endpoints ∧ endpointFor request view p mappedRoot lineage component o e) ∧ acc ⊆ endpoints.
Proof.
  induction l as [|x l IH]; intros acc endpoints; cbn [foldM].
  { intros [= <-]. split_and!; [by left|by intros o ?%not_elem_of_nil|done]. }
  intros H. apply bind_Ok in H as (acc' & Hx & H). apply IH in H as (H1 & H2 & H3).
  assert (acc' = acc ∧ ¬ streamed p m x ∨ streamed p m x ∧ ∃ e, acc' = acc ++ [e] ∧ endpointFor request view p mappedRoot lineage component x e) as Hc.
  { unfold endpointOf in Hx. unfold streamed. destruct (isDataset x); cbn [negb] in Hx; [|injection Hx as <-; left; split; [done|by intros [? _]]].
    destruct (Replicate (ef_Send p)) eqn:Er, (String.eqb_spec (ob_Name x) (mb_Dataset m)) as [En|En]; cbn [negb andb] in Hx;
      [right|right|right|injection Hx as <-; left; split; [done|by intros [_ [?|?]]]].
    all: split; [auto|]; apply bind_Ok in Hx as (child & _ & Hx); destruct (_ && _); [done|];
      destruct (objectMap (vw_Source view) !! _) as [snap|] eqn:Es; [|done]; apply bind_Ok in Hx as (metadata & Hm & Hx);
      apply bind_Ok in Hx as ([] & _ & [= <-]); eexists; split; [done|]; exists snap, metadata; done. }
  split_and!.
  - intros e [Ha|(o & Ho & Hs)]%H1; [|right; exists o; split; [by right|done]].
    destruct Hc as [[-> _]|[Hs (e' & -> & He')]]; [by left|]. apply elem_of_app in Ha as [?| ->%list_elem_of_singleton]; [by left|].
    right. exists x. split; [by left|done].
  - intros o [->|Ho]%elem_of_cons Hs; [|by apply H2]. destruct Hc as [[_ Hn]|[_ (e & -> & He)]]; [done|]. exists e. split; [|done]. apply H3, elem_of_app. right. by left.
  - destruct Hc as [[-> _]|[_ (e & -> & _)]]; [done|]. intros y Hy. apply H3, elem_of_app. by left.
Qed.

(** What a stream carries, by its options. *)
Definition carried (recursive : bool) (mode stream component : string) (baseTXG : Z) (endpoint o : Object) : Prop :=
  ob_Type o = "snapshot" ∧ 0 ≠ ob_CreateTXG o ∧ ob_CreateTXG o ≤ ob_CreateTXG endpoint ∧ (recursive = false → datasetOf (ob_Name o) = stream) ∧
  match recursive, (mode =? "incremental-all")%string with
  | _, true => baseTXG < ob_CreateTXG o
  | false, false => ob_Name o = ob_Name endpoint
  | true, false => mode = "full" ∨ baseTXG < ob_CreateTXG o ∧ HasSuffix (ob_Name o) ("@" +:+ component) = true
  end.

Lemma carried_spec recursive mode stream component baseTXG endpoint o : mode ≠ "up-to-date" →
  carried recursive mode stream component baseTXG endpoint o ↔
  negb (ob_Type o =? "snapshot")%string || (ob_CreateTXG o =? 0) || (ob_CreateTXG endpoint <? ob_CreateTXG o) = false ∧
  negb recursive && negb (datasetOf (ob_Name o) =? stream)%string = false ∧
  included recursive (mode =? "incremental-all")%string mode component baseTXG endpoint o = true.
Proof.
  intros Hm. unfold carried, included. rewrite (proj2 (String.eqb_neq mode "up-to-date") Hm), !orb_false_iff, negb_false_iff, String.eqb_eq, Z.eqb_neq, Z.ltb_ge.
  destruct recursive, (mode =? "incremental-all")%string; cbn [negb andb];
    rewrite ?negb_false_iff, ?orb_true_iff, ?andb_true_iff, ?String.eqb_eq, ?Z.ltb_lt; intuition congruence.
Qed.

(** The expectation for one snapshot of the source. *)
Definition expectedOf (request : Request) (state : State) (mappedRoot lineage : string) (o : Object) : Expected :=
  mkExpected (ob_Name o) (replicaName request mappedRoot (ob_Name o)) (ob_GUID o)
    (match ownership state o lineage with Ok metadata => Some metadata | Err _ => None end).

Lemma expectedRow_elem request state stream mappedRoot lineage component mode recursive baseTXG endpoint : mode ≠ "up-to-date" →
  ∀ l st e, e ∈ (fold_left (expectedRow request state stream mappedRoot lineage component mode recursive (mode =? "incremental-all")%string baseTXG endpoint) l st).1 ↔
  e ∈ st.1 ∨ ∃ o, o ∈ l ∧ carried recursive mode stream component baseTXG endpoint o ∧ e = expectedOf request state mappedRoot lineage o.
Proof.
  intros Hm. induction l as [|x l IH]; intros st e; cbn [fold_left].
  { split; [by left|]. intros [?|(o & ?%not_elem_of_nil & _)]; done. }
  rewrite IH. set (row := expectedRow _ _ _ _ _ _ _ _ _ _ _ st x).
  assert (e ∈ row.1 ↔ e ∈ st.1 ∨ carried recursive mode stream component baseTXG endpoint x ∧ e = expectedOf request state mappedRoot lineage x) as ->.
  { unfold row, expectedRow. pose proof (carried_spec recursive mode stream component baseTXG endpoint x Hm) as Hc.
    destruct (negb _ || _ || _); [naive_solver|]. destruct (negb _ && _); [naive_solver|]. destruct (included _ _ _ _ _ _ _); cbn [negb]; [|naive_solver].
    assert (carried recursive mode stream component baseTXG endpoint x) as Hx by by apply Hc. clear Hc.
    unfold expectedOf. destruct (ownership state x lineage); cbn [fst]; rewrite elem_of_app, list_elem_of_singleton; tauto. }
  split.
  - intros [[?|[? ->]]|(o & ? & ?)]; [by left|right; exists x; split; [by left|done]|right; exists o; split; [by right|done]].
  - intros [?|(o & [->|?]%elem_of_cons & ?)]; [by left; left|left; by right|right; by exists o].
Qed.

Definition baseTXG (base : option Object) : Z := match base with Some o => ob_CreateTXG o | None => 0 end.

Section Plan.
Context {request : Request} {view : View} {installation : string} (st : stages request view installation).

Let stream := mb_Dataset (st_stream st).
Let source := vw_Source view.
Let plan := planOf st.

Lemma plan_fields :
  pl_Source plan = stream ∧ pl_Destination plan = st_target st ∧ pl_Snapshot plan = ob_Name (st_endpoint st) ∧
  pl_Base plan = (match st_base st with Some o => ob_Name o | None => "" end) ∧ pl_Lineage plan = st_lineage st ∧ pl_Mode plan = st_mode st ∧
  ro_Root (pl_Receive plan) = st_target st ∧ ro_Discard (pl_Receive plan) = ReceiveExact ∧
  ro_Exclude (pl_Receive plan) = completeReceiveExclusions (ef_IgnoreProperties (st_policy st)) (st_policy st) source ∧
  so_Recursive (pl_Send plan) = Replicate (ef_Send (st_policy st)) ∧ so_Raw (pl_Send plan) = Raw (ef_Send (st_policy st)) ∧
  so_Properties (pl_Send plan) = Props (ef_Send (st_policy st)) ∧ so_Base (pl_Send plan) = pl_Base plan ∧
  so_Snapshot (pl_Send plan) = pl_Snapshot plan ∧ so_Source (pl_Send plan) = stream ∧
  so_Intermediates (pl_Send plan) = (st_mode st =? "incremental-all")%string ∧
  pl_TargetBinding plan = st_binding st ∧ pl_BindingNew plan = st_new st.
Proof. unfold plan, planOf, finishPlan. destruct (fold_left _ _ _) as [a b]. done. Qed.

Lemma plan_endpoints e : e ∈ pl_Endpoints plan ↔ e ∈ st_endpoints st.
Proof. unfold plan, planOf, finishPlan. destruct (fold_left _ _ _) as [a b]. cbn [pl_Endpoints]. by rewrite merge_sort_Permutation. Qed.

Lemma plan_expected e : e ∈ pl_Expected plan ↔
  if decide (st_mode st = "up-to-date") then e ∈ st_endpoints st
  else ∃ o, o ∈ Objects source ∧ carried (Replicate (ef_Send (st_policy st))) (st_mode st) stream (st_component st) (baseTXG (st_base st)) (st_endpoint st) o ∧
         e = expectedOf request source (st_mappedRoot st) (st_lineage st) o.
Proof.
  unfold plan, planOf, finishPlan. destruct (decide (st_mode st = "up-to-date")) as [->|Hm].
  - destruct (fold_left _ _ _) as [a b]. cbn [pl_Expected]. by rewrite merge_sort_Permutation.
  - set (r := fold_left _ _ _). destruct r as [a b] eqn:Er. cbn [pl_Expected]. rewrite merge_sort_Permutation, (proj2 (String.eqb_neq (st_mode st) "up-to-date") Hm).
    assert (a = r.1) as -> by by rewrite Er. unfold r. rewrite expectedRow_elem by done. cbn [fst].
    split; [intros [?%not_elem_of_nil|?]; done|by right].
Qed.

(** The stream and where it goes. *)
Lemma plan_scope :
  ValidateDataset stream = Ok tt ∧ inside stream (rq_Source request) = true ∧ ValidateDataset (st_mappedRoot st) = Ok tt ∧
  st_target st = st_mappedRoot st +:+ TrimPrefix stream (rq_Source request) ∧ inside (st_target st) (rq_DestinationRoot request) = true ∧
  inside (st_target st) (st_mappedRoot st) = true ∧ (Replicate (ef_Send (st_policy st)) = true → stream = rq_Source request).
Proof.
  destruct (selectStream_Ok _ _ _ _ (st_selected _ _ _ st)) as (_ & _ & Hv & Hi & Hr & _).
  destruct (checkScopes_Ok _ _ _ _ _ (st_scopes _ _ _ st)) as (Hm & _). destruct (mapped_Ok _ _ _ _ Hm) as (? & Hroot & _ & ? & Ht).
  destruct (scopePolicy_Ok _ _ _ _ _ _ (st_scoped _ _ _ st)) as (Hrep & _). split_and!; try done.
  - rewrite inside_within in *. by apply (within_trans _ (st_mappedRoot st)).
  - rewrite Hrep. exact Hr.
Qed.

(** An object of the source that the stream touches lies at or below it. *)
Lemma source_below o : o ∈ Objects source → Replicate (ef_Send (st_policy st)) = true ∨ datasetOf (ob_Name o) = stream →
  inside (datasetOf (ob_Name o)) stream = true.
Proof.
  intros Ho Hor. destruct plan_scope as (_ & _ & _ & _ & _ & _ & Hrep). destruct Hor as [Hr| ->]; [|rewrite inside_within; apply within_refl].
  rewrite (Hrep Hr). destruct (checkScopes_Ok _ _ _ _ _ (st_scopes _ _ _ st)) as (_ & _ & Hs & _). by apply Hs.
Qed.

Lemma placed_object o : o ∈ Objects source → Replicate (ef_Send (st_policy st)) = true ∨ datasetOf (ob_Name o) = stream →
  placed stream (st_target st) (ob_Name o) (replicaName request (st_mappedRoot st) (ob_Name o)).
Proof.
  intros Ho Hor. destruct plan_scope as (Hv & Hi & Hm & Ht & _). apply replicaName_placed; [done..|]. by apply source_below.
Qed.
End Plan.

(** * Containment *)

Lemma endpointFor_placed {request view installation} (st : stages request view installation) e : e ∈ st_endpoints st →
  placed (mb_Dataset (st_stream st)) (st_target st) (ex_Source e) (ex_Destination e) ∧
  (∃ o, o ∈ Objects (vw_Source view) ∧ ob_Name o = ex_Source e ∧ ob_GUID o = ex_GUID e) ∧
  ∃ metadata, ex_Metadata e = Some metadata ∧ Lineage metadata = st_lineage st.
Proof.
  intros He. destruct (endpointOf_Ok _ _ _ _ _ _ _ _ _ _ (st_mapped _ _ _ st)) as (Hf & _).
  destruct (Hf e He) as [?%not_elem_of_nil|(o & Ho & [_ Hs] & snap & metadata & Hsn & Hm & ->)]; [done|].
  apply objectMap_Some in Hsn as [Hsnap Hname]. cbn [ex_Source ex_Destination ex_GUID ex_Metadata].
  destruct (plan_scope st) as (Hv & Hin & Hmr & Htarget & _ & _ & Hrep). split_and!; [|by exists snap|].
  - assert (replicaName request (st_mappedRoot st) (ob_Name o) +:+ "@" +:+ st_component st = replicaName request (st_mappedRoot st) (ob_Name snap)) as ->.
    { assert (inside (datasetOf (ob_Name o)) (rq_Source request) = true) as Hi
        by (destruct (checkScopes_Ok _ _ _ _ _ (st_scopes _ _ _ st)) as (_ & _ & Hall & _); by apply Hall).
      destruct (datasetOf_prefix (ob_Name o)) as [u Eu]. rewrite Hname, Eu, !app_assoc_str, !replicaName_app, !app_assoc_str by done. done. }
    apply placed_object; [done|]. destruct Hs as [?|Hs]; [by left|right]. rewrite Hname, Hs. pose proof (valid_no_marks _ Hv) as [Ha Hh].
    rewrite datasetOf_app by done. change (datasetOf ("@" +:+ st_component st)) with "". apply app_str_nil.
  - exists metadata. split; [done|]. by apply Ownership_Ok, owned_lineage in Hm.
Qed.

(** C9: A plan stays in its scopes. The stream is the root or a member of it, it
    is received at exactly the planned dataset, which lies in the configured
    destination root; a local replica is disjoint from the source; and every
    snapshot the plan expects is received at its path relative to the stream,
    under the stream's replica, with the GUID it has at the source. *)
Theorem Build_contained request view installation plan :
  Build request view installation = Ok plan →
  inside (pl_Source plan) (rq_Source request) = true ∧ inside (pl_Destination plan) (rq_DestinationRoot request) = true ∧
  ro_Root (pl_Receive plan) = pl_Destination plan ∧ ro_Discard (pl_Receive plan) = ReceiveExact ∧
  (requestTransport request = "local" → ∀ n, inside n (rq_Source request) = true → inside n (pl_Destination plan) = false) ∧
  ∀ e, e ∈ pl_Expected plan ++ pl_Endpoints plan →
    placed (pl_Source plan) (pl_Destination plan) (ex_Source e) (ex_Destination e) ∧
    ∃ o, o ∈ Objects (vw_Source view) ∧ ob_Name o = ex_Source e ∧ ob_GUID o = ex_GUID e.
Proof.
  intros [st ->]%Build_stages. destruct (plan_fields st) as (-> & -> & _ & _ & _ & _ & -> & -> & _).
  destruct (plan_scope st) as (Hv & Hi & Hm & Ht & Hd & Hin & Hrep). split_and!; [done..| |].
  - intros El n Hn. apply not_true_is_false. intros Hn'. destruct (checkScopes_Ok _ _ _ _ _ (st_scopes _ _ _ st)) as (_ & Ho & _).
    specialize (Ho El). apply not_true_iff_false in Ho. apply Ho, overlapping_common. exists n. rewrite inside_within in *. split; [|done].
    by apply (within_trans _ (st_target st)).
  - intros e [He|He%plan_endpoints]%elem_of_app.
    + apply plan_expected in He. case_decide; [destruct (endpointFor_placed st e He) as (? & ? & _); done|].
      destruct He as (o & Ho & Hc & ->). split; [|by exists o]. cbn [expectedOf ex_Source ex_Destination]. apply placed_object; [done|].
      destruct Hc as (_ & _ & _ & Hc & _). destruct (Replicate _); [by left|right]. by apply Hc.
    + destruct (endpointFor_placed st e He) as (? & ? & _). done.
Qed.

(** * The endpoint and the base *)

(** The owned snapshots of the stream that the request admits. *)
Definition eligible (state : State) (m : Member) (lineage : string) (o : Object) : Prop :=
  o ∈ Objects state ∧ ob_Type o = "snapshot" ∧ datasetOf (ob_Name o) = mb_Dataset m ∧ (mb_Snapshot m = "" ∨ ob_Name o = mb_Snapshot m) ∧
  is_ok (ownership state o lineage) = true.

Lemma endpointRow_Ok state m lineage : ∀ l s endpoint, l ⊆ Objects state →
  foldM (endpointRow state m lineage) s l = Ok endpoint →
  (endpoint = s ∨ eligible state m lineage endpoint ∧ endpoint ∈ l) ∧ ob_CreateTXG s ≤ ob_CreateTXG endpoint ∧
  ∀ o, o ∈ l → eligible state m lineage o → ob_CreateTXG o ≤ ob_CreateTXG endpoint.
Proof.
  induction l as [|x l IH]; intros s endpoint Hsub; cbn [foldM].
  { intros [= <-]. split_and!; [by left|lia|by intros o ?%not_elem_of_nil]. }
  intros H. apply bind_Ok in H as (s' & Hx & H). apply IH in H as (H1 & H2 & H3); [|set_solver].
  assert ((s' = s ∨ s' = x ∧ eligible state m lineage x) ∧ ob_CreateTXG s ≤ ob_CreateTXG s' ∧ (eligible state m lineage x → ob_CreateTXG x ≤ ob_CreateTXG s')) as (A1 & A2 & A3).
  { unfold endpointRow in Hx. unfold eligible. assert (x ∈ Objects state) as Hin by (apply Hsub; by left).
    destruct (String.eqb_spec (ob_Type x) "snapshot") as [E1|E1]; cbn [negb orb] in Hx; [|injection Hx as <-; split_and!; [by left|lia|tauto]].
    destruct (String.eqb_spec (datasetOf (ob_Name x)) (mb_Dataset m)) as [E2|E2]; cbn [negb] in Hx; [|injection Hx as <-; split_and!; [by left|lia|tauto]].
    destruct (String.eqb_spec (mb_Snapshot m) "") as [E3|E3], (String.eqb_spec (ob_Name x) (mb_Snapshot m)) as [E4|E4]; cbn [negb andb] in Hx;
      [..|injection Hx as <-; split_and!; [by left|lia|tauto]].
    all: destruct (is_ok (ownership state x lineage)) eqn:E5; cbn [negb] in Hx; [|injection Hx as <-; split_and!; [by left|lia|by intros (_ & _ & _ & _ & ?)]].
    all: destruct (ob_CreateTXG x =? 0); [done|]; destruct (Z.ltb_spec (ob_CreateTXG s) (ob_CreateTXG x)); injection Hx as <-; split_and!; try lia; tauto. }
  split_and!; [|lia|].
  - destruct H1 as [->|[? ?]]; [|right; split; [done|by right]]. destruct A1 as [->|[-> ?]]; [by left|right; split; [done|by left]].
  - intros o [->|Ho]%elem_of_cons He; [specialize (A3 He); lia|by apply H3].
Qed.

Lemma selectEndpoint_Ok state m lineage endpoint : selectEndpoint state m lineage = Ok endpoint →
  eligible state m lineage endpoint ∧ ∀ o, eligible state m lineage o → ob_CreateTXG o ≤ ob_CreateTXG endpoint.
Proof.
  unfold selectEndpoint. intros H. apply bind_Ok in H as (e & Hf & H). destruct (String.eqb_spec (ob_Name e) "") as [|Hne]; [done|]. injection H as ->.
  apply endpointRow_Ok in Hf as (H1 & _ & H3); [|done]. split; [destruct H1 as [->|[? _]]; done|]. intros o Ho. apply H3; [apply Ho|done].
Qed.

Lemma latestOf_spec destination target :
  (latestOf destination target = noObject ∨
   (latestOf destination target ∈ Objects destination ∧ ob_Type (latestOf destination target) = "snapshot" ∧ datasetOf (ob_Name (latestOf destination target)) = target)) ∧
  ∀ o, o ∈ Objects destination → ob_Type o = "snapshot" → datasetOf (ob_Name o) = target → ob_CreateTXG o ≤ ob_CreateTXG (latestOf destination target).
Proof.
  unfold latestOf. set (step := λ latest o : Object, _).
  assert (∀ l s, (fold_left step l s = s ∨ fold_left step l s ∈ l ∧ ob_Type (fold_left step l s) = "snapshot" ∧ datasetOf (ob_Name (fold_left step l s)) = target) ∧
    ob_CreateTXG s ≤ ob_CreateTXG (fold_left step l s) ∧
    ∀ o, o ∈ l → ob_Type o = "snapshot" → datasetOf (ob_Name o) = target → ob_CreateTXG o ≤ ob_CreateTXG (fold_left step l s)) as H.
  { induction l as [|x l IH]; intros s; cbn [fold_left]; [split_and!; [by left|lia|by intros o ?%not_elem_of_nil]|].
    destruct (IH (step s x)) as (H1 & H2 & H3).
    assert ((step s x = s ∨ step s x = x ∧ ob_Type x = "snapshot" ∧ datasetOf (ob_Name x) = target) ∧ ob_CreateTXG s ≤ ob_CreateTXG (step s x) ∧
      (ob_Type x = "snapshot" → datasetOf (ob_Name x) = target → ob_CreateTXG x ≤ ob_CreateTXG (step s x))) as (A1 & A2 & A3).
    { unfold step. destruct (String.eqb_spec (ob_Type x) "snapshot"); cbn [andb]; [|split_and!; [by left|lia|tauto]].
      destruct (String.eqb_spec (datasetOf (ob_Name x)) target); cbn [andb]; [|split_and!; [by left|lia|tauto]].
      destruct (Z.ltb_spec (ob_CreateTXG s) (ob_CreateTXG x)); split_and!; try lia; auto. }
    split_and!; [|lia|].
    - destruct H1 as [E|(? & ? & ?)]; [|right; split_and!; [by right|done..]]. rewrite E. destruct A1 as [->|(-> & ? & ?)]; [by left|right; split_and!; [by left|done..]].
    - intros o [->|Ho]%elem_of_cons Ht Hd; [specialize (A3 Ht Hd); lia|by apply H3]. }
  destruct (H (Objects destination) noObject) as (H1 & _ & H3). done.
Qed.

(** What makes an object a base: it is on the stream, older than the endpoint, and
    the very snapshot the destination has last; and it is an owned snapshot or the
    checkpoint of a proof for this target. *)
Definition commonBase (request : Request) (view : View) (stream lineage canonical : string) (endpoint latest base : Object) : Prop :=
  base ∈ Objects (vw_Source view) ∧ ob_GUID base = ob_GUID latest ∧ ob_CreateTXG base < ob_CreateTXG endpoint ∧
  (ob_Type base = "snapshot" ∧ datasetOf (ob_Name base) = stream ∧ is_ok (ownership (vw_Source view) base lineage) = true ∨
   ob_Type base = "bookmark" ∧ ∃ r refs, References (vw_Source view) (rq_Source request) lineage = Ok refs ∧ r ∈ refs ∧
     rf_TargetID r = TargetID canonical ∧ rf_Dataset r = stream ∧ ob_Name base = BookmarkName r).

Lemma selectBase_Ok request view m p target lineage canonical endpoint base :
  selectBase request view m p target lineage canonical endpoint = Ok base →
  ob_Name (latestOf (vw_Destination view) target) ≠ "" ∧
  commonBase request view (mb_Dataset m) lineage canonical endpoint (latestOf (vw_Destination view) target) base.
Proof.
  unfold selectBase. set (latest := latestOf _ _). destruct (String.eqb_spec (ob_Name latest) "") as [|Hne]; [done|]. intros H. split; [done|].
  apply bind_Ok in H as (b & Hb & H). destruct b as [b|]; [|done]. injection H as ->. unfold commonBase.
  unfold snapshotBase in Hb. destruct (list_find _ (Objects (vw_Source view))) as [[i o]|] eqn:E; cbn [fmap option_fmap option_map snd] in Hb.
  - injection Hb as ->. apply list_find_Some in E as (Ho%list_elem_of_lookup_2 & Hp & _). rewrite !andb_true_iff, !String.eqb_eq, Z.eqb_eq, Z.ltb_lt in Hp.
    destruct Hp as ((((? & ?) & ?) & ?) & ?). split_and!; try done. left. done.
  - destruct (canResumeFromBookmark p); cbn [negb] in Hb; [|done]. apply bind_Ok in Hb as (refs & Hr & [= Hb]).
    unfold bookmarkBase in Hb. apply head_Some_elem_of in Hb. apply list_elem_of_omap in Hb as (r & Hin & Hr').
    apply list_elem_of_filter in Hin as [[Ht Hd] Hin]. unfold bookmarkOf in Hr'. destruct (_ !! BookmarkName r) as [o|] eqn:Eo; [|done].
    destruct (_ && _) eqn:Ec; [|done]. injection Hr' as ->. rewrite !andb_true_iff, String.eqb_eq, Z.eqb_eq, !Z.ltb_lt in Ec.
    apply objectMap_Some in Eo as [? ?]. destruct Ec as (((? & ?) & ?) & ?). split_and!; try done. right. split; [done|]. by exists r, refs.
Qed.

Lemma alreadyRow_Ok dest : ∀ endpoints already r, foldM (alreadyRow dest) already endpoints = Ok r →
  (∀ e o, e ∈ endpoints → dest !! ex_Destination e = Some o → ob_GUID o = ex_GUID e) ∧
  (r = true → already = true ∧ ∀ e, e ∈ endpoints → is_Some (dest !! ex_Destination e)).
Proof.
  induction endpoints as [|x endpoints IH]; intros already r; cbn [foldM].
  { intros [= <-]. split; [by intros e o ?%not_elem_of_nil|]. intros ?. split; [done|]. by intros e ?%not_elem_of_nil. }
  intros H. apply bind_Ok in H as (a & Hx & H). apply IH in H as [H1 H2]. unfold alreadyRow in Hx. destruct (dest !! ex_Destination x) as [o|] eqn:Ed.
  - destruct (Z.eqb_spec (ob_GUID o) (ex_GUID x)) as [E|E]; cbn [negb] in Hx; [|done]. injection Hx as <-. split.
    + intros e o' [->|He]%elem_of_cons Ho; [congruence|by apply (H1 e)].
    + intros Hr. destruct (H2 Hr) as [? H]. split; [done|]. intros e [->|He]%elem_of_cons; [by rewrite Ed|by apply H].
  - injection Hx as <-. split; [|intros Hr; by destruct (H2 Hr)]. intros e o' [->|He]%elem_of_cons Ho; [congruence|by apply (H1 e)].
Qed.

Lemma selectStream_stream request view m p : selectStream request view = Ok (m, p) →
  stream request (mb_Dataset m) = Ok m ∧ streamPolicy request m = Ok p.
Proof.
  intros H. pose proof (selectStream_Ok _ _ _ _ H) as (_ & _ & _ & _ & _ & _ & _ & ->). unfold selectStream in H.
  apply bind_Ok in H as ([] & _ & H). destruct (_ || _); [done|]. apply bind_Ok in H as ([] & _ & H). apply bind_Ok in H as (m' & Hm & H).
  by apply bind_Ok in H as (p' & Hp & [= -> ->]).
Qed.

Definition newest (destination : State) (target : string) (latest : Object) : Prop :=
  latest ∈ Objects destination ∧ ob_Type latest = "snapshot" ∧ datasetOf (ob_Name latest) = target ∧
  ∀ o, o ∈ Objects destination → ob_Type o = "snapshot" → datasetOf (ob_Name o) = target → ob_CreateTXG o ≤ ob_CreateTXG latest.

(** What the options of a send ask for: the plan's stream from its base, with the
    snapshots in between exactly in the mode that includes them, and the
    descendants exactly when the stream's policy does. *)
Definition sendsPlan (plan : Plan) (p : Effective) : Prop :=
  so_Source (pl_Send plan) = pl_Source plan ∧ so_Snapshot (pl_Send plan) = pl_Snapshot plan ∧ so_Base (pl_Send plan) = pl_Base plan ∧
  so_ResumeToken (pl_Send plan) = "" ∧ so_Recursive (pl_Send plan) = Replicate (ef_Send p) ∧
  (so_Intermediates (pl_Send plan) = true ↔ pl_Mode plan = "incremental-all").

(** Each dataset the stream covers, its own among them, has an endpoint. *)
Definition endpointsCover (source : State) (plan : Plan) : Prop :=
  (∃ o, o ∈ Objects source ∧ isDataset o = true ∧ ob_Name o = pl_Source plan) ∧
  ∀ o, o ∈ Objects source → isDataset o = true → so_Recursive (pl_Send plan) = true ∨ ob_Name o = pl_Source plan →
    ∃ e, e ∈ pl_Endpoints plan ∧ ex_Source e = ob_Name o +:+ "@" +:+ TrimPrefix (pl_Snapshot plan) (pl_Source plan +:+ "@").

Lemma plan_sends {request view installation} (st : stages request view installation) : sendsPlan (planOf st) (st_own st).
Proof.
  destruct (plan_fields st) as (E1 & _ & _ & _ & _ & E2 & _ & _ & _ & E3 & _ & _ & E4 & E5 & E6 & E7 & _).
  destruct (scopePolicy_Ok _ _ _ _ _ _ (st_scoped _ _ _ st)) as [Er _].
  unfold sendsPlan. rewrite E1, E2, E3, E6, E7, String.eqb_eq, Er. split_and!; try done.
  unfold planOf, finishPlan. by destruct (fold_left _ _ _).
Qed.
Lemma plan_covers {request view installation} (st : stages request view installation) : endpointsCover (vw_Source view) (planOf st).
Proof.
  destruct (plan_fields st) as (E1 & _ & E2 & _ & _ & _ & _ & _ & _ & E3 & _). unfold endpointsCover. rewrite E1, E2, E3. split.
  - destruct (checkScopes_Ok _ _ _ _ _ (st_scopes _ _ _ st)) as (_ & _ & _ & _ & _ & _ & Hr).
    destruct (objectMap _ !! _) as [o|] eqn:Eo; [|done]. apply objectMap_Some in Eo as [? ?]. exists o. unfold realDataset in Hr. by apply andb_true_iff in Hr as [_ ?].
  - intros o Ho Hd Hs. destruct (endpointOf_Ok _ _ _ _ _ _ _ _ _ _ (st_mapped _ _ _ st)) as (_ & H & _).
    destruct (H o Ho (conj Hd Hs)) as (e & He & snap & metadata & [_ Hn]%objectMap_Some & _ & ->). eexists. split; [by apply plan_endpoints|]. exact Hn.
Qed.

(** C4: What a plan sends continues what the destination has. Its send options
    name its stream, its snapshot and its base, with the snapshots in between
    exactly under incremental-all and the descendants exactly where the stream's
    policy replicates them. The snapshot is the newest owned one the request
    admits, and every dataset the stream covers has an endpoint of that name. A
    full stream goes only to a destination that does not exist; a plan is up to
    date only when every endpoint is at the destination with its GUID; an
    incremental stream starts from the very snapshot, by GUID, that is the
    destination's newest, so nothing at the destination is newer than the base,
    and the base is older than the endpoint and proven to belong to this stream
    and target. *)
Theorem Build_base request view installation plan :
  Build request view installation = Ok plan →
  ∃ m p endpoint, stream request (pl_Source plan) = Ok m ∧ streamPolicy request m = Ok p ∧ sendsPlan plan p ∧
    endpointsCover (vw_Source view) plan ∧ ob_Name endpoint = pl_Snapshot plan ∧
    eligible (vw_Source view) m (pl_Lineage plan) endpoint ∧
    (∀ o, eligible (vw_Source view) m (pl_Lineage plan) o → ob_CreateTXG o ≤ ob_CreateTXG endpoint) ∧
    (∀ e o, e ∈ pl_Endpoints plan → objectMap (vw_Destination view) !! ex_Destination e = Some o → ob_GUID o = ex_GUID e) ∧
    (pl_Mode plan = "full" ∧ pl_Base plan = "" ∧ vw_DestinationExists view = false ∨
     pl_Mode plan = "up-to-date" ∧ pl_Base plan = "" ∧ vw_DestinationExists view = true ∧
       (∀ e, e ∈ pl_Endpoints plan → is_Some (objectMap (vw_Destination view) !! ex_Destination e)) ∨
     pl_Mode plan = (if decide (ef_Incremental p = "all") then "incremental-all" else "incremental-latest") ∧ vw_DestinationExists view = true ∧
       ∃ latest base, newest (vw_Destination view) (pl_Destination plan) latest ∧ ob_Name base = pl_Base plan ∧
         commonBase request view (pl_Source plan) (pl_Lineage plan) (tb_CanonicalTarget (pl_TargetBinding plan)) endpoint latest base).
Proof.
  intros [st ->]%Build_stages. pose proof (plan_sends st) as Hs. pose proof (plan_covers st) as Hcov.
  destruct (plan_fields st) as (Esrc & -> & Esn & -> & -> & Em & _ & _ & _ & _ & _ & _ & _ & _ & _ & _ & -> & _).
  rewrite Esrc, Esn, Em. destruct (scopePolicy_Ok _ _ _ _ _ _ (st_scoped _ _ _ st)) as (_ & Ei & _).
  destruct (selectEndpoint_Ok _ _ _ _ (st_ended _ _ _ st)) as [He Hmax]. destruct (alreadyRow_Ok _ _ _ _ (st_arrived _ _ _ st)) as [Hg Ha].
  destruct (selectStream_stream _ _ _ _ (st_selected _ _ _ st)) as [Hm1 Hm2].
  exists (st_stream st), (st_own st), (st_endpoint st). split_and!; [done..| |].
  { intros e o Hin%plan_endpoints. by apply Hg. }
  pose proof (st_moded _ _ _ st) as Hm. unfold selectMode in Hm. destruct (st_already st).
  - injection Hm as <- <-. right. left. destruct (Ha eq_refl) as [? H]. split_and!; try done. intros e Hin%plan_endpoints. by apply H.
  - destruct (vw_DestinationExists view); cbn [negb] in Hm.
    + apply bind_Ok in Hm as (base & Hb & [= <- <-]). right. right. apply selectBase_Ok in Hb as [Hne Hb]. rewrite Ei.
      split_and!; [by destruct (String.eqb_spec (ef_Incremental (st_own st)) "all"); case_decide|done|].
      exists (latestOf (vw_Destination view) (st_target st)), base. split; [|done]. destruct (latestOf_spec (vw_Destination view) (st_target st)) as [[E|(? & ? & ?)] Hl].
      * by rewrite E in Hne.
      * done.
    + apply bind_Ok in Hm as ([] & _ & [= <- <-]). left. done.
Qed.

(** * Authority and binding *)

(** The live dataset a binding is anchored on. *)
Definition anchoredOn (b : TargetBinding) (identity : DatasetIdentity) : Prop :=
  tb_Anchor b = di_Name identity ∧ tb_AnchorGUID b = di_GUID identity ∧ tb_PoolGUID b = di_PoolGUID identity ∧ inside (tb_MappedDataset b) (di_Name identity) = true.

Lemma bindingForTarget_on request mapped identity transport canonical b : bindingForTarget request mapped identity transport canonical = Ok b →
  anchoredOn b identity ∧ tb_MappedDataset b = mapped ∧ tb_CanonicalTarget b = canonical ∧ tb_Transport b = transport.
Proof. intros (? & Em & ? & ? & ? & ? & _ & Hi)%anchored_fields. unfold anchoredOn. rewrite Em. done. Qed.

(** Only what configuration says of a target matters to what is stored for it. *)
Lemma storedTargetBinding_template state root b :
  storedTargetBinding state root b
  = storedTargetBinding state root (mkTargetBinding (tb_Transport b) (tb_CanonicalTarget b) (tb_DestinationRoot b) (tb_MappedDataset b) "" 0 "" 0 "").
Proof. by destruct b. Qed.

Lemma checkInventory_root request view mappedRoot target inventory destination :
  checkInventory request view mappedRoot target = Ok (inventory, destination) →
  vw_RootDestinationExists view = true → di_Name (vw_RootDestinationIdentity view) = mappedRoot.
Proof.
  unfold checkInventory. intros H Hr. apply bind_Ok in H as (i & _ & H). apply bind_Ok in H as ([] & _ & H). apply bind_Ok in H as (d & _ & H).
  destruct (negb (identityListed _ (vw_DestinationIdentity view))); [done|]. rewrite Hr in H.
  destruct (String.eqb_spec (di_Name (vw_RootDestinationIdentity view)) mappedRoot); [done|]. cbn [negb andb] in H. by rewrite orb_true_r in H.
Qed.

(** C13: A plan exists only for an active root this installation has authority over,
    of a target that is not suspended, with no interrupted receive on either side.
    Its target is proven: a stored binding is the one in the plan and matches the
    live identity of the replica, or of its recorded anchor while there is none;
    only a target with no stored binding gets a new one, anchored on a live
    dataset that contains the replica. *)
Theorem Build_authority request view installation plan :
  Build request view installation = Ok plan →
  authorized (vw_Source view) (rq_Source request) installation (pl_Lineage plan) ∧
  ActiveRoot (rq_Policy request) (rq_Source request) = Ok tt ∧
  TargetSuspended (vw_Source view) (rq_Source request) (tb_CanonicalTarget (pl_TargetBinding plan)) = Ok false ∧
  ResumeTokens (vw_Source view) = ∅ ∧ ResumeTokens (vw_Destination view) = ∅ ∧
  inside (pl_Destination plan) (tb_MappedDataset (pl_TargetBinding plan)) = true ∧
  (vw_RootDestinationExists view = true → di_Name (vw_RootDestinationIdentity view) = tb_MappedDataset (pl_TargetBinding plan)) ∧
  storedTargetBinding (vw_Source view) (rq_Source request)
    (bindingTemplate request (tb_MappedDataset (pl_TargetBinding plan)) (requestTransport request) (tb_CanonicalTarget (pl_TargetBinding plan)))
  = Ok (if pl_BindingNew plan then None else Some (pl_TargetBinding plan)) ∧
  anchoredOn (pl_TargetBinding plan)
    (if pl_BindingNew plan || vw_RootDestinationExists view then vw_RootDestinationIdentity view else vw_BindingIdentity view).
Proof.
  intros [st ->]%Build_stages. destruct (plan_fields st) as (_ & -> & _ & _ & -> & _ & _ & _ & _ & _ & _ & _ & _ & _ & _ & _ & -> & ->).
  destruct (selectStream_Ok _ _ _ _ (st_selected _ _ _ st)) as (_ & Hact & _). destruct (checkScopes_Ok _ _ _ _ _ (st_scopes _ _ _ st)) as (_ & _ & _ & _ & Hs & Hd & _).
  destruct (plan_scope st) as (_ & _ & _ & _ & _ & Hin & _). pose proof (st_bound _ _ _ st) as H. unfold checkBinding in H.
  apply bind_Ok in H as (lineage & Hl & H). apply bind_Ok in H as (suspended & Hsus & H). destruct suspended; [done|]. destruct (_ =? "")%string; [done|].
  apply bind_Ok in H as (wanted & Hw & H). apply bindingForTarget_on in Hw as Hw'. destruct Hw' as (Hon & Em & Ec & Et).
  apply anchored_fields in Hw as (_ & _ & _ & _ & _ & _ & Hdr & _). cbn [bindingTemplate tb_DestinationRoot] in Hdr.
  apply bind_Ok in H as (stored & Hstored & H). rewrite storedTargetBinding_template, Et, Ec, Hdr, Em in Hstored.
  pose proof (checkInventory_root _ _ _ _ _ _ (st_listed _ _ _ st)) as Hroot. unfold bindingTemplate. destruct stored as [stored|].
  - apply bind_Ok in H as ([] & _ & H). apply bind_Ok in H as (verified & Hv & H). destruct (bool_decide_reflect (stored = verified)) as [->|]; cbn [negb] in H; [|done].
    injection H as <- <- <-.
    assert (anchoredOn verified (if vw_RootDestinationExists view then vw_RootDestinationIdentity view else vw_BindingIdentity view) ∧
      tb_MappedDataset verified = st_mappedRoot st ∧ tb_CanonicalTarget verified = st_canonical st) as (Hon' & -> & ->).
    { destruct (vw_RootDestinationExists view); [injection Hv as <-; done|]. destruct (_ =? "")%string; [done|]. apply bindingForTarget_on in Hv. tauto. }
    split_and!; try done. by apply RootAuthority_Ok.
  - injection H as <- <- <-. rewrite Em, Ec. split_and!; try done. by apply RootAuthority_Ok.
Qed.

(** * What must not leak *)

Lemma inventoryRow_Ok message : ∀ l m m', foldM (inventoryRow message) m l = Ok m' →
  (∀ n d, m !! n = Some d → m' !! n = Some d) ∧ ∀ d, d ∈ l → m' !! ds_Name d = Some d.
Proof.
  induction l as [|x l IH]; intros m m'; cbn [foldM]; [intros [= <-]; split; [done|by intros d ?%not_elem_of_nil]|].
  intros H. apply bind_Ok in H as (m1 & Hx & H). apply IH in H as [H1 H2]. unfold inventoryRow in Hx. case_bool_decide as Hn; [done|]. injection Hx as <-. split.
  - intros n d Hd. apply H1. rewrite lookup_insert_ne; [done|]. intros <-. destruct Hn. by rewrite Hd.
  - intros d [->|Hd]%elem_of_cons; [apply H1, lookup_insert_eq|by apply H2].
Qed.

Lemma checkInventory_source request view mappedRoot target inventory destination d :
  checkInventory request view mappedRoot target = Ok (inventory, destination) → d ∈ vw_Inventory view → inventory !! ds_Name d = Some d.
Proof.
  unfold checkInventory. intros H Hd. apply bind_Ok in H as (i & Hi & H). apply bind_Ok in H as ([] & _ & H). apply bind_Ok in H as (dd & _ & H).
  destruct (negb (identityListed _ (vw_DestinationIdentity view))); [done|]. destruct (_ || _); [done|]. apply bind_Ok in H as ([] & _ & [= <- <-]).
  apply inventoryRow_Ok in Hi as [_ Hi]. by apply Hi.
Qed.

Lemma encryptedDescendant_ne request inventory d :
  d ∈ inventory → isEncrypted d = true → inside (ds_Name d) (rq_Source request) = true → ds_Name d ≠ rq_Source request →
  encryptedDescendant request inventory ≠ "".
Proof.
  intros Hd He Hi Hne. unfold encryptedDescendant. destruct (list_find _ inventory) as [[i x]|] eqn:E.
  - apply list_find_Some in E as (_ & Hx & _). rewrite !andb_true_iff, negb_true_iff, String.eqb_neq in Hx. destruct Hx as [[Hx1 Hx2] _].
    intros Hx. rewrite Hx in *. unfold inside in Hx2. apply orb_true_iff in Hx2 as [?%String.eqb_eq|Hb]; [done|]. apply below_length in Hb. cbn in Hb. lia.
  - apply list_find_None in E. rewrite Forall_forall in E. destruct (E d Hd). by rewrite Hi, He, (proj2 (String.eqb_neq _ _) Hne).
Qed.

Lemma elem_of_completeReceiveExclusions exclude p source name :
  name ∈ completeReceiveExclusions exclude p source ↔
  name ∈ exclude ∨ (IsPublic name = true ∧ is_Some (ef_Values p !! name)) ∨
  (excludedKey name = true ∧ ∃ row, row ∈ Properties source ∧ pr_Name row = name).
Proof.
  unfold completeReceiveExclusions. rewrite elem_of_Compact, elem_of_SortStrings, !elem_of_app, !list_elem_of_filter, !list_elem_of_fmap.
  split.
  - intros [?|[[? ([k v] & -> & Hk%elem_of_map_to_list)]|[? (row & -> & ?)]]]; [auto|right; left; split; [done|by exists v]|right; right; eauto].
  - intros [?|[[? [v Hv]]|[? (row & ? & <-)]]]; [auto|right; left; split; [done|]; exists (name, v); split; [done|by apply elem_of_map_to_list]|].
    right. right. split; [done|]. eauto.
Qed.

(** C27: A plan keeps what is the source's at the source. Every configuration,
    proof and binding property stored in the scope is excluded from the receive;
    the ownership properties of snapshots are excluded only if the policy says so,
    so a replica stays provable; and a stream that carries the properties of an
    encrypted dataset, or recurses into one, is raw. *)
Theorem Build_private request view installation plan :
  Build request view installation = Ok plan →
  (∀ row, row ∈ Properties (vw_Source view) →
     IsPublic (pr_Name row) = true ∨ HasPrefix (pr_Name row) ReferencePrefix = true ∨ HasPrefix (pr_Name row) targetBindingPrefix = true →
     pr_Name row ∈ ro_Exclude (pl_Receive plan)) ∧
  (∀ m p name, stream request (pl_Source plan) = Ok m → streamPolicy request m = Ok p → name = LineageProperty ∨ name = SnapshotProperty →
     (name ∈ ro_Exclude (pl_Receive plan) ↔ name ∈ ef_IgnoreProperties p)) ∧
  (∀ d, d ∈ vw_Inventory view → isEncrypted d = true →
     ds_Name d = pl_Source plan ∧ so_Properties (pl_Send plan) = true ∨
     so_Recursive (pl_Send plan) = true ∧ inside (ds_Name d) (pl_Source plan) = true ∧ ds_Name d ≠ pl_Source plan →
     so_Raw (pl_Send plan) = true).
Proof.
  intros [st ->]%Build_stages. destruct (plan_fields st) as (-> & _ & _ & _ & _ & _ & _ & _ & -> & -> & -> & -> & _).
  destruct (scopePolicy_Ok _ _ _ _ _ _ (st_scoped _ _ _ st)) as (Hrep & _ & Hign & _ & _ & Hraw & Hprops). split_and!.
  - intros row Hrow Hk. apply elem_of_completeReceiveExclusions. right. right. split; [|by exists row]. unfold excludedKey. rewrite !orb_true_iff. tauto.
  - intros m p name Hm Hp Hname. rewrite elem_of_completeReceiveExclusions, Hign.
    assert (p = st_own st) as ->.
    { destruct (selectStream_stream _ _ _ _ (st_selected _ _ _ st)) as [Hm' Hp']. rewrite Hm in Hm'. injection Hm' as ->. congruence. }
    assert (IsPublic name = false ∧ excludedKey name = false) as [-> ->] by by destruct Hname as [->| ->]; vm_compute. split; [|by left].
    by intros [?|[[? _]|[? _]]].
  - intros d Hd He [[Hn Hp]|(Hr & Hi & Hne)].
    + apply Hprops; [done|]. rewrite <- Hn, (checkInventory_source _ _ _ _ _ _ d (st_listed _ _ _ st) Hd). done.
    + destruct (plan_scope st) as (_ & _ & _ & _ & _ & _ & Hsrc). rewrite Hrep in *. apply Hraw; [done|]. apply (encryptedDescendant_ne _ _ d); [done..| |];
        rewrite <- (Hsrc Hr); done.
Qed.

(** * A transfer *)

Module SampleTransfer.
Definition source : State :=
  mkState (mkObject "tank/data" "filesystem" 7 0 1 :: imap (λ i s, mkObject (sn_Name s) "snapshot" (sn_GUID s) 0 (10 + Z.of_nat i)) witnessSnapshots)
    (Properties SampleTarget.source) ∅ ∅ ∅ ∅.
(** The destination has the first snapshot. *)
Definition first : Snapshot := default (mkSnapshot "" 0 [] [] [] false) (head witnessSnapshots).
Definition destination : State :=
  mkState [mkObject "backup/data" "filesystem" 20 0 4; mkObject ("backup/data" +:+ TrimPrefix (sn_Name first) "tank/data") "snapshot" (sn_GUID first) 0 5] [] ∅ ∅ ∅ ∅.
Definition inventory : list Dataset := (λ n, mkDataset n Filesystem "-") <$> ["tank/data"; "backup"; "backup/data"].
Definition replica : DatasetIdentity := mkDatasetIdentity "backup/data" Filesystem 20 "backup" 9 false.
Definition unbound : State := mkState (Objects source) (SampleTarget.on "local" "backup" :: Properties SamplePool.state) ∅ ∅ ∅ ∅.
Definition view : View := mkView "" inventory None unbound destination true replica true replica replica.
Definition noPlan : Plan := mkPlan "" "" "" "" "" "" (mkSendOptions "" "" "" "" false false false false false false false)
  (mkReceiveOptions "" "" ∅ []) [] [] [] SampleTarget.binding false.
Definition plan : Plan := okOr (Build SampleTarget.request view SamplePool.installation) noPlan.
Lemma built_ok : is_ok (Build SampleTarget.request view SamplePool.installation) = true.
Proof. by vm_compute. Qed.
Lemma built_Ok : Build SampleTarget.request view SamplePool.installation = Ok plan.
Proof. unfold plan. exact (is_ok_default (Build SampleTarget.request view SamplePool.installation) noPlan built_ok). Qed.
Lemma planned_mode : pl_Mode plan = "incremental-all" ∧ pl_Base plan = sn_Name first ∧ pl_Destination plan = "backup/data" ∧ pl_Source plan = "tank/data".
Proof. by vm_compute. Qed.
(** While the replica does not exist the stored binding, on the pool, is the one
    that is checked. *)
Definition absent : View := mkView "" (take 2 inventory) None source emptyState false SampleTarget.anchor false SampleTarget.anchor SampleTarget.anchor.
Lemma absent_full : match Build SampleTarget.request absent SamplePool.installation with
                    | Ok plan => (pl_Mode plan, pl_BindingNew plan) = ("full", false) | Err _ => False end.
Proof. by vm_compute. Qed.
End SampleTransfer.

Lemma Build_contained_witness : ro_Root (pl_Receive SampleTransfer.plan) = pl_Destination SampleTransfer.plan ∧
  inside "tank/data/home" (pl_Destination SampleTransfer.plan) = false.
Proof.
  destruct (Build_contained SampleTarget.request SampleTransfer.view SamplePool.installation SampleTransfer.plan SampleTransfer.built_Ok)
    as (_ & _ & H1 & _ & H2 & _). split; [exact H1|]. exact (H2 eq_refl "tank/data/home" eq_refl).
Defined.

Lemma Build_base_witness : ∃ latest, newest SampleTransfer.destination (pl_Destination SampleTransfer.plan) latest.
Proof.
  destruct (Build_base SampleTarget.request SampleTransfer.view SamplePool.installation SampleTransfer.plan SampleTransfer.built_Ok)
    as (m & p & endpoint & _ & _ & _ & _ & _ & _ & _ & _ & [(_ & _ & H)|[(H & _)|(_ & _ & latest & base & H & _)]]).
  - discriminate H.
  - assert (bool_decide (pl_Mode SampleTransfer.plan = "up-to-date") = false) as Hm by by vm_compute. apply bool_decide_eq_false in Hm. contradiction.
  - exact (ex_intro _ latest H).
Defined.

Lemma Build_authority_witness : authorized SampleTransfer.unbound "tank/data" SamplePool.installation (pl_Lineage SampleTransfer.plan).
Proof.
  exact (proj1 (Build_authority SampleTarget.request SampleTransfer.view SamplePool.installation SampleTransfer.plan SampleTransfer.built_Ok)).
Defined.

Lemma Build_private_witness : Namespace +:+ "local" ∈ ro_Exclude (pl_Receive SampleTransfer.plan).
Proof.
  destruct (Build_private SampleTarget.request SampleTransfer.view SamplePool.installation SampleTransfer.plan SampleTransfer.built_Ok)
    as [H _]. apply (H (SampleTarget.on "local" "backup")); by left.
Defined.
