(* ===== verification/Resume.v ===== *)
(** Resuming an interrupted receive: [BuildResume] of internal/transfer/resume.go.

    A receive token is opaque, so the plan is rebuilt from stored proofs alone.
    Each definition is a stretch of the function, in its order; the first one is
    shared with [Build]. *)

From Stdlib Require Import Ascii.
From S2P Require Import Prelude GoStrings GoTime Grid Names Zfs Ownership Policy Stream Authority Reference Backend Service Proofs Binding Transfer TransferSafe.

Definition resumeTransport (request : Request) (stream : Member) : result unit :=
  let transport := requestTransport request in
  let canonical := canonicalTarget request in
  let own := (mb_Dataset stream =? rq_Source request)%string in
  if (transport =? "local")%string then
    if (own && negb (contains (ef_Local (rq_Policy request)) (rq_DestinationRoot request)))
       || negb (canonical =? canonicalLocalTarget (rq_DestinationRoot request))%string
    then Err (Errorf "destination is not configured by the source local property") else Ok tt
  else if (transport =? "ssh")%string || (transport =? "native")%string then
    if (rq_RemoteName request =? "")%string || (own && negb (contains (ef_Remote (rq_Policy request)) (rq_RemoteName request)))
       || (canonical =? "")%string || ContainsAny canonical (String "000" (String "013" (String "010" "")))
    then Err (Errorf "remote is not configured with a canonical target") else Ok tt
  else Err (Errorf ("unsupported transfer transport " +:+ Quote transport)).

(** The mapped destinations, and the one token with the dataset that holds it. *)
Definition resumeToken (request : Request) (view : View) (stream : Member) : result (string * string * string * string) :=
  '(mappedRoot, target) ← mapped request (mb_Dataset stream);
  if (requestTransport request =? "local")%string && (inside mappedRoot (rq_Source request) || inside (rq_Source request) mappedRoot)
  then Err (Errorf "source and destination scopes overlap") else
  match map_to_list (ResumeTokens (vw_Source view)), map_to_list (ResumeTokens (vw_Destination view)) with
  | [], [(tokenDataset, token)] =>
    if negb (inside tokenDataset target) || (token =? "")%string then Err (Errorf "resume token escapes the mapped destination")
    else Ok (mappedRoot, target, tokenDataset, token)
  | _, _ => Err (Errorf "exactly one destination resume token is required")
  end.

Definition resumeScope (request : Request) (view : View) (stream : Member) (target : string) : result unit :=
  if negb (vw_DestinationExists view) then Err (Errorf "resumable destination root is missing")
  else if existsb (λ o, negb (inside (datasetOf (ob_Name o)) (rq_Source request))) (Objects (vw_Source view))
  then Err (Errorf "source inventory escapes selected scope")
  else if existsb (λ o, negb (inside (datasetOf (ob_Name o)) target)) (Objects (vw_Destination view))
  then Err (Errorf "destination inventory escapes selected scope")
  else
    inventory ← foldM (inventoryRow "duplicate dataset in source transfer inventory: ") ∅ (vw_Inventory view);
    _ ← match inventory !! mb_Dataset stream with
        | Some sent =>
          if negb ((ds_Type sent =? Filesystem)%string || (ds_Type sent =? Volume)%string) || (ds_EncryptionRoot sent =? "")%string
          then Err (Errorf "source dataset lacks complete matching inventory") else Ok tt
        | None => Err (Errorf "source dataset lacks complete matching inventory")
        end;
    destinationDatasets ← foldM (inventoryRow "duplicate dataset in destination transfer inventory: ") ∅ (destinationInventory request view);
    let identity := vw_DestinationIdentity view in
    if negb (di_Name identity =? target)%string || (di_GUID identity =? 0)
       || negb (ds_Type (default (mkDataset "" "" "") (destinationDatasets !! target)) =? di_Type identity)%string
    then Err (Errorf "destination identity does not match resumable root") else Ok tt.

(** The lineage and the stored binding. *)
Definition resumeBinding (request : Request) (view : View) (installation mappedRoot : string) : result (string * TargetBinding) :=
  let transport := requestTransport request in
  let canonical := canonicalTarget request in
  lineage ← RootAuthority (vw_Source view) (rq_Source request) installation;
  suspended ← TargetSuspended (vw_Source view) (rq_Source request) canonical;
  if (suspended : bool) then Err (Errorf "target is suspended pending explicit remote revalidation") else
  match storedTargetBinding (vw_Source view) (rq_Source request) (bindingTemplate request mappedRoot transport canonical) with
  | Ok (Some stored) =>
    _ ← validateBinding stored;
    if (di_Name (vw_BindingIdentity view) =? "")%string then Err (Errorf "bound destination identity is missing") else
    match bindingForTarget request mappedRoot (vw_BindingIdentity view) transport canonical with
    | Ok wanted => if bool_decide (stored = wanted) then Ok (lineage, stored) else Err (Errorf "resumable target differs from persistent binding")
    | Err _ => Err (Errorf "resumable target differs from persistent binding")
    end
  | _ => Err (Errorf "resumable transfer lacks a valid target binding")
  end.

(** A source of a proof is still the held, owned snapshot it names. *)
Definition sourceHeld (state : State) (lineage : string) (r : Reference) (member : ReferenceSource) : bool :=
  let name := sourceSnapshot r member in
  match objectMap state !! name with
  | Some o =>
    (ob_Type o =? "snapshot")%string && (ob_GUID o =? sr_GUID member) && heldBy state name (HoldName r)
    && match ownership state o lineage with Ok metadata => bool_decide (metadata = rf_Metadata r) | Err _ => false end
  | None => false
  end.
Definition resumable (state : State) (lineage stream : string) (r : Reference) : bool :=
  match Sources r state with
  | Ok (first :: members) => (sr_Dataset first =? stream)%string && forallb (sourceHeld state lineage r) (first :: members)
  | _ => false
  end.

(** The loop over the proofs: the newest resumable one, its transaction group,
    and whether another is as new. *)
Definition newestProof (state : State) (lineage stream canonical : string) (st : option Reference * Z * bool) (r : Reference) : option Reference * Z * bool :=
  let '(candidate, candidateTXG, tied) := st in
  if negb (rf_TargetID r =? TargetID canonical)%string || negb (rf_Dataset r =? stream)%string then st
  else if negb (resumable state lineage stream r) then st
  else
    let txg := match objectMap state !! SnapshotName r with Some o => ob_CreateTXG o | None => 0 end in
    if txg =? 0 then st
    else if candidateTXG <? txg then (Some r, txg, false)
    else if txg =? candidateTXG then (candidate, candidateTXG, true) else st.
Definition selectProof (state : State) (lineage stream canonical : string) (refs : list Reference) : result Reference :=
  match fold_left (newestProof state lineage stream canonical) refs (None, 0, false) with
  | (Some r, txg, tied) => if (txg =? 0) || tied then Err (Errorf "resume token does not have an unambiguous newest held source proof") else Ok r
  | _ => Err (Errorf "resume token does not have an unambiguous newest held source proof")
  end.

(** The loop over the proof's sources: the expectations and whether the token's
    dataset is one of them. *)
Definition resumeRow (request : Request) (view : View) (mappedRoot lineage tokenDataset : string) (r : Reference)
    (st : list Expected * bool) (member : ReferenceSource) : result (list Expected * bool) :=
  let mappedDataset := replicaName request mappedRoot (sr_Dataset member) in
  _ ← match objectMap (vw_Destination view) !! mappedDataset with
      | None => Ok tt
      | Some existing =>
        if negb (ob_Type existing =? ob_Type (default noObject (objectMap (vw_Source view) !! sr_Dataset member)))%string
        then Err (Errorf "source/destination dataset types differ")
        else match DatasetLineage (vw_Destination view) mappedDataset with
             | Ok localLineage =>
               if negb (localLineage =? "")%string && negb (localLineage =? lineage)%string
               then Err (Errorf "destination has a conflicting lineage") else Ok tt
             | Err _ => Err (Errorf "destination has a conflicting lineage")
             end
      end;
  Ok (st.1 ++ [mkExpected (sourceSnapshot r member) (mappedDataset +:+ "@" +:+ Name (rf_Metadata r)) (sr_GUID member) (Some (rf_Metadata r))],
      st.2 || (tokenDataset =? mappedDataset)%string).

Definition BuildResume (request : Request) (view : View) (installation : string) : result (Plan * Reference) :=
  '(stream, p) ← selectStream request view;
  _ ← resumeTransport request stream;
  '(mappedRoot, target, tokenDataset, token) ← resumeToken request view stream;
  _ ← resumeScope request view stream target;
  '(lineage, binding) ← resumeBinding request view installation mappedRoot;
  refs ← References (vw_Source view) (rq_Source request) lineage;
  r ← selectProof (vw_Source view) lineage (mb_Dataset stream) (canonicalTarget request) refs;
  members ← Sources r (vw_Source view);
  '(expected, tokenCovered) ← foldM (resumeRow request view mappedRoot lineage tokenDataset r) ([], false) members;
  let snapshot := match filter (λ m, sr_Dataset m = mb_Dataset stream) members with [] => "" | m :: _ => sourceSnapshot r m end in
  if negb tokenCovered || (snapshot =? "")%string then Err (Errorf "resume token is not covered by its held source proof") else
  Ok (mkPlan (mb_Dataset stream) target snapshot "" lineage "resume" (mkSendOptions (mb_Dataset stream) "" token "" false false false false false false false)
        (mkReceiveOptions tokenDataset ReceiveExact (ef_SetProperties p) (completeReceiveExclusions (ef_IgnoreProperties p) p (vw_Source view)))
        expected expected (ef_Warnings p) binding false, r).

(** * What a resumed receive proves *)

(** The transaction group of a proof that can be resumed for a stream and target. *)
Definition resumeTXG (state : State) (lineage stream canonical : string) (r : Reference) : option Z :=
  if decide (rf_TargetID r = TargetID canonical ∧ rf_Dataset r = stream ∧ resumable state lineage stream r = true) then
    match objectMap state !! SnapshotName r with Some o => if ob_CreateTXG o =? 0 then None else Some (ob_CreateTXG o) | None => None end
  else None.

(** What that asks for: each source of the proof, the stream's own first, is still
    an owned snapshot of the proof's instant, with the recorded GUID and the
    proof's hold. *)
Definition heldSource (state : State) (lineage : string) (r : Reference) (m : ReferenceSource) : Prop :=
  ∃ o, objectMap state !! sourceSnapshot r m = Some o ∧ ob_Type o = "snapshot" ∧ ob_GUID o = sr_GUID m ∧
    heldBy state (sourceSnapshot r m) (HoldName r) = true ∧ ownership state o lineage = Ok (rf_Metadata r).
Definition recoverable (state : State) (lineage stream canonical : string) (r : Reference) (txg : Z) : Prop :=
  rf_TargetID r = TargetID canonical ∧ rf_Dataset r = stream ∧
  (∃ first rest, Sources r state = Ok (first :: rest) ∧ sr_Dataset first = stream ∧ ∀ m, m ∈ first :: rest → heldSource state lineage r m) ∧
  ∃ o, objectMap state !! SnapshotName r = Some o ∧ ob_CreateTXG o = txg ∧ txg ≠ 0.

Lemma sourceHeld_true state lineage r m : sourceHeld state lineage r m = true ↔ heldSource state lineage r m.
Proof.
  unfold sourceHeld, heldSource. destruct (objectMap state !! _) as [o|]; [|split; [done|by intros (? & ? & _)]].
  rewrite !andb_true_iff, String.eqb_eq, Z.eqb_eq. split.
  - intros (((? & ?) & ?) & Ho). exists o. destruct (ownership state o lineage); [|done]. by rewrite bool_decide_eq_true in Ho; subst.
  - intros (o' & [= <-] & ? & ? & ? & ->). rewrite bool_decide_true by done. done.
Qed.
Lemma resumable_true state lineage stream r : resumable state lineage stream r = true ↔
  ∃ first rest, Sources r state = Ok (first :: rest) ∧ sr_Dataset first = stream ∧ ∀ m, m ∈ first :: rest → heldSource state lineage r m.
Proof.
  unfold resumable. destruct (Sources r state) as [[|first rest]|]; [by split; [|intros (? & ? & ? & _)]| |by split; [|intros (? & ? & ? & _)]].
  rewrite andb_true_iff, String.eqb_eq, forallb_forall. split.
  - intros [? H]. exists first, rest. split_and!; [done..|]. intros m Hm%list_elem_of_In. by apply sourceHeld_true, H.
  - intros (? & ? & [= <- <-] & ? & H). split; [done|]. intros m Hm%list_elem_of_In. by apply sourceHeld_true, H.
Qed.
Lemma resumeTXG_Some state lineage stream canonical r txg :
  resumeTXG state lineage stream canonical r = Some txg ↔ recoverable state lineage stream canonical r txg.
Proof.
  unfold resumeTXG, recoverable. case_decide as Hd; rewrite resumable_true in Hd.
  - destruct Hd as (? & ? & ?). destruct (objectMap state !! SnapshotName r) as [o|]; [|by split; [|intros (_ & _ & _ & ? & ? & _)]].
    destruct (Z.eqb_spec (ob_CreateTXG o) 0); split.
    + done.
    + intros (_ & _ & _ & ? & [= <-] & <- & ?). done.
    + intros [= <-]. split_and!; [done..|]. by exists o.
    + by intros (_ & _ & _ & ? & [= <-] & <- & _).
  - split; [done|]. intros (? & ? & ? & _). by destruct Hd.
Qed.

(** [r] is the newest such proof of the list, and no other is as new. *)
Definition onlyNewest (state : State) (lineage stream canonical : string) (refs : list Reference) (r : Reference) : Prop :=
  ∃ txg, r ∈ refs ∧ recoverable state lineage stream canonical r txg ∧ 0 < txg ∧
    ∀ r' txg', r' ∈ refs → recoverable state lineage stream canonical r' txg' → txg' ≤ txg ∧ (txg' = txg → r' = r).

Lemma newestProof_eq state lineage stream canonical candidate txg tied r :
  newestProof state lineage stream canonical (candidate, txg, tied) r =
  match resumeTXG state lineage stream canonical r with
  | None => (candidate, txg, tied)
  | Some t => if txg <? t then (Some r, t, false) else if t =? txg then (candidate, txg, true) else (candidate, txg, tied)
  end.
Proof.
  unfold newestProof, resumeTXG. case_decide as H.
  - destruct H as (-> & -> & ->). rewrite !String.eqb_refl. cbn [negb orb]. destruct (objectMap state !! SnapshotName r) as [o|]; [|done].
    by destruct (ob_CreateTXG o =? 0).
  - destruct (String.eqb_spec (rf_TargetID r) (TargetID canonical)); cbn [negb orb]; [|done].
    destruct (String.eqb_spec (rf_Dataset r) stream); cbn [negb]; [|done]. destruct (resumable _ _ _ r); [|done]. destruct H. done.
Qed.

Definition newestInv (state : State) (lineage stream canonical : string) (seen : list Reference) (st : option Reference * Z * bool) : Prop :=
  let '(candidate, txg, tied) := st in
  match candidate with
  | None => txg = 0 ∧ ∀ r t, r ∈ seen → resumeTXG state lineage stream canonical r = Some t → t ≤ 0
  | Some c => c ∈ seen ∧ resumeTXG state lineage stream canonical c = Some txg ∧ 0 < txg ∧
      ∀ r t, r ∈ seen → resumeTXG state lineage stream canonical r = Some t → t ≤ txg ∧ (tied = false → t = txg → r = c)
  end.

Lemma newestProof_inv state lineage stream canonical seen st r :
  newestInv state lineage stream canonical seen st → newestInv state lineage stream canonical (seen ++ [r]) (newestProof state lineage stream canonical st r).
Proof.
  destruct st as [[candidate txg] tied]. rewrite newestProof_eq. intros H.
  assert (0 ≤ txg) as Hpos by (cbn in H; destruct candidate; [|lia]; destruct H as (_ & _ & ? & _); lia).
  destruct (resumeTXG _ _ _ _ r) as [t|] eqn:Et; [destruct (Z.ltb_spec txg t); [|destruct (Z.eqb_spec t txg)]|]; cbn [newestInv] in *.
  - split_and!; [apply elem_of_app; right; by left|done|lia|]. intros r' t' [Hr| ->%list_elem_of_singleton]%elem_of_app Ht'; [|split; [|done]; rewrite Et in Ht'; injection Ht'; lia].
    assert (t' ≤ txg) by (destruct candidate as [c|]; [destruct H as (_ & _ & _ & H); by destruct (H r' t' Hr Ht')|destruct H as [-> H]; by apply (H r' t')]). lia.
  - destruct candidate as [c|]; [|destruct H as [? H]; split; [done|]; intros r' t' [Hr| ->%list_elem_of_singleton]%elem_of_app Ht'; [by apply (H r' t')|];
      rewrite Et in Ht'; injection Ht'; lia].
    destruct H as (Hc & Hs & Hp & H). split_and!; [apply elem_of_app; by left|done..|]. intros r' t' [Hr| ->%list_elem_of_singleton]%elem_of_app Ht'; split; [|done| |done].
    + by destruct (H r' t' Hr Ht').
    + rewrite Et in Ht'. injection Ht'. lia.
  - destruct candidate as [c|].
    + destruct H as (Hc & Hs & Hp & H). split_and!; [apply elem_of_app; by left|done..|]. intros r' t' [Hr| ->%list_elem_of_singleton]%elem_of_app Ht'; [by apply H|].
      rewrite Et in Ht'. injection Ht' as <-. split; [lia|]. intros _ ?. lia.
    + destruct H as [? H]. split; [done|]. intros r' t' [Hr| ->%list_elem_of_singleton]%elem_of_app Ht'; [by apply (H r' t')|]. rewrite Et in Ht'. injection Ht'. lia.
  - destruct candidate as [c|].
    + destruct H as (Hc & Hs & Hp & H). split_and!; [apply elem_of_app; by left|done..|]. intros r' t' [Hr| ->%list_elem_of_singleton]%elem_of_app Ht'; [by apply H|congruence].
    + destruct H as [? H]. split; [done|]. intros r' t' [Hr| ->%list_elem_of_singleton]%elem_of_app Ht'; [by apply (H r' t')|congruence].
Qed.

Lemma selectProof_Ok state lineage stream canonical refs r :
  selectProof state lineage stream canonical refs = Ok r → onlyNewest state lineage stream canonical refs r.
Proof.
  assert (∀ rest seen st, newestInv state lineage stream canonical seen st →
    newestInv state lineage stream canonical (seen ++ rest) (fold_left (newestProof state lineage stream canonical) rest st)) as Hfold.
  { induction rest as [|x rest IH]; intros seen st H; cbn [fold_left]; [by rewrite app_nil_r|].
    replace (seen ++ x :: rest) with ((seen ++ [x]) ++ rest) by by rewrite <- app_assoc. by apply IH, newestProof_inv. }
  specialize (Hfold refs [] (None, 0, false)). unfold selectProof. destruct (fold_left _ refs _) as [[[c|] txg] tied]; [|done].
  destruct (txg =? 0), tied; cbn [orb]; try done. intros [= ->]. destruct Hfold as (H1 & H2 & H3 & H4); [split; [done|]; by intros r' t ?%not_elem_of_nil|].
  exists txg. split_and!; [done|by apply resumeTXG_Some|done|]. intros r' t' Hr' Ht'%resumeTXG_Some. destruct (H4 r' t' Hr' Ht') as [? ?]. split; [done|]. auto.
Qed.

(** * The sources of a proof *)

Lemma Sources_below r state sources : Sources r state = Ok sources → ∀ m, m ∈ sources → inside (sr_Dataset m) (rf_Dataset r) = true.
Proof.
  unfold Sources. intros H. refine (foldM_inv (λ l, ∀ m : ReferenceSource, m ∈ l → inside (sr_Dataset m) (rf_Dataset r) = true) _ _ _ _ _ _ H).
  - intros l d l' Hd Hl Hs. rewrite elem_of_Compact, elem_of_SortStrings, list_elem_of_fmap in Hd. destruct Hd as (o & -> & [Hc _]%list_elem_of_filter).
    unfold sourceOf in Hs. destruct (negb _ && _); [by injection Hs as <-|]. match type of Hs with (if ?b then _ else _) = _ => destruct b; [discriminate Hs|] end.
    destruct (_ =? 0); [done|]. injection Hs as <-. intros m [?| ->%list_elem_of_singleton]%elem_of_app; [by apply Hl|]. cbn [sr_Dataset].
    unfold isCandidate in Hc. unfold inside. apply andb_true_iff in Hc as [_ Hc]. apply orb_true_iff in Hc as [->|[_ ->]%andb_true_iff]; [done|apply orb_true_r].
  - by intros m ?%not_elem_of_nil.
Qed.

(** What is expected of a source. *)
Definition expectedSource (request : Request) (mappedRoot : string) (r : Reference) (m : ReferenceSource) : Expected :=
  mkExpected (sourceSnapshot r m) (replicaName request mappedRoot (sr_Dataset m) +:+ "@" +:+ Name (rf_Metadata r)) (sr_GUID m) (Some (rf_Metadata r)).

Lemma resumeRow_Ok request view mappedRoot lineage tokenDataset r : ∀ members st st',
  foldM (resumeRow request view mappedRoot lineage tokenDataset r) st members = Ok st' →
  st'.1 = st.1 ++ (expectedSource request mappedRoot r <$> members) ∧
  (st'.2 = true → st.2 = true ∨ ∃ m, m ∈ members ∧ replicaName request mappedRoot (sr_Dataset m) = tokenDataset).
Proof.
  induction members as [|x members IH]; intros st st'; cbn [foldM]; [intros [= <-]; rewrite app_nil_r; auto|].
  intros H. apply bind_Ok in H as (st1 & Hx & H). apply IH in H as [H1 H2]. unfold resumeRow in Hx. apply bind_Ok in Hx as ([] & _ & [= <-]).
  cbn [fst snd] in *. split; [by rewrite H1, <- app_assoc|]. intros [Hor|(m & ? & ?)]%H2; [|right; exists m; split; [by right|done]].
  apply orb_true_iff in Hor as [?| ->%String.eqb_eq]; [by left|right]. exists x. split; [by left|done].
Qed.

Lemma resumeToken_Ok request view m root target tokenDataset token : resumeToken request view m = Ok (root, target, tokenDataset, token) →
  mapped request (mb_Dataset m) = Ok (root, target) ∧ map_to_list (ResumeTokens (vw_Destination view)) = [(tokenDataset, token)] ∧
  ResumeTokens (vw_Source view) = ∅ ∧ inside tokenDataset target = true ∧ token ≠ "".
Proof.
  unfold resumeToken. intros H. apply bind_Ok in H as ([root' target'] & Hm & H). destruct (_ && _); [done|].
  destruct (map_to_list (ResumeTokens (vw_Source view))) eqn:Es; [|done]. apply map_to_list_empty_iff in Es. destruct (map_to_list (ResumeTokens (vw_Destination view))) as [|[d k] [|]]; try done.
  destruct (inside d target') eqn:Hi; cbn [negb orb] in H; [|done]. destruct (String.eqb_spec k ""); [done|]. injection H as -> -> -> ->. done.
Qed.

Lemma resumeBinding_Ok request view installation root lineage b : resumeBinding request view installation root = Ok (lineage, b) →
  authorized (vw_Source view) (rq_Source request) installation lineage ∧
  TargetSuspended (vw_Source view) (rq_Source request) (canonicalTarget request) = Ok false ∧
  storedTargetBinding (vw_Source view) (rq_Source request) (bindingTemplate request root (requestTransport request) (canonicalTarget request)) = Ok (Some b) ∧
  anchoredOn b (vw_BindingIdentity view).
Proof.
  unfold resumeBinding. intros H. apply bind_Ok in H as (l & Hl & H). apply bind_Ok in H as ([] & Hs & H); [done|].
  destruct (storedTargetBinding _ _ _) as [[stored|]|] eqn:Est; try done. apply bind_Ok in H as ([] & _ & H). destruct (_ =? "")%string; [done|].
  destruct (bindingForTarget _ _ _ _ _) as [wanted|] eqn:Ew; [|done]. case_bool_decide as E; [|done]. injection H as -> ->. subst wanted.
  apply bindingForTarget_on in Ew as [? _]. split_and!; try done. by apply RootAuthority_Ok.
Qed.

(** The snapshot of a resumed plan is the one its proof is for. *)
Lemma streamSnapshot_name r stream sources : rf_Dataset r = stream →
  match filter (λ m, sr_Dataset m = stream) sources with [] => "" | m :: _ => sourceSnapshot r m end ≠ "" →
  match filter (λ m, sr_Dataset m = stream) sources with [] => "" | m :: _ => sourceSnapshot r m end = SnapshotName r.
Proof.
  intros Hd. destruct (filter _ sources) as [|m l] eqn:E; [done|]. intros _.
  assert (m ∈ filter (λ m, sr_Dataset m = stream) sources) as [Em _]%list_elem_of_filter by (rewrite E; by left).
  unfold sourceSnapshot, SnapshotName, snapshot. by rewrite Em, Hd.
Qed.


Module SampleResume.
(** The source with one held proof and the binding; the destination with an
    interrupted receive. *)
Definition source : State :=
  mkState (Objects SimPool.protected) (Properties SimPool.protected ++ [localRow "tank/data" (targetBindingProperty "local:backup") SampleTarget.text])
    ∅ ∅ ∅ (Holds SimPool.protected).
Definition destination : State := mkState [mkObject "backup/data" "filesystem" 20 0 4] [] ∅ {["backup/data" := "1-token"]} ∅ ∅.
Definition view : View :=
  mkView "" SampleTransfer.inventory None source destination true SampleTransfer.replica true SampleTransfer.replica SampleTarget.anchor.
Definition resumed : Plan * Reference := okOr (BuildResume SampleTarget.request view SamplePool.installation) (SampleTransfer.noPlan, SimPool.proof).
Lemma resumed_ok : is_ok (BuildResume SampleTarget.request view SamplePool.installation) = true.
Proof. by vm_compute. Qed.
Lemma resumed_Ok : BuildResume SampleTarget.request view SamplePool.installation = Ok (resumed.1, resumed.2).
Proof.
  rewrite <- surjective_pairing. unfold resumed. exact (is_ok_default (BuildResume SampleTarget.request view SamplePool.installation) _ resumed_ok).
Qed.
End SampleResume.

