(* ===== verification/Engine.v ===== *)
(** Running transfers: internal/transfer/permissions.go and local.go.

    The engine calls two executors: the source's, whose calls stand as they are,
    and the destination's, under [OnTarget]; for a local transfer the two are one
    executor. A mutex serialises the transfers of an engine, so [Apply] is one
    program. Phase and progress reports go to a display and are left out, and so
    is what a failed stream reports beside its error: a partial plan, an estimate
    and the datasets left resumable. A nil map and an empty one are the same
    here; [reflect.DeepEqual] tells them apart, so that Go also plans again when
    the last receive token of a descendant comes or goes between two reads. *)

From Stdlib Require Import Ascii.
From S2P Require Import Prelude GoStrings GoTime Grid Names Zfs Ownership Policy Stream Authority Reference Backend Service Proofs Binding Transfer Resume.

(** * Permissions *)

(** [union]. *)
Definition unionOf (sets : list (list string)) : list string := Compact (SortStrings (mjoin sets)).

Definition sendPermissions : list string := ["bookmark"; "destroy"; "hold"; "mount"; "release"; "send"; "snapshot"; "userprop"].
Definition receivePermissions : list string := ["create"; "destroy"; "mount"; "receive:append"; "userprop"].
Definition placeholderPermissions : list string := ["create"; "destroy"; "mount"; "rename"].
Definition reseedSourcePermissions : list string := ["destroy"; "release"; "userprop"].
Definition reseedCleanupPermissions : list string := ["destroy"; "mount"].
Definition filesystemReceivePermissions : list string := ["canmount"].
Definition abortPermissions : list string := ["destroy"; "mount"; "receive:append"].

Definition propertyPermissions (set : gmap string string) (exclude : list string) : list string :=
  let native := filter (λ property, Contains property ":" = false) in
  unionOf [native (map_to_list set).*1 ++ native exclude].
Definition SourcePermissions : list string := unionOf [sendPermissions; reseedSourcePermissions].
Definition DestinationPermissions (policies : list Effective) : list string :=
  fold_left (λ permissions p, unionOf [permissions; propertyPermissions (ef_SetProperties p) (ef_IgnoreProperties p)]) policies
    (unionOf [receivePermissions; filesystemReceivePermissions; placeholderPermissions; reseedCleanupPermissions; abortPermissions]).
Definition destinationPermissions (plan : Plan) : list string :=
  unionOf [receivePermissions; propertyPermissions (ro_Set (pl_Receive plan)) (ro_Exclude (pl_Receive plan))].

(** * Data *)

(** [Local]: its lifecycle service, and whether the destination is this host's
    executor and can rename datasets. *)
Record Engine := mkLocal { lo_lifecycle : Service; lo_installation : string; lo_sameHost : bool; lo_replicas : bool }.

(** The result of one stream that completed. *)
Record Result := mkResult {
  rs_Plan : Plan;
  rs_Estimate : Estimate;
  rs_Progress : Progress;
  rs_Verified : bool;
  rs_Resumed : bool;
  rs_ResumedSnapshot : string
}.

#[export] Instance SendOptions_eq_dec : EqDecision SendOptions.
Proof. solve_decision. Defined.
#[export] Instance ReceiveOptions_eq_dec : EqDecision ReceiveOptions.
Proof. solve_decision. Defined.
#[export] Instance Dataset_eq_dec : EqDecision Dataset.
Proof. solve_decision. Defined.
#[export] Instance View_eq_dec : EqDecision View.
Proof. solve_decision. Defined.
#[export] Instance Plan_eq_dec : EqDecision Plan.
Proof. solve_decision. Defined.

(** * Loading both ends *)

Definition ownTokens (state : State) (destination : string) (recursive : bool) : State :=
  if recursive || bool_decide (ResumeTokens state = ∅) then state
  else mkState (Objects state) (Properties state) (Received state)
         (match ResumeTokens state !! destination with Some token => {[destination := token]} | None => ∅ end) (Clones state) (Holds state).

Definition refuseHostLocal (l : Engine) (request : Request) : prog (result unit) :=
  if lo_sameHost l || (requestTransport request =? "local")%string || rq_HostLocal request then Ret (Ok tt) else
  inventory ⇐? call (OnTarget ListDatasets);
  let nearest := nearestExisting (rq_DestinationRoot request) inventory in
  if (nearest =? "")%string then Ret (Ok tt) else
  identity ⇐? call (OnTarget (InspectDatasetIdentity nearest));
  checkHostLocal request identity.

(** The ancestors of a name but [source], nearest first. *)
Fixpoint ancestorsFrom (fuel : nat) (source name : string) : list string :=
  match fuel with
  | O => []
  | S fuel =>
    match BeforeLast name "/" with
    | None => []
    | Some parent => (if (parent =? source)%string then [] else [parent]) ++ ancestorsFrom fuel source parent
    end
  end.

Definition withProperties (state : State) (rows : list Property) : State :=
  mkState (Objects state) (Properties state ++ rows) (Received state) (ResumeTokens state) (Clones state) (Holds state).

(** The source view: the root, the stream, and the stored values above them. *)
Definition loadSource (request : Request) (stream : string) : prog (result State) :=
  root ⇐? call (InspectState (rq_Source request) (Replicate (ef_Send (rq_Policy request))));
  state ⇐? (if (stream =? rq_Source request)%string then Ret (Ok root)
            else member ⇐? call (InspectState stream false); Ret (Ok (MergeStates [root; member])));
  let ancestors := ancestorsFrom (String.length stream) (rq_Source request) stream in
  if (length ancestors =? 0)%nat then Ret (Ok state)
  else rows ⇐? call (GetStoredProperties ancestors); Ret (Ok (withProperties state rows)).

Definition noAncestor (l : Engine) (request : Request) : error :=
  if lo_sameHost l then Errorf "destination has no existing ancestor" else ErrDestinationUnavailable (rq_DestinationRoot request).

(** [identify]. *)
Definition identify (l : Engine) (request : Request) (inventory : list Dataset) (mapped : string) : prog (result (bool * DatasetIdentity)) :=
  let nearest := nearestExisting mapped inventory in
  if (nearest =? "")%string then Ret (Err (noAncestor l request))
  else identity ⇐? call (OnTarget (InspectDatasetIdentity nearest)); Ret (Ok ((nearest =? mapped)%string, identity)).

Definition load (l : Engine) (request : Request) (stream : string) : prog (result View) :=
  _ ⇐! ValidateDataset (rq_Source request);
  '(mappedRoot, target) ⇐! mapped request stream;
  inventory ⇐? call ListDatasets;
  destinationInventory ⇐? (if lo_sameHost l then Ret (Ok inventory) else call (OnTarget ListDatasets));
  source ⇐? loadSource request stream;
  bound ⇐! storedTargetBinding source (rq_Source request)
    (bindingTemplate request mappedRoot (requestTransport request) (canonicalTarget request));
  bindingIdentity ⇐? match bound with
                     | Some b => call (OnTarget (InspectDatasetIdentity (tb_Anchor b)))
                     | None => Ret (Ok noIdentity)
                     end;
  '(destinationExists, destinationIdentity) ⇐? identify l request destinationInventory target;
  destination ⇐? (if (destinationExists : bool)
                  then state ⇐? call (OnTarget (InspectState target true));
                       Ret (Ok (ownTokens state target (Replicate (ef_Send (rq_Policy request)))))
                  else Ret (Ok emptyState));
  anchor ⇐? onTarget (nearestReal mappedRoot (rq_DestinationRoot request) destinationInventory);
  if (di_Name anchor =? "")%string then Ret (Err (noAncestor l request)) else
  _ ⇐? checkHostLocal request anchor;
  Ret (Ok (mkView stream inventory (Some destinationInventory) source destination destinationExists destinationIdentity
             (di_Name anchor =? mappedRoot)%string anchor bindingIdentity)).

(** * Preflight *)

Definition listed (inventory : list Dataset) (name : string) : bool := existsb (λ d, (ds_Name d =? name)%string) inventory.

(** An error of a call with the text of the step before it. *)
Definition wrapped {A} (prefix : string) (r : result A) : result A := match r with Ok a => Ok a | Err e => Err (Wrapf prefix e) end.
Definition callWrapped (prefix : string) (o : op (result unit)) : prog (result unit) := r ⇐ call o; Ret (wrapped prefix r).

Definition checkPermissions (request : Request) (view : View) (plan : Plan) : prog (result unit) :=
  let sent := if (pl_Source plan =? "")%string then rq_Source request else pl_Source plan in
  _ ⇐? callWrapped "source permission preflight" (CheckPermissions sent sendPermissions);
  let anchor := if listed (default [] (vw_DestinationInventory view)) (rq_DestinationRoot request) then rq_DestinationRoot request
                else di_Name (vw_DestinationIdentity view) in
  if (anchor =? "")%string then Ret (Err (Errorf "destination permission preflight: existing destination anchor is missing")) else
  callWrapped "destination permission preflight" (OnTarget (CheckPermissions anchor (destinationPermissions plan))).

(** [Build] or [BuildResume], as the destination's tokens ask. *)
Definition isResume (view : View) : bool := hasTokens (vw_Destination view).

(** [Preview]. *)
Definition Preview (l : Engine) (request : Request) : prog (result Plan) :=
  streams ⇐! Streams request;
  view ⇐? load l request (match streams with m :: _ => mb_Dataset m | [] => "" end);
  plan ⇐! (if isResume view then '(plan, _) ← BuildResume request view (lo_installation l); Ok plan else Build request view (lo_installation l));
  _ ⇐? checkPermissions request view plan;
  Ret (Ok plan).

(** * Stability *)

Definition ofDataset (p : Property) : bool := negb (ContainsAny (pr_Dataset p) "@#").
Definition controlProperty (p : Property) : bool :=
  ofDataset p && negb (HasPrefix (pr_Name p) ReferencePrefix || HasPrefix (pr_Name p) targetBindingPrefix
                       || ((pr_Name p =? LineageProperty)%string && negb (Contains (pr_Dataset p) "@"))).

Definition sourceStable (a b : State) : bool :=
  bool_decide (datasetObjects a = datasetObjects b)
  && bool_decide (filter (λ p, controlProperty p = true) (Properties a) = filter (λ p, controlProperty p = true) (Properties b))
  && bool_decide (ResumeTokens a = ResumeTokens b).
Definition destinationStable (a b : State) : bool :=
  bool_decide (datasetObjects a = datasetObjects b)
  && bool_decide (filter (λ p, ofDataset p = true) (Properties a) = filter (λ p, ofDataset p = true) (Properties b))
  && bool_decide (ResumeTokens a = ResumeTokens b).

(** * Receive parents *)

Definition datasetsByName (inventory : list Dataset) : gmap string Dataset :=
  fold_left (λ existing d, <[ds_Name d := d]> existing) inventory ∅.

(** The loop over the components below the root. *)
Definition missingParent (existing : gmap string Dataset) (st : string * list string) (component : string) : result (string * list string) :=
  let current := st.1 +:+ "/" +:+ component in
  match existing !! current with
  | Some d => if negb (ds_Type d =? Filesystem)%string then Err (Errorf ("receive ancestor is not a filesystem: " +:+ current)) else Ok (current, st.2)
  | None => Ok (current, st.2 ++ [current])
  end.
Definition missingReceiveParents (root target : string) (inventory : list Dataset) : result (list string) :=
  if negb (inside target root) then Err (Errorf "mapped destination is outside configured root")
  else if (target =? root)%string then Ok []
  else
    let existing := datasetsByName inventory in
    if negb (match existing !! root with Some d => (ds_Type d =? Filesystem)%string | None => false end)
    then Err (Errorf "receive root must be an existing filesystem")
    else match BeforeLast target "/" with
         | None => Ok []
         | Some parent =>
           if (String.length parent <? String.length root)%nat || (parent =? root)%string then Ok []
           else st ← foldM (missingParent existing) (root, []) (Split (TrimPrefix parent (root +:+ "/")) "/"); Ok st.2
         end.

(** The endpoint, the base and the expectations of two plans agree. *)
Definition sameHistory (fresh plan : Plan) : bool :=
  (pl_Snapshot fresh =? pl_Snapshot plan)%string && (pl_Base fresh =? pl_Base plan)%string && bool_decide (pl_Expected fresh = pl_Expected plan).

Definition createParent (_ : unit) (parent : string) : prog (result unit) :=
  callWrapped ("prepare receive parent " +:+ parent) (OnTarget (CreateReceiveParent parent)).

Definition prepareReceiveParents (l : Engine) (request : Request) (view : View) (plan : Plan) : prog (result (View * Plan)) :=
  if negb (pl_Mode plan =? "full")%string then Ret (Ok (view, plan)) else
  base ⇐! (if (ef_Discard (rq_Policy request) =? DiscardOff)%string then
             match BeforeLast (rq_DestinationRoot request) "/" with
             | None => Err (Errorf "cannot create a replica in place of a pool root")
             | Some parent => Ok parent
             end
           else Ok (rq_DestinationRoot request));
  parents ⇐! missingReceiveParents base (pl_Destination plan) (default [] (vw_DestinationInventory view));
  _ ⇐? forE createParent tt parents;
  if (length parents =? 0)%nat then Ret (Ok (view, plan)) else
  prepared ⇐? load l request (vw_Stream view);
  if negb (sourceStable (vw_Source view) (vw_Source prepared))
  then Ret (Err (ErrPreparationChanged "source state changed while preparing receive ancestors" false)) else
  fresh ⇐! Build request prepared (lo_installation l);
  if negb (sameHistory fresh plan)
  then Ret (Err (ErrPreparationChanged "transfer history changed while preparing receive ancestors" true))
  else Ret (Ok (prepared, fresh)).

(** * Placeholders *)

Definition placeholderAside (dataset : string) : string := dataset +:+ ".boomerangz-placeholder".

Definition noReplicas (destination : string) : error := Errorf ("destination cannot replace placeholder " +:+ destination +:+ " with its replica").

(** The mapped destination of a placeholder has a parent: a placeholder is a
    dataset that was created, and a pool is not. *)
Definition setAsidePlaceholder (l : Engine) (request : Request) (stream : string) : prog (result unit) :=
  '(_, destination) ⇐! mapped request stream;
  inventory ⇐? call (OnTarget ListDatasets);
  let aside := placeholderAside destination in
  if negb (listed inventory destination) then Ret (Ok tt) else
  '(_, placeholder) ⇐? onTarget (placeholderAt destination);
  if negb placeholder then Ret (Ok tt) else
  state ⇐? call (OnTarget (InspectState destination true));
  if listed inventory aside then Ret (Err (Errorf ("placeholder " +:+ destination +:+ " cannot be set aside: " +:+ aside +:+ " already exists")))
  else if hasTokens state then Ret (Err (ErrPlaceholderBusy destination))
  else if negb (lo_replicas l) then Ret (Err (noReplicas destination))
  else
    _ ⇐? callWrapped "placeholder replacement permission preflight"
           (OnTarget (CheckPermissions (default "" (BeforeLast destination "/")) placeholderPermissions));
    call (OnTarget (RenameDataset destination aside)).

(** The loop over the inventory: a child of the set-aside placeholder moves. *)
Definition adoptChild (inventory : list Dataset) (destination aside : string) (_ : unit) (d : Dataset) : prog (result unit) :=
  let '(child, found) := CutPrefix (ds_Name d) (aside +:+ "/") in
  if negb found || Contains child "/" then Ret (Ok tt) else
  let target := destination +:+ "/" +:+ child in
  if listed inventory target
  then Ret (Err (Errorf ("cannot move " +:+ ds_Name d +:+ " beneath the replica: " +:+ target +:+ " already exists")))
  else callWrapped ("move " +:+ ds_Name d +:+ " beneath its replica") (OnTarget (RenameDataset (ds_Name d) target)).

Definition adoptPlaceholderChildren (l : Engine) (request : Request) (stream : string) : prog (result unit) :=
  '(_, destination) ⇐! mapped request stream;
  let aside := placeholderAside destination in
  inventory ⇐? call (OnTarget ListDatasets);
  if negb (listed inventory aside) then Ret (Ok tt) else
  state ⇐? call (OnTarget (InspectState aside false));
  if negb (isPlaceholder state aside)
  then Ret (Err (Errorf (aside +:+ " is not a placeholder boomerangz set aside; refusing to adopt its children")))
  else if negb (lo_replicas l) then Ret (Err (noReplicas destination))
  else
    _ ⇐? forE (adoptChild inventory destination aside) tt inventory;
    call (OnTarget (DestroyDataset aside false)).

(** * Verification *)

(** The plan with other expectations, and with another binding. *)
Definition expecting (plan : Plan) (expected : list Expected) : Plan :=
  mkPlan (pl_Source plan) (pl_Destination plan) (pl_Snapshot plan) (pl_Base plan) (pl_Lineage plan) (pl_Mode plan) (pl_Send plan) (pl_Receive plan)
    expected (pl_Endpoints plan) (pl_Warnings plan) (pl_TargetBinding plan) (pl_BindingNew plan).
Definition boundTo (plan : Plan) (binding : TargetBinding) (new : bool) : Plan :=
  mkPlan (pl_Source plan) (pl_Destination plan) (pl_Snapshot plan) (pl_Base plan) (pl_Lineage plan) (pl_Mode plan) (pl_Send plan) (pl_Receive plan)
    (pl_Expected plan) (pl_Endpoints plan) (pl_Warnings plan) binding new.

(** [absent]: an expectation neither received nor an endpoint. *)
Definition absent (plan : Plan) (destination : State) (e : Expected) : bool :=
  bool_decide (objectMap destination !! ex_Destination e = None)
  && negb (existsb (λ endpoint, (ex_Source endpoint =? ex_Source e)%string) (pl_Endpoints plan)).

Definition settleIntermediates (plan : Plan) (destination : State) : prog (result Plan) :=
  if negb (so_Intermediates (pl_Send plan)) then Ret (Ok plan)
  else if negb (existsb (absent plan destination) (pl_Expected plan)) then Ret (Ok plan)
  else
    source ⇐? call (InspectState (so_Source (pl_Send plan)) (so_Recursive (pl_Send plan)));
    Ret (Ok (expecting plan (filter (λ e, ¬ (absent plan destination e = true ∧ objectMap source !! ex_Source e = None)) (pl_Expected plan)))).

(** The loop of [verifyGUIDs]. *)
Definition received (objects : gmap string Object) (_ : unit) (e : Expected) : result unit :=
  match objects !! ex_Destination e with
  | Some o => if negb (ob_Type o =? "snapshot")%string || negb (ob_GUID o =? ex_GUID e)
              then Err (Errorf ("received GUID verification failed for " +:+ ex_Destination e)) else Ok tt
  | None => Err (Errorf ("received GUID verification failed for " +:+ ex_Destination e))
  end.
Definition verifyGUIDs (plan : Plan) (state : State) : result unit :=
  if hasTokens state then Err (Errorf "receive remains incomplete; recovery references retained")
  else foldM (received (objectMap state)) tt (pl_Expected plan).

(** Received private values, the first loop of [reconcile]. *)
Definition dropReceived (wrote : bool) (p : Property) : prog (result bool) :=
  if (pr_Source p =? SourceReceived)%string && excludedKey (pr_Name p)
  then _ ⇐? call (OnTarget (InheritProperty (pr_Dataset p) (pr_Name p))); Ret (Ok true)
  else Ret (Ok wrote).

(** The lineage of the received datasets, the second. *)
Definition claimLineage (plan : Plan) (state : State) (wrote : bool) (endpoint : Expected) : prog (result bool) :=
  let dataset := datasetOf (ex_Destination endpoint) in
  lineage ⇐! DatasetLineage state dataset;
  if negb (lineage =? "")%string && negb (lineage =? pl_Lineage plan)%string
  then Ret (Err (Errorf "received dataset lineage conflicts with source"))
  else if (lineage =? "")%string
  then _ ⇐? call (OnTarget (SetProperties dataset {[LineageProperty := pl_Lineage plan]})); Ret (Ok true)
  else Ret (Ok wrote).

(** The metadata of the received snapshots, the third; the names it already
    stores locally are collected in the inner loop. *)
Definition localMetadata (e : Expected) (properties : gmap string string) (names : gset string) (p : Property) : result (gset string) :=
  if negb (pr_Dataset p =? ex_Destination e)%string then Ok names
  else match properties !! pr_Name p with
       | Some wanted =>
         if negb (wanted =? pr_Value p)%string then Err (Errorf ("received snapshot metadata conflicts with source: " +:+ ex_Destination e))
         else Ok (if (pr_Source p =? SourceLocal)%string then {[pr_Name p]} ∪ names else names)
       | None => Ok names
       end.
Definition claimMetadata (state : State) (wrote : bool) (e : Expected) : prog (result bool) :=
  match ex_Metadata e with
  | None => Ret (Ok wrote)
  | Some metadata =>
    let properties := metadataProperties metadata in
    names ⇐! foldM (localMetadata e properties) ∅ (Properties state);
    if (size names =? size properties)%nat then Ret (Ok wrote)
    else _ ⇐? call (OnTarget (SetProperties (ex_Destination e) properties)); Ret (Ok true)
  end.

Definition reconcile (plan : Plan) (state : State) : prog (result bool) :=
  wrote ⇐? forE dropReceived false (Properties state);
  wrote ⇐? forE (claimLineage plan state) wrote (pl_Endpoints plan);
  forE (claimMetadata state) wrote (pl_Expected plan).

(** * One attempt of a stream *)

(** The base snapshots of an incremental stream, held beside its endpoints. *)
Definition baseSnapshots (before : State) (plan : Plan) : list string :=
  pl_Base plan ::
    if so_Recursive (pl_Send plan) then
      let component := (Cut (pl_Base plan) "@").1.2 in
      filter (λ candidate, candidate ≠ pl_Base plan ∧ (ob_Type <$> objectMap before !! candidate) = Some "snapshot")
        ((λ e, datasetOf (ex_Source e) +:+ "@" +:+ component) <$> pl_Endpoints plan)
    else [].

Definition storeBinding (source : string) (b : TargetBinding) : prog (result unit) :=
  value ⇐! encodeBinding b;
  call (SetProperties source {[targetBindingProperty (tb_CanonicalTarget b) := value]}).

Definition holdBase (l : Engine) (request : Request) (stream canonical : string) (before : View) (plan : Plan) : prog (result unit) :=
  if Contains (pl_Base plan) "@"
  then _ ⇐? ProtectSet (lo_lifecycle l) (rq_Source request) stream (baseSnapshots (vw_Source before) plan) canonical; Ret (Ok tt)
  else Ret (Ok tt).

(** The preparation of a new stream: parents, binding and holds, then both ends
    read again and planned again. *)
Definition prepareNew (l : Engine) (request : Request) (stream : string) (before : View) (plan : Plan) : prog (result (View * Plan * Reference)) :=
  '(before, plan) ⇐? prepareReceiveParents l request before plan;
  let canonical := tb_CanonicalTarget (pl_TargetBinding plan) in
  _ ⇐? (if pl_BindingNew plan then storeBinding (rq_Source request) (pl_TargetBinding plan) else Ret (Ok tt));
  ref ⇐? ProtectSet (lo_lifecycle l) (rq_Source request) stream (ex_Source <$> pl_Endpoints plan) canonical;
  _ ⇐? holdBase l request stream canonical before plan;
  prepared ⇐? load l request stream;
  if negb (sourceStable (vw_Source before) (vw_Source prepared)) || negb (destinationStable (vw_Destination before) (vw_Destination prepared))
     || negb (eqb (vw_DestinationExists before) (vw_DestinationExists prepared))
  then Ret (Err (ErrPreparationChanged "transfer state changed during preparation; recovery holds retained" false)) else
  fresh ⇐! Build request prepared (lo_installation l);
  if negb (sameHistory fresh plan) || negb (bool_decide (pl_TargetBinding fresh = pl_TargetBinding plan))
  then Ret (Err (ErrPreparationChanged "transfer history changed during preparation; recovery holds retained" true))
  else Ret (Ok (prepared, fresh, ref)).

(** The preparation of a resumed one: both ends read again and found the same. *)
Definition prepareResume (l : Engine) (request : Request) (stream : string) (before : View) (plan : Plan) (ref : Reference)
  : prog (result (View * Plan * Reference)) :=
  prepared ⇐? load l request stream;
  if negb (bool_decide (before = prepared)) then Ret (Err (Errorf "resumable transfer state changed during preflight")) else
  '(fresh, freshRef) ⇐! BuildResume request prepared (lo_installation l);
  if negb (bool_decide (freshRef = ref)) || negb (bool_decide (fresh = plan))
  then Ret (Err (Errorf "resumable transfer proof changed during preflight"))
  else Ret (Ok (prepared, plan, ref)).

Definition abortHint (request : Request) : string :=
  "to discard it and send again, run boomerangz dataset abort-receive " +:+ rq_Source request +:+ " "
  +:+ (if negb (requestTransport request =? "local")%string then rq_RemoteName request else rq_DestinationRoot request).

Definition prepare (l : Engine) (request : Request) (stream : string) (before : View) : prog (result (View * Plan * Reference)) :=
  if isResume before then
    '(plan, ref) ⇐! match BuildResume request before (lo_installation l) with
                    | Ok r => Ok r
                    | Err e => Err (Aroundf "interrupted receive cannot be resumed" e (abortHint request))
                    end;
    _ ⇐? checkPermissions request before plan;
    prepareResume l request stream before plan ref
  else
    plan ⇐! Build request before (lo_installation l);
    _ ⇐? checkPermissions request before plan;
    prepareNew l request stream before plan.

Definition upToDate (plan : Plan) : bool := (pl_Mode plan =? "up-to-date")%string.
Definition noEstimate : Estimate := mkEstimate false 0 "".
Definition noProgress : Progress := mkProgress 0 noEstimate false.

(** The stream; a failed one is probed for what it left resumable. *)
Definition send (plan : Plan) : prog (result (Estimate * Progress)) :=
  if upToDate plan then Ret (Ok (noEstimate, noProgress)) else
  estimate ⇐? call (EstimateStream (pl_Send plan));
  progress ⇐ call (RunStream (pl_Send plan) (pl_Receive plan) estimate);
  match progress with
  | Ok progress => Ret (Ok (estimate, progress))
  | Err e =>
    _ ⇐ call (OnTarget (InspectState (pl_Destination plan) true));
    Ret (Err (Wrapf "transfer failed; source recovery references retained" e))
  end.

(** What both ends hold after the stream. *)
Definition readBack (request : Request) (plan : Plan) (prepared : View) : prog (result (State * State)) :=
  '(destination, sourceAfter) ⇐? (if negb (upToDate plan) || negb (vw_DestinationExists prepared) then
      destination ⇐? call (OnTarget (InspectState (pl_Destination plan) true));
      sourceAfter ⇐? call (InspectState (rq_Source request) false);
      Ret (Ok (destination, sourceAfter))
    else Ret (Ok (vw_Destination prepared, vw_Source prepared)));
  Ret (Ok (ownTokens destination (pl_Destination plan) (so_Recursive (pl_Send plan)), sourceAfter)).

(** The source's authority, binding and proof are the ones sent under. *)
Definition checkSource (l : Engine) (request : Request) (plan : Plan) (ref : Reference) (sourceAfter : State) : result unit :=
  _ ← RootAuthority sourceAfter (rq_Source request) (lo_installation l);
  if negb (bool_decide (storedTargetBinding sourceAfter (rq_Source request) (pl_TargetBinding plan) = Ok (Some (pl_TargetBinding plan))))
  then Err (Errorf "source target binding changed during transfer")
  else match References sourceAfter (rq_Source request) (pl_Lineage plan) with
       | Ok refs => if bool_decide (ref ∈ refs) then Ok tt else Err (Errorf "source recovery proof changed during transfer")
       | Err _ => Err (Errorf "source recovery proof changed during transfer")
       end.

(** The binding moves from the bootstrap anchor to the root's replica. *)
Definition promoteBinding (request : Request) (plan : Plan) : prog (result Plan) :=
  let mappedRoot := tb_MappedDataset (pl_TargetBinding plan) in
  '(_, rootPlaceholder) ⇐? onTarget (placeholderAt mappedRoot);
  if (tb_Anchor (pl_TargetBinding plan) =? mappedRoot)%string || rootPlaceholder then Ret (Ok plan) else
  resolved ⇐? call (OnTarget (InspectDatasetIdentity mappedRoot));
  promoted ⇐! match bindingForTarget request mappedRoot resolved (requestTransport request) (canonicalTarget request) with
              | Ok promoted => if tb_PoolGUID promoted =? tb_PoolGUID (pl_TargetBinding plan) then Ok promoted
                               else Err (Errorf "received destination identity could not be anchored")
              | Err _ => Err (Errorf "received destination identity could not be anchored")
              end;
  _ ⇐? storeBinding (rq_Source request) promoted;
  Ret (Ok (boundTo plan promoted false)).

(** What reconciliation wrote is read back. *)
Definition readReconciled (plan : Plan) (destination : State) (reconciled : bool) : prog (result State) :=
  if negb reconciled then Ret (Ok destination) else
  verified ⇐? call (OnTarget (InspectState (pl_Destination plan) true));
  let verified := ownTokens verified (pl_Destination plan) (so_Recursive (pl_Send plan)) in
  _ ⇐! verifyGUIDs plan verified;
  Ret (Ok verified).

(** The loop over the expectations with metadata. *)
Definition ownedReplica (plan : Plan) (verified : State) (_ : unit) (e : Expected) : result unit :=
  match ex_Metadata e with
  | None => Ok tt
  | Some metadata =>
    if bool_decide (ownership verified (default noObject (objectMap verified !! ex_Destination e)) (pl_Lineage plan) = Ok metadata) then Ok tt
    else Err (Errorf ("received ownership metadata did not verify: " +:+ ex_Destination e))
  end.

Definition verifiedGUIDs (plan : Plan) : gmap string Z :=
  fold_left (λ guids e, <[ex_Source e := ex_GUID e]> guids) (pl_Endpoints plan) ∅.

(** The older proofs of a stream and target. *)
Definition olderProof (stream canonical : string) (ref prior : Reference) : bool :=
  (rf_TargetID prior =? TargetID canonical)%string && (rf_Dataset prior =? stream)%string && (Created (rf_Metadata prior) <? Created (rf_Metadata ref)).
Definition retireProof (l : Engine) (request : Request) (stream canonical : string) (ref : Reference) (_ : unit) (prior : Reference) : prog (result unit) :=
  if olderProof stream canonical ref prior then ReleaseReference (lo_lifecycle l) (rq_Source request) prior else Ret (Ok tt).

(** The checkpoint of what verified, and the end of the proofs it replaces. *)
Definition advance (l : Engine) (request : Request) (stream canonical : string) (p : Effective) (plan : Plan) (ref : Reference) (sourceAfter : State)
  : prog (result unit) :=
  _ ⇐? CheckpointSet (lo_lifecycle l) (rq_Source request) ref (verifiedGUIDs plan);
  _ ⇐? (if canResumeFromBookmark p then ReleaseCompletedHold (lo_lifecycle l) (rq_Source request) ref else Ret (Ok tt));
  old ⇐! References sourceAfter (rq_Source request) (pl_Lineage plan);
  forE (retireProof l request stream canonical ref) tt old.

Definition applyOnce (l : Engine) (request : Request) (stream : string) : prog (result Result) :=
  member ⇐! Binding.stream request stream;
  let p := if (stream =? rq_Source request)%string then rq_Policy request else mb_Policy member in
  _ ⇐? setAsidePlaceholder l request stream;
  before ⇐? load l request stream;
  '(prepared, plan, ref) ⇐? prepare l request stream before;
  let canonical := tb_CanonicalTarget (pl_TargetBinding plan) in
  '(estimate, progress) ⇐? send plan;
  '(destination, sourceAfter) ⇐? readBack request plan prepared;
  plan ⇐? settleIntermediates plan destination;
  _ ⇐! verifyGUIDs plan destination;
  _ ⇐! checkSource l request plan ref sourceAfter;
  plan ⇐? promoteBinding request plan;
  reconciled ⇐? reconcile plan destination;
  verified ⇐? readReconciled plan destination reconciled;
  _ ⇐! foldM (ownedReplica plan verified) tt (pl_Expected plan);
  _ ⇐? advance l request stream canonical p plan ref sourceAfter;
  _ ⇐? adoptPlaceholderChildren l request stream;
  Ret (Ok (mkResult plan estimate progress true false "")).

(** * Streams and retries *)

Definition preparationAttempts : nat := 3.

(** [errors.As] for a [PreparationChangedError], and its [History]. *)
Definition historyChanged (e : error) : bool :=
  match List.find (λ e, match e with ErrPreparationChanged _ _ => true | _ => false end) (errorChain e) with
  | Some (ErrPreparationChanged _ history) => history
  | _ => false
  end.

(** The loop of [applySettled], with the attempts left after this one. *)
Fixpoint applyAttempts (retries : nat) (l : Engine) (request : Request) (stream : string) : prog (result Result) :=
  result ⇐ applyOnce l request stream;
  match retries, result with
  | S retries, Err e =>
    if negb (historyChanged e) then Ret result
    else done ⇐ call ContextDone; if (done : bool) then Ret result else applyAttempts retries l request stream
  | _, _ => Ret result
  end.
Definition applySettled (l : Engine) (request : Request) (stream : string) : prog (result Result) :=
  applyAttempts (preparationAttempts - 1) l request stream.

Definition applyStream (l : Engine) (request : Request) (stream : string) : prog (result Result) :=
  result ⇐? applySettled l request stream;
  if negb (pl_Mode (rs_Plan result) =? "resume")%string then Ret (Ok result) else
  again ⇐? applySettled l request stream;
  Ret (Ok (mkResult (rs_Plan again) (rs_Estimate again) (rs_Progress again) (rs_Verified again) true (pl_Snapshot (rs_Plan result)))).

(** [StreamsError] or the error of a stream or of the request. *)
Inductive applyError :=
| Plain (e : error)
| StreamsFailed (failed : list (string * error)).

(** The results of [Apply]: the stream the top-level fields describe, whether
    every stream verified, each stream attempted, and the error. *)
Record Applied := mkApplied {
  ap_Top : option Result;
  ap_Verified : bool;
  ap_Streams : list (string * result Result);
  ap_Err : option applyError
}.

Definition isContextError (e : error) : bool :=
  existsb (λ e, match e with ErrCanceled | ErrDeadlineExceeded => true | _ => false end) (errorChain e).
Definition isBusy (e : error) : bool := existsb (λ e, match e with ErrPlaceholderBusy _ => true | _ => false end) (errorChain e).

(** The state of the loop over the streams; [lp_Stop] is an early return. *)
Record applyLoop := mkLoop {
  lp_Top : option Result;
  lp_Verified : bool;
  lp_Streams : list (string * result Result);
  lp_Failed : list (string * error);
  lp_Blocked : list string;
  lp_Stop : option error
}.
Definition topSource (top : option Result) : string := match top with Some r => pl_Source (rs_Plan r) | None => "" end.
Definition applyNext (l : Engine) (request : Request) (s : applyLoop) (m : Member) : prog applyLoop :=
  let stream := mb_Dataset m in
  if bool_decide (is_Some (lp_Stop s)) then Ret s
  else if existsb (λ failure, inside stream failure) (lp_Blocked s)
  then Ret (mkLoop (lp_Top s) false (lp_Streams s) (lp_Failed s) (lp_Blocked s) None)
  else
    result ⇐ applyStream l request stream;
    let streams := lp_Streams s ++ [(stream, result)] in
    match result with
    | Ok r =>
      let top := if (stream =? rq_Source request)%string || negb (topSource (lp_Top s) =? rq_Source request)%string then Some r else lp_Top s in
      Ret (mkLoop top (lp_Verified s && rs_Verified r) streams (lp_Failed s) (lp_Blocked s) None)
    | Err e =>
      if isContextError e then Ret (mkLoop (lp_Top s) false streams (lp_Failed s) (lp_Blocked s) (Some e))
      else Ret (mkLoop (lp_Top s) false streams (lp_Failed s ++ [(stream, e)]) (if isBusy e then lp_Blocked s else lp_Blocked s ++ [stream]) None)
    end.

Definition refused (e : error) : Applied := mkApplied None false [] (Some (Plain e)).
Definition Apply (l : Engine) (request : Request) : prog Applied :=
  match Streams request with
  | Err e => Ret (refused e)
  | Ok streams =>
    hostLocal ⇐ refuseHostLocal l request;
    match hostLocal with
    | Err e => Ret (refused e)
    | Ok _ =>
      if (length (rq_Members request) =? 0)%nat then
        result ⇐ applyStream l request (rq_Source request);
        Ret (mkApplied (match result with Ok r => Some r | Err _ => None end) (is_ok result) [(rq_Source request, result)]
               (match result with Ok _ => None | Err e => Some (Plain e) end))
      else
        s ⇐ forP (applyNext l request) (mkLoop None true [] [] [] None) streams;
        Ret (mkApplied (lp_Top s) (lp_Verified s) (lp_Streams s)
               (match lp_Stop s, lp_Failed s with
                | Some e, _ => Some (Plain e)
                | None, [] => None
                | None, failed => Some (StreamsFailed failed)
                end))
    end
  end.
