(* ===== verification/EngineSafe.v ===== *)
(** What running a transfer guarantees: the theorems on Engine.v. *)

From Stdlib Require Import Ascii.
From S2P Require Import Prelude GoStrings GoTime Grid Names Zfs Ownership Prune Policy Stream Authority Reference Backend Service Proofs Binding Transfer TransferSafe Resume Engine.

(** * The endpoints of a plan *)

Lemma HasSuffix_app s p : HasSuffix (s +:+ p) p = true.
Proof.
  induction s as [|c s IH]; [rewrite app_nil_str; destruct p; cbn; by rewrite ?Ascii.eqb_refl, ?String.eqb_refl|].
  rewrite app_cons_str. cbn [HasSuffix]. by rewrite IH, orb_true_r.
Qed.

Lemma eligible_name state m lineage o : eligible state m lineage o →
  ob_Name o = mb_Dataset m +:+ "@" +:+ TrimPrefix (ob_Name o) (mb_Dataset m +:+ "@").
Proof.
  intros (_ & _ & Hd & _ & Ho). unfold is_ok in Ho. destruct (ownership state o lineage) as [metadata|] eqn:E; [|done].
  apply Ownership_Ok, owned_name in E as (d & En & Hv). cbn [sn_Name] in En. pose proof (valid_no_marks _ Hv) as [Ha Hh].
  assert (mb_Dataset m = d) as -> by (rewrite <- Hd, En, datasetOf_app by done; apply app_str_nil).
  by rewrite En, <- (app_assoc_str d), TrimPrefix_app, app_assoc_str.
Qed.

Lemma endpointRow_txg state m lineage : ∀ l s endpoint, l ⊆ Objects state →
  foldM (endpointRow state m lineage) s l = Ok endpoint → ∀ o, o ∈ l → eligible state m lineage o → ob_CreateTXG o ≠ 0.
Proof.
  induction l as [|x l IH]; intros s endpoint Hsub H o Ho; [by apply not_elem_of_nil in Ho|]. cbn [foldM] in H. apply bind_Ok in H as (s' & Hx & H).
  apply elem_of_cons in Ho as [->|Ho]; [|eapply IH; [|done..]; set_solver]. intros (_ & Ht & Hd & Hs & Hok).
  unfold endpointRow in Hx. rewrite Ht, Hd, !String.eqb_refl, Hok in Hx. cbn [negb orb] in Hx.
  assert (negb (mb_Snapshot m =? "")%string && negb (ob_Name x =? mb_Snapshot m)%string = false) as E.
  { destruct Hs as [->| ->]; rewrite String.eqb_refl; [done|apply andb_false_r]. }
  rewrite E in Hx. by destruct (Z.eqb_spec (ob_CreateTXG x) 0).
Qed.

Section Endpoints.
Context {request : Request} {view : View} {installation : string} (st : stages request view installation).

Lemma endpoint_eligible : eligible (vw_Source view) (st_stream st) (st_lineage st) (st_endpoint st) ∧ ob_CreateTXG (st_endpoint st) ≠ 0 ∧
  ob_Name (st_endpoint st) = mb_Dataset (st_stream st) +:+ "@" +:+ st_component st.
Proof.
  pose proof (st_ended _ _ _ st) as H. destruct (selectEndpoint_Ok _ _ _ _ H) as [He _]. split_and!; [done| |by eapply eligible_name].
  unfold selectEndpoint in H. apply bind_Ok in H as (e & Hf & H). destruct (_ =? "")%string; [done|]. injection H as E. rewrite E in Hf.
  eapply endpointRow_txg; [|exact Hf|apply He|done]. done.
Qed.

(** The endpoints are the stream's instant on each dataset it carries. *)
Lemma endpoints_sources s : s ∈ ex_Source <$> pl_Endpoints (planOf st) ↔
  ∃ o, o ∈ datasetObjects (vw_Source view) ∧ (Replicate (ef_Send (st_own st)) = true ∨ ob_Name o = mb_Dataset (st_stream st)) ∧
    s = ob_Name o +:+ "@" +:+ st_component st.
Proof.
  destruct (endpointOf_Ok _ _ _ _ _ _ _ _ _ _ (st_mapped _ _ _ st)) as (H1 & H2 & _).
  destruct (scopePolicy_Ok _ _ _ _ _ _ (st_scoped _ _ _ st)) as (<- & _). rewrite list_elem_of_fmap. unfold datasetObjects. setoid_rewrite list_elem_of_filter.
  split.
  - intros (e & -> & He%plan_endpoints). destruct (H1 e He) as [?%not_elem_of_nil|(o & Ho & [Hd Hs] & snap & metadata & Hsn & _ & ->)]; [done|].
    apply objectMap_Some in Hsn as [_ Hn]. exists o. done.
  - intros (o & [Hd Ho] & Hs & ->). destruct (H2 o Ho (conj Hd Hs)) as (e & He & snap & metadata & Hsn & _ & ->). apply objectMap_Some in Hsn as [_ Hn].
    eexists. split; [|apply plan_endpoints, He]. done.
Qed.

(** The endpoint of the stream is one of them, and is expected. *)
Lemma endpoint_held : pl_Snapshot (planOf st) ∈ ex_Source <$> pl_Endpoints (planOf st).
Proof.
  destruct endpoint_eligible as (_ & _ & Hname). destruct (plan_fields st) as (_ & _ & -> & _).
  destruct (checkScopes_Ok _ _ _ _ _ (st_scopes _ _ _ st)) as (_ & _ & _ & _ & _ & _ & Hr). unfold realDataset in Hr.
  destruct (objectMap (vw_Source view) !! mb_Dataset (st_stream st)) as [o|] eqn:Eo; [|done]. apply andb_true_iff in Hr as [_ Hr].
  apply objectMap_Some in Eo as [Ho En]. apply endpoints_sources. exists o. unfold datasetObjects. rewrite list_elem_of_filter, En. auto.
Qed.
Lemma endpoint_expected : ∃ e, e ∈ pl_Expected (planOf st) ∧ ex_Source e = pl_Snapshot (planOf st).
Proof.
  destruct endpoint_eligible as (He & Htxg & Hname). pose proof endpoint_held as Hheld. destruct (plan_fields st) as (_ & _ & Esnap & _). rewrite Esnap in *.
  setoid_rewrite (plan_expected st). destruct (decide (st_mode st = "up-to-date")) as [Hm|Hm].
  - apply list_elem_of_fmap in Hheld as (e & Hs & Hin%plan_endpoints). by exists e.
  - exists (expectedOf request (vw_Source view) (st_mappedRoot st) (st_lineage st) (st_endpoint st)). split; [|done]. exists (st_endpoint st).
    destruct He as (Hin & Ht & Hd & _). split_and!; [done| |done]. unfold carried. split_and!; [done|done|lia|done|].
    assert (st_mode st = "full" ∨ baseTXG (st_base st) < ob_CreateTXG (st_endpoint st)) as Hb.
    { pose proof (st_moded _ _ _ st) as Hmode. unfold selectMode in Hmode. destruct (st_already st); [injection Hmode; congruence|].
      destruct (negb _); [apply bind_Ok in Hmode as ([] & _ & [=]); by left|]. apply bind_Ok in Hmode as (base & Hbase & [= _ Hb]). rewrite <- Hb.
      apply selectBase_Ok in Hbase as (_ & _ & _ & Hlt & _). by right. }
    destruct (st_mode st =? "incremental-all")%string eqn:Ei.
    + apply String.eqb_eq in Ei. destruct Hb as [Hf|Hb]; [congruence|]. by destruct (Replicate _).
    + destruct (Replicate _); [|done]. destruct Hb as [?|Hb]; [by left|right]. split; [done|]. rewrite Hname. apply HasSuffix_app.
Qed.
End Endpoints.

(** Planned again over the same datasets, the endpoints are on the same snapshots. *)
Lemma endpoints_stable request v1 v2 installation p1 p2 :
  Build request v1 installation = Ok p1 → Build request v2 installation = Ok p2 → vw_Stream v1 = vw_Stream v2 →
  datasetObjects (vw_Source v1) = datasetObjects (vw_Source v2) → pl_Snapshot p2 = pl_Snapshot p1 →
  ∀ e, e ∈ pl_Endpoints p2 → ex_Source e ∈ ex_Source <$> pl_Endpoints p1.
Proof.
  intros [s1 ->]%Build_stages [s2 ->]%Build_stages Hv Ho Hsnap e He. assert (ex_Source e ∈ ex_Source <$> pl_Endpoints (planOf s2)) as Hs by by apply list_elem_of_fmap_2.
  assert (st_stream s1 = st_stream s2 ∧ st_own s1 = st_own s2) as [Es Eo].
  { pose proof (st_selected _ _ _ s1) as H1. pose proof (st_selected _ _ _ s2) as H2. unfold selectStream in H1, H2. rewrite Hv in H1. rewrite H1 in H2.
    by injection H2. }
  assert (st_component s1 = st_component s2) as Ec.
  { destruct (plan_fields s1) as (_ & _ & E1 & _). destruct (plan_fields s2) as (_ & _ & E2 & _). unfold st_component. by rewrite <- E1, <- E2, Hsnap, Es. }
  apply endpoints_sources in Hs as (o & Hin & Hor & Hs). apply endpoints_sources. exists o. by rewrite Ho, Eo, Es, Ec.
Qed.

Lemma resumeRow_sources request view mappedRoot lineage tokenDataset r : ∀ members st st',
  foldM (resumeRow request view mappedRoot lineage tokenDataset r) st members = Ok st' →
  ex_Source <$> st'.1 = (ex_Source <$> st.1) ++ (sourceSnapshot r <$> members).
Proof.
  induction members as [|x members IH]; intros st st'; cbn [foldM]; [intros [= <-]; by rewrite app_nil_r|].
  intros H. apply bind_Ok in H as (st1 & Hx & H). apply IH in H as ->. unfold resumeRow in Hx. apply bind_Ok in Hx as ([] & _ & [= <-]).
  cbn [fst]. by rewrite fmap_app, <- app_assoc.
Qed.

Lemma BuildResume_plan request view installation plan r : BuildResume request view installation = Ok (plan, r) →
  (∃ root, mapped request (if (vw_Stream view =? "")%string then rq_Source request else vw_Stream view) = Ok (root, pl_Destination plan)) ∧
  (∃ e, e ∈ pl_Expected plan ∧ ex_Source e = pl_Snapshot plan) ∧ pl_Expected plan = pl_Endpoints plan ∧ pl_Mode plan = "resume" ∧
  pl_Source plan = (if (vw_Stream view =? "")%string then rq_Source request else vw_Stream view).
Proof.
  unfold BuildResume. intros H. apply bind_Ok in H as ([m p] & Hsel & H). apply bind_Ok in H as ([] & _ & H).
  apply bind_Ok in H as ([[[root target] tokenDataset] token] & Ht & H). apply bind_Ok in H as ([] & _ & H). apply bind_Ok in H as ([lineage b] & _ & H).
  apply bind_Ok in H as (refs & _ & H). apply bind_Ok in H as (r' & _ & H). apply bind_Ok in H as (members & _ & H).
  apply bind_Ok in H as ([expected covered] & Hf & H). apply resumeRow_sources in Hf. cbn [fst fmap list_fmap app] in Hf.
  destruct (filter _ members) as [|x l] eqn:Ef; [by rewrite orb_true_r in H|]. destruct (_ || _); [done|]. injection H as <- <-. cbn.
  split_and!; [| |done|done|by destruct (selectStream_Ok _ _ _ _ Hsel) as (_ & _ & _ & _ & _ & _ & _ & <-)].
  - exists root. apply resumeToken_Ok in Ht as [Ht _]. by destruct (selectStream_Ok _ _ _ _ Hsel) as (_ & _ & _ & _ & _ & _ & _ & <-).
  - assert (x ∈ members) as Hx by (assert (x ∈ filter (λ m0, sr_Dataset m0 = mb_Dataset m) members) as Hin by (rewrite Ef; by left); apply list_elem_of_filter in Hin; tauto).
    apply (list_elem_of_fmap_2 (sourceSnapshot r')) in Hx. rewrite <- Hf in Hx. apply list_elem_of_fmap in Hx as (e & E & He). by exists e.
Qed.

Lemma Build_plan request view installation plan : Build request view installation = Ok plan →
  (∃ root, mapped request (if (vw_Stream view =? "")%string then rq_Source request else vw_Stream view) = Ok (root, pl_Destination plan)) ∧
  (∃ e, e ∈ pl_Expected plan ∧ ex_Source e = pl_Snapshot plan) ∧ pl_Snapshot plan ∈ ex_Source <$> pl_Endpoints plan ∧
  pl_Source plan = (if (vw_Stream view =? "")%string then rq_Source request else vw_Stream view).
Proof.
  intros [st ->]%Build_stages. split_and!; [|apply endpoint_expected|apply endpoint_held|
    destruct (plan_fields st) as (-> & _); by destruct (selectStream_Ok _ _ _ _ (st_selected _ _ _ st)) as (_ & _ & _ & _ & _ & _ & _ & <-)].
  destruct (plan_fields st) as (_ & -> & _).
  destruct (checkScopes_Ok _ _ _ _ _ (st_scopes _ _ _ st)) as (Hm & _). destruct (selectStream_Ok _ _ _ _ (st_selected _ _ _ st)) as (_ & _ & _ & _ & _ & _ & _ & <-).
  by exists (st_mappedRoot st).
Qed.

(** * What a load reads *)

Lemma nearestRealFrom_readonly inventory root : ∀ fuel candidate, readonly (nearestRealFrom fuel candidate root inventory).
Proof.
  induction fuel as [|fuel IH]; intros candidate; cbn [nearestRealFrom]; [done|]. destruct (_ =? "")%string; [done|]. destruct (negb _); [done|].
  apply readonly_bindE; [|intros [i b]; destruct (negb b); [done|]; by destruct (BeforeLast _ _)].
  apply readonly_bindE; [done|]. intros i. destruct (negb _); [done|]. by apply readonly_bindE.
Qed.

Lemma checkHostLocal_readonly request d : readonly (checkHostLocal request d).
Proof.
  unfold checkHostLocal. destruct (_ || _); [done|]. apply readonly_bindE; [done|]. intros i. destruct (negb _); [done|].
  apply readonly_bindE; [done|]. intros p. by destruct (negb _).
Qed.

Lemma placeholderAt_readonly d : readonly (placeholderAt d).
Proof. apply readonly_bindE; [done|]. intros i. destruct (negb _); [done|]. by apply readonly_bindE. Qed.

Lemma load_readonly l request stream : readonly (load l request stream).
Proof.
  unfold load. apply readonly_bindR. intros _. apply readonly_bindR. intros [root target]. apply readonly_bindE; [done|]. intros inventory.
  apply readonly_bindE; [by destruct (lo_sameHost l)|]. intros dinventory. apply readonly_bindE.
  { unfold loadSource. apply readonly_bindE; [done|]. intros r. apply readonly_bindE; [destruct (_ =? _)%string; [done|by apply readonly_bindE]|].
    intros s. destruct (_ =? 0)%nat; [done|by apply readonly_bindE]. }
  intros source. apply readonly_bindR. intros bound. apply readonly_bindE; [by destruct bound|]. intros bi. apply readonly_bindE.
  { unfold identify. destruct (_ =? "")%string; [done|by apply readonly_bindE]. }
  intros [ex id]. apply readonly_bindE; [destruct ex; [by apply readonly_bindE|done]|]. intros d.
  apply readonly_bindE; [apply readonly_onTarget, nearestRealFrom_readonly|]. intros a. destruct (_ =? "")%string; [done|].
  apply readonly_bindE; [apply checkHostLocal_readonly|done].
Qed.

Lemma load_reads l request stream tr view : runs (load l request stream) tr (Ok view) →
  vw_Stream view = stream ∧ ∃ root target, mapped request stream = Ok (root, target) ∧
    (vw_DestinationExists view = true → ∃ st, Event (OnTarget (InspectState target true)) (Ok st) ∈ tr ∧
      vw_Destination view = ownTokens st target (Replicate (ef_Send (rq_Policy request)))).
Proof.
  unfold load. intros ([] & _ & ([root target] & Hm & H)%runs_bindR)%runs_bindR. apply runs_bindE in H as (t1 & inv & t2 & -> & _ & H).
  apply runs_bindE in H as (t3 & dinv & t4 & -> & _ & H). apply runs_bindE in H as (t5 & source & t6 & -> & _ & H). apply runs_bindR in H as (bound & _ & H).
  apply runs_bindE in H as (t7 & bi & t8 & -> & _ & H). apply runs_bindE in H as (t9 & [ex id] & t10 & -> & _ & H).
  apply runs_bindE in H as (t11 & d & t12 & -> & Hd & H). apply runs_bindE in H as (t13 & a & t14 & -> & _ & H). destruct (_ =? "")%string; [by destruct H|].
  apply runs_bindE in H as (t15 & [] & t16 & -> & _ & H). destruct H as [-> [= ->]]. cbn [vw_Stream vw_DestinationExists vw_Destination].
  split; [done|]. exists root, target. split; [done|]. intros ->. apply runs_bindE in Hd as (u1 & st & u2 & -> & Hst%runs_call & [-> [= ->]]).
  exists st. split; [|done]. subst u1. set_solver.
Qed.

Lemma load_stream l request stream tr view : runs (load l request stream) tr (Ok view) → stream ≠ "".
Proof.
  unfold load. intros ([] & Hv & ([root target] & Hm & _)%runs_bindR)%runs_bindR ->. apply mapped_Ok in Hm as (_ & _ & Hi & _).
  apply inside_split in Hi as (s & E & _). destruct (rq_Source request); [|done]. by vm_compute in Hv.
Qed.

Lemma Build_recursive request view installation plan : Build request view installation = Ok plan →
  so_Recursive (pl_Send plan) = true → Replicate (ef_Send (rq_Policy request)) = true.
Proof.
  intros [st ->]%Build_stages. destruct (plan_fields st) as (_ & _ & _ & _ & _ & _ & _ & _ & _ & -> & _).
  destruct (scopePolicy_Ok _ _ _ _ _ _ (st_scoped _ _ _ st)) as (-> & _). intros Hr.
  destruct (selectStream_stream _ _ _ _ (st_selected _ _ _ st)) as [_ Hp]. apply streamPolicy_Ok in Hp as [Hp _]. destruct (Hp Hr) as [_ E]. by rewrite <- E.
Qed.

Lemma placeholderAt_true d tr identity : runs (onTarget (placeholderAt d)) tr (Ok (identity, true)) →
  ∃ st, Event (OnTarget (InspectState d false)) (Ok st) ∈ tr ∧ emptyPlaceholder st d.
Proof.
  intros (tr0 & -> & H)%runs_onTarget. apply runs_bindE in H as (t1 & i & t2 & -> & _ & H). destruct (negb _); [by destruct H|].
  apply runs_bindE in H as (t3 & st & t4 & -> & Hst%runs_call & [_ [= -> E]]). subst t3. exists st. split; [|by apply isPlaceholder_empty]. rewrite !fmap_app. set_solver.
Qed.

(** [ownTokens] changes nothing but tokens. *)
Lemma ownTokens_same st d r : Objects (ownTokens st d r) = Objects st ∧ Properties (ownTokens st d r) = Properties st.
Proof. unfold ownTokens. by destruct (_ || _). Qed.
Lemma ownTokens_objectMap st d r : objectMap (ownTokens st d r) = objectMap st.
Proof. unfold objectMap. by destruct (ownTokens_same st d r) as [-> _]. Qed.
Lemma ownTokens_twice st d r1 r2 : (r2 = true → r1 = true) → ownTokens (ownTokens st d r1) d r2 = ownTokens st d r2.
Proof.
  intros H. unfold ownTokens at 2. destruct r1; [done|]. destruct r2; [by discriminate H|]. cbn [orb]. case_bool_decide as E; [done|].
  unfold ownTokens. cbn [orb ResumeTokens]. rewrite (bool_decide_eq_false_2 _ E). destruct (ResumeTokens st !! d) as [token|] eqn:Et; cbn.
  - case_bool_decide as E2; [done|]. by rewrite lookup_singleton_eq.
  - by rewrite bool_decide_eq_true_2.
Qed.

(** * Receive parents *)

Lemma path_Split s cur : fold_left (λ c x, c +:+ "/" +:+ x) (Split s "/") cur = cur +:+ "/" +:+ s.
Proof.
  rewrite <- (Join_Split s "/") at 2. pose proof (Split_not_nil s "/") as Hne. revert cur. induction (Split s "/") as [|x l IH]; [done|].
  intros cur. cbn [fold_left]. destruct l as [|y l]; [done|]. rewrite IH by done. cbn [Join]. by rewrite !app_assoc_str.
Qed.

Lemma inside_child cur x : inside (cur +:+ "/" +:+ x) cur = true.
Proof. apply inside_app. right. apply HasPrefix_app. Qed.
Lemma child_differs cur x : cur +:+ "/" +:+ x ≠ cur.
Proof. intros E. rewrite <- (app_str_nil cur) in E at 2. by apply app_inj_str in E. Qed.

Lemma not_inside_child cur x : inside cur (cur +:+ "/" +:+ x) ≠ true.
Proof.
  rewrite inside_within. unfold within. intros [E%String.eqb_eq|[t Et]%HasPrefix_spec]%orb_true_iff; [by apply (child_differs cur x)|].
  rewrite !app_assoc_str in Et. by apply (child_differs cur (x +:+ "/" +:+ t)).
Qed.

Lemma missingParent_Ok existing : ∀ components st st', foldM (missingParent existing) st components = Ok st' →
  st'.1 = fold_left (λ c x, c +:+ "/" +:+ x) components st.1 ∧ inside st'.1 st.1 = true ∧
  ∀ d, d ∈ st'.2 → d ∈ st.2 ∨ existing !! d = None ∧ inside st'.1 d = true ∧ inside d st.1 = true ∧ d ≠ st.1.
Proof.
  induction components as [|x components IH]; intros st st'; cbn [foldM fold_left].
  { intros [= <-]. split_and!; [done|rewrite inside_within; apply within_refl|by left]. }
  intros H. apply bind_Ok in H as (st1 & Hx & H). apply IH in H as (H1 & H2 & H3). set (current := st.1 +:+ "/" +:+ x).
  assert (st1.1 = current ∧ (st1.2 = st.2 ∨ st1.2 = st.2 ++ [current] ∧ existing !! current = None)) as [E1 E2].
  { unfold missingParent in Hx. fold current in Hx. destruct (existing !! current) as [d|] eqn:Ed; [destruct (negb _); [done|]|]; injection Hx as <-; auto. }
  rewrite E1 in H1, H2, H3. pose proof (inside_child st.1 x) as Hc. fold current in Hc. rewrite inside_within in *.
  assert (∀ n, within n current = true → n ≠ st.1) as Hne.
  { intros n Hn ->. unfold within in Hn. apply orb_true_iff in Hn as [E%String.eqb_eq|[t Et]%HasPrefix_spec]; [by apply (child_differs st.1 x)|].
    unfold current in Et. rewrite !app_assoc_str in Et. by apply (child_differs st.1 (x +:+ "/" +:+ t)). }
  split_and!; [done|by eapply within_trans|]. intros d [Hd|(? & ? & ? & ?)]%H3.
  - destruct E2 as [E2|[E2 Hnone]]; rewrite E2 in Hd; [by left|]. apply elem_of_app in Hd as [?| ->%list_elem_of_singleton]; [by left|right].
    split_and!; [done..|apply Hne, within_refl].
  - right. rewrite inside_within in *. split_and!; [done..|by eapply within_trans|by apply Hne].
Qed.

Lemma datasetsByName_None inventory d : datasetsByName inventory !! d = None → listed inventory d = false.
Proof.
  unfold datasetsByName, listed. assert (∀ l (m : gmap string Dataset), fold_left (λ existing x, <[ds_Name x := x]> existing) l m !! d = None →
    existsb (λ x, (ds_Name x =? d)%string) l = false ∧ m !! d = None) as H.
  { induction l as [|x l IH]; intros m; cbn [fold_left existsb]; [done|]. intros [H1 H2]%IH.
    destruct (String.eqb_spec (ds_Name x) d) as [<-|Hne]; [by rewrite lookup_insert_eq in H2|]. by rewrite lookup_insert_ne in H2. }
  intros Hn. by apply (H _ ∅) in Hn as [? _].
Qed.

Lemma missingReceiveParents_Ok base target inventory parents d : missingReceiveParents base target inventory = Ok parents → d ∈ parents →
  listed inventory d = false ∧ inside target d = true ∧ d ≠ target ∧ inside d base = true ∧ d ≠ base.
Proof.
  unfold missingReceiveParents. destruct (inside target base) eqn:Hi; cbn [negb]; [|done].
  destruct (target =? base)%string; [by intros [= <-] ?%not_elem_of_nil|]. destruct (negb _); [done|].
  destruct (BeforeLast target "/") as [parent|] eqn:Eb; [|by intros [= <-] ?%not_elem_of_nil]. apply BeforeLast_Some in Eb as (x & Et & _).
  assert (inside target parent = true) as Hp by (rewrite Et; apply (inside_child parent x)).
  destruct (Nat.ltb_spec (String.length parent) (String.length base)) as [|Hl]; cbn [orb]; [by intros [= <-] ?%not_elem_of_nil|].
  destruct (String.eqb_spec parent base) as [|Hne]; [by intros [= <-] ?%not_elem_of_nil|]. intros H Hd. apply bind_Ok in H as (st & Hf & [= <-]).
  apply missingParent_Ok in Hf as (E & _ & Hm). cbn [fst snd] in E, Hm. rewrite path_Split in E.
  pose proof (inside_shorter _ _ _ Hp Hi Hl) as Hpb. unfold inside in Hpb. apply orb_true_iff in Hpb as [?%String.eqb_eq|Hpb]; [done|].
  rewrite <- app_assoc_str, <- (TrimPrefix_spec _ _ Hpb) in E. destruct (Hm d Hd) as [?%not_elem_of_nil|(Hn & H1 & H2 & H3)]; [done|].
  rewrite E in H1. split_and!; [by apply datasetsByName_None|rewrite inside_within in *; by eapply within_trans| |done|done].
  intros ->. rewrite Et in H1. by apply (not_inside_child parent x).
Qed.

(** A name below the parent of a root and above something in the root is in the
    root. *)
Lemma below_parent_root root base target d : BeforeLast root "/" = Some base → inside target root = true → inside target d = true →
  inside d base = true → d ≠ base → inside d root = true.
Proof.
  intros (x & Er & Hx)%BeforeLast_Some Hr Hd Hb Hne. rewrite inside_within in *. destruct (within_chain _ _ _ Hd Hr) as [|H]; [done|].
  unfold within in H. apply orb_true_iff in H as [->%String.eqb_eq|[t Et]%HasPrefix_spec]; [apply within_refl|].
  unfold within in Hb. apply orb_true_iff in Hb as [?%String.eqb_eq|[s Es]%HasPrefix_spec]; [done|]. exfalso. apply Hx.
  assert (String "/" x = "/" +:+ s +:+ "/" +:+ t) as E by (apply (app_inj_str base); by rewrite <- Er, Et, Es, !app_assoc_str).
  change (String "/" (s +:+ "/" +:+ t)) with ("/" +:+ s +:+ "/" +:+ t) in E. assert (x = s +:+ "/" +:+ t) as -> by (injection E; done).
  rewrite !bytes_of_app. set_solver.
Qed.

Lemma callWrapped_always (P : list event → ∀ R, op R → Prop) prefix o pre (Q : list event → result unit → Prop) : P pre _ o →
  (∀ r, Q (pre ++ [Event o r]) (wrapped prefix r)) → always P pre (callWrapped prefix o) Q.
Proof. intros Ho HQ. unfold callWrapped. apply always_bind, always_call; [done|]. intros r. apply HQ. Qed.

(** * What a stream rests on *)

Lemma olderProof_true stream canonical ref prior : olderProof stream canonical ref prior = true →
  rf_TargetID prior = TargetID canonical ∧ rf_Dataset prior = stream ∧ Created (rf_Metadata prior) < Created (rf_Metadata ref).
Proof. unfold olderProof. rewrite !andb_true_iff, !String.eqb_eq, Z.ltb_lt. tauto. Qed.

Section Guard.
Context (l : Engine) (request : Request) (stream : string).

Abbreviation service := (lo_lifecycle l).
Abbreviation root := (rq_Source request).
Abbreviation planTarget plan := (tb_CanonicalTarget (pl_TargetBinding plan)).

(** Every endpoint of the plan, and its base if that is a snapshot, is held. *)
Definition heldFor (plan : Plan) (ref : Reference) (tr : list event) : Prop :=
  (∃ snapshots, did (ProtectSet service root stream snapshots (planTarget plan)) (Ok ref) tr ∧ ∀ e, e ∈ pl_Endpoints plan → ex_Source e ∈ snapshots) ∧
  (Contains (pl_Base plan) "@" = true →
   ∃ snapshots r, did (ProtectSet service root stream snapshots (planTarget plan)) (Ok r) tr ∧ pl_Base plan ∈ snapshots).

(** The history ends with a read of both ends from which the plan is made. *)
Definition planned (view : View) (plan : Plan) (ref : Reference) (tr : list event) : Prop :=
  ∃ t0 t1, tr = t0 ++ t1 ∧ runs (load l request stream) t1 (Ok view) ∧
    (Build request view (lo_installation l) = Ok plan ∧ heldFor plan ref t0 ∨ BuildResume request view (lo_installation l) = Ok (plan, ref)).

(** The replica has the snapshot, with the source's GUID. *)
Definition arrived (st : State) (e : Expected) : Prop :=
  ∃ o, objectMap st !! ex_Destination e = Some o ∧ ob_Type o = "snapshot" ∧ ob_GUID o = ex_GUID e.

(** An intermediate that was gone from the source when the replica lacked it. *)
Definition dropped (plan : Plan) (tr : list event) (e : Expected) : Prop :=
  so_Intermediates (pl_Send plan) = true ∧ ex_Source e ∉ ex_Source <$> pl_Endpoints plan ∧
  ∃ source, Event (InspectState (so_Source (pl_Send plan)) (so_Recursive (pl_Send plan))) (Ok source) ∈ tr ∧ objectMap source !! ex_Source e = None.

(** The replica was read to be complete: [st], with everything expected in it. *)
Definition delivered (plan : Plan) (st : State) (tr : list event) : Prop :=
  Event (OnTarget (InspectState (pl_Destination plan) true)) (Ok st) ∈ tr ∧
  hasTokens (ownTokens st (pl_Destination plan) (so_Recursive (pl_Send plan))) = false ∧
  ∀ e, e ∈ pl_Expected plan → arrived st e ∨ dropped plan tr e.

(** The stream was planned, ran if there was anything to send, and its replica
    was read complete since. *)
Definition verifiedBy (plan : Plan) (ref : Reference) (st : State) (pre : list event) : Prop :=
  ∃ view t0 t1, pre = t0 ++ t1 ∧ planned view plan ref t0 ∧
    if upToDate plan then delivered plan st pre
    else ∃ estimate progress t2, t1 = Event (EstimateStream (pl_Send plan)) (Ok estimate) :: Event (RunStream (pl_Send plan) (pl_Receive plan) estimate) (Ok progress) :: t2 ∧
           delivered plan st t2.

(** What the replica is expected to own verifies there too. *)
Definition ownedAt (plan : Plan) (tr : list event) : Prop :=
  ∃ st, Event (OnTarget (InspectState (pl_Destination plan) true)) (Ok st) ∈ tr ∧
    ∀ e metadata, e ∈ pl_Expected plan → ex_Metadata e = Some metadata →
      dropped plan tr e ∨ ∃ o, objectMap st !! ex_Destination e = Some o ∧ ob_GUID o = ex_GUID e ∧ ownership st o (pl_Lineage plan) = Ok metadata.

(** The endpoints are checkpointed at the source. *)
Definition advanced (plan : Plan) (ref : Reference) (st : State) (pre : list event) : Prop :=
  verifiedBy plan ref st pre ∧ ownedAt plan pre ∧ did (CheckpointSet service root ref (verifiedGUIDs plan)) (Ok tt) pre.

(** The set-aside placeholder was read to be one. *)
Definition asideRead (destination : string) (inventory : list Dataset) (pre : list event) : Prop :=
  Event (OnTarget ListDatasets) (Ok inventory) ∈ pre ∧
  ∃ st, Event (OnTarget (InspectState (placeholderAside destination) false)) (Ok st) ∈ pre ∧ emptyPlaceholder st (placeholderAside destination).

(** The destination was read to be an empty placeholder. *)
Definition placeholderRead (destination : string) (inventory : list Dataset) (pre : list event) : Prop :=
  Event (OnTarget ListDatasets) (Ok inventory) ∈ pre ∧
  (∃ st, Event (OnTarget (InspectState destination false)) (Ok st) ∈ pre ∧ emptyPlaceholder st destination) ∧
  ∃ st, Event (OnTarget (InspectState destination true)) (Ok st) ∈ pre ∧ hasTokens st = false.

(** The changes a transfer makes at the destination, each with its reason. *)
Definition targetGuard (pre : list event) {R} (o : op R) : Prop :=
  match o with
  | CreateReceiveParent d => ∃ view plan, did (load l request stream) (Ok view) pre ∧ Build request view (lo_installation l) = Ok plan ∧
      pl_Mode plan = "full" ∧ listed (default [] (vw_DestinationInventory view)) d = false ∧ inside (pl_Destination plan) d = true ∧
      d ≠ pl_Destination plan ∧ inside d (rq_DestinationRoot request) = true
  | RenameDataset from to => ∃ destination mappedRoot inventory, mapped request stream = Ok (mappedRoot, destination) ∧ listed inventory to = false ∧
      (from = destination ∧ to = placeholderAside destination ∧ placeholderRead destination inventory pre ∨
       ∃ child plan ref st, from = placeholderAside destination +:+ "/" +:+ child ∧ to = destination +:+ "/" +:+ child ∧
         advanced plan ref st pre ∧ asideRead destination inventory pre)
  | DestroyDataset d recursive => recursive = false ∧ ∃ destination mappedRoot inventory plan ref st, mapped request stream = Ok (mappedRoot, destination) ∧
      d = placeholderAside destination ∧ advanced plan ref st pre ∧ asideRead destination inventory pre
  | InheritProperty d name => ∃ plan ref st p, verifiedBy plan ref st pre ∧ p ∈ Properties st ∧ pr_Dataset p = d ∧ pr_Name p = name ∧
      pr_Source p = SourceReceived ∧ excludedKey name = true
  | SetProperties d properties => ∃ plan ref st, verifiedBy plan ref st pre ∧
      ((∃ e, e ∈ pl_Endpoints plan ∧ d = datasetOf (ex_Destination e) ∧ DatasetLineage st d = Ok "" ∧ properties = {[LineageProperty := pl_Lineage plan]}) ∨
       ∃ e metadata, e ∈ pl_Expected plan ∧ arrived st e ∧ ex_Metadata e = Some metadata ∧ d = ex_Destination e ∧ properties = metadataProperties metadata)
  | _ => mutates o = false
  end.

(** A binding that is stored is the plan's new one, or the plan's moved to the
    replica that was verified. *)
Definition boundBy (b : TargetBinding) (pre : list event) : Prop :=
  (∃ view plan, did (load l request stream) (Ok view) pre ∧ Build request view (lo_installation l) = Ok plan ∧ pl_BindingNew plan = true ∧
    b = pl_TargetBinding plan) ∨
  ∃ plan ref st identity, verifiedBy plan ref st pre ∧ anchoredOn b identity ∧
    Event (OnTarget (InspectDatasetIdentity (tb_MappedDataset (pl_TargetBinding plan)))) (Ok identity) ∈ pre ∧
    tb_MappedDataset b = tb_MappedDataset (pl_TargetBinding plan) ∧ tb_PoolGUID b = tb_PoolGUID (pl_TargetBinding plan).

(** The same for the source. *)
Definition sourceGuard (pre : list event) {R} (o : op R) : Prop :=
  match o with
  | RunStream send receive estimate => ∃ view plan ref t0, pre = t0 ++ [Event (EstimateStream send) (Ok estimate)] ∧ planned view plan ref t0 ∧ upToDate plan = false ∧
      send = pl_Send plan ∧ receive = pl_Receive plan
  | SetProperties d properties =>
      d = root ∧ (∃ b value, boundBy b pre ∧ encodeBinding b = Ok value ∧ properties = {[targetBindingProperty (tb_CanonicalTarget b) := value]}) ∨
      ∃ snapshots target, protectGuard service root stream snapshots target pre _ o
  | HoldSnapshot _ _ => ∃ snapshots target, protectGuard service root stream snapshots target pre _ o
  | CreateBookmark _ _ => ∃ plan ref st, verifiedBy plan ref st pre ∧ ownedAt plan pre ∧ checkpointGuard service root ref (verifiedGUIDs plan) pre _ o
  | ReleaseHold _ _ | DestroyBookmark _ | InheritProperty _ _ => ∃ plan ref st, advanced plan ref st pre ∧
      (completedGuard service root ref pre _ o ∨
       ∃ prior, (rf_TargetID prior = TargetID (planTarget plan) ∧ rf_Dataset prior = stream ∧ Created (rf_Metadata prior) < Created (rf_Metadata ref)) ∧
         releaseGuard service root prior pre _ o)
  | _ => mutates o = false
  end.

Definition engineGuard (pre : list event) (R : Type) (o : op R) : Prop :=
  match o with OnTarget o => targetGuard pre o | _ => sourceGuard pre o end.

Lemma engineGuard_reads pre R (o : op R) : mutates o = false → engineGuard pre R o.
Proof. destruct o as [| | | | | | | | | | | | | | | | | | | | | | | | | |R o]; try done; cbn [engineGuard mutates]. by destruct o. Qed.

Lemma reads {A} (p : prog A) pre : readonly p → always engineGuard pre p (λ tr a, ∃ seg, tr = pre ++ seg ∧ runs p seg a).
Proof. intros H. apply always_readonly; [apply engineGuard_reads|done]. Qed.

(** ** What stays true of a longer history *)

Lemma delivered_prefix plan st tr tr' : tr `prefix_of` tr' → delivered plan st tr → delivered plan st tr'.
Proof.
  intros [t ->] (H1 & H2 & H3). split_and!; [set_solver|done|]. intros e [?|(? & ? & source & ? & ?)]%H3; [by left|right]. split_and!; [done..|].
  exists source. split; [set_solver|done].
Qed.
Lemma verifiedBy_prefix plan ref st tr tr' : tr `prefix_of` tr' → verifiedBy plan ref st tr → verifiedBy plan ref st tr'.
Proof.
  intros Hp (view & t0 & t1 & -> & Hpl & Hd). destruct Hp as [t ->]. exists view, t0, (t1 ++ t). split; [by rewrite app_assoc|]. split; [done|].
  destruct (upToDate plan); [eapply delivered_prefix; [|done]; by apply prefix_app_r|]. destruct Hd as (e & p & t2 & -> & Hd). exists e, p, (t2 ++ t). split; [done|].
  eapply delivered_prefix; [|done]. by apply prefix_app_r.
Qed.
Lemma ownedAt_prefix plan tr tr' : tr `prefix_of` tr' → ownedAt plan tr → ownedAt plan tr'.
Proof.
  intros [t ->] (st & H1 & H2). exists st. split; [set_solver|]. intros e metadata He Hm. destruct (H2 e metadata He Hm) as [(? & ? & source & ? & ?)|?]; [left|by right].
  split_and!; [done..|]. exists source. split; [set_solver|done].
Qed.
Lemma advanced_prefix plan ref st tr tr' : tr `prefix_of` tr' → advanced plan ref st tr → advanced plan ref st tr'.
Proof. intros Hp (H1 & H2 & H3). split_and!; [by eapply verifiedBy_prefix|by eapply ownedAt_prefix|by eapply did_prefix]. Qed.

(** ** Preparation *)

Lemma ProtectSet_guarded snapshots target pre :
  always engineGuard pre (ProtectSet service root stream snapshots target) (λ tr r, ∃ seg, tr = pre ++ seg ∧ runs (ProtectSet service root stream snapshots target) seg r).
Proof.
  eapply always_mono; [|apply always_seg; eapply (always_weaken (protectGuard service root stream snapshots target)); [|apply ProtectSet_always]]; [by intros tr r [_ H]|].
  intros p R o H. destruct (mutates o) eqn:Hm; [|by apply engineGuard_reads]. destruct o; try done; cbn; try by (destruct (H Hm) as (? & ? & ? & ? & ? & _ & _ & _ & _ & _ & [])).
  - right. eauto.
  - eauto.
Qed.

Lemma storeBinding_guarded b pre : boundBy b pre →
  always engineGuard pre (storeBinding root b) (λ tr _, pre `prefix_of` tr).
Proof.
  intros Hb. unfold storeBinding. apply always_bindR. destruct (encodeBinding b) as [value|] eqn:E; [|done]. apply always_call; [left|].
  - split; [done|]. by exists b, value.
  - intros r. by apply prefix_app_r.
Qed.

Lemma checkPermissions_readonly view plan : readonly (checkPermissions request view plan).
Proof.
  unfold checkPermissions, callWrapped. apply readonly_bindE; [by apply readonly_bind|]. intros []. destruct (_ =? "")%string; [done|]. by apply readonly_bind.
Qed.
(** The view and plan a preparation starts from, and goes on with. *)
Definition basis (view : View) (plan : Plan) (tr : list event) : Prop :=
  did (load l request stream) (Ok view) tr ∧ Build request view (lo_installation l) = Ok plan.
Lemma basis_prefix view plan tr tr' : tr `prefix_of` tr' → basis view plan tr → basis view plan tr'.
Proof. intros Hp [H1 H2]. split; [by eapply did_prefix|done]. Qed.

Lemma parents_guarded view plan pre : basis view plan pre →
  always engineGuard pre (prepareReceiveParents l request view plan) (λ tr r, match r with
    | Ok (view', plan') => basis view' plan' tr ∧ pre `prefix_of` tr | Err _ => True end).
Proof.
  intros Hb. unfold prepareReceiveParents. destruct (String.eqb_spec (pl_Mode plan) "full") as [Hf|]; cbn [negb]; [|by split].
  destruct Hb as [Hl HB]. pose proof (Build_stages _ _ _ _ HB) as [st Est].
  assert (inside (pl_Destination plan) (rq_DestinationRoot request) = true) as Hin.
  { subst plan. destruct (plan_fields st) as (_ & -> & _). by destruct (plan_scope st) as (_ & _ & _ & _ & ? & _). }
  apply always_bindR. match goal with |- match ?r with _ => _ end => destruct r as [base|] eqn:Ebase; [|done] end.
  assert (∀ d, inside (pl_Destination plan) d = true → inside d base = true → d ≠ base → inside d (rq_DestinationRoot request) = true) as Hroot.
  { intros d H1 H2 H3. destruct (_ =? DiscardOff)%string; [|by injection Ebase as ->]. destruct (BeforeLast _ _) eqn:Eb; [|done]. injection Ebase as ->.
    by eapply below_parent_root. }
  apply always_bindR. destruct (missingReceiveParents _ _ _) as [parents|] eqn:Hp; [|done]. apply always_bindE.
  apply (always_forE _ _ (λ _ tr _, pre `prefix_of` tr)); [|intros tr [] Ht|done].
  { intros d dn rest tr [] E Ht. apply callWrapped_always; [|intros [[]|e]; cbn; [by apply prefix_app_r|done]].
    assert (d ∈ parents) as Hd by (rewrite E; set_solver). destruct (missingReceiveParents_Ok _ _ _ _ _ Hp Hd) as (H1 & H2 & H3 & H4 & H5).
    exists view, plan. split_and!; try done; [by eapply did_prefix|by apply Hroot]. }
  destruct (_ =? 0)%nat; [split; [by eapply basis_prefix|done]|]. apply always_bindE.
  assert (vw_Stream view = stream) as -> by (destruct Hl as (? & ? & ? & _ & [? _]%load_reads); done).
  eapply always_mono; [|apply reads, load_readonly]. intros tr' [prepared|e] (seg & -> & Hr); [|done]. destruct (negb _); [done|].
  apply always_bindR. destruct (Build request prepared _) as [fresh|] eqn:HB'; [|done]. destruct (negb _); [done|]. split; [split; [by apply did_seg|done]|].
  by apply prefix_app_r.
Qed.

Lemma holdBase_guarded view plan pre :
  always engineGuard pre (holdBase l request stream (planTarget plan) view plan) (λ tr r, match r with
    | Ok _ => pre `prefix_of` tr ∧ (Contains (pl_Base plan) "@" = true →
        ∃ snapshots ref, did (ProtectSet service root stream snapshots (planTarget plan)) (Ok ref) tr ∧ pl_Base plan ∈ snapshots)
    | Err _ => True end).
Proof.
  unfold holdBase. destruct (Contains _ _); [|split; [done|by intros]]. apply always_bindE. eapply always_mono; [|apply ProtectSet_guarded].
  intros tr [ref|e] (seg & -> & Hr); [|done]. split; [by apply prefix_app_r|]. intros _. eexists _, ref. split; [by apply did_seg|]. by left.
Qed.

Lemma prepareNew_guarded view plan pre : basis view plan pre →
  always engineGuard pre (prepareNew l request stream view plan) (λ tr r, match r with
    | Ok (view', plan', ref) => planned view' plan' ref tr | Err _ => True end).
Proof.
  intros Hb. unfold prepareNew. apply always_bindE. eapply always_mono; [|by apply parents_guarded]. intros tr1 [[before plan1]|e]; [|done]. intros [[Hl1 HB1] _].
  apply always_bindE. eapply (always_mono _ _ _ (λ tr r, match r with Ok _ => tr1 `prefix_of` tr | Err _ => True end)).
  2: { destruct (pl_BindingNew plan1) eqn:En; [|cbn; reflexivity]. eapply always_mono; [|apply storeBinding_guarded; left; by exists before, plan1]. by intros tr [|]. }
  intros tr2 [[]|e] H12; [|done]. apply always_bindE. eapply always_mono; [|apply ProtectSet_guarded]. intros tr3 [ref|e] (seg & -> & Href); [|done].
  apply always_bindE. eapply always_mono; [|apply holdBase_guarded]. intros tr4 [[]|e]; [|done]. intros [H34 Hbase].
  apply always_bindE. eapply always_mono; [|apply reads, load_readonly]. intros tr5 [prepared|e] (seg' & -> & Hload); [|done].
  destruct (sourceStable _ _) eqn:Hs; cbn [negb orb]; [|done]. destruct (_ || _); [done|]. apply always_bindR.
  destruct (Build request prepared _) as [fresh|] eqn:HB; [|done]. destruct (sameHistory fresh plan1) eqn:Hsame; cbn [negb orb]; [|done].
  case_bool_decide as Ebind; cbn [negb]; [|done]. unfold sameHistory in Hsame. rewrite !andb_true_iff, !String.eqb_eq in Hsame. destruct Hsame as [[Esnap Ebase] _].
  exists tr4, seg'. split_and!; [done..|]. left. split; [done|]. unfold heldFor. rewrite Ebind, Ebase. split; [|done].
  exists (ex_Source <$> pl_Endpoints plan1). split; [eapply did_prefix; [exact H34|by apply did_seg]|].
  apply andb_true_iff in Hs as [[Ho _]%andb_true_iff _]. apply bool_decide_eq_true in Ho. apply (endpoints_stable request before prepared (lo_installation l) plan1 fresh); try done.
  destruct Hl1 as (? & ? & ? & _ & [-> _]%load_reads). by destruct (load_reads _ _ _ _ _ Hload) as [-> _].
Qed.

Lemma prepare_guarded view pre : did (load l request stream) (Ok view) pre →
  always engineGuard pre (prepare l request stream view) (λ tr r, match r with Ok (view', plan, ref) => planned view' plan ref tr | Err _ => True end).
Proof.
  intros Hl. unfold prepare. destruct (isResume view).
  - apply always_bindR. destruct (BuildResume request view _) as [[plan ref]|]; [|done]. apply always_bindE.
    eapply always_mono; [|apply reads, checkPermissions_readonly]. intros tr1 [[]|e] (s1 & -> & _); [|done]. unfold prepareResume. apply always_bindE.
    eapply always_mono; [|apply reads, load_readonly]. intros tr2 [prepared|e] (s2 & -> & Hload); [|done]. destruct (negb _); [done|].
    apply always_bindR. destruct (BuildResume request prepared _) as [[fresh fref]|] eqn:HB; [|done].
    case_bool_decide as E1; cbn [negb orb]; [|done]. case_bool_decide as E2; cbn [negb]; [|done]. subst. exists (pre ++ s1), s2. auto.
  - apply always_bindR. destruct (Build request view _) as [plan|] eqn:HB; [|done]. apply always_bindE.
    eapply always_mono; [|apply reads, checkPermissions_readonly]. intros tr1 [[]|e] (s1 & -> & _); [|done].
    apply prepareNew_guarded. split; [|done]. eapply did_prefix; [|done]. by apply prefix_app_r.
Qed.

Lemma setAside_guarded pre : always engineGuard pre (setAsidePlaceholder l request stream) (λ _ _, True).
Proof.
  unfold setAsidePlaceholder. apply always_bindR. destruct (mapped request stream) as [[mappedRoot destination]|] eqn:Hm; [|done].
  apply always_bindE, always_call; [done|]. intros [inventory|e]; [|done]. cbv zeta. destruct (negb _); [done|]. apply always_bindE.
  eapply always_mono; [|apply reads, readonly_onTarget, placeholderAt_readonly]. intros tr1 [[identity placeholder]|e] (seg & -> & Hp); [|done].
  destruct placeholder; cbn [negb]; [|done]. apply placeholderAt_true in Hp as (st1 & Hev & His). apply always_bindE, always_call; [done|].
  intros [st2|e]; [|done]. destruct (listed inventory (placeholderAside destination)) eqn:Hl; [done|]. destruct (hasTokens st2) eqn:Ht; [done|]. destruct (negb _); [done|].
  apply always_bindE, callWrapped_always; [done|]. intros [[]|e]; [|done]. cbn. split; [|done].
  exists destination, mappedRoot, inventory. split_and!; [done..|]. left. split_and!; [done..|]. unfold placeholderRead. split_and!; [set_solver|exists st1|exists st2];
    (split; [set_solver|done]).
Qed.

(** ** The stream and what it left *)

Definition sent (plan : Plan) (t1 : list event) : Prop :=
  if upToDate plan then t1 = []
  else ∃ estimate progress, t1 = [Event (EstimateStream (pl_Send plan)) (Ok estimate); Event (RunStream (pl_Send plan) (pl_Receive plan) estimate) (Ok progress)].

Lemma send_guarded view plan ref pre : planned view plan ref pre →
  always engineGuard pre (send plan) (λ tr r, match r with Ok _ => ∃ t1, tr = pre ++ t1 ∧ sent plan t1 | Err _ => True end).
Proof.
  intros Hp. unfold send, sent. destruct (upToDate plan) eqn:Hu; [exists []; by rewrite app_nil_r|]. apply always_bindE, always_call; [done|].
  intros [estimate|e]; [|done]. apply always_bind, always_call; [by exists view, plan, ref, pre|]. intros [progress|e]; [|by split].
  cbn. eexists. rewrite <- app_assoc. split; [done|]. eauto.
Qed.

(** The state both ends are judged by. *)
Definition readState (plan : Plan) (st : State) (t0 t1 : list event) : Prop :=
  Event (OnTarget (InspectState (pl_Destination plan) true)) (Ok st) ∈ (if upToDate plan then t0 ++ t1 else t1).

Lemma readBack_guarded view plan ref pre t1 : planned view plan ref pre → sent plan t1 →
  always engineGuard (pre ++ t1) (readBack request plan view) (λ tr r, match r with
    | Ok (destination, _) => ∃ st t2, tr = pre ++ t1 ++ t2 ∧ destination = ownTokens st (pl_Destination plan) (so_Recursive (pl_Send plan)) ∧
        readState plan st pre t2
    | Err _ => True end).
Proof.
  intros (u0 & u1 & -> & Hload & Hplan) Hs. unfold readBack. apply always_bindE. unfold readState.
  destruct (negb (upToDate plan) || negb (vw_DestinationExists view)) eqn:Hr.
  - apply always_bindE, always_call; [done|]. intros [st|e]; [|done]. apply always_bindE, always_call; [done|]. intros [source|e]; [|done]. cbn.
    eexists st, [_; _]. rewrite <- !app_assoc. split; [done|]. split; [done|]. destruct (upToDate plan); set_solver.
  - apply orb_false_iff in Hr as [Hu%negb_false_iff He%negb_false_iff]. cbn. unfold sent in Hs. rewrite Hu in *. subst t1.
    destruct (load_reads _ _ _ _ _ Hload) as (Hst & mappedRoot & target & Hm & Hex). destruct (Hex He) as (st & Hev & Hd). pose proof (load_stream _ _ _ _ _ Hload) as Hne.
    destruct Hplan as [[HB _]|HB]; [|apply BuildResume_plan in HB as (_ & _ & _ & Hmode & _); unfold upToDate in Hu; by rewrite Hmode in Hu].
    pose proof (Build_recursive _ _ _ _ HB) as Hrec. apply Build_plan in HB as [[rt Hmap] _]. rewrite Hst, (proj2 (String.eqb_neq stream "") Hne), Hm in Hmap.
    injection Hmap as -> <-. exists st, []. rewrite !app_nil_r. split_and!; [done|by rewrite Hd, ownTokens_twice|]. set_solver.
Qed.

(** The expectations that are verified, of those planned. *)
Definition settled (plan plan' : Plan) (tr : list event) : Prop :=
  plan' = expecting plan (pl_Expected plan') ∧ pl_Expected plan' ⊆ pl_Expected plan ∧
  ∀ e, e ∈ pl_Expected plan → e ∈ pl_Expected plan' ∨ dropped plan tr e.

Lemma settle_guarded plan destination pre :
  always engineGuard pre (settleIntermediates plan destination) (λ tr r, match r with
    | Ok plan' => ∃ t, tr = pre ++ t ∧ settled plan plan' t | Err _ => True end).
Proof.
  assert (∀ tr, settled plan plan tr) as Hsame by (intros tr; split_and!; [by destruct plan|done|by left]).
  unfold settleIntermediates. destruct (so_Intermediates (pl_Send plan)) eqn:Hi; cbn [negb]; [|exists []; by rewrite app_nil_r].
  destruct (negb _); [exists []; by rewrite app_nil_r|]. apply always_bindE, always_call; [done|]. intros [source|e]; [|done]. cbn.
  eexists. split; [done|]. split_and!; [done|cbn; intros e He; by apply list_elem_of_filter in He as [_ ?]|]. intros e He. cbn [pl_Expected expecting].
  rewrite list_elem_of_filter. destruct (decide (absent plan destination e = true ∧ objectMap source !! ex_Source e = None)) as [[Ha Hn]|]; [right|by left].
  split; [done|]. split; [|exists source; set_solver]. intros (x & Ex & Hx)%list_elem_of_fmap. apply andb_true_iff in Ha as [_ Ha%negb_true_iff].
  apply (existsb_false_elem _ _ Ha) in Hx. by rewrite <- Ex, String.eqb_refl in Hx.
Qed.

Lemma verifyGUIDs_Ok plan st : verifyGUIDs plan st = Ok tt → hasTokens st = false ∧ ∀ e, e ∈ pl_Expected plan → arrived st e.
Proof.
  unfold verifyGUIDs. destruct (hasTokens st); [done|]. intros H. split; [done|]. revert H. induction (pl_Expected plan) as [|x es IH]; [by intros _ e ?%not_elem_of_nil|].
  cbn [foldM]. intros H e He. apply bind_Ok in H as ([] & Hx & H). apply elem_of_cons in He as [->|He]; [|by apply IH]. unfold received in Hx.
  destruct (objectMap st !! ex_Destination x) as [o|] eqn:Eo; [|done]. destruct (String.eqb_spec (ob_Type o) "snapshot"); [|done].
  destruct (Z.eqb_spec (ob_GUID o) (ex_GUID x)); [|done]. by exists o.
Qed.

Lemma dropped_mono plan e tr tr' : (∀ x, x ∈ tr → x ∈ tr') → dropped plan tr e → dropped plan tr' e.
Proof. intros H (? & ? & source & ? & ?). split_and!; [done..|]. exists source. auto. Qed.

Lemma arrived_tokens st d r e : arrived (ownTokens st d r) e → arrived st e.
Proof. unfold arrived. by rewrite ownTokens_objectMap. Qed.

Lemma verifiedBy_intro view plan ref st plan' pre t1 t2 t3 :
  planned view plan ref pre → sent plan t1 → readState plan st pre t2 → settled plan plan' t3 →
  verifyGUIDs plan' (ownTokens st (pl_Destination plan) (so_Recursive (pl_Send plan))) = Ok tt →
  verifiedBy plan ref st (pre ++ t1 ++ t2 ++ t3) ∧ ∀ e, e ∈ pl_Expected plan' → arrived st e.
Proof.
  intros Hp Hs Hr (_ & Hsub & Hset) [Htok Harr]%verifyGUIDs_Ok.
  assert (∀ e, e ∈ pl_Expected plan' → arrived st e) as Ha by (intros e He; by eapply arrived_tokens, Harr). split; [|done].
  exists view, pre, (t1 ++ t2 ++ t3). split_and!; [done..|]. unfold readState, sent in *.
  assert (∀ tr, (∀ x, x ∈ t3 → x ∈ tr) → Event (OnTarget (InspectState (pl_Destination plan) true)) (Ok st) ∈ tr → delivered plan st tr) as Hd.
  { intros tr Hin Hev. split_and!; [done..|]. intros e [He|He]%Hset; [left; by apply Ha|right; by eapply dropped_mono]. }
  destruct (upToDate plan); [apply Hd; set_solver|]. destruct Hs as (estimate & progress & ->). exists estimate, progress, (t2 ++ t3). split; [done|]. apply Hd; set_solver.
Qed.

(** ** Promotion and reconciliation *)

(** What later steps read of a plan. *)
Definition agrees (plan plan' : Plan) : Prop :=
  pl_Destination plan' = pl_Destination plan ∧ pl_Lineage plan' = pl_Lineage plan ∧ pl_Send plan' = pl_Send plan ∧ pl_Endpoints plan' = pl_Endpoints plan ∧
  tb_MappedDataset (pl_TargetBinding plan') = tb_MappedDataset (pl_TargetBinding plan) ∧ pl_Snapshot plan' = pl_Snapshot plan ∧ pl_Mode plan' = pl_Mode plan ∧
  pl_Source plan' = pl_Source plan.

Lemma settled_agrees plan plan' tr : settled plan plan' tr → agrees plan plan' ∧ pl_TargetBinding plan' = pl_TargetBinding plan.
Proof. intros [-> _]. done. Qed.

Lemma promote_guarded plan plan' ref st pre : verifiedBy plan ref st pre → agrees plan plan' → pl_TargetBinding plan' = pl_TargetBinding plan →
  always engineGuard pre (promoteBinding request plan') (λ tr r, match r with
    | Ok plan'' => pre `prefix_of` tr ∧ agrees plan plan'' ∧ pl_Expected plan'' = pl_Expected plan' | Err _ => True end).
Proof.
  intros Hv Ha Hb. unfold promoteBinding. apply always_bindE. eapply always_mono; [|apply reads, readonly_onTarget, placeholderAt_readonly].
  intros tr1 [[identity placeholder]|e] (seg & -> & _); [|done]. destruct (_ || _); [split; [by apply prefix_app_r|done]|].
  apply always_bindE, always_call; [done|]. intros [resolved|e]; [|done]. apply always_bindR.
  destruct (bindingForTarget _ _ _ _ _) as [promoted|] eqn:Ep; [|done]. destruct (Z.eqb_spec (tb_PoolGUID promoted) (tb_PoolGUID (pl_TargetBinding plan'))) as [Eg|]; [|done].
  apply bindingForTarget_on in Ep as (Hon & Hmap & _). apply always_bindE.
  eapply always_mono; [|apply storeBinding_guarded; right; exists plan, ref, st, resolved].
  - intros tr2 [[]|e] Hp; [|done]. cbn. split; [etrans; [|exact Hp]; rewrite <- app_assoc; by apply prefix_app_r|]. unfold agrees in *. cbn. rewrite Hmap. tauto.
  - rewrite Hb in *. split_and!; [|done| |done..].
    + eapply verifiedBy_prefix; [|done]. rewrite <- app_assoc. by apply prefix_app_r.
    + set_solver.
Qed.

Lemma reconcile_guarded plan plan' ref st pre : verifiedBy plan ref st pre → agrees plan plan' → pl_Expected plan' ⊆ pl_Expected plan →
  (∀ e, e ∈ pl_Expected plan' → arrived st e) →
  always engineGuard pre (reconcile plan' (ownTokens st (pl_Destination plan) (so_Recursive (pl_Send plan)))) (λ tr r, match r with
    | Ok _ => pre `prefix_of` tr | Err _ => True end).
Proof.
  intros Hv (_ & El & _ & Ee & _) Hsub Harr. set (state := ownTokens _ _ _). assert (Properties state = Properties st) as Eps by apply ownTokens_same.
  assert (∀ tr o r, pre `prefix_of` tr → pre `prefix_of` tr ++ [Event (o : op (result unit)) r]) as Hmore by (intros; by apply prefix_app_r).
  unfold reconcile. apply always_bindE. apply (always_forE _ _ (λ _ tr _, pre `prefix_of` tr)); [|intros tr1 wrote1 H1|done].
  { intros p dn rest tr wrote E Ht. unfold dropReceived. destruct (String.eqb_spec (pr_Source p) SourceReceived) as [Es|]; cbn [andb]; [|done].
    destruct (excludedKey (pr_Name p)) eqn:Ek; [|done]. apply always_bindE, always_call; [|intros [[]|e]; cbn; auto]. exists plan, ref, st, p.
    split_and!; try done; [by eapply verifiedBy_prefix|]. rewrite <- Eps, E. set_solver. }
  apply always_bindE. apply (always_forE _ _ (λ _ tr _, pre `prefix_of` tr)); [|intros tr2 wrote2 H2|done].
  { intros e dn rest tr wrote E Ht. unfold claimLineage. cbv zeta. apply always_bindR. destruct (DatasetLineage state _) as [lineage|] eqn:Hl; [|done]. destruct (_ && _); [done|].
    destruct (String.eqb_spec lineage "") as [->|]; [|done]. apply always_bindE, always_call; [|intros [[]|?]; cbn; auto]. exists plan, ref, st.
    split; [by eapply verifiedBy_prefix|]. left. exists e. rewrite <- Ee, E, El. split_and!; [set_solver|done| |done].
    rewrite <- Hl. unfold DatasetLineage, storedLineage. unfold state, ownTokens. by destruct (_ || _). }
  apply (always_forE _ _ (λ _ tr _, pre `prefix_of` tr)); [|done|done].
  intros e dn rest tr wrote E Ht. unfold claimMetadata. destruct (ex_Metadata e) as [metadata|] eqn:Em; [|done]. cbv zeta. apply always_bindR.
  destruct (foldM _ _ _) as [names|]; [|done]. destruct (_ =? _)%nat; [done|]. apply always_bindE, always_call; [|intros [[]|?]; cbn; auto].
  exists plan, ref, st. split; [by eapply verifiedBy_prefix|]. right. exists e, metadata. assert (e ∈ pl_Expected plan') as He by (rewrite E; set_solver).
  split_and!; try done; auto.
Qed.

Lemma ownedReplica_Ok plan verified : foldM (ownedReplica plan verified) tt (pl_Expected plan) = Ok tt →
  ∀ e metadata, e ∈ pl_Expected plan → ex_Metadata e = Some metadata →
    ownership verified (default noObject (objectMap verified !! ex_Destination e)) (pl_Lineage plan) = Ok metadata.
Proof.
  induction (pl_Expected plan) as [|x es IH]; [by intros _ e m ?%not_elem_of_nil|]. cbn [foldM]. intros H e metadata He Hm. apply bind_Ok in H as ([] & Hx & H).
  apply elem_of_cons in He as [->|He]; [|by apply IH]. unfold ownedReplica in Hx. rewrite Hm in Hx. by case_bool_decide.
Qed.

(** Both reads and the loop over them. *)
Lemma readReconciled_guarded plan plan' st reconciled pre : agrees plan plan' → (∀ e, e ∈ pl_Expected plan' → arrived st e) →
  Event (OnTarget (InspectState (pl_Destination plan) true)) (Ok st) ∈ pre →
  always engineGuard pre (readReconciled plan' (ownTokens st (pl_Destination plan) (so_Recursive (pl_Send plan))) reconciled) (λ tr r, match r with
    | Ok verified => pre `prefix_of` tr ∧ ∃ st', Event (OnTarget (InspectState (pl_Destination plan) true)) (Ok st') ∈ tr ∧
        verified = ownTokens st' (pl_Destination plan) (so_Recursive (pl_Send plan)) ∧ ∀ e, e ∈ pl_Expected plan' → arrived st' e
    | Err _ => True end).
Proof.
  intros (Ed & _ & Es & _) Harr Hev. unfold readReconciled. destruct reconciled; cbn [negb]; [|split; [done|by exists st]].
  rewrite Ed, Es. apply always_bindE, always_call; [done|]. intros [st'|e]; [|done]. apply always_bindR. destruct (verifyGUIDs _ _) as [[]|] eqn:Hg; [|done].
  apply verifyGUIDs_Ok in Hg as [_ Hg]. split; [by apply prefix_app_r|]. exists st'. split_and!; [set_solver|done|]. intros e He. by eapply arrived_tokens, Hg.
Qed.

Lemma ownedAt_intro plan plan' st tr : agrees plan plan' → (∀ e, e ∈ pl_Expected plan → e ∈ pl_Expected plan' ∨ dropped plan tr e) →
  Event (OnTarget (InspectState (pl_Destination plan) true)) (Ok st) ∈ tr → (∀ e, e ∈ pl_Expected plan' → arrived st e) →
  foldM (ownedReplica plan' (ownTokens st (pl_Destination plan) (so_Recursive (pl_Send plan)))) tt (pl_Expected plan') = Ok tt → ownedAt plan tr.
Proof.
  intros (_ & El & _) Hset Hev Harr Hown. exists st. split; [done|]. intros e metadata [He|He]%Hset Hm; [right|by left].
  pose proof (ownedReplica_Ok _ _ Hown e metadata He Hm) as Ho. rewrite ownTokens_objectMap, El in Ho. destruct (Harr e He) as (o & Eo & _ & Eg). exists o.
  rewrite Eo in Ho. cbn in Ho. split_and!; try done. rewrite <- Ho. unfold ownership. by destruct (ownTokens_same st (pl_Destination plan) (so_Recursive (pl_Send plan))) as [_ ->].
Qed.

(** ** Advancing the proofs *)

Lemma advance_guarded p plan plan' ref st sourceAfter pre : verifiedBy plan ref st pre → ownedAt plan pre → agrees plan plan' →
  always engineGuard pre (advance l request stream (planTarget plan) p plan' ref sourceAfter) (λ tr r, match r with
    | Ok _ => advanced plan ref st tr | Err _ => True end).
Proof.
  intros Hv Ho (_ & _ & _ & Ee & _). unfold advance. assert (verifiedGUIDs plan' = verifiedGUIDs plan) as -> by (unfold verifiedGUIDs; by rewrite Ee).
  apply always_bindE. eapply always_mono; [|apply always_seg; eapply always_weaken; [|apply always_extends, CheckpointSet_always]].
  2: { intros p' R o [H Hp]. destruct (mutates o) eqn:Hm; [|by apply engineGuard_reads]. destruct o; try done; try (cbn in H, Hm; congruence).
       exists plan, ref, st. split_and!; [by eapply verifiedBy_prefix|by eapply ownedAt_prefix|done]. }
  intros tr1 [[]|e] [_ (s1 & -> & Hc)]; [|done].
  assert (advanced plan ref st (pre ++ s1)) as Hadv.
  { split_and!; [eapply verifiedBy_prefix; [|done]|eapply ownedAt_prefix; [|done]|by apply did_seg]; by apply prefix_app_r. }
  apply always_bindE. eapply (always_mono _ _ _ (λ tr r, match r with Ok _ => advanced plan ref st tr | Err _ => True end)).
  2: { destruct (canResumeFromBookmark p); [|done].
       eapply always_mono; [|apply always_seg; eapply always_weaken; [|apply always_extends, ReleaseCompletedHold_always]].
       - intros tr [[]|e] [_ (s2 & -> & _)]; [|done]. eapply advanced_prefix; [|done]. by apply prefix_app_r.
       - intros p' R o [H Hp]. destruct (mutates o) eqn:Hm; [|by apply engineGuard_reads]. destruct o; try done; try (cbn in H, Hm; congruence).
         exists plan, ref, st. split; [by eapply advanced_prefix|by left]. }
  intros tr2 [[]|e] Hadv2; [|done]. apply always_bindR. destruct (References _ _ _) as [old|]; [|done].
  apply (always_forE _ _ (λ _ tr _, advanced plan ref st tr)); [|done|done]. intros prior dn rest tr [] _ Ht. unfold retireProof.
  destruct (olderProof stream (planTarget plan) ref prior) eqn:Hold; [|done]. apply olderProof_true in Hold.
  eapply always_mono; [|apply always_seg; eapply always_weaken; [|apply always_extends, ReleaseReference_always]].
  - intros tr3 [[]|e] [_ (s3 & -> & _)]; [|done]. eapply advanced_prefix; [|done]. by apply prefix_app_r.
  - intros p' R o [H Hp]. destruct (mutates o) eqn:Hm; [|by apply engineGuard_reads].
    assert (advanced plan ref st p') as Hadv' by by eapply advanced_prefix. pose proof (H Hm) as (? & ? & ? & _ & _ & _ & Hop).
    destruct o; try done; exists plan, ref, st; (split; [done|right]); by exists prior.
Qed.

Lemma adopt_guarded plan ref st pre : advanced plan ref st pre → always engineGuard pre (adoptPlaceholderChildren l request stream) (λ _ _, True).
Proof.
  intros Hadv. unfold adoptPlaceholderChildren. apply always_bindR. destruct (mapped request stream) as [[mappedRoot destination]|] eqn:Hm; [|done]. cbv zeta.
  apply always_bindE, always_call; [done|]. intros [inventory|e]; [|done]. destruct (negb _); [done|]. apply always_bindE, always_call; [done|].
  intros [state|e]; [|done]. destruct (isPlaceholder state _) eqn:Hp; cbn [negb]; [|done]. destruct (negb _); [done|]. set (tr0 := _ ++ [Event _ (Ok state)]).
  assert (∀ tr, tr0 `prefix_of` tr → advanced plan ref st tr ∧ asideRead destination inventory tr) as Hg.
  { intros tr Ht. split; [eapply advanced_prefix; [|done]; etrans; [|exact Ht]; unfold tr0; rewrite <- app_assoc; by apply prefix_app_r|].
    destruct Ht as [t ->]. unfold asideRead, tr0. split; [set_solver|]. exists state. split; [set_solver|by apply isPlaceholder_empty]. }
  apply always_bindE. apply (always_forE _ _ (λ _ tr _, tr0 `prefix_of` tr)); [|intros tr [] Ht|done].
  - intros d dn rest tr [] _ Ht. unfold adoptChild. destruct (CutPrefix (ds_Name d) _) as [child found] eqn:Ec. destruct found; cbn [negb orb]; [|done].
    destruct (Contains child "/"); [done|]. destruct (listed inventory _) eqn:El; [done|]. apply callWrapped_always; [|intros [[]|e]; cbn; [by apply prefix_app_r|done]].
    exists destination, mappedRoot, inventory. split_and!; [done..|]. right. exists child, plan, ref, st. destruct (Hg tr Ht) as [? ?]. split_and!; try done.
    unfold CutPrefix in Ec. destruct (HasPrefix _ _) eqn:Hpre; [|done]. injection Ec as <-. rewrite <- app_assoc_str. by apply TrimPrefix_spec.
  - apply always_call; [|done]. split; [done|]. exists destination, mappedRoot, inventory, plan, ref, st. destruct (Hg tr Ht) as [? ?]. done.
Qed.

Lemma planned_source view plan ref tr : planned view plan ref tr → pl_Source plan = stream.
Proof.
  intros (t0 & t1 & -> & Hl & Hp). pose proof (load_stream _ _ _ _ _ Hl) as Hne. destruct (load_reads _ _ _ _ _ Hl) as (Hst & _).
  apply String.eqb_neq in Hne. destruct Hp as [[HB _]|HB]; [apply Build_plan in HB as (_ & _ & _ & ->)|apply BuildResume_plan in HB as (_ & _ & _ & _ & ->)];
    by rewrite Hst, Hne.
Qed.

(** ** A whole attempt *)

(** A result stands for a stream whose replica is verified and checkpointed. *)
Definition completed (r : Result) (tr : list event) : Prop :=
  rs_Verified r = true ∧ pl_Source (rs_Plan r) = stream ∧
  ∃ plan ref st, advanced plan ref st tr ∧ pl_Snapshot (rs_Plan r) = pl_Snapshot plan ∧ pl_Mode (rs_Plan r) = pl_Mode plan.
Lemma completed_prefix r tr tr' : tr `prefix_of` tr' → completed r tr → completed r tr'.
Proof. intros Hp (H & Hs & plan & ref & st & Ha & H'). split; [done|]. split; [done|]. exists plan, ref, st. split; [by eapply advanced_prefix|done]. Qed.

Lemma applyOnce_guarded pre :
  always engineGuard pre (applyOnce l request stream) (λ tr r, match r with Ok r => completed r tr | Err _ => True end).
Proof.
  unfold applyOnce. apply always_bindR. destruct (Binding.stream request stream) as [member|]; [|done]. cbv zeta. set (p := if (stream =? rq_Source request)%string then rq_Policy request else mb_Policy member).
  apply always_bindE. eapply always_mono; [|apply setAside_guarded]. intros tr0 [[]|e] _; [|done].
  apply always_bindE. eapply always_mono; [|apply reads, load_readonly]. intros tr1 [before|e] (s1 & -> & Hload); [|done].
  apply always_bindE. eapply always_mono; [|by apply prepare_guarded, did_seg]. intros tr2 [[[prepared plan] ref]|e]; [|done]. intros Hplanned.
  apply always_bindE. eapply always_mono; [|by eapply send_guarded]. intros tr3 [[estimate progress]|e]; [|done]. intros (t1 & -> & Hsent).
  apply always_bindE. eapply always_mono; [|by eapply readBack_guarded]. intros tr4 [[destination sourceAfter]|e]; [|done]. intros (st & t2 & -> & -> & Hread).
  apply always_bindE. eapply always_mono; [|apply settle_guarded]. intros tr5 [plan'|e]; [|done]. intros (t3 & -> & Hset).
  apply always_bindR. destruct (verifyGUIDs _ _) as [[]|] eqn:Hg; [|done]. apply always_bindR. destruct (checkSource _ _ _ _ _) as [[]|]; [|done].
  destruct (verifiedBy_intro _ _ _ _ _ _ _ _ _ Hplanned Hsent Hread Hset Hg) as [Hv Harr]. rewrite <- !app_assoc. set (tr5 := tr2 ++ t1 ++ t2 ++ t3) in *.
  destruct (settled_agrees _ _ _ Hset) as [Hag Hbind]. destruct Hset as (_ & Hsub & Hset).
  assert (∀ e, e ∈ pl_Expected plan → e ∈ pl_Expected plan' ∨ dropped plan tr5 e) as Hset5.
  { intros e [?|He]%Hset; [by left|right]. eapply dropped_mono; [|exact He]. unfold tr5. set_solver. }
  assert (Event (OnTarget (InspectState (pl_Destination plan) true)) (Ok st) ∈ tr5) as Hev by (unfold readState in Hread; unfold tr5; destruct (upToDate plan); set_solver).
  apply always_bindE. eapply always_mono; [|by eapply promote_guarded]. intros tr6 [plan''|e]; [|done]. intros (H6 & Hag' & Eexp).
  apply always_bindE. eapply always_mono; [|eapply (reconcile_guarded plan plan''); [by eapply verifiedBy_prefix|done|by rewrite Eexp|by rewrite Eexp]].
  intros tr7 [reconciled|e]; [|done]. intros H7. assert (tr5 `prefix_of` tr7) as H57 by by etrans.
  apply always_bindE. eapply always_mono; [|eapply (readReconciled_guarded plan plan'' st); [done|by rewrite Eexp|destruct H57 as [u ->]; set_solver]].
  intros tr8 [verified|e]; [|done]. intros (H8 & st' & Hev' & -> & Harr'). assert (tr5 `prefix_of` tr8) as H58 by by etrans.
  apply always_bindR. destruct (foldM _ _ _) as [[]|] eqn:Hown; [|done].
  assert (ownedAt plan tr8) as Hoa.
  { eapply (ownedAt_intro plan plan'' st'); [done| |done..]. intros e [?|He]%Hset5; [left; by rewrite Eexp|right]. eapply dropped_mono; [|exact He].
    destruct H58 as [u ->]. set_solver. }
  apply always_bindE. eapply always_mono; [|by eapply (advance_guarded p plan plan''); [eapply verifiedBy_prefix|..]].
  intros tr9 [[]|e]; [|done]. intros Hadv. apply always_bindE. eapply always_mono; [|apply always_seg; by eapply adopt_guarded].
  intros tr10 [[]|e] [_ (s & -> & _)]; [|done]. cbn. destruct Hag' as (_ & _ & _ & _ & _ & ? & ? & Es). split; [done|].
  split; [cbn [rs_Plan]; rewrite Es; by eapply planned_source|]. exists plan, ref, st. split; [eapply advanced_prefix; [|done]; by apply prefix_app_r|done].
Qed.

Lemma applyAttempts_guarded : ∀ retries pre,
  always engineGuard pre (applyAttempts retries l request stream) (λ tr r, match r with Ok r => completed r tr | Err _ => True end).
Proof.
  induction retries as [|retries IH]; intros pre; cbn [applyAttempts]; apply always_bind; (eapply always_mono; [|apply applyOnce_guarded]); intros tr r Hr; [done|].
  destruct r as [r|e]; [done|]. destruct (negb _); [done|]. apply always_bind, always_call; [done|]. intros []; [done|]. apply IH.
Qed.

Lemma applyStream_guarded pre :
  always engineGuard pre (applyStream l request stream) (λ tr r, match r with Ok r => completed r tr | Err _ => True end).
Proof.
  unfold applyStream, applySettled. apply always_bindE. eapply always_mono; [|apply applyAttempts_guarded]. intros tr [r|e]; [|done]. intros Hr. destruct (negb _); [done|].
  apply always_bindE. eapply always_mono; [|apply applyAttempts_guarded]. intros tr' [r'|e]; [|done]. done.
Qed.
End Guard.

(** * Whole transfers *)

(** A call of a transfer is justified by the stream it is made for. *)
Definition transferGuard (l : Engine) (request : Request) (pre : list event) (R : Type) (o : op R) : Prop :=
  mutates o = false ∨ ∃ streams m, Streams request = Ok streams ∧ m ∈ streams ∧ engineGuard l request (mb_Dataset m) pre R o.

Lemma refuseHostLocal_readonly l request : readonly (refuseHostLocal l request).
Proof.
  unfold refuseHostLocal. destruct (_ || _); [done|]. apply readonly_bindE; [done|]. intros i. destruct (_ =? "")%string; [done|].
  apply readonly_bindE; [done|]. intros d. apply checkHostLocal_readonly.
Qed.

Lemma applyStream_transfer l request streams m pre : Streams request = Ok streams → m ∈ streams →
  always (transferGuard l request) pre (applyStream l request (mb_Dataset m))
    (λ tr r, pre `prefix_of` tr ∧ match r with Ok r => completed l request (mb_Dataset m) r tr | Err _ => True end).
Proof.
  intros Hs Hm. eapply always_mono; [|apply always_seg; eapply always_weaken; [|apply applyStream_guarded]].
  - intros tr r [H (seg & -> & _)]. split; [by apply prefix_app_r|done].
  - intros p R o H. right. eauto.
Qed.

(** A failed stream that keeps the streams beneath it from running. *)
Definition blocks (attempts : list (string * result Result)) (dataset : string) : Prop :=
  ∃ n e, (n, Err e) ∈ attempts ∧ isBusy e = false ∧ inside dataset n = true.

(** What the loop over the members keeps: each one done was attempted or is
    beneath a failure, and what was attempted had no failure above it. *)
Record loopInv (l : Engine) (request : Request) (dn : list Member) (tr : list event) (s : applyLoop) : Prop := {
  li_completed : ∀ n r, (n, Ok r) ∈ lp_Streams s → completed l request n r tr;
  li_failed : ∀ n e, (n, e) ∈ lp_Failed s ↔ (n, Err e) ∈ lp_Streams s ∧ isContextError e = false;
  li_stop : lp_Stop s = None → ∀ n e, (n, Err e) ∈ lp_Streams s → isContextError e = false;
  li_unverified : lp_Stop s ≠ None → lp_Verified s = false;
  li_all : lp_Stop s = None → lp_Failed s = [] → lp_Verified s = true;
  li_blocked : lp_Stop s = None → ∀ n, n ∈ lp_Blocked s ↔ ∃ e, (n, Err e) ∈ lp_Streams s ∧ isBusy e = false;
  li_done : lp_Stop s = None → ∀ m, m ∈ dn → (∃ r, (mb_Dataset m, r) ∈ lp_Streams s) ∨ blocks (lp_Streams s) (mb_Dataset m);
  li_order : ∀ before n r after, lp_Streams s = before ++ (n, r) :: after → ¬ blocks before n;
  li_streams : ∀ n r, (n, r) ∈ lp_Streams s → ∃ m, m ∈ dn ∧ mb_Dataset m = n;
  li_verified : lp_Verified s = true → ∀ m, m ∈ dn → ∃ r, (mb_Dataset m, Ok r) ∈ lp_Streams s
}.

Lemma blocks_snoc attempts x dataset : blocks attempts dataset → blocks (attempts ++ [x]) dataset.
Proof. intros (n & e & H & H'). exists n, e. split; [set_solver|done]. Qed.

Lemma loopInv_start l request tr : loopInv l request [] tr (mkLoop None true [] [] [] None).
Proof. split; cbn; try (intros; set_solver). intros before n r after E. by destruct before. Qed.

Lemma loopInv_stopped l request dn tr s m : loopInv l request dn tr s → is_Some (lp_Stop s) → loopInv l request (dn ++ [m]) tr s.
Proof.
  intros [] [e He]. split; try done; try by rewrite He.
  - intros n r (m' & ? & ?)%li_streams0. exists m'. set_solver.
  - rewrite li_unverified0 by by rewrite He. done.
Qed.

Lemma loopInv_skipped l request dn tr s m : loopInv l request dn tr s → lp_Stop s = None → blocks (lp_Streams s) (mb_Dataset m) →
  loopInv l request (dn ++ [m]) tr (mkLoop (lp_Top s) false (lp_Streams s) (lp_Failed s) (lp_Blocked s) None).
Proof.
  intros [] Hn Hb. split; cbn; try done.
  - intros _. by apply li_stop0.
  - intros _ Hf. destruct Hb as (n & e & He & _). assert ((n, e) ∈ lp_Failed s) as Hin by (apply li_failed0; split; [done|by apply (li_stop0 Hn n)]).
    rewrite Hf in Hin. by apply not_elem_of_nil in Hin.
  - intros _. by apply li_blocked0.
  - intros _ m' [?| ->%list_elem_of_singleton]%elem_of_app; [auto|by right].
  - intros n r (m' & ? & ?)%li_streams0. exists m'. set_solver.
Qed.

(** The state after one more stream. *)
Definition attempted (s : applyLoop) (n : string) (r : result Result) (s' : applyLoop) : Prop :=
  lp_Streams s' = lp_Streams s ++ [(n, r)] ∧
  match r with
  | Ok _ => lp_Verified s' = lp_Verified s ∧ lp_Failed s' = lp_Failed s ∧ lp_Blocked s' = lp_Blocked s ∧ lp_Stop s' = None
  | Err e => lp_Verified s' = false ∧
      if isContextError e then lp_Failed s' = lp_Failed s ∧ lp_Stop s' = Some e
      else lp_Failed s' = lp_Failed s ++ [(n, e)] ∧ lp_Stop s' = None ∧ lp_Blocked s' = (if isBusy e then lp_Blocked s else lp_Blocked s ++ [n])
  end.

Lemma loopInv_attempted l request dn tr tr' s s' m r : loopInv l request dn tr s → lp_Stop s = None → ¬ blocks (lp_Streams s) (mb_Dataset m) →
  tr `prefix_of` tr' → (∀ x, r = Ok x → completed l request (mb_Dataset m) x tr') → attempted s (mb_Dataset m) r s' → loopInv l request (dn ++ [m]) tr' s'.
Proof.
  intros [] Hn Hb Hp Hc [Es Hs]. specialize (li_stop0 Hn). specialize (li_blocked0 Hn). specialize (li_done0 Hn). split.
  - intros n x. rewrite Es. intros [?|[= -> <-]%list_elem_of_singleton]%elem_of_app; [by eapply completed_prefix, li_completed0|by apply Hc].
  - intros n e. rewrite Es, elem_of_app, list_elem_of_singleton. destruct r as [x|e'].
    + destruct Hs as (_ & -> & _). rewrite li_failed0. intuition congruence.
    + destruct Hs as [_ Hs]. destruct (isContextError e') eqn:Ec; destruct Hs as [-> _]; rewrite ?elem_of_app, ?list_elem_of_singleton, li_failed0;
        (split; [intros H|intros [[?|[= -> ->]] ?]]); intuition congruence.
  - intros Hn' n e. rewrite Es. intros [?|[= -> <-]%list_elem_of_singleton]%elem_of_app; [by eapply li_stop0|]. destruct Hs as [_ Hs].
    destruct (isContextError e); [|done]. destruct Hs as [_ Hs]. congruence.
  - intros Hn'. destruct r as [x|e]; [destruct Hs as (_ & _ & _ & ?); congruence|]. by destruct Hs.
  - intros Hn' Hf. destruct r as [x|e]; [destruct Hs as (-> & E & _); apply li_all0; [done|by rewrite <- E]|]. destruct Hs as [_ Hs].
    destruct (isContextError e); destruct Hs as [E Hs]; [congruence|]. rewrite Hf in E. by apply app_cons_not_nil in E.
  - intros Hn' n. rewrite Es. setoid_rewrite elem_of_app. setoid_rewrite list_elem_of_singleton. destruct r as [x|e].
    + destruct Hs as (_ & _ & -> & _). rewrite li_blocked0. split; [intros (e & ? & ?); eauto|]. intros (e & [?|?] & ?); [eauto|congruence].
    + destruct Hs as [_ Hs]. destruct (isContextError e); [destruct Hs; congruence|]. destruct Hs as (_ & _ & ->). destruct (isBusy e) eqn:Eb.
      * rewrite li_blocked0. split; [intros (e' & ? & ?); eauto|]. intros (e' & [?|[= -> <-]] & ?); [eauto|congruence].
      * rewrite elem_of_app, list_elem_of_singleton, li_blocked0. split; [intros [(e' & ? & ?)| ->]; eauto|]. intros (e' & [?|[= -> <-]] & ?); eauto.
  - intros _ m'. rewrite Es. intros [Hm| ->%list_elem_of_singleton]%elem_of_app; [|left; exists r; set_solver].
    destruct (li_done0 m' Hm) as [[x ?]|?]; [left; exists x; set_solver|right; by apply blocks_snoc].
  - intros before n x after. rewrite Es. intros E. destruct after as [|z after _] using rev_ind.
    + apply app_inj_tail in E as [<- [= <- <-]]. done.
    + change (before ++ (n, x) :: after ++ [z]) with (before ++ ((n, x) :: after) ++ [z]) in E. rewrite app_assoc in E. apply app_inj_tail in E as [E _].
      by eapply li_order0.
  - intros n x. rewrite Es. intros [(m' & ? & ?)%li_streams0|[= -> _]%list_elem_of_singleton]%elem_of_app; [exists m'|exists m]; set_solver.
  - intros Hv m'. rewrite Es. destruct r as [x|e]; [|destruct Hs; congruence]. destruct Hs as [Hv' _].
    intros [Hm| ->%list_elem_of_singleton]%elem_of_app; [|exists x; set_solver]. rewrite Hv' in Hv. destruct (li_verified0 Hv m' Hm) as [y ?]. exists y. set_solver.
Qed.

Lemma applyNext_transfer l request streams dn tr s m : Streams request = Ok streams → m ∈ streams → loopInv l request dn tr s →
  always (transferGuard l request) tr (applyNext l request s m) (λ tr' s', loopInv l request (dn ++ [m]) tr' s').
Proof.
  intros Hs Hm Hi. unfold applyNext. case_bool_decide as Hstop; [by apply loopInv_stopped|]. apply eq_None_not_Some in Hstop.
  destruct (existsb _ (lp_Blocked s)) eqn:Hb.
  { apply loopInv_skipped; [done..|]. apply existsb_exists in Hb as (n & Hn%list_elem_of_In & Hin). apply (li_blocked _ _ _ _ _ Hi Hstop) in Hn as (e & ? & ?). by exists n, e. }
  assert (¬ blocks (lp_Streams s) (mb_Dataset m)) as Hnb.
  { intros (n & e & He & Hbusy & Hin). assert (n ∈ lp_Blocked s) as Hn by (apply (li_blocked _ _ _ _ _ Hi Hstop); eauto).
    apply (existsb_false_elem _ _ Hb) in Hn. congruence. }
  apply always_bind. eapply always_mono; [|by eapply applyStream_transfer]. intros tr' [r|e] [Hp Hc].
  - cbn. eapply (loopInv_attempted _ _ _ tr _ _ _ _ (Ok r)); try done; [by intros x [= <-]|]. split; [done|]. cbn. destruct Hc as [-> _]. by rewrite andb_true_r.
  - destruct (isContextError e) eqn:Ec; cbn; (eapply (loopInv_attempted _ _ _ tr _ _ _ _ (Err e)); try done); split; cbn; rewrite ?Ec; try done.
Qed.

(** What a transfer reports. *)
Record reported (l : Engine) (request : Request) (tr : list event) (res : Applied) : Prop := {
  rp_completed : ∀ n r, (n, Ok r) ∈ ap_Streams res → completed l request n r tr;
  rp_all : ap_Err res = None → ap_Verified res = true ∧
    ∃ streams, Streams request = Ok streams ∧ ∀ m, m ∈ streams → ∃ r, (mb_Dataset m, Ok r) ∈ ap_Streams res;
  rp_order : ∀ before n r after, ap_Streams res = before ++ (n, r) :: after → ¬ blocks before n;
  rp_failed : ∀ failed, ap_Err res = Some (StreamsFailed failed) → (∀ n e, (n, e) ∈ failed ↔ (n, Err e) ∈ ap_Streams res) ∧
    ∃ streams, Streams request = Ok streams ∧ ∀ m, m ∈ streams → (∃ r, (mb_Dataset m, r) ∈ ap_Streams res) ∨ blocks (ap_Streams res) (mb_Dataset m)
}.

Lemma loop_reported l request streams tr s : Streams request = Ok streams → loopInv l request streams tr s →
  reported l request tr (mkApplied (lp_Top s) (lp_Verified s) (lp_Streams s)
    (match lp_Stop s, lp_Failed s with Some e, _ => Some (Plain e) | None, [] => None | None, failed => Some (StreamsFailed failed) end)).
Proof.
  intros Hs []. split; cbn; [done| |done|].
  - destruct (lp_Stop s); [done|]. destruct (lp_Failed s) as [|f fs] eqn:Ef; [|done]. intros _. assert (lp_Verified s = true) as Hv by auto. split; [done|].
    exists streams. auto.
  - intros failed. destruct (lp_Stop s); [done|]. destruct (lp_Failed s) as [|f fs] eqn:Ef; [done|]. intros [= <-]. split; [|exists streams; auto].
    intros n e. rewrite li_failed0. split; [by intros [? _]|]. intros He. split; [done|]. by eapply li_stop0.
Qed.

Lemma Apply_always l request pre : always (transferGuard l request) pre (Apply l request) (λ tr res, reported l request tr res).
Proof.
  assert (∀ tr e, reported l request tr (refused e)) as Hrefused.
  { intros tr e. split; cbn; [set_solver|done| |done]. intros before n r after E. by destruct before. }
  unfold Apply. destruct (Streams request) as [streams|] eqn:Hs; [|apply Hrefused]. apply always_bind.
  eapply always_mono; [|apply always_readonly; [by left|apply refuseHostLocal_readonly]]. intros tr1 [[]|e] _; [|apply Hrefused].
  destruct (length (rq_Members request) =? 0)%nat eqn:Hlen.
  - assert (streams = [mkMember (rq_Source request) (rq_Policy request) (rq_Snapshot request)]) as -> by (unfold Streams in Hs; rewrite Hlen in Hs; congruence).
    pose proof (applyStream_transfer l request _ _ tr1 Hs (list_elem_of_here _ _)) as Ha. cbn [mb_Dataset] in Ha.
    apply always_bind. eapply always_mono; [|exact Ha]. intros tr2 r [_ Hc]. split; cbn [ap_Streams ap_Err ap_Verified].
    + intros n x [= -> <-]%list_elem_of_singleton. done.
    + destruct r as [r|e]; [|done]. intros _. split; [done|]. eexists. split; [done|]. intros m ->%list_elem_of_singleton. exists r. by left.
    + intros before n x after E. destruct before as [|y before]; [|by destruct before]. intros (? & ? & ?%not_elem_of_nil & _). done.
    + by destruct r.
  - apply always_bind. eapply always_mono; [|eapply (always_forP_at _ _ (loopInv l request)); [|apply loopInv_start]].
    + intros tr2 s Hi. by apply (loop_reported _ _ streams).
    + intros m dn rest tr s E Hi. apply (applyNext_transfer _ _ streams); [done|rewrite E; set_solver|done].
Qed.

(** The endpoint of a verified stream is at its replica. *)
Lemma verifiedBy_endpoint l request stream plan ref st pre : verifiedBy l request stream plan ref st pre →
  ∃ e, e ∈ pl_Expected plan ∧ ex_Source e = pl_Snapshot plan ∧ arrived st e.
Proof.
  intros (view & t0 & t1 & -> & (u0 & u1 & -> & _ & Hp) & Hd).
  assert ((∃ e, e ∈ pl_Expected plan ∧ ex_Source e = pl_Snapshot plan) ∧ pl_Snapshot plan ∈ ex_Source <$> pl_Endpoints plan) as [(e & He & Es) Hin].
  { destruct Hp as [[HB _]|HB]; [apply Build_plan in HB as (_ & ? & ? & _); done|]. apply BuildResume_plan in HB as (_ & (e & He & Es) & Hsame & _).
    split; [by exists e|]. rewrite <- Es, <- Hsame. by apply list_elem_of_fmap_2. }
  assert (∃ tr, delivered plan st tr) as (tr & _ & _ & Hall) by (destruct (upToDate plan); [eauto|destruct Hd as (? & ? & ? & _ & ?); eauto]).
  exists e. split_and!; [done..|]. destruct (Hall e He) as [?|(_ & Hne & _)]; [done|]. by rewrite Es in Hne.
Qed.

(** * The theorems *)

Lemma transferGuard_mutates l request pre R (o : op R) : transferGuard l request pre R o → mutates o = true →
  ∃ stream, (∃ streams m, Streams request = Ok streams ∧ m ∈ streams ∧ mb_Dataset m = stream) ∧ engineGuard l request stream pre R o.
Proof. intros [H|(streams & m & Hs & Hm & H)] Ho; [congruence|]. exists (mb_Dataset m). split; [by exists streams, m|done]. Qed.

Lemma Apply_justified l request tr res t1 R (o : op R) answer t2 : runs (Apply l request) tr res → tr = t1 ++ Event o answer :: t2 → mutates o = true →
  ∃ stream, (∃ streams m, Streams request = Ok streams ∧ m ∈ streams ∧ mb_Dataset m = stream) ∧ engineGuard l request stream t1 R o.
Proof.
  intros Hr E Hm. destruct (always_runs _ _ _ tr [] _ Hr (Apply_always l request [])) as [_ Hj]. specialize (Hj t1 _ t2 E). rewrite app_nil_l in Hj.
  by apply transferGuard_mutates.
Qed.

(** C3: A stream is run only as planned. Whenever a transfer sends, both ends were
    read just before, with nothing but the size estimate since; what is sent and
    how it is received are exactly the plan's for that read, and the plan is not
    up to date. A new stream's endpoints were all held under one stored proof
    before that read, and so was its base if that is a snapshot; a resumed one is
    planned from the proof that holds its source. *)
Theorem Apply_sends l request tr res t1 send receive estimate answer t2 :
  runs (Apply l request) tr res → tr = t1 ++ Event (RunStream send receive estimate) answer :: t2 →
  ∃ stream t0 read view plan ref, t1 = t0 ++ read ++ [Event (EstimateStream send) (Ok estimate)] ∧ runs (load l request stream) read (Ok view) ∧
    send = pl_Send plan ∧ receive = pl_Receive plan ∧ pl_Mode plan ≠ "up-to-date" ∧
    (Build request view (lo_installation l) = Ok plan ∧ heldFor l request stream plan ref t0 ∨ BuildResume request view (lo_installation l) = Ok (plan, ref)).
Proof.
  intros Hr E. destruct (Apply_justified _ _ _ _ _ _ _ _ _ Hr E eq_refl) as (stream & _ & view & plan & ref & t0 & -> & (u0 & u1 & -> & Hl & Hp) & Hu & -> & ->).
  exists stream, u0, u1, view, plan, ref. rewrite <- app_assoc. split_and!; try done. unfold upToDate in Hu. by apply String.eqb_neq.
Qed.

(** C1: Recovery state is given up only for what is verified. Whenever a transfer
    releases a hold, destroys a bookmark or removes a proof at the source, the
    stream it does so for ran if there was anything to send, and its replica was
    read since, complete: every snapshot of the plan there with the source's GUID,
    but for intermediates gone from the source, and the endpoint always; what the
    source owns verified as owned there; and the checkpoint of the endpoints was
    made. What is released is the completed hold of that endpoint, still
    checkpointed, or an older proof of the same stream and target. *)
Theorem Apply_releases l request tr res t1 R (o : op R) answer t2 :
  runs (Apply l request) tr res → tr = t1 ++ Event o answer :: t2 →
  match o with ReleaseHold _ _ | DestroyBookmark _ | InheritProperty _ _ => true | _ => false end = true →
  ∃ stream plan ref st, advanced l request stream plan ref st t1 ∧
    (∃ e, e ∈ pl_Expected plan ∧ ex_Source e = pl_Snapshot plan ∧ arrived st e) ∧
    (completedGuard (lo_lifecycle l) (rq_Source request) ref t1 R o ∨
     ∃ prior, (rf_TargetID prior = TargetID (tb_CanonicalTarget (pl_TargetBinding plan)) ∧ rf_Dataset prior = stream ∧
         Created (rf_Metadata prior) < Created (rf_Metadata ref)) ∧
       releaseGuard (lo_lifecycle l) (rq_Source request) prior t1 R o).
Proof.
  intros Hr E Ho. destruct (Apply_justified _ _ _ _ _ _ _ _ _ Hr E) as (stream & _ & Hg); [by destruct o|].
  destruct o; try discriminate Ho; destruct Hg as (plan & ref & st & Hadv & Hg); exists stream, plan, ref, st; (split_and!; [done| |done]);
    eapply verifiedBy_endpoint, Hadv.
Qed.

(** C8: A transfer changes a destination only where it must. Each change there is
    the creation of a missing ancestor of the replica of a full stream, never the
    replica itself, inside the configured root; the renaming aside of the placeholder read to stand where a
    replica goes, with no snapshots and no receive pending; and, only after the
    stream's replica is verified, the removal of private values it received, the
    lineage of a replica that has none, the ownership metadata of a snapshot that
    arrived, the renaming of the placeholder's children beneath the replica, and
    the destruction, never recursive, of the placeholder itself. Nothing else is
    called: no snapshot, receive or hold there is ever destroyed. *)
Theorem Apply_target_safe l request tr res t1 R (o : op R) answer t2 :
  runs (Apply l request) tr res → tr = t1 ++ Event (OnTarget o) answer :: t2 → mutates o = true →
  ∃ stream, (∃ streams m, Streams request = Ok streams ∧ m ∈ streams ∧ mb_Dataset m = stream) ∧ targetGuard l request stream t1 o.
Proof. intros Hr E Ho. exact (Apply_justified _ _ _ _ _ _ _ _ _ Hr E Ho). Qed.

(** C15: What a transfer reports is so. A stream reported verified has a replica
    that was read complete and a checkpoint; success means every stream of the
    request was; a stream is attempted only when no stream above it failed, unless
    that failed to replace a busy placeholder; and when some failed, those are
    exactly the ones reported, and every stream not attempted is beneath one. *)
Theorem Apply_reports l request tr res : runs (Apply l request) tr res → reported l request tr res.
Proof. intros Hr. by destruct (always_runs _ _ _ tr [] _ Hr (Apply_always l request [])) as [H _]. Qed.

(** * A pair of pools to run on *)

Module SampleEngine.
Definition effective : Effective :=
  Resolve (mkDataset "tank/data" Filesystem "-") None
    [SampleTarget.on "enabled" "on"; SampleTarget.on "local" "backup"; SampleTarget.on "discard" "first"; SampleTarget.on "incremental" "latest"] ∅.
Definition request : Request := mkRequest "tank/data" "backup" "" effective [] "" "" "" false.
Definition engine : Engine := mkLocal SamplePool.service SamplePool.installation true true.

(** A stream brings the destination every snapshot of the source. *)
Definition copied (source : State) : State :=
  mkState (mkObject "backup/data" "filesystem" 20 0 4 ::
    ((λ o, mkObject ("backup/data" +:+ TrimPrefix (ob_Name o) "tank/data") "snapshot" (ob_GUID o) 0 (ob_CreateTXG o))
     <$> filter (λ o, ob_Type o = "snapshot") (Objects source))) [] ∅ ∅ ∅ ∅.
Definition onSource {R} (o : op R) (w : State * State) : R * (State * State) := let '(r, st) := SimPool.answer _ o w.1 in (r, (st, w.2)).
Definition onReplica {R} (o : op R) (w : State * State) : R * (State * State) := let '(r, st) := SimPool.answer _ o w.2 in (r, (w.1, st)).
Definition answer (R : Type) (o : op R) (w : State * State) : R * (State * State) :=
  match o in op R return R * (State * State) with
  | ListDatasets => (Ok SampleTransfer.inventory, w)
  | RunStream _ _ _ => (Ok (mkProgress 1 (mkEstimate false 0 "") true), (w.1, copied w.1))
  | OnTarget o =>
    match o in op R return R * (State * State) with
    | ListDatasets => (Ok SampleTransfer.inventory, w)
    | InspectDatasetIdentity d => (Ok (if (d =? "backup")%string then SampleTarget.anchor else SampleTransfer.replica), w)
    | o => onReplica o w
    end
  | o => onSource o w
  end.
Definition start : State * State := (SampleTransfer.unbound, SampleTransfer.destination).
Definition trace : list event := (traceWith answer (Apply engine request) start).1.
Definition result : Applied := (traceWith answer (Apply engine request) start).2.
Lemma ran : runs (Apply engine request) trace result.
Proof. unfold trace, result. exact (traceWith_runs answer (Apply engine request) start). Qed.

(** A call of a kind, with what is around it. *)
Lemma existsb_split {A} (f : A → bool) tr : existsb f tr = true → ∃ t1 e t2, tr = t1 ++ e :: t2 ∧ f e = true.
Proof.
  induction tr as [|x tr IH]; [done|]. cbn. destruct (f x) eqn:E; [by exists [], x, tr|]. intros (t1 & e & t2 & -> & He)%IH. by exists (x :: t1), e, t2.
Qed.

Definition runsStream (e : event) : bool := match e with Event (RunStream _ _ _) _ => true | _ => false end.
Definition releasesHold (e : event) : bool := match e with Event (ReleaseHold _ _) _ => true | _ => false end.
Definition writesTarget (e : event) : bool := match e with Event (OnTarget (SetProperties _ _)) _ => true | _ => false end.
Definition succeeded (res : Applied) : bool := match ap_Err res with None => true | Some _ => false end.
Definition kinds (tr : list event) (res : Applied) : bool := existsb runsStream tr && existsb releasesHold tr && existsb writesTarget tr && succeeded res.
Lemma kinds_found tr res : kinds tr res = true →
  (∃ t1 send receive estimate answer t2, tr = t1 ++ Event (RunStream send receive estimate) answer :: t2) ∧
  (∃ t1 tag snap answer t2, tr = t1 ++ Event (ReleaseHold tag snap) answer :: t2) ∧
  (∃ t1 d properties answer t2, tr = t1 ++ Event (OnTarget (SetProperties d properties)) answer :: t2) ∧ ap_Err res = None.
Proof.
  intros [[[H1 H2]%andb_true_iff H3]%andb_true_iff H4]%andb_true_iff. split_and!.
  - destruct (existsb_split _ _ H1) as (t1 & [R o answer] & t2 & -> & He). destruct o; try discriminate He. by eexists _, _, _, _, _, _.
  - destruct (existsb_split _ _ H2) as (t1 & [R o answer] & t2 & -> & He). destruct o; try discriminate He. by eexists _, _, _, _, _.
  - destruct (existsb_split _ _ H3) as (t1 & [R o answer] & t2 & -> & He). destruct o; try discriminate He. destruct o; try discriminate He. by eexists _, _, _, _, _.
  - unfold succeeded in H4. by destruct (ap_Err res).
Qed.

(** It sends, marks the replica, checkpoints and lets the endpoint go. *)
Lemma kinds_true : kinds trace result = true.
Proof. vm_cast_no_check (eq_refl true). Qed.
Lemma one_stream : Streams request = Ok [mkMember "tank/data" effective ""].
Proof. reflexivity. Qed.
End SampleEngine.

Lemma Apply_sends_witness : ∃ stream read view, runs (load SampleEngine.engine SampleEngine.request stream) read (Ok view).
Proof.
  destruct (SampleEngine.kinds_found SampleEngine.trace SampleEngine.result SampleEngine.kinds_true) as ((t1 & send & receive & estimate & answer & t2 & E) & _).
  destruct (Apply_sends SampleEngine.engine SampleEngine.request SampleEngine.trace SampleEngine.result t1 send receive estimate answer t2 SampleEngine.ran E) as (stream & t0 & read & view & plan & ref & _ & H & _).
  exists stream, read, view. exact H.
Defined.

Lemma Apply_releases_witness : ∃ stream plan ref st t1, advanced SampleEngine.engine SampleEngine.request stream plan ref st t1.
Proof.
  destruct (SampleEngine.kinds_found SampleEngine.trace SampleEngine.result SampleEngine.kinds_true) as (_ & (t1 & tag & snap & answer & t2 & E) & _).
  destruct (Apply_releases SampleEngine.engine SampleEngine.request SampleEngine.trace SampleEngine.result t1 _ (ReleaseHold tag snap) answer t2 SampleEngine.ran E eq_refl) as (stream & plan & ref & st & H & _).
  exact (ex_intro _ stream (ex_intro _ plan (ex_intro _ ref (ex_intro _ st (ex_intro _ t1 H))))).
Defined.

Lemma Apply_target_safe_witness : ∃ stream d properties t1, targetGuard SampleEngine.engine SampleEngine.request stream t1 (SetProperties d properties).
Proof.
  destruct (SampleEngine.kinds_found SampleEngine.trace SampleEngine.result SampleEngine.kinds_true) as (_ & _ & (t1 & d & properties & answer & t2 & E) & _).
  destruct (Apply_target_safe SampleEngine.engine SampleEngine.request SampleEngine.trace SampleEngine.result t1 _ (SetProperties d properties) answer t2 SampleEngine.ran E eq_refl) as (stream & _ & H).
  exact (ex_intro _ stream (ex_intro _ d (ex_intro _ properties (ex_intro _ t1 H)))).
Defined.

Lemma Apply_reports_witness : ap_Verified SampleEngine.result = true ∧
  ∃ r, ("tank/data", Ok r) ∈ ap_Streams SampleEngine.result ∧ completed SampleEngine.engine SampleEngine.request "tank/data" r SampleEngine.trace.
Proof.
  destruct (SampleEngine.kinds_found SampleEngine.trace SampleEngine.result SampleEngine.kinds_true) as (_ & _ & _ & Hok).
  destruct (Apply_reports SampleEngine.engine SampleEngine.request SampleEngine.trace SampleEngine.result SampleEngine.ran) as [Hc Hall _ _]. destruct (Hall Hok) as [Hv (streams & Es & H)]. split; [exact Hv|].
  rewrite SampleEngine.one_stream in Es. injection Es as <-. destruct (H _ (list_elem_of_here _ _)) as [r Hr]. exists r. split; [exact Hr|]. exact (Hc _ _ Hr).
Defined.
