(* ===== verification/Pending.v ===== *)
(** Pending work and its recovery: internal/transfer/recovery.go.

    A [PendingSet] is guarded by a mutex, so each method is one step on its state.
    [Reconcile] is an attempt of one coordinator: [BeginStreams] before it and
    [FinishStreams] after it are separate steps, because other goroutines offer
    work while it runs. [RetryPolicy.Delay] computes with floating point and a
    random number, and is an argument. *)

From Stdlib Require Import Ascii.
From S2P Require Import Prelude GoStrings GoTime Grid Names Zfs Ownership Prune Policy Stream Authority Reference Backend Service Proofs Binding Transfer Resume Engine EngineSafe.

(** * The set of pending snapshots *)

Record PendingSnapshot := mkPending { pn_Name : string; pn_CreateTXG : Z }.
#[export] Instance PendingSnapshot_eq_dec : EqDecision PendingSnapshot.
Proof. solve_decision. Defined.
Definition noPending : PendingSnapshot := mkPending "" 0.

Record CoalesceResult := mkCoalesced { co_Changed : bool; co_Superseded : PendingSnapshot; co_ReleaseSuperseded : bool }.

Record PendingSet := mkPendingSet { jobs : gmap string PendingSnapshot; active : gmap string PendingSnapshot }.
Definition noWork : PendingSet := mkPendingSet ∅ ∅.

Definition pendingKey (source target : string) : result string :=
  _ ← ValidateDataset source;
  if (target =? "")%string || ContainsAny target (String "000" (String "013" (String "010" "")))
  then Err (Errorf "canonical target is required") else Ok (source +:+ String "000" target).

Definition Coalesce (p : PendingSet) (source target : string) (snapshot : PendingSnapshot) : result CoalesceResult * PendingSet :=
  match pendingKey source target with
  | Err e => (Err e, p)
  | Ok key =>
    if (pn_CreateTXG snapshot =? 0) || negb (HasPrefix (pn_Name snapshot) (source +:+ "@"))
    then (Err (Errorf "pending snapshot must be on the source with a creation transaction"), p)
    else
      let current := jobs p !! key in
      if match current with Some current => pn_CreateTXG snapshot <=? pn_CreateTXG current | None => false end
      then (Ok (mkCoalesced false noPending false), p)
      else
        (Ok match current with
            | Some current => mkCoalesced true current (negb (bool_decide (default noPending (active p !! key) = current)))
            | None => mkCoalesced true noPending false
            end, mkPendingSet (<[key := snapshot]> (jobs p)) (active p))
  end.

Definition Offer (p : PendingSet) (source target : string) (snapshot : PendingSnapshot) : result bool * PendingSet :=
  let '(r, p) := Coalesce p source target snapshot in (r ≫= λ c, Ok (co_Changed c), p).

Definition Begin (p : PendingSet) (source target : string) : option PendingSnapshot * PendingSet :=
  match pendingKey source target with
  | Err _ => (None, p)
  | Ok key =>
    match jobs p !! key with
    | None => (None, p)
    | Some snapshot => (Some snapshot, mkPendingSet (jobs p) (<[key := snapshot]> (active p)))
    end
  end.

(** [PendingSet.End]. *)
Definition EndAttempt (p : PendingSet) (source target : string) (snapshot : PendingSnapshot) (complete : bool) : PendingSet :=
  match pendingKey source target with
  | Err _ => p
  | Ok key =>
    let active' := if decide (default noPending (active p !! key) = snapshot) then delete key (active p) else active p in
    let jobs' := if complete && bool_decide (default noPending (jobs p !! key) = snapshot) then delete key (jobs p) else jobs p in
    mkPendingSet jobs' active'
  end.

Definition Peek (p : PendingSet) (source target : string) : option PendingSnapshot :=
  match pendingKey source target with Err _ => None | Ok key => jobs p !! key end.

(** The keys of the streams beneath [root] for [target]. *)
Definition scopeKey (root target key : string) : bool :=
  let '(source, keyTarget, _) := Cut key "000" in (keyTarget =? target)%string && HasPrefix source (root +:+ "/").
Definition PeekScope (p : PendingSet) (root target : string) : option PendingSnapshot :=
  match Peek p root target with
  | Some snapshot => Some snapshot
  | None =>
    if negb (is_ok (pendingKey root target)) then None
    else match SortStrings (filter (λ key, scopeKey root target key = true) (map_to_list (jobs p)).*1) with
         | [] => None
         | key :: _ => Some (default noPending (jobs p !! key))
         end
  end.

(** [PendingSet.Complete]. *)
Definition CompleteWork (p : PendingSet) (source target : string) (snapshot : PendingSnapshot) : bool * PendingSet :=
  match pendingKey source target with
  | Err _ => (false, p)
  | Ok key => if decide (jobs p !! key = Some snapshot) then (true, mkPendingSet (delete key (jobs p)) (active p)) else (false, p)
  end.

(** * Reservations *)

Record Reservation := mkReservation { rv_Stream : string; rv_Snapshot : PendingSnapshot }.

(** The request with the endpoint of one stream pinned. *)
Definition pin (request : Request) (stream snapshot : string) : Request :=
  if (length (rq_Members request) =? 0)%nat
  then mkRequest (rq_Source request) (rq_DestinationRoot request) snapshot (rq_Policy request) (rq_Members request) (rq_Transport request)
         (rq_RemoteName request) (rq_CanonicalTarget request) (rq_HostLocal request)
  else mkRequest (rq_Source request) (rq_DestinationRoot request) (rq_Snapshot request) (rq_Policy request)
         ((λ m, if (mb_Dataset m =? stream)%string then mkMember (mb_Dataset m) (mb_Policy m) snapshot else m) <$> rq_Members request)
         (rq_Transport request) (rq_RemoteName request) (rq_CanonicalTarget request) (rq_HostLocal request).

Definition beginStream (target : string) (st : Request * list Reservation * PendingSet) (stream : Member) : Request * list Reservation * PendingSet :=
  let '(request, reserved, p) := st in
  let '(snapshot, p) := Begin p (mb_Dataset stream) target in
  match snapshot with
  | None => (request, reserved, p)
  | Some snapshot => (pin request (mb_Dataset stream) (pn_Name snapshot), reserved ++ [mkReservation (mb_Dataset stream) snapshot], p)
  end.
Definition BeginStreams (p : PendingSet) (request : Request) (target : string) : result (Request * list Reservation) * PendingSet :=
  match Streams request with
  | Err e => (Err e, p)
  | Ok streams => let '(request, reserved, p) := fold_left (beginStream target) streams (request, [], p) in (Ok (request, reserved), p)
  end.

(** [StreamResults]: the streams that completed, with the snapshot each ended at. *)
Definition verifiedStreams (result : Applied) : gmap string string :=
  fold_left (λ verified (s : string * Prelude.result Result), match s.2 with
    | Ok r => if rs_Verified r then <[pl_Source (rs_Plan r) := pl_Snapshot (rs_Plan r)]> verified else verified
    | Err _ => verified
    end) (ap_Streams result) ∅.
Definition finishStream (target : string) (verified : gmap string string) (p : PendingSet) (reservation : Reservation) : PendingSet :=
  EndAttempt p (rv_Stream reservation) target (rv_Snapshot reservation)
    (bool_decide (verified !! rv_Stream reservation = Some (pn_Name (rv_Snapshot reservation)))).
Definition FinishStreams (p : PendingSet) (target : string) (reserved : list Reservation) (result : Applied) : PendingSet :=
  fold_left (finishStream target (verifiedStreams result)) reserved p.

(** * Retries *)

(** [errors.As] for an error that says whether it is temporary; each that does
    answers yes. *)
Definition isTemporary (e : error) : bool :=
  match e with
  | ErrStateChanged | ErrInventoryChanged _ _ | ErrHostLocal _ _ | ErrUnavailable _ | ErrDestinationUnavailable _ | ErrPreparationChanged _ _
  | ErrPlaceholderBusy _ | ErrDeadlineExceeded => true
  | _ => false
  end.
Definition temporaryError (e : error) : bool := existsb isTemporary (errorChain e).
Definition Temporary (e : applyError) : bool :=
  match e with
  | Plain e => temporaryError e
  | StreamsFailed failed => forallb (λ f : string * error, temporaryError f.2) failed && negb (length failed =? 0)%nat
  end.
Definition applyErrorText (e : applyError) : string :=
  match e with
  | Plain e => ErrorText e
  | StreamsFailed failed => "member streams failed: " +:+ Join ((λ f : string * error, f.1 +:+ ": " +:+ ErrorText f.2) <$> failed) "; "
  end.

Record RecoveryOutcome := mkOutcome {
  oc_Status : string;
  oc_Pending : string;
  oc_Reason : string;
  oc_NotBefore : Time;
  oc_Results : list Applied
}.

Record Roadwarrior := mkRoadwarrior { rw_request : Request; rw_failures : Z; rw_notBefore : Time; rw_reason : string }.

(** [Reconcile] up to its first attempt: waiting, blocked, or the request with its
    pending endpoints pinned. *)
Inductive reconcileStart :=
| Waiting (outcome : RecoveryOutcome)
| Blocked (outcome : RecoveryOutcome) (e : error)
| Attempt (request : Request) (reserved : list Reservation) (outcome : RecoveryOutcome).

Definition startReconcile (r : Roadwarrior) (p : PendingSet) (now : Time) : reconcileStart * PendingSet :=
  let target := canonicalTarget (rw_request r) in
  if now <? rw_notBefore r then
    (Waiting (mkOutcome "waiting-retry" (match PeekScope p (rq_Source (rw_request r)) target with Some s => pn_Name s | None => "" end)
                (rw_reason r) (rw_notBefore r) []), p)
  else
    match BeginStreams p (rw_request r) target with
    | (Err e, p) => (Blocked (mkOutcome "blocked" "" "" zeroTime []) e, p)
    | (Ok (request, reserved), p) =>
      (Attempt request reserved (mkOutcome "probing" (match reserved with v :: _ => pn_Name (rv_Snapshot v) | [] => "" end) "" zeroTime []), p)
    end.

Section Retry.
Context (l : Engine) (delay : Z → result Z) (now : Time) (request : Request).

(** The result is the outcome, the error, the coordinator and the last result,
    which the deferred [FinishStreams] gets. *)
Fixpoint attempts (n : nat) (r : Roadwarrior) (outcome : RecoveryOutcome) (last : Applied)
  : prog (RecoveryOutcome * option applyError * Roadwarrior * Applied) :=
  match n with
  | O => Ret (outcome, Some (Plain (Errorf "remote remained resumable after successful resume")), r, last)
  | S n =>
    result ⇐ Apply l request;
    let results := oc_Results outcome ++ [result] in
    match ap_Err result with
    | Some e =>
      if negb (Temporary e)
      then Ret (mkOutcome "blocked" (oc_Pending outcome) (oc_Reason outcome) (oc_NotBefore outcome) results, Some e, r, result)
      else
        let failures := rw_failures r + 1 in
        match delay failures with
        | Err e' => Ret (mkOutcome (oc_Status outcome) (oc_Pending outcome) (oc_Reason outcome) (oc_NotBefore outcome) results, Some (Plain e'),
                         mkRoadwarrior (rw_request r) failures (rw_notBefore r) (rw_reason r), result)
        | Ok d =>
          let notBefore := now + d in
          Ret (mkOutcome "waiting-retry" (oc_Pending outcome) (applyErrorText e) notBefore results, Some e,
               mkRoadwarrior (rw_request r) failures notBefore (applyErrorText e), result)
        end
    | None =>
      let r := mkRoadwarrior (rw_request r) 0 zeroTime "" in
      let resumed := match ap_Top result with Some top => (pl_Mode (rs_Plan top) =? "resume")%string | None => false end in
      if negb resumed
      then Ret (mkOutcome "succeeded" (oc_Pending outcome) (oc_Reason outcome) (oc_NotBefore outcome) results, None, r, result)
      else attempts n r (mkOutcome (oc_Status outcome) (oc_Pending outcome) (oc_Reason outcome) (oc_NotBefore outcome) results) result
    end
  end.
Definition Reconcile (r : Roadwarrior) (outcome : RecoveryOutcome) : prog (RecoveryOutcome * option applyError * Roadwarrior * Applied) :=
  attempts 2 r outcome (mkApplied None false [] None).
End Retry.

(** * Work is not lost *)

Lemma BeforeLast_app s c t : c ∉ bytes_of t → BeforeLast (s +:+ String c t) c = Some s.
Proof.
  intros Ht. assert (BeforeLast t c = None) as Hn.
  { clear s. induction t as [|b t IH]; cbn [BeforeLast]; [done|]. cbn [bytes_of] in Ht. apply not_elem_of_cons in Ht as [Hne Ht]. rewrite (IH Ht).
    by destruct (Ascii.eqb_spec b c) as [->|]. }
  induction s as [|b s IH]; [rewrite app_nil_str|rewrite app_cons_str]; cbn [BeforeLast]; [by rewrite Hn, Ascii.eqb_refl|by rewrite IH].
Qed.

(** A key stands for one source and one target. *)
Lemma pendingKey_inj s1 t1 s2 t2 key : pendingKey s1 t1 = Ok key → pendingKey s2 t2 = Ok key → s1 = s2 ∧ t1 = t2.
Proof.
  assert (∀ s t, pendingKey s t = Ok key → key = s +:+ String "000" t ∧ "000"%char ∉ bytes_of t) as Hk.
  { intros s t H. unfold pendingKey in H. apply bind_Ok in H as ([] & _ & H). destruct (_ || _) eqn:E; [done|]. injection H as <-. split; [done|].
    apply orb_false_iff in E as [_ E]. apply (proj1 (ContainsAny_false _ _) E). by left. }
  intros [E1 H1]%Hk [E2 H2]%Hk. assert (s1 = s2) as -> by (rewrite E1 in E2; apply (f_equal (λ s, BeforeLast s "000")) in E2; rewrite !BeforeLast_app in E2 by done; congruence).
  split; [done|]. rewrite E1 in E2. apply app_inj_str in E2. congruence.
Qed.

(** The steps of the goroutines that share a set. *)
Inductive pendingOp :=
| OpCoalesce (source target : string) (snapshot : PendingSnapshot)
| OpBegin (source target : string)
| OpEnd (source target : string) (snapshot : PendingSnapshot) (complete : bool)
| OpComplete (source target : string) (snapshot : PendingSnapshot).
Definition pendingStep (p : PendingSet) (o : pendingOp) : PendingSet :=
  match o with
  | OpCoalesce source target snapshot => (Coalesce p source target snapshot).2
  | OpBegin source target => (Begin p source target).2
  | OpEnd source target snapshot complete => EndAttempt p source target snapshot complete
  | OpComplete source target snapshot => (CompleteWork p source target snapshot).2
  end.
Definition pendingRun (p : PendingSet) (ops : list pendingOp) : PendingSet := fold_left pendingStep ops p.

(** A step that says a snapshot was sent. *)
Definition completes (source target : string) (snapshot : PendingSnapshot) (o : pendingOp) : Prop :=
  o = OpEnd source target snapshot true ∨ o = OpComplete source target snapshot.

(** An offer the set takes: its key and its snapshot are proper. *)
Definition offered (source target : string) (snapshot : PendingSnapshot) : Prop :=
  is_ok (pendingKey source target) = true ∧ pn_CreateTXG snapshot ≠ 0 ∧ HasPrefix (pn_Name snapshot) (source +:+ "@") = true.

(** The queued work of a key is at least as new as [txg]. *)
Definition queuedSince (key : string) (txg : Z) (p : PendingSet) : Prop := ∃ current, jobs p !! key = Some current ∧ txg ≤ pn_CreateTXG current.

Lemma Coalesce_queues p source target snapshot key : pendingKey source target = Ok key → offered source target snapshot →
  queuedSince key (pn_CreateTXG snapshot) (Coalesce p source target snapshot).2.
Proof.
  intros Hk (_ & Hz & Hp). unfold Coalesce. rewrite Hk, Hp, (proj2 (Z.eqb_neq _ _) Hz). cbn [negb orb]. unfold queuedSince.
  destruct (jobs p !! key) as [current|] eqn:E; [destruct (Z.leb_spec (pn_CreateTXG snapshot) (pn_CreateTXG current))|]; cbn [snd jobs].
  - by exists current.
  - exists snapshot. by rewrite lookup_insert_eq.
  - exists snapshot. by rewrite lookup_insert_eq.
Qed.

(** One step keeps queued work as new, or completes work as new. *)
Lemma queuedSince_step source target key txg p o : pendingKey source target = Ok key → queuedSince key txg p →
  queuedSince key txg (pendingStep p o) ∨ ∃ snapshot, completes source target snapshot o ∧ txg ≤ pn_CreateTXG snapshot.
Proof.
  intros Hk (current & Ej & Ht). assert (∀ s t, pendingKey s t = Ok key → s = source ∧ t = target) as Hinj by (intros s t H; by eapply pendingKey_inj).
  unfold queuedSince. destruct o as [s t sn|s t|s t sn c|s t sn]; cbn [pendingStep].
  - left. unfold Coalesce. destruct (pendingKey s t) as [k|]; [|by exists current]. destruct (_ || _); [by exists current|].
    destruct (decide (k = key)) as [->|Hne].
    + rewrite Ej. destruct (Z.leb_spec (pn_CreateTXG sn) (pn_CreateTXG current)); cbn [snd jobs]; [by exists current|]. exists sn. rewrite lookup_insert_eq. split; [done|lia].
    + destruct (match jobs p !! k with Some _ => _ | None => _ end); [by exists current|]. exists current. cbn [snd jobs]. by rewrite lookup_insert_ne.
  - left. exists current. unfold Begin. destruct (pendingKey s t) as [k|]; [|done]. by destruct (jobs p !! k).
  - unfold EndAttempt. destruct (pendingKey s t) as [k|] eqn:Hks; [|left; by exists current]. cbn [jobs]. destruct c; cbn [andb]; [|left; by exists current].
    case_bool_decide as E; [|left; by exists current]. destruct (decide (k = key)) as [->|Hne]; [|left; exists current; by rewrite lookup_delete_ne].
    right. exists sn. rewrite Ej in E. cbn in E. subst sn. destruct (Hinj _ _ Hks) as [-> ->]. split; [by left|done].
  - unfold CompleteWork. destruct (pendingKey s t) as [k|] eqn:Hks; [|left; by exists current]. destruct (decide _) as [E|]; [|left; by exists current]. cbn [snd jobs].
    destruct (decide (k = key)) as [->|Hne]; [|left; exists current; by rewrite lookup_delete_ne].
    right. exists sn. rewrite Ej in E. injection E as <-. destruct (Hinj _ _ Hks) as [-> ->]. split; [by right|done].
Qed.

(** C23: Pending work is not lost. Whatever the goroutines that share the set do, in
    any order, after a snapshot is offered its stream has work at least as new
    queued for the target, until an attempt completes work at least as new for
    that very stream and target. *)
Theorem pending_not_lost ops1 source target snapshot ops2 : offered source target snapshot →
  (∃ current, Peek (pendingRun noWork (ops1 ++ OpCoalesce source target snapshot :: ops2)) source target = Some current ∧
     pn_CreateTXG snapshot ≤ pn_CreateTXG current) ∨
  ∃ o sent, o ∈ ops2 ∧ completes source target sent o ∧ pn_CreateTXG snapshot ≤ pn_CreateTXG sent.
Proof.
  intros Ho. pose proof Ho as [Hok _]. destruct (pendingKey source target) as [key|] eqn:Hk; [|done]. unfold pendingRun. rewrite fold_left_app. cbn [fold_left pendingStep].
  pose proof (Coalesce_queues (fold_left pendingStep ops1 noWork) source target snapshot key Hk Ho) as Hq. revert Hq.
  generalize (Coalesce (fold_left pendingStep ops1 noWork) source target snapshot).2. induction ops2 as [|o ops2 IH]; intros p Hq; cbn [fold_left].
  - left. unfold Peek. by rewrite Hk.
  - destruct (queuedSince_step _ _ _ _ _ o Hk Hq) as [Hq'|(sent & Hc & Hl)].
    + destruct (IH _ Hq') as [?|(o' & sent & ? & ?)]; [by left|]. right. exists o', sent. split; [by right|done].
    + right. exists o, sent. split; [by left|done].
Qed.

(** * What is in flight stays protected *)

(** A step that does not start or end an attempt of the pair. *)
Definition leaves (source target : string) (o : pendingOp) : bool :=
  match o with
  | OpBegin s t | OpEnd s t _ _ => negb ((s =? source)%string && (t =? target)%string)
  | _ => true
  end.

Lemma leaves_active source target key p o : pendingKey source target = Ok key → leaves source target o = true →
  active (pendingStep p o) !! key = active p !! key.
Proof.
  intros Hk Ho. assert (∀ s t k, pendingKey s t = Ok k → negb ((s =? source)%string && (t =? target)%string) = true → k ≠ key) as Hne.
  { intros s t k Hks H ->. destruct (pendingKey_inj _ _ _ _ _ Hks Hk) as [-> ->]. by rewrite !String.eqb_refl in H. }
  destruct o as [s t sn|s t|s t sn c|s t sn]; cbn [pendingStep leaves] in *.
  - unfold Coalesce. destruct (pendingKey s t) as [k|]; [|done]. destruct (_ || _); [done|]. by destruct (match jobs p !! k with Some _ => _ | None => _ end).
  - unfold Begin. destruct (pendingKey s t) as [k|] eqn:Hks; [|done]. destruct (jobs p !! k); [|done]. cbn [snd active]. by rewrite lookup_insert_ne by by eapply Hne.
  - unfold EndAttempt. destruct (pendingKey s t) as [k|] eqn:Hks; [|done]. cbn [active]. case_decide; [|done]. by rewrite lookup_delete_ne by by eapply Hne.
  - unfold CompleteWork. destruct (pendingKey s t); [|done]. by destruct (decide _).
Qed.

(** Work in flight is not released. From the start of an attempt to its end,
    whatever else happens to the set, newer offers for the pair never name the
    snapshot the attempt sends as superseded work that can be released. *)
Theorem pending_in_flight p source target snapshot ops newer c :
  (Begin p source target).1 = Some snapshot → forallb (leaves source target) ops = true →
  (Coalesce (pendingRun (Begin p source target).2 ops) source target newer).1 = Ok c →
  co_ReleaseSuperseded c = true → co_Superseded c ≠ snapshot.
Proof.
  unfold Begin. destruct (pendingKey source target) as [key|] eqn:Hk; [|done]. destruct (jobs p !! key) as [current|]; [|done]. cbn [fst snd]. intros [= ->].
  set (p0 := mkPendingSet _ _). assert (active p0 !! key = Some snapshot) as Ha by (cbn; by rewrite lookup_insert_eq). revert Ha. generalize p0. clear p0.
  induction ops as [|o ops IH]; intros p0 Ha; cbn [forallb pendingRun fold_left].
  - intros _. unfold Coalesce. rewrite Hk. destruct (_ || _); [done|]. destruct (jobs p0 !! key) as [queued|]; [destruct (_ <=? _)|]; cbn [fst]; [by intros [= <-]| |by intros [= <-]].
    intros [= <-]. cbn. rewrite Ha, negb_true_iff, bool_decide_eq_false. cbn. congruence.
  - intros [Ho Hops]%andb_true_iff. apply IH; [by rewrite (leaves_active source target)|done].
Qed.

(** * Work is dropped only when it is verified *)

Lemma verifiedStreams_Some result n snap : verifiedStreams result !! n = Some snap →
  ∃ m r, (m, Ok r) ∈ ap_Streams result ∧ pl_Source (rs_Plan r) = n ∧ pl_Snapshot (rs_Plan r) = snap.
Proof.
  unfold verifiedStreams. set (step := λ _ _, _).
  assert (∀ l (v : gmap string string), fold_left step l v !! n = Some snap → v !! n = Some snap ∨
    ∃ m r, (m, Ok r) ∈ l ∧ pl_Source (rs_Plan r) = n ∧ pl_Snapshot (rs_Plan r) = snap) as H.
  { induction l as [|[m r] l IH]; intros v; cbn [fold_left]; [by left|]. intros [Hv|(m' & r' & ? & ?)]%IH; [|right; exists m', r'; split; [by right|done]].
    unfold step in Hv. cbn [snd] in Hv. destruct r as [r|e]; [|by left]. destruct (rs_Verified r); [|by left].
    destruct (decide (pl_Source (rs_Plan r) = n)) as [<-|Hne]; [rewrite lookup_insert_eq in Hv; injection Hv as <-; right; exists m, r; split; [by left|done]|].
    rewrite lookup_insert_ne in Hv by done. by left. }
  intros [Hv|?]%H; [|done]. by rewrite lookup_empty in Hv.
Qed.

Lemma finishStream_drops target verified p reservation key s : jobs p !! key = Some s → jobs (finishStream target verified p reservation) !! key ≠ Some s →
  pendingKey (rv_Stream reservation) target = Ok key ∧ rv_Snapshot reservation = s ∧ verified !! rv_Stream reservation = Some (pn_Name s).
Proof.
  intros Hj. unfold finishStream, EndAttempt. destruct (pendingKey _ _) as [k|]; [|done]. cbn [jobs]. case_bool_decide as Hv; cbn [andb]; [|done].
  case_bool_decide as E; [|done]. intros Hd. destruct (decide (k = key)) as [->|Hne]; [|by rewrite lookup_delete_ne in Hd].
  rewrite Hj in E. cbn in E. subst s. done.
Qed.

Lemma FinishStreams_drops target reserved result key s : ∀ p, jobs p !! key = Some s → jobs (FinishStreams p target reserved result) !! key ≠ Some s →
  ∃ reservation, reservation ∈ reserved ∧ pendingKey (rv_Stream reservation) target = Ok key ∧ rv_Snapshot reservation = s ∧
    verifiedStreams result !! rv_Stream reservation = Some (pn_Name s).
Proof.
  unfold FinishStreams. induction reserved as [|v reserved IH]; intros p Hj; cbn [fold_left]; [done|]. intros Hd.
  destruct (decide (jobs (finishStream target (verifiedStreams result) p v) !! key = Some s)) as [Hk|Hn].
  - destruct (IH _ Hk Hd) as (v' & ? & ?). exists v'. split; [by right|done].
  - apply finishStream_drops in Hn; [|done]. exists v. split; [by left|done].
Qed.

Lemma attempts_always l delay now request n : ∀ pre r outcome last, (∀ m x, (m, Ok x) ∈ ap_Streams last → completed l request m x pre) →
  always (transferGuard l request) pre (attempts l delay now request n r outcome last)
    (λ tr res, ∀ m x, (m, Ok x) ∈ ap_Streams res.2 → completed l request m x tr).
Proof.
  induction n as [|n IH]; intros pre r outcome last Hl; cbn [attempts]; [done|]. apply always_bind. eapply always_mono; [|apply Apply_always].
  intros tr result [Hc _ _ _]. destruct (ap_Err result) as [e|]; [destruct (negb _); [done|]; by destruct (delay _)|]. destruct (negb _); [done|]. by apply IH.
Qed.

(** C22: Pending work is dropped only when it is at its replica. When a
    reconciliation ends, whatever became of the set meanwhile, the queued snapshots
    it removes are ones it reserved, and each ended a stream of that
    reconciliation whose replica was read complete and checkpointed. *)
Theorem Reconcile_drops l delay now request r outcome tr res target reserved p key s :
  runs (Reconcile l delay now request r outcome) tr res →
  jobs p !! key = Some s → jobs (FinishStreams p target reserved res.2) !! key ≠ Some s →
  ∃ reservation x, reservation ∈ reserved ∧ pendingKey (rv_Stream reservation) target = Ok key ∧ rv_Snapshot reservation = s ∧
    completed l request (rv_Stream reservation) x tr ∧ pl_Snapshot (rs_Plan x) = pn_Name s.
Proof.
  intros Hr Hj Hd. destruct (always_runs _ _ _ tr [] _ Hr (attempts_always l delay now request 2 [] r outcome (mkApplied None false [] None) ltac:(intros ? ? ?%not_elem_of_nil; done))) as [Hc _].
  destruct (FinishStreams_drops _ _ _ _ _ _ Hj Hd) as (v & Hv & Hk & Es & Hver). apply verifiedStreams_Some in Hver as (m & x & Hin & En & Esn).
  pose proof (Hc m x Hin) as Hx. exists v, x. split_and!; try done. pose proof Hx as (_ & Em & _). by rewrite En in Em; subst m.
Qed.

(** * A set to run on *)

Module SamplePending.
Definition older : PendingSnapshot := mkPending "tank/data@a" 5.
Definition newer : PendingSnapshot := mkPending "tank/data@b" 9.
Definition begun : PendingSet := pendingRun noWork [OpCoalesce "tank/data" "local:backup" older].
Definition meanwhile : list pendingOp := [OpCoalesce "tank/data/home" "local:backup" (mkPending "tank/data/home@a" 6); OpBegin "tank/data/home" "local:backup"].
(** A newer offer supersedes what is in flight without letting it go. *)
Lemma superseded : (Coalesce (pendingRun (Begin begun "tank/data" "local:backup").2 meanwhile) "tank/data" "local:backup" newer).1 = Ok (mkCoalesced true older false).
Proof. by vm_compute. Qed.
(** An offer newer still supersedes one that is not. *)
Definition latest : PendingSnapshot := mkPending "tank/data@c" 12.
Definition busy : list pendingOp := meanwhile ++ [OpCoalesce "tank/data" "local:backup" newer].

(** A reconciliation of the newest snapshot. *)
Definition endpoint : PendingSnapshot := mkPending (sn_Name (List.last witnessSnapshots (mkSnapshot "" 0 [] [] [] false))) 99.
Definition reserved : list Reservation := [mkReservation "tank/data" endpoint].
Definition key : string := "tank/data" +:+ String "000" "local:backup".
Definition queued : PendingSet := mkPendingSet {[key := endpoint]} {[key := endpoint]}.
Definition coordinator : Roadwarrior := mkRoadwarrior SampleEngine.request 0 zeroTime "".
Definition probing : RecoveryOutcome := mkOutcome "probing" "" "" zeroTime [].
Definition delay (n : Z) : result Z := Ok n.
Definition ran : list event * (RecoveryOutcome * option applyError * Roadwarrior * Applied) :=
  traceWith SampleEngine.answer (Reconcile SampleEngine.engine delay 0 SampleEngine.request coordinator probing) SampleEngine.start.
Lemma ran_runs : runs (Reconcile SampleEngine.engine delay 0 SampleEngine.request coordinator probing) ran.1 ran.2.
Proof. unfold ran. apply traceWith_runs. Qed.
Lemma queued_job : jobs queued !! key = Some endpoint.
Proof. apply lookup_singleton_eq. Qed.
Definition drops (p : PendingSet) (res : Applied) : bool := bool_decide (jobs (FinishStreams p "local:backup" reserved res) !! key = None).
Lemma dropped : drops queued ran.2.2 = true.
Proof. vm_cast_no_check (eq_refl true). Qed.
Lemma drops_not p res s : drops p res = true → jobs (FinishStreams p "local:backup" reserved res) !! key ≠ Some s.
Proof. unfold drops. rewrite bool_decide_eq_true. by intros ->. Qed.
End SamplePending.

Lemma pending_not_lost_witness :
  (∃ current, Peek (pendingRun noWork ([] ++ OpCoalesce "tank/data" "local:backup" SamplePending.older :: [OpBegin "tank/data" "local:backup"]))
     "tank/data" "local:backup" = Some current ∧ pn_CreateTXG SamplePending.older ≤ pn_CreateTXG current) ∨
  ∃ o sent, o ∈ [OpBegin "tank/data" "local:backup"] ∧ completes "tank/data" "local:backup" sent o ∧ pn_CreateTXG SamplePending.older ≤ pn_CreateTXG sent.
Proof. apply (pending_not_lost [] "tank/data" "local:backup" SamplePending.older [OpBegin "tank/data" "local:backup"]). unfold offered. split_and!; by vm_compute. Defined.

Lemma pending_in_flight_witness : SamplePending.newer ≠ SamplePending.older.
Proof.
  apply (pending_in_flight SamplePending.begun "tank/data" "local:backup" SamplePending.older SamplePending.busy SamplePending.latest
    (mkCoalesced true SamplePending.newer true)); by vm_compute.
Defined.

Lemma Reconcile_drops_witness : ∃ x, completed SampleEngine.engine SampleEngine.request "tank/data" x SamplePending.ran.1.
Proof.
  destruct (Reconcile_drops SampleEngine.engine SamplePending.delay 0 SampleEngine.request SamplePending.coordinator SamplePending.probing
    SamplePending.ran.1 SamplePending.ran.2 "local:backup" SamplePending.reserved SamplePending.queued SamplePending.key SamplePending.endpoint
    SamplePending.ran_runs SamplePending.queued_job (SamplePending.drops_not SamplePending.queued SamplePending.ran.2.2 SamplePending.endpoint SamplePending.dropped))
    as (v & x & Hv & _ & _ & Hx & _).
  apply list_elem_of_singleton in Hv. rewrite Hv in Hx. exists x. exact Hx.
Defined.
