(* ===== verification/Reseed.v ===== *)
(** Starting a replica over: internal/transfer/reseed.go.

    A reseed destroys the mapped replica of one source and target, and lets the
    source's recovery state for it go; an abort discards the receives it holds.
    Both plan, check permissions, plan again, and act only on the same plan. *)

From Stdlib Require Import Ascii.
From S2P Require Import Prelude GoStrings GoTime Grid Names Zfs Ownership Prune Policy Stream Authority Reference Backend Service Proofs Binding Transfer TransferSafe Resume Engine EngineSafe.

Record ReseedPlan := mkReseedPlan {
  rd_Dataset : string;
  rd_Target : string;
  rd_Binding : TargetBinding;
  rd_BindingStored : bool;
  rd_ReceiveAnchor : string;
  rd_DestinationExists : bool;
  rd_DestinationObjects : list string;
  rd_SetAside : string;
  rd_ResumeDatasets : list string;
  rd_References : list Reference;
  rd_Suspended : bool;
  rd_Warning : string;
  rd_Applied : bool
}.
#[export] Instance ReseedPlan_eq_dec : EqDecision ReseedPlan.
Proof. solve_decision. Defined.

(** [rd_reference] and [rd_clean] are what the lifecycle service finds of the
    source's executor. *)
Record ReseedService := mkReseedService { rd_installation : string; rd_reference : bool; rd_clean : bool }.

Definition sameBoundIdentity (b : TargetBinding) (identity : DatasetIdentity) : bool :=
  (di_Name identity =? tb_Anchor b)%string && (di_GUID identity =? tb_AnchorGUID b) && (di_Pool identity =? tb_Pool b)%string
  && (di_PoolGUID identity =? tb_PoolGUID b).

(** The longest ancestor of the mapped dataset but itself. *)
Definition receiveAnchorOf (mapped : string) (inventory : list Dataset) : string :=
  fold_left (λ anchor d, if negb (ds_Name d =? mapped)%string && inside mapped (ds_Name d) && (String.length anchor <? String.length (ds_Name d))%nat
                         then ds_Name d else anchor) inventory "".

(** The binding, checked against the identity of [identityDataset]. *)
Definition reseedBinding (request : Request) (canonical mapped identityDataset : string) (stored : option TargetBinding) (identity : DatasetIdentity)
  : result TargetBinding :=
  match stored with
  | Some b =>
    if (identityDataset =? tb_Anchor b)%string && negb (sameBoundIdentity b identity)
    then Err (Errorf "destination anchor identity differs from persistent binding")
    else if negb (identityDataset =? tb_Anchor b)%string && (negb (di_Pool identity =? tb_Pool b)%string || negb (di_PoolGUID identity =? tb_PoolGUID b))
    then Err (Errorf "destination pool identity differs from persistent binding")
    else Ok b
  | None => bindingForTarget request mapped identity (requestTransport request) canonical
  end.

(** The objects and receives of a destination subtree. *)
Definition subtreeOf (state : State) : list string * list string := (ob_Name <$> Objects state, (map_to_list (ResumeTokens state)).*1).

Definition reseedWarning : string := "applying this plan permanently destroys the mapped destination replica and resets its replication history".

(** The destination part of the plan: its objects, its receives and the set-aside
    placeholder. *)
Definition reseedDestination (destinationExists : bool) (mapped : string) (inventory : list Dataset) : prog (result (list string * list string * string)) :=
  '(objects, receives) ⇐? (if destinationExists then
      destination ⇐? call (OnTarget (InspectState mapped true));
      let '(objects, receives) := subtreeOf destination in Ret (Ok (SortStrings objects, SortStrings receives))
    else Ret (Ok ([], [])));
  let aside := placeholderAside mapped in
  if negb (listed inventory aside) then Ret (Ok (objects, receives, "")) else
  state ⇐? call (OnTarget (InspectState aside true));
  if negb (isPlaceholder state aside) then Ret (Err (Errorf (aside +:+ " is not a placeholder boomerangz set aside; refusing reseed"))) else
  let '(objects', receives') := subtreeOf state in
  Ret (Ok (SortStrings (objects ++ objects'), SortStrings (receives ++ receives'), aside)).

(** [ReseedService.plan]. *)
Definition reseedPlan (s : ReseedService) (request : Request) : prog (result ReseedPlan) :=
  _ ⇐! ValidateDataset (rq_Source request);
  let canonical := canonicalTarget request in
  if (canonical =? "")%string then Ret (Err (Errorf "canonical target identity is required")) else
  source ⇐? call (InspectState (rq_Source request) true);
  lineage ⇐! RootAuthority source (rq_Source request) (rd_installation s);
  target ⇐! bindingTarget request;
  stored ⇐! storedTargetBinding source (rq_Source request) target;
  _ ⇐! match stored with Some b => validateBinding b | None => Ok tt end;
  let mapped := tb_MappedDataset target in
  inventory ⇐? call (OnTarget ListDatasets);
  let nearest := nearestExisting mapped inventory in
  let receiveAnchor := receiveAnchorOf mapped inventory in
  let identityDataset := match stored with Some b => if listed inventory (tb_Anchor b) then tb_Anchor b else nearest | None => nearest end in
  if (identityDataset =? "")%string then Ret (Err (Errorf "destination pool is unavailable"))
  else if (receiveAnchor =? "")%string then Ret (Err (Errorf "destination has no existing parent for a fresh receive"))
  else
    identity ⇐? call (OnTarget (InspectDatasetIdentity identityDataset));
    _ ⇐? checkHostLocal request identity;
    binding ⇐! reseedBinding request canonical mapped identityDataset stored identity;
    '(objects, receives, aside) ⇐? reseedDestination (listed inventory mapped) (tb_MappedDataset binding) inventory;
    references ⇐! References source (rq_Source request) lineage;
    suspended ⇐! TargetSuspended source (rq_Source request) canonical;
    Ret (Ok (mkReseedPlan (rq_Source request) canonical binding (bool_decide (is_Some stored)) receiveAnchor (listed inventory mapped) objects aside receives
               (filter (λ r, rf_TargetID r = TargetID canonical) references) suspended reseedWarning false)).

Definition reseedReceivePermissions (request : Request) : list string :=
  fold_left (λ permissions p, unionOf [permissions; propertyPermissions (ef_SetProperties p) (ef_IgnoreProperties p)])
    (rq_Policy request :: (mb_Policy <$> rq_Members request)) (unionOf [receivePermissions; filesystemReceivePermissions]).

Definition reseedPreflight (request : Request) (plan : ReseedPlan) : prog (result unit) :=
  _ ⇐? callWrapped "source permission preflight" (CheckPermissions (rq_Source request) reseedSourcePermissions);
  _ ⇐? (if rd_DestinationExists plan then
          callWrapped "destination cleanup permission preflight" (OnTarget (CheckPermissions (tb_MappedDataset (rd_Binding plan))
            (if (length (rd_ResumeDatasets plan) =? 0)%nat then reseedCleanupPermissions else unionOf [reseedCleanupPermissions; abortPermissions])))
        else Ret (Ok tt));
  _ ⇐? (if negb (rd_SetAside plan =? "")%string then
          callWrapped "set-aside placeholder cleanup permission preflight" (OnTarget (CheckPermissions (rd_SetAside plan) reseedCleanupPermissions))
        else Ret (Ok tt));
  callWrapped "fresh receive permission preflight" (OnTarget (CheckPermissions (rd_ReceiveAnchor plan) (reseedReceivePermissions request))).

Definition abandon (_ : unit) (dataset : string) : prog (result unit) :=
  callWrapped ("abandon receive on " +:+ dataset) (OnTarget (AbortReceive dataset)).
Definition referenceLe (a b : Reference) : Prop := Created (rf_Metadata a) ≤ Created (rf_Metadata b).
#[export] Instance referenceLe_dec a b : base.Decision (referenceLe a b) := Z.le_dec _ _.
Definition releaseProof (service : Service) (request : Request) (_ : unit) (r : Reference) : prog (result unit) :=
  res ⇐ ReleaseReference service (rq_Source request) r; Ret (wrapped "release source recovery reference" res).

(** What a reseed does once its plan is confirmed. *)
Definition reseedDestroy (plan : ReseedPlan) : prog (result unit) :=
  _ ⇐? forE abandon tt (rev (rd_ResumeDatasets plan));
  _ ⇐? (if rd_DestinationExists plan then
          callWrapped ("destroy mapped destination " +:+ tb_MappedDataset (rd_Binding plan)) (OnTarget (DestroyDataset (tb_MappedDataset (rd_Binding plan)) true))
        else Ret (Ok tt));
  if negb (rd_SetAside plan =? "")%string
  then callWrapped ("destroy set-aside placeholder " +:+ rd_SetAside plan) (OnTarget (DestroyDataset (rd_SetAside plan) true))
  else Ret (Ok tt).
Definition reseedForget (s : ReseedService) (request : Request) (plan : ReseedPlan) : prog (result unit) :=
  service ⇐! NewService (rd_installation s) (rd_reference s) (rd_clean s);
  _ ⇐? forE (releaseProof service request) tt (merge_sort referenceLe (rd_References plan));
  _ ⇐? (if rd_Suspended plan then SetTargetSuspended (rq_Source request) (rd_Target plan) false else Ret (Ok tt));
  if rd_BindingStored plan
  then callWrapped "remove target binding" (InheritProperty (rq_Source request) (targetBindingProperty (rd_Target plan)))
  else Ret (Ok tt).

(** [ReseedService.Apply]. *)
Definition ReseedApply (s : ReseedService) (request : Request) : prog (result ReseedPlan) :=
  plan ⇐? reseedPlan s request;
  _ ⇐? reseedPreflight request plan;
  fresh ⇐? reseedPlan s request;
  if negb (bool_decide (plan = fresh)) then Ret (Err (Errorf "reseed state changed during preflight; retry preview")) else
  _ ⇐? reseedDestroy plan;
  _ ⇐? reseedForget s request plan;
  Ret (Ok (mkReseedPlan (rd_Dataset plan) (rd_Target plan) (rd_Binding plan) (rd_BindingStored plan) (rd_ReceiveAnchor plan) (rd_DestinationExists plan)
             (rd_DestinationObjects plan) (rd_SetAside plan) (rd_ResumeDatasets plan) (rd_References plan) (rd_Suspended plan) (rd_Warning plan) true)).

(** * Aborts *)

Record AbortPlan := mkAbortPlan { ab_Dataset : string; ab_Target : string; ab_Receives : list string; ab_Warning : string; ab_Applied : bool }.
#[export] Instance AbortPlan_eq_dec : EqDecision AbortPlan.
Proof. solve_decision. Defined.

Definition abortPlan (plan : ReseedPlan) : AbortPlan :=
  mkAbortPlan (rd_Dataset plan) (rd_Target plan) (rd_ResumeDatasets plan)
    "applying this plan discards the partially received data of each listed receive; the next transfer sends it again" false.
Definition PlanAbort (s : ReseedService) (request : Request) : prog (result AbortPlan) := plan ⇐? reseedPlan s request; Ret (Ok (abortPlan plan)).

Definition abortPreflight (_ : unit) (dataset : string) : prog (result unit) :=
  callWrapped "abort permission preflight" (OnTarget (CheckPermissions dataset abortPermissions)).
Definition abortReceive (_ : unit) (dataset : string) : prog (result unit) :=
  callWrapped ("abort receive on " +:+ dataset) (OnTarget (AbortReceive dataset)).
Definition ApplyAbort (s : ReseedService) (request : Request) : prog (result AbortPlan) :=
  reseed ⇐? reseedPlan s request;
  let plan := abortPlan reseed in
  _ ⇐? forE abortPreflight tt (ab_Receives plan);
  fresh ⇐? reseedPlan s request;
  if negb (bool_decide (plan = abortPlan fresh)) then Ret (Err (Errorf "receive state changed during preflight; retry preview")) else
  _ ⇐? forE abortReceive tt (rev (ab_Receives plan));
  Ret (Ok (mkAbortPlan (ab_Dataset plan) (ab_Target plan) (ab_Receives plan) (ab_Warning plan) true)).

(** * What a plan says *)

(** The dataset whose identity decides which pool the target is on: the anchor a
    stored binding names while it exists, or the nearest dataset that contains the
    replica. *)
Definition decides (p : ReseedPlan) (names : list string) (dataset : string) : Prop :=
  dataset ∈ names ∧
  (rd_BindingStored p = true ∧ tb_Anchor (rd_Binding p) ∈ names → dataset = tb_Anchor (rd_Binding p)) ∧
  (¬ (rd_BindingStored p = true ∧ tb_Anchor (rd_Binding p) ∈ names) → inside (tb_MappedDataset (rd_Binding p)) dataset = true ∧
     ∀ n, n ∈ names → inside (tb_MappedDataset (rd_Binding p)) n = true → (String.length n ≤ String.length dataset)%nat).

(** What was read to make a plan. *)
Record reseedSound (s : ReseedService) (request : Request) (tr : list event) (p : ReseedPlan) : Prop := {
  rs_authority : ∃ source lineage refs, Event (InspectState (rq_Source request) true) (Ok source) ∈ tr ∧
    authorized source (rq_Source request) (rd_installation s) lineage ∧ References source (rq_Source request) lineage = Ok refs ∧
    (∀ r, r ∈ rd_References p ↔ r ∈ refs ∧ rf_TargetID r = TargetID (rd_Target p)) ∧
    (rd_BindingStored p = true → ∃ target, bindingTarget request = Ok target ∧ storedTargetBinding source (rq_Source request) target = Ok (Some (rd_Binding p)));
  rs_mapped : rd_Target p = canonicalTarget request ∧ ∃ rest, mapped request (rq_Source request) = Ok (tb_MappedDataset (rd_Binding p), rest);
  rs_identity : ∃ inventory dataset identity, Event (OnTarget ListDatasets) (Ok inventory) ∈ tr ∧
    Event (OnTarget (InspectDatasetIdentity dataset)) (Ok identity) ∈ tr ∧ decides p (ds_Name <$> inventory) dataset ∧
    di_PoolGUID identity = tb_PoolGUID (rd_Binding p) ∧ (rd_BindingStored p = true → di_Pool identity = tb_Pool (rd_Binding p)) ∧
    (dataset = tb_Anchor (rd_Binding p) ∨ rd_BindingStored p = false → anchoredOn (rd_Binding p) identity) ∧
    (rd_DestinationExists p = true ↔ tb_MappedDataset (rd_Binding p) ∈ ds_Name <$> inventory);
  rs_aside : rd_SetAside p ≠ "" → rd_SetAside p = placeholderAside (tb_MappedDataset (rd_Binding p)) ∧
    ∃ st, Event (OnTarget (InspectState (rd_SetAside p) true)) (Ok st) ∈ tr ∧ emptyPlaceholder st (rd_SetAside p);
  rs_receives : ∀ d, d ∈ rd_ResumeDatasets p → ∃ dataset st, Event (OnTarget (InspectState dataset true)) (Ok st) ∈ tr ∧ is_Some (ResumeTokens st !! d) ∧
    (dataset = tb_MappedDataset (rd_Binding p) ∨ dataset = rd_SetAside p ∧ rd_SetAside p ≠ "")
}.

Lemma SortStrings_elem l d : d ∈ SortStrings l → d ∈ l.
Proof. unfold SortStrings. by rewrite merge_sort_Permutation. Qed.

Lemma tokens_elem (st : State) d : d ∈ (map_to_list (ResumeTokens st)).*1 → is_Some (ResumeTokens st !! d).
Proof. intros ([k v] & -> & H%elem_of_map_to_list)%list_elem_of_fmap. by exists v. Qed.

Lemma placeholderAside_ne d : placeholderAside d ≠ "".
Proof. by destruct d. Qed.

Lemma reseedDestination_runs ex mapped inventory tr objects receives aside : runs (reseedDestination ex mapped inventory) tr (Ok (objects, receives, aside)) →
  (aside ≠ "" → aside = placeholderAside mapped ∧ ∃ st, Event (OnTarget (InspectState aside true)) (Ok st) ∈ tr ∧ emptyPlaceholder st aside) ∧
  ∀ d, d ∈ receives → ∃ dataset st, Event (OnTarget (InspectState dataset true)) (Ok st) ∈ tr ∧ is_Some (ResumeTokens st !! d) ∧
    (dataset = mapped ∨ dataset = aside ∧ aside ≠ "").
Proof.
  unfold reseedDestination. intros H. apply runs_bindE in H as (t1 & [objects1 receives1] & t2 & -> & H1 & H).
  assert (∀ d, d ∈ receives1 → ∃ st, Event (OnTarget (InspectState mapped true)) (Ok st) ∈ t1 ∧ is_Some (ResumeTokens st !! d)) as Hd.
  { destruct ex; [|destruct H1 as [_ [= -> ->]]; by intros d ?%not_elem_of_nil]. apply runs_bindE in H1 as (u1 & st & u2 & -> & Hu%runs_call & H1).
    cbn in H1. destruct H1 as [_ [= -> ->]]. subst u1. intros d Hin%SortStrings_elem. exists st. split; [set_solver|apply tokens_elem; exact Hin]. }
  cbv zeta in H. destruct (negb (listed inventory (placeholderAside mapped))).
  { destruct H as [-> [= -> -> ->]]. split; [done|]. intros d (st & ? & ?)%Hd. exists mapped, st. split_and!; [set_solver|done|by left]. }
  apply runs_bindE in H as (u1 & st & u2 & -> & Hu%runs_call & H). destruct (isPlaceholder st _) eqn:Hp; cbn [negb] in H; [|by destruct H].
  cbn in H. destruct H as [-> [= -> -> ->]]. subst u1. split; [intros _; split; [done|]; exists st; split; [set_solver|by apply isPlaceholder_empty]|].
  intros d [(st' & ? & ?)%Hd|Ht%tokens_elem]%SortStrings_elem%elem_of_app; [exists mapped, st'; split_and!; [set_solver|done|by left]|].
  exists (placeholderAside mapped), st. split_and!; [set_solver|done|right]. split; [done|apply placeholderAside_ne].
Qed.

Lemma reseedBinding_Ok request canonical mapped dataset stored identity b : reseedBinding request canonical mapped dataset stored identity = Ok b →
  tb_PoolGUID b = di_PoolGUID identity ∧
  match stored with
  | Some b' => b = b' ∧ di_Pool identity = tb_Pool b ∧ (dataset = tb_Anchor b → di_Name identity = tb_Anchor b ∧ di_GUID identity = tb_AnchorGUID b)
  | None => anchoredOn b identity ∧ tb_MappedDataset b = mapped
  end.
Proof.
  unfold reseedBinding. destruct stored as [b'|].
  - destruct (String.eqb_spec dataset (tb_Anchor b')) as [E|E]; cbn [negb andb].
    + unfold sameBoundIdentity. destruct (String.eqb_spec (di_Name identity) (tb_Anchor b')); [|done]. destruct (Z.eqb_spec (di_GUID identity) (tb_AnchorGUID b')); [|done].
      destruct (String.eqb_spec (di_Pool identity) (tb_Pool b')); [|done]. destruct (Z.eqb_spec (di_PoolGUID identity) (tb_PoolGUID b')); [|done].
      cbn. intros [= <-]. done.
    + destruct (String.eqb_spec (di_Pool identity) (tb_Pool b')); [|done]. destruct (Z.eqb_spec (di_PoolGUID identity) (tb_PoolGUID b')); [|done]. cbn. intros [= <-]. done.
  - intros (Hon & ? & _)%bindingForTarget_on. split; [by destruct Hon as (_ & _ & ? & _)|done].
Qed.

Lemma listed_names inventory name : listed inventory name = true ↔ name ∈ ds_Name <$> inventory.
Proof.
  unfold listed. rewrite existsb_exists, list_elem_of_fmap. setoid_rewrite <- list_elem_of_In. setoid_rewrite String.eqb_eq. naive_solver.
Qed.

(** The dataset a plan reads the identity of. *)
Lemma identityDataset_decides target stored inventory dataset b :
  dataset = match stored with
            | Some b => if listed inventory (tb_Anchor b) then tb_Anchor b else nearestExisting (tb_MappedDataset target) inventory
            | None => nearestExisting (tb_MappedDataset target) inventory
            end → dataset ≠ "" → (∀ b', stored = Some b' → b = b') →
  dataset ∈ ds_Name <$> inventory ∧
  (bool_decide (is_Some stored) = true ∧ tb_Anchor b ∈ ds_Name <$> inventory → dataset = tb_Anchor b) ∧
  (¬ (bool_decide (is_Some stored) = true ∧ tb_Anchor b ∈ ds_Name <$> inventory) → inside (tb_MappedDataset target) dataset = true ∧
     ∀ n, n ∈ ds_Name <$> inventory → inside (tb_MappedDataset target) n = true → (String.length n ≤ String.length dataset)%nat).
Proof.
  intros -> Hne Hb. destruct (nearestExisting_spec (tb_MappedDataset target) inventory) as [Hn Hmax].
  rewrite bool_decide_eq_true, <- (listed_names inventory (tb_Anchor b)). destruct stored as [b'|]; [specialize (Hb b' eq_refl) as ->|].
  - destruct (listed inventory (tb_Anchor b')) eqn:E.
    + split_and!; [by apply listed_names|done|intros []; by eauto].
    + destruct Hn as [|[? ?]]; [done|]. split_and!; [done|by intros [_ ?]|done].
  - destruct Hn as [|[? ?]]; [done|]. split_and!; [done|by intros [[] _]|done].
Qed.

Lemma reseedPlan_sound s request tr p : runs (reseedPlan s request) tr (Ok p) → reseedSound s request tr p.
Proof.
  unfold reseedPlan. intros H. apply runs_bindR in H as ([] & _ & H). destruct (_ =? "")%string; [by destruct H|].
  apply runs_bindE in H as (t1 & source & t2 & -> & Hs%runs_call & H). apply runs_bindR in H as (lineage & Hl & H). apply runs_bindR in H as (target & Ht & H).
  apply runs_bindR in H as (stored & Hst & H). apply runs_bindR in H as ([] & _ & H). apply runs_bindE in H as (t3 & inventory & t4 & -> & Hinv%runs_call & H).
  cbv zeta in H. set (dataset := match stored with Some b => _ | None => _ end) in H. destruct (String.eqb_spec dataset "") as [|Hne]; [by destruct H|]. destruct (_ =? "")%string; [by destruct H|].
  apply runs_bindE in H as (t5 & identity & t6 & -> & Hi%runs_call & H). apply runs_bindE in H as (t7 & [] & t8 & -> & _ & H). apply runs_bindR in H as (b & Hb & H).
  apply runs_bindE in H as (t9 & [[objects receives] aside] & t10 & -> & Hd & H). apply runs_bindR in H as (refs & Hr & H). apply runs_bindR in H as (suspended & _ & H).
  destruct H as [-> [= ->]]. subst t1 t3 t5. apply reseedDestination_runs in Hd as [Ha Hrec].
  assert (Hm : ∃ rest, mapped request (rq_Source request) = Ok (tb_MappedDataset target, rest)).
  { unfold bindingTarget in Ht. apply bind_Ok in Ht as ([r rest] & Hm & [= <-]). by exists rest. }
  apply reseedBinding_Ok in Hb as [Hpool Hb].
  assert (tb_MappedDataset b = tb_MappedDataset target) as Em.
  { destruct stored as [b'|]; [|by destruct Hb]. destruct Hb as [-> _]. apply storedTargetBinding_some in Hst as [_ Hst]. by apply anchored_fields in Hst as (_ & ? & _). }
  split; cbn [rd_Dataset rd_Target rd_Binding rd_BindingStored rd_DestinationExists rd_SetAside rd_ResumeDatasets rd_References].
  - exists source, lineage, refs. split_and!; [set_solver|by apply RootAuthority_Ok|done| |].
    + intros r. rewrite list_elem_of_filter. tauto.
    + destruct stored as [b'|]; [|by rewrite bool_decide_false by by intros [? ?]]. intros _. destruct Hb as [-> _]. by exists target.
  - split; [done|]. by rewrite Em.
  - exists inventory, dataset, identity. split_and!; [set_solver|set_solver| |done| | |by rewrite Em, listed_names].
    + unfold decides. cbn [rd_Binding rd_BindingStored]. rewrite Em. apply (identityDataset_decides target stored inventory dataset b); [done|done|]. intros b' ->. by destruct Hb.
    + intros Hbs. destruct stored as [b'|]; [|by rewrite bool_decide_false in Hbs by by intros [? ?]]. by destruct Hb as (-> & ? & _).
    + intros Hor. destruct stored as [b'|]; [|by destruct Hb]. destruct Hb as (-> & _ & Hb).
      destruct Hor as [Ed|Hbs]; [|by rewrite bool_decide_true in Hbs by by eexists]. destruct (Hb Ed) as [? ?].
      apply storedTargetBinding_some in Hst as [_ Hst]. apply anchored_fields in Hst as (_ & _ & _ & _ & _ & _ & _ & Hin).
      unfold anchoredOn. split_and!; try done. congruence.
  - intros Hside. destruct (Ha Hside) as (-> & st & ? & ?). split; [done|]. exists st. split; [set_solver|done].
  - intros d (x & st & ? & ? & ?)%Hrec. exists x, st. split_and!; [set_solver|done|done].
Qed.

Lemma reseedPlan_readonly s request : readonly (reseedPlan s request).
Proof.
  unfold reseedPlan. apply readonly_bindR. intros _. destruct (_ =? "")%string; [done|]. apply readonly_bindE; [done|]. intros source.
  do 3 (apply readonly_bindR; intros ?). apply readonly_bindR. intros _. apply readonly_bindE; [done|]. intros inventory. cbv zeta.
  destruct (_ =? "")%string; [done|]. destruct (_ =? "")%string; [done|]. apply readonly_bindE; [done|]. intros identity.
  apply readonly_bindE; [apply checkHostLocal_readonly|]. intros _. apply readonly_bindR. intros b. apply readonly_bindE.
  - unfold reseedDestination. apply readonly_bindE; [match goal with |- readonly (if ?c then _ else _) => destruct c; [by apply readonly_bindE|done] end|].
    intros [o r]. destruct (negb _); [done|]. apply readonly_bindE; [done|]. intros st. by destruct (negb _).
  - intros [[objects receives] aside]. do 2 (apply readonly_bindR; intros ?). done.
Qed.

Lemma callWrapped_readonly prefix o : mutates o = false → readonly (callWrapped prefix o).
Proof. intros H. by apply readonly_bind. Qed.
Lemma reseedPreflight_readonly request plan : readonly (reseedPreflight request plan).
Proof.
  unfold reseedPreflight. apply readonly_bindE; [by apply callWrapped_readonly|]. intros _.
  apply readonly_bindE; [destruct (rd_DestinationExists plan); [by apply callWrapped_readonly|done]|]. intros _.
  apply readonly_bindE; [destruct (negb _); [by apply callWrapped_readonly|done]|]. intros _. by apply callWrapped_readonly.
Qed.

(** * A reseed does what its plan says *)

Lemma elem_rev {A} (x : A) l : x ∈ rev l ↔ x ∈ l.
Proof. rewrite !list_elem_of_In. symmetry. apply in_rev. Qed.

Section Reseed.
Context (s : ReseedService) (request : Request).
Abbreviation root := (rq_Source request).

(** Two plans in a row, the second just before the first change, came out the same. *)
Definition confirmed (p : ReseedPlan) (pre : list event) : Prop :=
  ∃ t0 read t1, pre = t0 ++ read ++ t1 ∧ mutations (t0 ++ read) = [] ∧ did (reseedPlan s request) (Ok p) t0 ∧ runs (reseedPlan s request) read (Ok p).

Definition aborted (p : ReseedPlan) (pre : list event) : Prop := ∀ d, d ∈ rd_ResumeDatasets p → Event (OnTarget (AbortReceive d)) (Ok tt) ∈ pre.
Definition destroyed (p : ReseedPlan) (pre : list event) : Prop :=
  (rd_DestinationExists p = true → Event (OnTarget (DestroyDataset (tb_MappedDataset (rd_Binding p)) true)) (Ok tt) ∈ pre) ∧
  (rd_SetAside p ≠ "" → Event (OnTarget (DestroyDataset (rd_SetAside p) true)) (Ok tt) ∈ pre).

Definition reseedTarget (pre : list event) {R} (o : op R) : Prop :=
  match o with
  | AbortReceive d => ∃ p, confirmed p pre ∧ d ∈ rd_ResumeDatasets p
  | DestroyDataset d recursive => ∃ p, confirmed p pre ∧ aborted p pre ∧
      (d = tb_MappedDataset (rd_Binding p) ∧ rd_DestinationExists p = true ∨ d = rd_SetAside p ∧ d ≠ "")
  | _ => mutates o = false
  end.
Definition reseedSource (pre : list event) {R} (o : op R) : Prop :=
  mutates o = true → ∃ p, confirmed p pre ∧ aborted p pre ∧ destroyed p pre ∧
    ((∃ service r, NewService (rd_installation s) (rd_reference s) (rd_clean s) = Ok service ∧ r ∈ rd_References p ∧ releaseGuard service root r pre R o) ∨
     match o with
     | InheritProperty d name => d = root ∧
         (∀ r, r ∈ rd_References p → ∃ service, did (ReleaseReference service root r) (Ok tt) pre) ∧
         (name = targetSuspendedProperty (rd_Target p) ∧ rd_Suspended p = true ∨ name = targetBindingProperty (rd_Target p) ∧ rd_BindingStored p = true)
     | _ => False
     end).
Definition reseedGuard (pre : list event) (R : Type) (o : op R) : Prop := match o with OnTarget o => reseedTarget pre o | _ => reseedSource pre o end.

Lemma reseedGuard_reads pre R (o : op R) : mutates o = false → reseedGuard pre R o.
Proof. intros H. destruct o as [| | | | | | | | | | | | | | | | | | | | | | | | | |R o]; try (intros H'; cbn in H, H'; congruence). cbn in *. by destruct o. Qed.

Lemma confirmed_prefix p tr tr' : tr `prefix_of` tr' → confirmed p tr → confirmed p tr'.
Proof. intros [t ->] (t0 & read & t1 & -> & H). exists t0, read, (t1 ++ t). by rewrite <- !app_assoc. Qed.
Lemma aborted_prefix p tr tr' : tr `prefix_of` tr' → aborted p tr → aborted p tr'.
Proof. intros [t ->] H d Hd. specialize (H d Hd). set_solver. Qed.
Lemma destroyed_prefix p tr tr' : tr `prefix_of` tr' → destroyed p tr → destroyed p tr'.
Proof. intros [t ->] [H1 H2]. split; intros H; [specialize (H1 H)|specialize (H2 H)]; set_solver. Qed.

Lemma reseedDestroy_guarded p pre : confirmed p pre →
  always reseedGuard pre (reseedDestroy p) (λ tr r, match r with Ok _ => pre `prefix_of` tr ∧ aborted p tr ∧ destroyed p tr | Err _ => True end).
Proof.
  intros Hc. unfold reseedDestroy. apply always_bindE.
  apply (always_forE _ _ (λ dn tr _, pre `prefix_of` tr ∧ ∀ d, d ∈ dn → Event (OnTarget (AbortReceive d)) (Ok tt) ∈ tr)); [|intros tr1 [] [H1 Ha]|split; [reflexivity|set_solver]].
  { intros d dn rest tr [] E [Ht Hd]. apply callWrapped_always; [|intros [[]|e]; cbn; [|done]].
    - exists p. split; [by eapply confirmed_prefix|]. apply elem_rev. rewrite E. set_solver.
    - split; [by apply prefix_app_r|]. intros x [Hx| ->%list_elem_of_singleton]%elem_of_app; [specialize (Hd x Hx)|]; set_solver. }
  assert (aborted p tr1) as Hab by (intros d Hd; by apply Ha, elem_rev).
  apply always_bindE. eapply (always_mono _ _ _ (λ tr r, match r with
    | Ok _ => tr1 `prefix_of` tr ∧ (rd_DestinationExists p = true → Event (OnTarget (DestroyDataset (tb_MappedDataset (rd_Binding p)) true)) (Ok tt) ∈ tr) | Err _ => True end)).
  2: { destruct (rd_DestinationExists p) eqn:Ed; [|cbn; split; [reflexivity|done]]. apply callWrapped_always; [|intros [[]|e]; cbn; [split; [by apply prefix_app_r|set_solver]|done]].
       exists p. split_and!; [by eapply confirmed_prefix|done|by left]. }
  intros tr2 [[]|e]; [|done]. intros [H2 Hd]. destruct (String.eqb_spec (rd_SetAside p) "") as [E|E]; cbn [negb].
  - split_and!; [by etrans|by eapply aborted_prefix|split; [done|by rewrite E]].
  - apply callWrapped_always; [|intros [[]|e]; cbn; [|done]].
    + exists p. split_and!; [eapply confirmed_prefix; [|done]; by etrans|by eapply aborted_prefix|by right].
    + assert (tr1 `prefix_of` tr2 ++ [Event (OnTarget (DestroyDataset (rd_SetAside p) true)) (Ok tt)]) as H3 by by apply prefix_app_r.
      split_and!; [by etrans|by eapply aborted_prefix|]. split; [intros Hx; specialize (Hd Hx); set_solver|set_solver].
Qed.

Lemma releaseProof_guarded service p r pre : NewService (rd_installation s) (rd_reference s) (rd_clean s) = Ok service → r ∈ rd_References p →
  confirmed p pre → aborted p pre → destroyed p pre →
  always reseedGuard pre (releaseProof service request tt r) (λ tr res, match res with
    | Ok _ => pre `prefix_of` tr ∧ did (ReleaseReference service root r) (Ok tt) tr | Err _ => True end).
Proof.
  intros Hs Hr Hc Ha Hd. unfold releaseProof. apply always_bind.
  eapply always_mono; [|apply always_seg; eapply always_weaken; [|apply always_extends, ReleaseReference_always]].
  - intros tr [[]|e] [_ (seg & -> & Hrun)]; cbn; [|done]. split; [by apply prefix_app_r|by apply did_seg].
  - intros pre' R o [Hg Hp]. destruct (mutates o) eqn:Hm; [|by apply reseedGuard_reads].
    assert (reseedSource pre' o) as Hsrc.
    { intros _. exists p. split_and!; [by eapply confirmed_prefix|by eapply aborted_prefix|by eapply destroyed_prefix|]. left. by exists service, r. }
    destruct o; try exact Hsrc. by destruct (Hg Hm) as (? & ? & ? & _ & _ & _ & []).
Qed.

Lemma reseedForget_guarded p pre : confirmed p pre → aborted p pre → destroyed p pre → always reseedGuard pre (reseedForget s request p) (λ _ _, True).
Proof.
  intros Hc Ha Hd. unfold reseedForget. apply always_bindR. destruct (NewService _ _ _) as [service|] eqn:Hs; [|done]. apply always_bindE.
  apply (always_forE _ _ (λ dn tr _, pre `prefix_of` tr ∧ ∀ r, r ∈ dn → did (ReleaseReference service root r) (Ok tt) tr)); [|intros tr1 [] [H1 Hr]|split; [reflexivity|set_solver]].
  { intros r dn rest tr [] E [Ht Hdn]. eapply always_mono; [|apply (releaseProof_guarded service p r tr Hs)].
    - intros tr' [[]|e]; [|done]. intros [Hp Hrun]. split; [by etrans|]. intros x [Hx| ->%list_elem_of_singleton]%elem_of_app; [|done]. eapply did_prefix; [exact Hp|by apply Hdn].
    - rewrite <- (merge_sort_Permutation referenceLe (rd_References p)), E. set_solver.
    - by eapply confirmed_prefix.
    - by eapply aborted_prefix.
    - by eapply destroyed_prefix. }
  assert (∀ tr, tr1 `prefix_of` tr → ∀ name, name = targetSuspendedProperty (rd_Target p) ∧ rd_Suspended p = true ∨ name = targetBindingProperty (rd_Target p) ∧ rd_BindingStored p = true →
    reseedGuard tr _ (InheritProperty root name)) as Hg.
  { intros tr Ht name Hname _. assert (pre `prefix_of` tr) as Hp by by etrans. exists p.
    split_and!; [by eapply confirmed_prefix|by eapply aborted_prefix|by eapply destroyed_prefix|]. right. split_and!; [done| |done].
    intros r Hin. exists service. eapply did_prefix; [exact Ht|]. apply Hr. by rewrite merge_sort_Permutation. }
  apply always_bindE. eapply (always_mono _ _ _ (λ tr _, tr1 `prefix_of` tr)).
  2: { destruct (rd_Suspended p) eqn:Es; [|cbn; reflexivity]. unfold SetTargetSuspended. destruct (_ || _); [cbn; reflexivity|].
       apply always_call; [apply Hg; [reflexivity|by left]|intros r; by apply prefix_app_r]. }
  intros tr2 [[]|e] H2; [|done]. destruct (rd_BindingStored p) eqn:Eb; [|done]. apply callWrapped_always; [apply Hg; [done|by right]|done].
Qed.

Lemma mutations_app_nil a b : mutations a = [] → mutations b = [] → mutations (a ++ b) = [].
Proof. intros Ha Hb. by rewrite mutations_app, Ha, Hb. Qed.

Lemma ReseedApply_always : always reseedGuard [] (ReseedApply s request) (λ tr res, match res with
  | Ok p => ∃ plan, confirmed plan tr ∧ aborted plan tr ∧ destroyed plan tr ∧ rd_Applied p = true | Err _ => True end).
Proof.
  assert (∀ {A} (p : prog A) pre, readonly p → always reseedGuard pre p (λ tr a, ∃ seg, tr = pre ++ seg ∧ runs p seg a ∧ mutations seg = [])) as Hreads.
  { intros A p pre Hp. eapply always_mono; [|by apply always_readonly; [apply reseedGuard_reads|]]. intros tr a (seg & -> & Hr). exists seg. split_and!; [done..|].
    by eapply readonly_mutations. }
  unfold ReseedApply. apply always_bindE. eapply always_mono; [|apply Hreads, reseedPlan_readonly]. intros tr1 [plan|e] (u1 & -> & Hr1 & Hm1); [|done].
  apply always_bindE. eapply always_mono; [|apply Hreads, reseedPreflight_readonly]. intros tr2 [[]|e] (u2 & -> & _ & Hm2); [|done].
  apply always_bindE. eapply always_mono; [|apply Hreads, reseedPlan_readonly]. intros tr3 [fresh|e] (u3 & -> & Hr3 & Hm3); [|done].
  case_bool_decide as E; cbn [negb]; [|done]. subst fresh.
  assert (confirmed plan ((([] ++ u1) ++ u2) ++ u3)) as Hc.
  { exists (u1 ++ u2), u3, []. rewrite app_nil_r. split_and!; [done|by repeat apply mutations_app_nil| |done]. exists [], u1, u2. done. }
  apply always_bindE. eapply always_mono; [|by apply reseedDestroy_guarded]. intros tr4 [[]|e]; [|done]. intros (Hp & Ha & Hd).
  apply always_bindE. eapply always_mono; [|apply always_seg, reseedForget_guarded; [by eapply confirmed_prefix|done|done]].
  intros tr5 [[]|e] [_ (seg & -> & _)]; [|done]. exists plan. assert (tr4 `prefix_of` tr4 ++ seg) as Hq by by apply prefix_app_r.
  split_and!; [eapply confirmed_prefix; [|exact Hc]; by etrans|by eapply aborted_prefix|by eapply destroyed_prefix|done].
Qed.
End Reseed.


(** What an abort does. *)
Definition abortGuard (s : ReseedService) (request : Request) (pre : list event) (R : Type) (o : op R) : Prop :=
  mutates o = true → match o with
  | OnTarget o => match o with
      | AbortReceive d => ∃ p p' t0 read t1, pre = t0 ++ read ++ t1 ∧ did (reseedPlan s request) (Ok p') t0 ∧ runs (reseedPlan s request) read (Ok p) ∧
          abortPlan p = abortPlan p' ∧ d ∈ rd_ResumeDatasets p ∧ reseedSound s request read p
      | _ => False
      end
  | _ => False
  end.

Lemma ApplyAbort_always s request : always (abortGuard s request) [] (ApplyAbort s request) (λ tr res, match res with
  | Ok p => ab_Applied p = true ∧ ∀ d, d ∈ ab_Receives p → Event (OnTarget (AbortReceive d)) (Ok tt) ∈ tr | Err _ => True end).
Proof.
  assert (∀ pre R (o : op R), mutates o = false → abortGuard s request pre R o) as Hro by (intros pre R o Ho Hm; congruence).
  unfold ApplyAbort. apply always_bindE. eapply always_mono; [|by apply always_readonly, reseedPlan_readonly]. intros tr1 [reseed|e] (u1 & -> & Hr1); [|done].
  cbv zeta. apply always_bindE.
  assert (readonly (forE abortPreflight tt (ab_Receives (abortPlan reseed)))) as Hpre by (apply readonly_forE; intros [] d; by apply callWrapped_readonly).
  eapply always_mono; [|by apply always_readonly]. intros tr2 [[]|e] (u2 & -> & _); [|done]. apply always_bindE.
  eapply always_mono; [|by apply always_readonly, reseedPlan_readonly]. intros tr3 [fresh|e] (u3 & -> & Hr3); [|done].
  case_bool_decide as E; cbn [negb]; [|done]. apply always_bindE. rewrite app_nil_l. set (tr3 := (u1 ++ u2) ++ u3).
  apply (always_forE _ _ (λ dn tr _, tr3 `prefix_of` tr ∧ ∀ d, d ∈ dn → Event (OnTarget (AbortReceive d)) (Ok tt) ∈ tr)); [|intros tr4 [] [_ Ha]|split; [reflexivity|set_solver]].
  - intros d dn rest tr [] El [Ht Hd]. apply callWrapped_always; [|intros [[]|e]; cbn; [|done]].
    + intros _. destruct Ht as [t ->]. exists fresh, reseed, (u1 ++ u2), u3, t. split_and!; [by unfold tr3; rewrite <- !app_assoc|by exists [], u1, u2|done|done| |by apply reseedPlan_sound].
      assert (rd_ResumeDatasets fresh = ab_Receives (abortPlan reseed)) as -> by (rewrite E; done). apply elem_rev. rewrite El. set_solver.
    + split; [by apply prefix_app_r|]. intros x [Hx| ->%list_elem_of_singleton]%elem_of_app; [specialize (Hd x Hx)|]; set_solver.
  - cbn. split; [done|]. intros d Hd. apply Ha. by apply elem_rev.
Qed.

(** C30: Aborting discards only interrupted receives. The only change an abort makes
    is at the destination, to the receives two plans in a row listed, each of which
    was read to hold a receive token at or below the mapped dataset or the
    placeholder set aside for it; and when it reports success every one of them is
    gone. *)
Theorem Abort_only s request tr res : runs (ApplyAbort s request) tr res →
  (∀ t1 e t2, tr = t1 ++ e :: t2 → justified (abortGuard s request) t1 e) ∧
  (∀ p, res = Ok p → ∀ d, d ∈ ab_Receives p → Event (OnTarget (AbortReceive d)) (Ok tt) ∈ tr).
Proof.
  intros Hr. destruct (always_runs _ _ _ tr [] _ Hr (ApplyAbort_always s request)) as [HQ Hj]. split; [exact Hj|]. intros p ->. by destruct HQ.
Qed.

(** * A replica to start over *)

Module SampleReseed.
Definition service : ReseedService := mkReseedService SamplePool.installation true true.
(** The source is bound; the destination has a receive to abandon. *)
Definition start : State * State := (SampleTransfer.source, SampleResume.destination).
Definition reseed : list event * result ReseedPlan := traceWith SampleEngine.answer (ReseedApply service SampleEngine.request) start.
Definition abort : list event * result AbortPlan := traceWith SampleEngine.answer (ApplyAbort service SampleEngine.request) start.
Lemma reseed_runs : runs (ReseedApply service SampleEngine.request) reseed.1 reseed.2.
Proof. unfold reseed. apply traceWith_runs. Qed.
Lemma abort_runs : runs (ApplyAbort service SampleEngine.request) abort.1 abort.2.
Proof. unfold abort. apply traceWith_runs. Qed.

Definition destroys (e : event) : bool := match e with Event (OnTarget (DestroyDataset _ _)) _ => true | _ => false end.
Lemma destroys_split tr : existsb destroys tr = true → ∃ t1 d recursive answer t2, tr = t1 ++ Event (OnTarget (DestroyDataset d recursive)) answer :: t2.
Proof.
  intros (t1 & [R o answer] & t2 & -> & He)%SampleEngine.existsb_split. destruct o; try discriminate He. destruct o; try discriminate He. by eexists _, _, _, _, _.
Qed.
Lemma reseed_destroys : existsb destroys reseed.1 = true.
Proof. vm_cast_no_check (eq_refl true). Qed.
Definition aborts (res : result AbortPlan) : bool :=
  match res with Ok p => bool_decide (ab_Receives p = ["backup/data"]) | Err _ => false end.
Lemma aborts_Ok res : aborts res = true → ∃ p, res = Ok p ∧ "backup/data" ∈ ab_Receives p.
Proof. destruct res as [p|]; cbn; [|done]. rewrite bool_decide_eq_true. intros E. exists p. rewrite E. split; [done|by left]. Qed.
Lemma abort_aborts : aborts abort.2 = true.
Proof. vm_cast_no_check (eq_refl true). Qed.
End SampleReseed.


Lemma Abort_only_witness : Event (OnTarget (AbortReceive "backup/data")) (Ok tt) ∈ SampleReseed.abort.1.
Proof.
  destruct (SampleReseed.aborts_Ok SampleReseed.abort.2 SampleReseed.abort_aborts) as (p & Hp & Hd).
  destruct (Abort_only SampleReseed.service SampleEngine.request SampleReseed.abort.1 SampleReseed.abort.2 SampleReseed.abort_runs) as [_ H].
  exact (H p Hp "backup/data" Hd).
Defined.
